(* ===== verification/_CoqProject ===== *)
-Q . S2P
Prelude.v
Net.v
Concurrency.v
Bytes.v
F64.v
AntiDdos.v
Doge.v
DogeMain.v
Siem.v
Bpf.v
IpText.v
XdpFirewall.v
XdpRouter.v
LsmHooks.v
DlpAnalyzer.v
DlpMain.v
DnsServer.v
HlWebsocket.v
DnsTelemetry.v
Fanotify.v
S3Server.v
EbpfProtect.v
RsNgrok.v
Tracers.v
Antidetect.v
DlpSniffer.v
FileSender.v
VppXdp.v
Foreign.v
