(* ===== verification/Prelude.v ===== *)
(** * Verification of the rust_samples repository

    The repository is a workspace of independent network, security and storage
    services in Rust.  Each is modelled by one file, as the code is written:
    one definition per function, handler or task step, executable, with the
    guards and early returns of the source.

    ** Conventions

    - [outcome] is a value or a panic; [Result] is [result]; a loop that need
      not end has fuel, and its lack is [None].
    - Integers are [Z].  Where an addition can overflow its width it is
      [add_u32], [add_u64], [add_usize] or [checked_arith], whose argument [chk]
      is the build's overflow checks (panic, or wrap).
    - Strings and buffers are lists of bytes with the standard library's
      functions on them (Bytes: slicing with its panics, UTF-8, lines, trim,
      split, find, numbers; F64: [f64] and its [Display]; IpText: the texts of
      IP addresses; Net: socket addresses).
    - Concurrent tasks are labelled steps on a shared state; one step is what a
      task does between two awaits that matter, or under one lock.  Runs,
      reachability and rule induction over the steps are shared (Concurrency:
      [exec], [reach], [through], [exec_invariant]).  Theorems quantify over
      all sequences of labels.
    - Code of other crates, of the kernel and of services is an argument: a
      class with laws and an executable instance when several files rely on
      it (Concurrency: tokio's semaphore, bounded channel and copy; Bpf: the eBPF
      hash map, the longest-prefix trie, and aya's answers while a program is
      loaded, with the [?] or unwrap behind each ([Aya.first_failure]); [Crypto], [Json], [IpNetCrate],
      [Chrono], [Postcard], [Rng], [CardPattern], [XskMap], [OpenSsl] in
      the files that use them), or a function or an
      outcome chosen by the environment (ClickHouse's answers, SQLite's
      success, the upstream resolver, system calls, regular expressions).
      Every law is a documented behaviour; every property with hypotheses has
      a witness, [<property>_witness], that applies it to concrete data.

    ** The files and what they show

    - Prelude: this file; outcomes, machine integers, tactics ([split_match],
      [b2p], [by_evaluation]), the hint database [rust], counting lemmas on
      maps and association lists.
    - AntiDdos, for src/anti_ddos/src/main.rs: the shield's connections as a
      transition system.  The semaphore and the per-address counters account
      exactly for the live handlers ([shield_accounting]); when all handlers
      end everything is given back ([shield_drains]); the request limiter is
      characterised ([rps_sliding_window]); the per-IP limit is in fact per
      port ([per_ip_limit_is_per_port]); what is proxied of an admitted
      request, and what select! cuts off ([proxied_bytes]).
    - Doge, for src/doge-rust/src/main.rs: the hex module, transactions and
      their signatures, mining (with fuel; the theorems say which fuel is
      enough), the chain, the message handler.  The chain stays linked and
      hashed over any inputs ([chain_integrity]); who can be forged, which
      senders make the verification panic ([verify_signature_panic_iff], for
      any bytes), and what stops mining.  DogeMain is the demonstration of its
      main, with the connections served in between, whose blocks can take its
      transaction away ([demo_spec]).
    - Siem, for src/siem_clickhouse_processor/src/main.rs: the batching
      manager, the writers with the WAL fallback, the end of main.  A writer is
      modelled twice: as one call ([write_batch]) and one operation at a time
      ([writer_step]), which agree when nobody interferes
      ([write_batch_fate]; fuel: two operations for each event and three);
      the spawned writers and the manager's last one interleave.
      Conservation and durability of events under any ClickHouse behaviour
      ([siem_conservation], [siem_durability]), the lines two dumps can share
      ([dumps_share_a_line]) and the loss at exit
      ([exit_drops_spawned_batches]).
    - XdpFirewall, for src/xdp_firewall: Module Kernel is the XDP program on
      the bytes of a frame, Module Loader the user-space loop that reads the
      list of networks.  The decision on every frame ([firewall_decision]); when
      the program starts and what any run of it enforces
      ([firewall_enforces]); the round trip
      from a file of addresses to dropped packets ([blocklist_of_addresses]).
    - XdpRouter, for src/xdp_router: Module Fast is the XDP program, Module
      Control the table from the interfaces and the neighbour messages.  The
      forwarding decision ([router_forwarding]) and the whole system from its
      start-up on ([router_end_to_end]).
    - LsmHooks, for src/lsm_hooks: the file_open hook, the rule file, the
      reload on events; when the program starts and what its rules enforce
      ([lsm_enforcement]).
    - DlpAnalyzer, for src/dlp/dlp_analyzer/src/main.rs: rules, scan, score,
      Luhn check.  The analysis against a declarative account of what occurs in
      a document ([analyze_spec], on ASCII documents, where lower-casing is
      known; fuel: the length of the document), its independence of hash-map
      order, the error detection of the Luhn check, and the keyword that never
      lets it return.  DlpMain runs the configured engine of main on its four
      documents and prints the report ([demonstration_output]).
    - DnsServer, for src/dns_server/src/main.rs: request handling, the two
      tables, the update endpoint, the cache clearing as steps on the shared
      database.  Updates are visible ([ddns_update_visible]), the life of a
      cached answer ([cached_answer_lifetime]), well-formedness of the rows over
      any lives of the service on one file ([database_invariant]).
    - HlWebsocket, for src/hl_websocket_server/src/main.rs: a cluster of nodes
      on one Redis channel, each of which can end.  When a session has an entry in the table
      and when it leaves one behind ([connections_invariant]) and who gets a broadcast
      ([broadcast_delivery]).
    - DnsTelemetry, for src/dns_telemetry/src/main.rs: capture, parsing and
      batching with two bounded channels; every packet and record is accounted
      for, the ones that full channels, a failing ClickHouse or the end of the
      process lose included ([telemetry_conservation]); the first error of the
      capture, a quiet tenth of a second included, leads to that end
      ([capture_error_ends_service]).
    - Fanotify, for src/dlp/dlp_fanotify_hooks/src/main.rs: the event loop on
      the kernel's buffer with the engine behind its bounded channel, each file
      examined in the kernel as it is when the turn of its event comes, since
      descriptors are closed and their numbers used again
      ([every_event_answered]; no fuel: an event is a step), and the decision on
      a file ([decision_prefix]).
    - S3Server, for src/s3_server/src/main.rs: the store under concurrent
      requests ([get_returns_last_put]), the lock held while a body arrives
      ([waiting_put_blocks_everyone]), and the worker threads that it can
      block, all of them: what waits is served if nothing further comes, and
      need not be if it does ([slow_upload_can_stop_the_node]).
    - EbpfProtect, for src/ebpf_protect/src/main.rs: one pass of the scan over
      the loaded eBPF programs while the kernel changes under it: what is
      checked, reported and unpinned ([enforcement_pass], fuel: the number of
      32-bit ids), and the repeated scans ([daemon_scans]).
    - RsNgrok, for src/rs_ngrok/src/main.rs: the server and the client of the
      tunnel as steps on the queues of the two ports.  Which connection is linked
      with which visitor ([tunnel_pairing]); when a visitor is served, by at
      most three steps unless something fails, and when only a stranger or a
      failing accept can end its waiting ([visitor_served_or_stalled]); what of the two
      streams arrives through the two copies ([tunnel_carries]).
    - Tracers, for src/proc-control (Module ProcControl) and src/syscall_tracer
      (Module SyscallTracer): from the tracepoint programs through the bytes of
      the events to the printed lines, with the start-up and, in the second, the
      tasks of the CPUs ([calls_reported], [syscall_lines]; the argument that is followed as a
      pointer: [pointers_followed]).
    - Antidetect, for src/antidetect_chrome/src/main.rs: the generated profiles
      ([profile_consistent]), the injected script, whose literals read back as
      every field of the profile, and the calls of the launcher around it
      ([script_says_profile]), its canvas noise ([noise_spec]), the answers to paused requests
      ([paused_requests_answered]).
    - DlpSniffer, for src/dlp/dlp_sniffer/src/main.rs: what the sniffer and the
      proxy, whose handlers run side by side, inspect and print together
      ([sniffer_reports]).
    - FileSender, for src/file_sender/src/main.rs: the two modes and the file
      that arrives ([transfer]).
    - VppXdp, for src/vpp-xdp: Module Kernel is the XDP program, Module Loader
      the effects of the loader ([redirect_after_pin]).
    - Foreign, for src/md5_hasher and src/tarantool, which mostly call foreign
      code: the sequence of their calls and what they do with the answers.

    ** What is not modelled

    Logging, most command lines, the build scripts, and what the calls of other
    crates do inside: loading a program, opening a socket or a device, decoding
    HTTP and checking its signatures, the resolver that forwards DNS queries
    (their outcomes are arguments).
    The layout of a key in memory: the two bytes of padding of the router's
    keys are not part of the model.  Of the antidetect launcher's script only
    the text and the noise are modelled, not the JavaScript around them, nor
    what the browser does with it. *)
From stdpp Require Export base gmap list strings fin_maps numbers.
From Stdlib Require Export ZArith Lia Ascii String Sorted Permutation.
(* stdpp's list names (length, take, ...) win over Stdlib.String's. *)
From stdpp Require Export list.

(** ** Outcomes of Rust computations

    A Rust expression either produces a value or panics (unwinds).  Errors
    that the code returns as [Result::Err] are values, in [result]. *)

Inductive outcome (A : Type) : Type :=
| Val (a : A)
| Panic.
Arguments Val {A} a.
Arguments Panic {A}.

Inductive result (A E : Type) : Type :=
| Ok (a : A)
| Err (e : E).
Arguments Ok {A E} a.
Arguments Err {A E} e.

#[export] Instance outcome_eq_dec A `{EqDecision A} : EqDecision (outcome A).
Proof. solve_decision. Defined.
#[export] Instance result_eq_dec A E `{EqDecision A, EqDecision E} :
  EqDecision (result A E).
Proof. solve_decision. Defined.

#[export] Instance outcome_ret : MRet outcome := fun _ => Val.
#[export] Instance outcome_bind : MBind outcome :=
  fun _ _ f m => match m with Val a => f a | Panic => Panic end.

#[export] Instance outcome_fmap : FMap outcome :=
  fun _ _ f m => match m with Val a => Val (f a) | Panic => Panic end.

Definition is_err {A E} (r : result A E) : bool :=
  match r with Ok _ => false | Err _ => true end.

(** ** Machine integers

    Unsigned w-bit integers are kept as [Z].  Rust's [+] on them panics on
    overflow when the crate is built with overflow checks (the default of the
    dev profile) and wraps otherwise (the default of the release profile); no
    Cargo.toml of the repository overrides either.  The build is therefore the
    boolean [chk] of the definitions that do such arithmetic. *)
Open Scope Z_scope.

Definition u8_max : Z := 255.
Definition u32_max : Z := 4294967295.
Definition u64_max : Z := 18446744073709551615.

Definition is_byte (b : Z) : Prop := 0 <= b <= u8_max.

Definition checked_arith (chk : bool) (mx v : Z) : outcome Z :=
  if (0 <=? v) && (v <=? mx) then Val v
  else if chk then Panic else Val (v mod (mx + 1)).

Definition add_u32 (chk : bool) (a b : Z) : outcome Z := checked_arith chk u32_max (a + b).
Definition add_u64 (chk : bool) (a b : Z) : outcome Z := checked_arith chk u64_max (a + b).
(** [usize] is 64 bits wide on the targets of the repository. *)
Definition add_usize (chk : bool) (a b : Z) : outcome Z := checked_arith chk u64_max (a + b).

Lemma checked_arith_fits chk mx v : 0 <= v <= mx -> checked_arith chk mx v = Val v.
Proof.
  intros H. unfold checked_arith.
  destruct (Z.leb_spec 0 v), (Z.leb_spec v mx); simpl; done || lia.
Qed.

Lemma checked_arith_overflow mx v : mx < v -> checked_arith true mx v = Panic.
Proof.
  intros H. unfold checked_arith.
  destruct (Z.leb_spec v mx); [lia|]. by rewrite andb_false_r.
Qed.

Lemma checked_arith_bound chk mx v r :
  0 <= mx -> checked_arith chk mx v = Val r -> 0 <= r <= mx.
Proof.
  unfold checked_arith. intros Hm.
  destruct (Z.leb_spec 0 v), (Z.leb_spec v mx), chk; simpl; intros [= <-]; try lia;
    pose proof (Z.mod_pos_bound v (mx + 1)); lia.
Qed.

(** ** Automation *)

Create HintDb rust discriminated.
#[export] Hint Resolve checked_arith_fits : rust.

(** Case analysis on every [match] of hypotheses and goal. *)
Ltac split_match :=
  repeat (case_match; simplify_eq/=).
(** Turn boolean comparisons into propositions. *)
Ltac b2p :=
  repeat match goal with
  | H : (_ && _)%bool = true |- _ => apply andb_prop in H; destruct H
  | H : (_ || _)%bool = false |- _ => apply orb_false_elim in H; destruct H
  | H : negb _ = true |- _ => apply negb_true_iff in H
  | H : negb _ = false |- _ => apply negb_false_iff in H
  | H : (_ <? _) = true |- _ => apply Z.ltb_lt in H
  | H : (_ <? _) = false |- _ => apply Z.ltb_ge in H
  | H : (_ <=? _) = true |- _ => apply Z.leb_le in H
  | H : (_ <=? _) = false |- _ => apply Z.leb_gt in H
  | H : (_ =? _) = true |- _ => apply Z.eqb_eq in H
  | H : (_ =? _) = false |- _ => apply Z.eqb_neq in H
  | H : bool_decide _ = true |- _ => apply bool_decide_eq_true in H
  | H : bool_decide _ = false |- _ => apply bool_decide_eq_false in H
  end.

(** A closed decidable fact, by evaluation. *)
Ltac by_evaluation := refine (bool_decide_unpack _ _); vm_compute; exact I.

(** ** Counting the entries of a map *)

Section count.
Context {K A : Type} `{Countable K}.
Implicit Types (m : gmap K A) (f : A -> bool).

(** Number of entries whose value satisfies [f]. *)
Definition mcount (f : A -> bool) (m : gmap K A) : nat :=
  size (filter (fun kv => f kv.2 = true) m).

Lemma mcount_empty f : mcount f ∅ = 0%nat.
Proof. unfold mcount. by rewrite map_filter_empty, map_size_empty. Qed.

Lemma mcount_insert_fresh f m i x :
  m !! i = None -> mcount f (<[i:=x]> m) = (mcount f m + Nat.b2n (f x))%nat.
Proof.
  intros Hi. unfold mcount. destruct (f x) eqn:Ef; simpl.
  - rewrite map_filter_insert_True by done. rewrite map_size_insert_None; [lia|].
    apply map_lookup_filter_None. by left.
  - rewrite map_filter_insert_False by (simpl; congruence).
    rewrite delete_id by done. lia.
Qed.

Lemma mcount_delete f m i y :
  m !! i = Some y -> mcount f m = (mcount f (delete i m) + Nat.b2n (f y))%nat.
Proof.
  intros Hi. rewrite <- (insert_delete_id m i y Hi) at 1.
  apply mcount_insert_fresh, lookup_delete_eq.
Qed.

Lemma mcount_update f m i x y :
  m !! i = Some y ->
  (mcount f (<[i:=x]> m) + Nat.b2n (f y) = mcount f m + Nat.b2n (f x))%nat.
Proof.
  intros Hi. rewrite (mcount_delete f m i y Hi).
  rewrite <- (insert_delete_eq m i x).
  rewrite (mcount_insert_fresh f) by apply lookup_delete_eq. lia.
Qed.

Lemma mcount_le f g m :
  (forall x, f x = true -> g x = true) -> (mcount f m <= mcount g m)%nat.
Proof.
  intros Hfg. unfold mcount. apply map_subseteq_size, map_filter_subseteq_ext.
  intros; simpl in *; auto.
Qed.

Lemma mcount_zero f m :
  (forall i x, m !! i = Some x -> f x = false) -> mcount f m = 0%nat.
Proof.
  intros Hf. unfold mcount. apply map_size_empty_iff, map_empty. intros i.
  apply map_lookup_filter_None. right. intros x Hx. simpl. by rewrite (Hf i x Hx).
Qed.
End count.

(** ** Association lists in the order of insertion *)

(** The last entry for a key. *)
Definition assoc_last {K V} `{EqDecision K} (k : K) (l : list (K * V)) : option V :=
  snd <$> last (filter (fun p => p.1 = k) l).

Lemma assoc_last_snoc {K V} `{EqDecision K} (k k' : K) (v : V) l :
  assoc_last k (l ++ [(k', v)]) = if decide (k' = k) then Some v else assoc_last k l.
Proof.
  unfold assoc_last. rewrite filter_app, filter_cons, filter_nil. cbn [fst].
  case_decide; [by rewrite last_snoc|by rewrite app_nil_r].
Qed.

Lemma assoc_last_none {K V} `{EqDecision K} (k : K) (l : list (K * V)) :
  (forall r, r ∈ l -> r.1 <> k) -> assoc_last k l = None.
Proof.
  intros Hl. induction l as [|[k' v] l IH] using rev_ind; [done|]. rewrite assoc_last_snoc, decide_False.
  - apply IH. intros r Hr. apply Hl. apply elem_of_app. by left.
  - apply (Hl (k', v)). apply elem_of_app. right. by left.
Qed.
