(* ===== verification/Net.v ===== *)
(** Socket addresses of [std::net], as the components use them: an IP address
    is its octets, a socket address is the enum of the standard library with
    all the fields its [Eq] and [Hash] use. *)
From S2P Require Import Prelude.

Inductive IpAddr : Type :=
| IpV4 (octets : list Z)
| IpV6 (octets : list Z).

Inductive SocketAddr : Type :=
| SockV4 (ip : list Z) (port : Z)
| SockV6 (ip : list Z) (port flowinfo scope_id : Z).

#[export] Instance IpAddr_eq_dec : EqDecision IpAddr.
Proof. solve_decision. Defined.
#[export] Instance SocketAddr_eq_dec : EqDecision SocketAddr.
Proof. solve_decision. Defined.

#[export] Instance IpAddr_countable : Countable IpAddr.
Proof.
  refine (inj_countable'
    (fun a => match a with IpV4 o => (true, o) | IpV6 o => (false, o) end)
    (fun p => if fst p : bool then IpV4 (snd p) else IpV6 (snd p)) _).
  by intros [].
Defined.

#[export] Instance SocketAddr_countable : Countable SocketAddr.
Proof.
  refine (inj_countable'
    (fun a => match a with
              | SockV4 o p => (o, p, None)
              | SockV6 o p f s => (o, p, Some (f, s))
              end)
    (fun x => match x with
              | (o, p, None) => SockV4 o p
              | (o, p, Some (f, s)) => SockV6 o p f s
              end) _).
  by intros [].
Defined.

(** [SocketAddr::ip]. *)
Definition socket_ip (a : SocketAddr) : IpAddr :=
  match a with
  | SockV4 o _ => IpV4 o
  | SockV6 o _ _ _ => IpV6 o
  end.
