(* ===== verification/Concurrency.v ===== *)
(** Interfaces of the synchronisation primitives of the [tokio] crate that the
    components use.  A component's theorems are proved against the class; the
    instance of each class is an executable model that discharges the laws and
    on which the witnesses evaluate.  Below them, the runs of a labelled
    transition system, which every component with concurrent tasks is. *)
From S2P Require Import Prelude.

(** ** [tokio::sync::Semaphore]

    [try_acquire] fails exactly when no permit is left; dropping the permit
    gives it back. *)
Class Semaphore (S : Type) := {
  sem_new : Z -> S;
  sem_available : S -> Z;
  sem_try_acquire : S -> option S;
  sem_release : S -> S;
  sem_new_available : forall n, 0 <= n -> sem_available (sem_new n) = n;
  sem_acquire_some : forall s s',
    sem_try_acquire s = Some s' ->
    0 < sem_available s /\ sem_available s' = sem_available s - 1;
  sem_acquire_none : forall s, sem_try_acquire s = None -> sem_available s <= 0;
  sem_release_available : forall s, sem_available (sem_release s) = sem_available s + 1;
}.

#[local] Obligation Tactic := idtac.

(** The counter of available permits. *)
#[export] Program Instance counter_semaphore : Semaphore Z := {|
  sem_new n := n;
  sem_available n := n;
  sem_try_acquire n := if 0 <? n then Some (n - 1) else None;
  sem_release n := n + 1;
|}.
Next Obligation. done. Qed.
Next Obligation. intros s s'; simpl. case_match; b2p; intros; simplify_eq. lia. Qed.
Next Obligation. intros s; simpl. case_match; b2p; intros; simplify_eq. lia. Qed.
Next Obligation. done. Qed.

(** ** [tokio::sync::mpsc::channel]

    A bounded FIFO: a send waits (here: is refused) while the queue is full, a
    receive takes the oldest message. *)
Class Mpsc (E C : Type) := {
  ch_new : nat -> C;
  ch_view : C -> list E;
  ch_cap : C -> nat;
  ch_send : C -> E -> option C;
  ch_recv : C -> option (E * C);
  ch_new_view : forall n, ch_view (ch_new n) = [] /\ ch_cap (ch_new n) = n;
  ch_send_some : forall c e c', ch_send c e = Some c' ->
    (length (ch_view c) < ch_cap c)%nat /\ ch_view c' = ch_view c ++ [e] /\ ch_cap c' = ch_cap c;
  ch_send_none : forall c e, ch_send c e = None -> (ch_cap c <= length (ch_view c))%nat;
  ch_recv_some : forall c e c', ch_recv c = Some (e, c') ->
    ch_view c = e :: ch_view c' /\ ch_cap c' = ch_cap c;
  ch_recv_none : forall c, ch_recv c = None -> ch_view c = [];
}.

(** The queue itself, with its capacity. *)
#[export] Program Instance list_mpsc (E : Type) : Mpsc E (nat * list E) := {|
  ch_new n := (n, []);
  ch_view c := snd c;
  ch_cap c := fst c;
  ch_send c e := if (length (snd c) <? fst c)%nat then Some (fst c, snd c ++ [e]) else None;
  ch_recv c := match snd c with [] => None | e :: q => Some (e, (fst c, q)) end;
|}.
Next Obligation. done. Qed.
Next Obligation.
  intros E c e c'. simpl. case_match eqn:H; intros; simplify_eq/=. by apply Nat.ltb_lt in H.
Qed.
Next Obligation. intros E c e. simpl. case_match eqn:H; intros; simplify_eq/=. by apply Nat.ltb_ge in H. Qed.
Next Obligation. intros E [n q] e c'. simpl. case_match; intros; by simplify_eq/=. Qed.
Next Obligation. intros E [n q]. simpl. by case_match. Qed.

(** ** [tokio::io::copy]

    A reader is the chunks that it gives, up to an error or its end; a copy
    has written some bytes when it returns a count or an error.  The
    documentation promises that it copies the whole reader when it returns the
    count, and never anything but a prefix of what was read; the same holds for
    a copy that is dropped, as in a [select!], after some of its polls. *)
Definition reader := list (result (list Z) unit).
Fixpoint readable (r : reader) : list Z :=
  match r with Ok chunk :: r => chunk ++ readable r | Err _ :: _ | [] => [] end.
Definition fails (r : reader) : bool := existsb is_err r.

Class Copy (W : Type) := {
  copy : reader -> W -> list Z * result Z unit;
  copy_dropped : reader -> W -> nat -> list Z;
  copy_ok : forall r w written n, copy r w = (written, Ok n) ->
    fails r = false /\ written = readable r /\ n = Z.of_nat (length written);
  copy_prefix : forall r w, (copy r w).1 `prefix_of` readable r;
  copy_dropped_prefix : forall r w k, copy_dropped r w k `prefix_of` readable r;
  copy_unpolled : forall r w, copy_dropped r w 0 = [];
}.

(** A copy that writes everything up to an error, a chunk at each poll; an
    argument breaks it off after some bytes. *)
Definition eager_copy (r : reader) (w : option nat) : list Z * result Z unit :=
  match w with
  | Some n => (take n (readable r), Err tt)
  | None => (readable r, if fails r then Err tt else Ok (Z.of_nat (length (readable r))))
  end.

Lemma readable_take r k : readable (take k r) `prefix_of` readable r.
Proof.
  revert k. induction r as [|[c|] r IH]; intros [|k]; simpl; try apply prefix_nil. by apply prefix_app.
Qed.

#[export] Program Instance eager_copy_instance : Copy (option nat) := {|
  copy := eager_copy;
  copy_dropped r w k := match w with Some n => take n (readable (take k r)) | None => readable (take k r) end;
|}.
Next Obligation. intros r [k|] written n; simpl; [done|]. by destruct (fails r); intros [= <- <-]. Qed.
Next Obligation. intros r [k|]; simpl; [apply prefix_take|done]. Qed.
Next Obligation.
  intros r [n|] k; simpl; [|apply readable_take]. transitivity (readable (take k r)); [apply prefix_take|apply readable_take].
Qed.
Next Obligation. intros r [n|]; simpl; [apply take_nil|done]. Qed.

(** ** Labelled transition systems

    A component with concurrent tasks is a partial step function on labels;
    [exec] is the run of a sequence of labels. *)
Section lts.
Context {L St : Type} (step : L -> St -> option St).

Fixpoint exec (ls : list L) (s : St) : option St :=
  match ls with
  | [] => Some s
  | l :: ls => match step l s with Some s' => exec ls s' | None => None end
  end.

(** [s] is the end of a run from [init]. *)
Definition reach (init s : St) : Prop := exists ls, exec ls init = Some s.

(** Every state of the run of [ls] from [s] satisfies [Q]. *)
Definition through (Q : St -> Prop) (ls : list L) (s : St) : Prop :=
  forall ls1 ls2 s', ls = ls1 ++ ls2 -> exec ls1 s = Some s' -> Q s'.

Lemma exec_from ls1 ls2 s s1 : exec ls1 s = Some s1 -> exec (ls1 ++ ls2) s = exec ls2 s1.
Proof.
  revert s. induction ls1 as [|l ls1 IH]; simpl; intros s H; [by simplify_eq|].
  destruct (step l s); [by apply IH|done].
Qed.

(** The last step of a run. *)
Lemma exec_snoc ls l s s' : exec (ls ++ [l]) s = Some s' -> exists s1, exec ls s = Some s1 /\ step l s1 = Some s'.
Proof.
  revert s. induction ls as [|l0 ls IH]; simpl; intros s H.
  - exists s. split; [done|]. by destruct (step l s).
  - destruct (step l0 s); [by apply IH|done].
Qed.

Lemma reach_init s : reach s s.
Proof. by exists []. Qed.

Lemma reach_exec init s s' ls : reach init s -> exec ls s = Some s' -> reach init s'.
Proof. intros [ls0 H0] H. exists (ls0 ++ ls). by rewrite (exec_from _ _ _ _ H0). Qed.

Lemma through_cons Q l ls s s' : step l s = Some s' -> through Q (l :: ls) s -> Q s /\ through Q ls s'.
Proof.
  intros Hs Ht. split; [by apply (Ht [] (l :: ls))|].
  intros ls1 ls2 s2 -> Hs2. apply (Ht (l :: ls1) ls2); [done|]. simpl. by rewrite Hs.
Qed.

Lemma through_here Q ls s : through Q ls s -> Q s.
Proof. intros Ht. by apply (Ht [] ls). Qed.

(** Rule induction: what every step between states satisfying [Q] preserves,
    for the labels in [G]. *)
Lemma exec_invariant_through (G : L -> Prop) (Q P : St -> Prop) :
  (forall l s s', P s -> G l -> Q s -> Q s' -> step l s = Some s' -> P s') ->
  forall ls s s', P s -> Forall G ls -> through Q ls s -> exec ls s = Some s' -> P s'.
Proof.
  intros Hstep ls. induction ls as [|l ls IH]; simpl; intros s s' Hp HG Hq Hr; [by simplify_eq|].
  apply Forall_cons in HG as [HG HGs]. destruct (step l s) as [s1|] eqn:E; [|done].
  destruct (through_cons _ _ _ _ _ E Hq) as [Hq0 Hq1].
  eapply IH; [|done..]. eapply Hstep; [done..| |done]. by eapply through_here.
Qed.

Lemma exec_invariant_for (G : L -> Prop) (P : St -> Prop) :
  (forall l s s', P s -> G l -> step l s = Some s' -> P s') ->
  forall ls s s', P s -> Forall G ls -> exec ls s = Some s' -> P s'.
Proof.
  intros Hstep ls s s' Hp HG. apply (exec_invariant_through G (fun _ => True)); eauto. by intros ?.
Qed.

Lemma exec_invariant (P : St -> Prop) :
  (forall l s s', P s -> step l s = Some s' -> P s') ->
  forall ls s s', P s -> exec ls s = Some s' -> P s'.
Proof.
  intros Hstep ls s s' Hp. apply (exec_invariant_for (fun _ => True)); [eauto|done|].
  by apply Forall_true.
Qed.

Lemma reach_invariant (P : St -> Prop) init s :
  (forall l s s', P s -> step l s = Some s' -> P s') -> P init -> reach init s -> P s.
Proof. intros Hstep Hi [ls Hr]. by eapply exec_invariant. Qed.
End lts.
