(* ===== verification/Bytes.v ===== *)
(** Rust's [str], [String] and [\[u8\]] as lists of bytes, and the functions of
    the standard library on them that the components call.  A [str] is a byte
    list that [from_utf8] accepts; offsets and lengths are in bytes. *)
From S2P Require Import Prelude.

Abbreviation bytes := (list Z).

(** The bytes of an ASCII literal. *)
Definition lit (s : string) : bytes :=
  map (fun a => Z.of_N (N_of_ascii a)) (list_ascii_of_string s).

Definition byte_in (lo hi b : Z) : bool := (lo <=? b) && (b <=? hi).
Definition is_digit (b : Z) : bool := byte_in 48 57 b.
Definition is_bytes (s : bytes) : Prop := Forall is_byte s.

(** [str::len], [starts_with], [ends_with]. *)
Definition len (s : bytes) : Z := Z.of_nat (length s).
Fixpoint starts_with (s p : bytes) {struct p} : bool :=
  match p, s with
  | [], _ => true
  | c :: p, d :: s => (c =? d) && starts_with s p
  | _ :: _, [] => false
  end.

Lemma starts_with_spec s p : starts_with s p = true <-> exists t, s = p ++ t.
Proof.
  revert s. induction p as [|c p IH]; intros s; simpl; [split; [intros _; by exists s|done]|].
  destruct s as [|d s]; [split; [intros; discriminate|intros [t Ht]; discriminate]|].
  rewrite andb_true_iff, Z.eqb_eq, IH. split.
  - intros [-> [t ->]]. by exists t.
  - intros [t [= -> ->]]. eauto.
Qed.

(** [str::find]: the offset of the first occurrence. *)
Fixpoint find (s p : bytes) : option nat :=
  if starts_with s p then Some 0%nat
  else match s with
       | [] => None
       | _ :: s => S <$> find s p
       end.

Lemma find_some s p i : find s p = Some i -> exists a b, s = a ++ p ++ b /\ length a = i.
Proof.
  revert i. induction s as [|c s IH]; simpl; intros i.
  - destruct (starts_with [] p) eqn:E; [|done]. intros [= <-].
    apply starts_with_spec in E as [t ->]. by exists [], t.
  - destruct (starts_with (c :: s) p) eqn:E.
    + intros [= <-]. apply starts_with_spec in E as [t ->]. by exists [], t.
    + destruct (find s p) as [j|]; [|done]. intros [= <-].
      destruct (IH j eq_refl) as (a & b & -> & Hl). exists (c :: a), b. simpl. by rewrite Hl.
Qed.

(** ** Character boundaries and slices *)

(** UTF-8 continuation byte. *)
Definition is_cont (b : Z) : bool := byte_in 128 191 b.

(** [str::is_char_boundary]. *)
Definition is_boundary (s : bytes) (i : nat) : bool :=
  match i with
  | O => true
  | _ => match s !! i with
         | Some b => negb (is_cont b)
         | None => (i =? length s)%nat
         end
  end.

(** [&s\[a..b\]]: panics out of range or inside a character. *)
Definition slice (s : bytes) (a b : nat) : outcome bytes :=
  if ((a <=? b) && (b <=? length s))%nat && is_boundary s a && is_boundary s b
  then Val (take (b - a) (drop a s))
  else Panic.

(** ** UTF-8 *)

Definition second_of_3 (b0 b1 : Z) : bool :=
  if b0 =? 224 then byte_in 160 191 b1
  else if b0 =? 237 then byte_in 128 159 b1 else is_cont b1.
Definition second_of_4 (b0 b1 : Z) : bool :=
  if b0 =? 240 then byte_in 144 191 b1
  else if b0 =? 244 then byte_in 128 143 b1 else is_cont b1.

(** One scalar value and its width, or the length of the ill-formed prefix. *)
Definition decode1 (s : bytes) : option (result (Z * nat) nat) :=
  match s with
  | [] => None
  | b0 :: t => Some (
      if byte_in 0 127 b0 then Ok (b0, 1%nat)
      else if byte_in 194 223 b0 then
        match t with
        | b1 :: _ => if is_cont b1 then Ok ((b0 - 192) * 64 + (b1 - 128), 2%nat) else Err 1%nat
        | [] => Err 1%nat
        end
      else if byte_in 224 239 b0 then
        match t with
        | b1 :: t' =>
            if second_of_3 b0 b1 then
              match t' with
              | b2 :: _ =>
                  if is_cont b2
                  then Ok ((b0 - 224) * 4096 + (b1 - 128) * 64 + (b2 - 128), 3%nat)
                  else Err 2%nat
              | [] => Err 2%nat
              end
            else Err 1%nat
        | [] => Err 1%nat
        end
      else if byte_in 240 244 b0 then
        match t with
        | b1 :: t' =>
            if second_of_4 b0 b1 then
              match t' with
              | b2 :: t'' =>
                  if is_cont b2 then
                    match t'' with
                    | b3 :: _ =>
                        if is_cont b3
                        then Ok ((b0 - 240) * 262144 + (b1 - 128) * 4096
                                 + (b2 - 128) * 64 + (b3 - 128), 4%nat)
                        else Err 3%nat
                    | [] => Err 3%nat
                    end
                  else Err 2%nat
              | [] => Err 2%nat
              end
            else Err 1%nat
        | [] => Err 1%nat
        end
      else Err 1%nat)
  end.

(** [core::str::from_utf8], as the scalar values of the string. *)
Fixpoint from_utf8_fuel (fuel : nat) (s : bytes) : option (list Z) :=
  match fuel with
  | O => match s with [] => Some [] | _ => None end
  | S fuel =>
      match decode1 s with
      | None => Some []
      | Some (Ok (c, w)) => cons c <$> from_utf8_fuel fuel (drop w s)
      | Some (Err _) => None
      end
  end.
Definition from_utf8 (s : bytes) : option (list Z) := from_utf8_fuel (length s) s.
Definition is_str (s : bytes) : bool := match from_utf8 s with Some _ => true | None => false end.

(** [String::from_utf8_lossy]: each maximal ill-formed prefix becomes U+FFFD. *)
Definition replacement : bytes := [239; 191; 189].
Fixpoint from_utf8_lossy_fuel (fuel : nat) (s : bytes) : bytes :=
  match fuel with
  | O => []
  | S fuel =>
      match decode1 s with
      | None => []
      | Some (Ok (_, w)) => take w s ++ from_utf8_lossy_fuel fuel (drop w s)
      | Some (Err w) => replacement ++ from_utf8_lossy_fuel fuel (drop w s)
      end
  end.
Definition from_utf8_lossy (s : bytes) : bytes := from_utf8_lossy_fuel (length s) s.

(** [char::encode_utf8]. *)
Definition utf8_encode1 (c : Z) : bytes :=
  if c <? 128 then [c]
  else if c <? 2048 then [192 + c / 64; 128 + c mod 64]
  else if c <? 65536 then [224 + c / 4096; 128 + (c / 64) mod 64; 128 + c mod 64]
  else [240 + c / 262144; 128 + (c / 4096) mod 64; 128 + (c / 64) mod 64; 128 + c mod 64].
Definition utf8_encode (cs : list Z) : bytes := concat (map utf8_encode1 cs).

(** [str::chars], on a well-formed string. *)
Definition chars (s : bytes) : list Z := default [] (from_utf8 s).

Definition is_ascii (s : bytes) : Prop := Forall (fun b => 0 <= b <= 127) s.

Lemma from_utf8_fuel_ascii s : is_ascii s -> from_utf8_fuel (length s) s = Some s.
Proof.
  induction 1 as [|b s Hb _ IH]; [done|]. cbn [length from_utf8_fuel decode1].
  replace (byte_in 0 127 b) with true by (unfold byte_in; lia). simpl. by rewrite drop_0, IH.
Qed.
Lemma from_utf8_ascii s : is_ascii s -> from_utf8 s = Some s.
Proof. apply from_utf8_fuel_ascii. Qed.
Lemma chars_ascii s : is_ascii s -> chars s = s.
Proof. intros. unfold chars. by rewrite from_utf8_ascii. Qed.

Lemma is_cont_ascii b : 0 <= b <= 127 -> is_cont b = false.
Proof. intros. unfold is_cont, byte_in. by rewrite (proj2 (Z.leb_gt 128 b)) by lia. Qed.

Lemma is_boundary_ascii s i : is_ascii s -> (i <= length s)%nat -> is_boundary s i = true.
Proof.
  intros Hs Hi. destruct i; [done|]. unfold is_boundary.
  destruct (s !! S i) as [b|] eqn:Hb.
  - rewrite is_cont_ascii; [done|]. by eapply (Forall_lookup_1 _ _ _ _ Hs).
  - apply lookup_ge_None in Hb. apply Nat.eqb_eq. lia.
Qed.

Lemma slice_ascii s a b :
  is_ascii s -> (a <= b <= length s)%nat -> slice s a b = Val (take (b - a) (drop a s)).
Proof.
  intros Hs Hab. unfold slice. rewrite !is_boundary_ascii by (done || lia).
  rewrite (proj2 (Nat.leb_le a b)), (proj2 (Nat.leb_le b (length s))) by lia. done.
Qed.

(** ** Splitting *)

(** [str::split(c)] for an ASCII character [c]: always at least one piece. *)
Fixpoint split_on (c : Z) (s : bytes) : list bytes :=
  match s with
  | [] => [[]]
  | d :: s =>
      if d =? c then [] :: split_on c s
      else match split_on c s with
           | [] => [[d]]
           | p :: ps => (d :: p) :: ps
           end
  end.

(** [str::lines] and [BufRead::lines]: a line ends at [\n]; the terminator and
    one [\r] before it are dropped; there is no empty line after the last
    terminator. *)
Definition strip_cr (l : bytes) : bytes :=
  match rev l with 13 :: r => rev r | _ => l end.
Fixpoint lines_aux (ps : list bytes) : list bytes :=
  match ps with
  | [] => []
  | [l] => match l with [] => [] | _ => [l] end
  | l :: ps => strip_cr l :: lines_aux ps
  end.
Definition lines (s : bytes) : list bytes := lines_aux (split_on 10 s).

(** [char::is_whitespace]: the Unicode property White_Space. *)
Definition is_whitespace (c : Z) : bool :=
  byte_in 9 13 c || (c =? 32) || (c =? 133) || (c =? 160) || (c =? 5760)
  || byte_in 8192 8202 c || (c =? 8232) || (c =? 8233) || (c =? 8239)
  || (c =? 8287) || (c =? 12288).

Fixpoint drop_while {A} (f : A -> bool) (l : list A) : list A :=
  match l with
  | [] => []
  | x :: l' => if f x then drop_while f l' else l
  end.
Definition drop_while_end {A} (f : A -> bool) (l : list A) : list A := rev (drop_while f (rev l)).

(** [str::trim], [str::trim_end_matches(c)], [str::trim_matches(c)]. *)
Definition trim (s : bytes) : bytes :=
  utf8_encode (drop_while_end is_whitespace (drop_while is_whitespace (chars s))).
Definition trim_end_matches (c : Z) (s : bytes) : bytes := drop_while_end (Z.eqb c) s.
Definition trim_matches (c : Z) (s : bytes) : bytes :=
  drop_while_end (Z.eqb c) (drop_while (Z.eqb c) s).

(** [str::split_whitespace]: the maximal runs of other characters. *)
Fixpoint words (cs : list Z) : list (list Z) :=
  match cs with
  | [] => []
  | c :: cs =>
      if is_whitespace c then words cs
      else match cs with
           | [] => [[c]]
           | d :: _ =>
               if is_whitespace d then [c] :: words cs
               else match words cs with
                    | [] => [[c]]
                    | w :: ws => (c :: w) :: ws
                    end
           end
  end.
Definition split_whitespace (s : bytes) : list bytes := map utf8_encode (words (chars s)).

(** ** Numbers *)

(** [char::to_digit(16)]. *)
Definition hex_digit (b : Z) : option Z :=
  if byte_in 48 57 b then Some (b - 48)
  else if byte_in 97 102 b then Some (b - 87)
  else if byte_in 65 70 b then Some (b - 55)
  else None.

Fixpoint radix16 (mx acc : Z) (s : bytes) : option Z :=
  match s with
  | [] => Some acc
  | b :: s =>
      match hex_digit b with
      | Some d => if acc * 16 + d <=? mx then radix16 mx (acc * 16 + d) s else None
      | None => None
      end
  end.
(** [u8::from_str_radix(s, 16)]: one leading plus sign is accepted. *)
Definition u8_from_hex (s : bytes) : option Z :=
  match s with
  | [] => None
  | [b] => if (b =? 43) || (b =? 45) then None else radix16 u8_max 0 s
  | b :: s' => if b =? 43 then radix16 u8_max 0 s' else radix16 u8_max 0 s
  end.

(** Decimal [Display] of an unsigned integer. *)
Fixpoint dec_fuel (fuel : nat) (n : Z) (acc : bytes) : bytes :=
  match fuel with
  | O => acc
  | S fuel =>
      let acc := (48 + n mod 10) :: acc in
      if n <? 10 then acc else dec_fuel fuel (n / 10) acc
  end.
Definition dec (n : Z) : bytes := dec_fuel (S (Z.to_nat (Z.log2 n))) n [].

(** [{:x}] and [{:02x}] of a byte. *)
Definition hex_char (d : Z) : Z := if d <? 10 then 48 + d else 87 + d.
Definition hex2 (b : Z) : bytes := [hex_char (b / 16); hex_char (b mod 16)].

Example bytes_examples :
  lines (lit "a" ++ [13; 10] ++ lit "b" ++ [10]) = [lit "a"; lit "b"] /\
  split_whitespace (lit "  /etc/passwd 1 0	1 ") = [lit "/etc/passwd"; lit "1"; lit "0"; lit "1"] /\
  trim (lit "  x y ") = lit "x y" /\ trim_end_matches 46 (lit "a.b..") = lit "a.b" /\
  split_on 58 (lit "0a:1B:") = [lit "0a"; lit "1B"; []] /\ u8_from_hex (lit "fF") = Some 255 /\
  u8_from_hex (lit "+f") = Some 15 /\ u8_from_hex (lit "100") = None /\
  dec 0 = lit "0" /\ dec 10203 = lit "10203" /\ hex2 171 = lit "ab" /\
  from_utf8 [208; 159; 33] = Some [1055; 33] /\ utf8_encode [1055; 8364; 128512] = [208; 159; 226; 130; 172; 240; 159; 152; 128] /\
  from_utf8 [226; 130] = None /\ from_utf8_lossy [65; 226; 130; 66; 255] = [65] ++ replacement ++ [66] ++ replacement.
Proof. vm_compute. repeat split. Qed.

(** ** Reasoning about bytes *)

(** A boolean fact about every byte is checked by evaluation. *)
Lemma byte_check (P : Z -> bool) :
  forallb P (map Z.of_nat (seq 0 256)) = true -> forall b, is_byte b -> P b = true.
Proof.
  intros H b Hb. rewrite forallb_forall in H. apply H. apply in_map_iff.
  exists (Z.to_nat b). unfold is_byte, u8_max in Hb. split; [lia|]. apply in_seq. lia.
Qed.

Lemma is_ascii_app s t : is_ascii (s ++ t) <-> is_ascii s /\ is_ascii t.
Proof. apply Forall_app. Qed.

Lemma hex2_ascii b : is_byte b -> is_ascii (hex2 b).
Proof.
  intros Hb. pose proof (byte_check (fun b => forallb (fun c => byte_in 0 127 c) (hex2 b))
                           ltac:(vm_compute; reflexivity) b Hb) as H.
  rewrite forallb_forall in H. unfold is_ascii. apply List.Forall_forall. intros c Hc. specialize (H c Hc).
  unfold byte_in in H. b2p. lia.
Qed.

Lemma u8_from_hex2 b : is_byte b -> u8_from_hex (hex2 b) = Some b.
Proof.
  intros Hb. pose proof (byte_check (fun b => match u8_from_hex (hex2 b) with Some x => x =? b | None => false end)
                           ltac:(vm_compute; reflexivity) b Hb) as H.
  cbv beta in H. destruct (u8_from_hex (hex2 b)) as [x|]; [|done]. by apply Z.eqb_eq in H as ->.
Qed.

Lemma slice_over s a b : (length s < b)%nat -> slice s a b = Panic.
Proof.
  intros H. unfold slice. rewrite (proj2 (Nat.leb_gt b (length s))) by lia.
  by rewrite andb_false_r.
Qed.

(** Lines written one after the other, each with its terminator, are read back. *)
Lemma split_on_cons c j t : c ∉ j -> split_on c (j ++ c :: t) = j :: split_on c t.
Proof.
  induction j as [|d j IH]; simpl; intros Hj; [by rewrite Z.eqb_refl|].
  apply not_elem_of_cons in Hj as [Hd Hj]. rewrite (proj2 (Z.eqb_neq d c)) by done.
  by rewrite IH.
Qed.

Definition is_line (l : bytes) : Prop := (10 ∉ l) /\ (13 ∉ l).
Definition unlines (js : list bytes) : bytes := concat (map (fun j => j ++ [10]) js).

Lemma strip_cr_id l : 13 ∉ l -> strip_cr l = l.
Proof.
  intros Hl. unfold strip_cr. destruct (rev l) as [|c r] eqn:E; [done|].
  assert (c ∈ l) as Hin by (apply list_elem_of_In, in_rev; rewrite E; by left).
  destruct (decide (c = 13)) as [->|Hc]; [done|]. repeat case_match; done.
Qed.

Lemma split_on_unlines js : Forall is_line js -> split_on 10 (unlines js) = js ++ [[]].
Proof.
  unfold unlines. induction 1 as [|j js [Hj _] _ IH]; [done|].
  cbn [map concat]. rewrite <- app_assoc. cbn [app]. by rewrite split_on_cons, IH.
Qed.

Lemma lines_unlines js : Forall is_line js -> lines (unlines js) = js.
Proof.
  intros Hjs. unfold lines. rewrite split_on_unlines by done.
  induction Hjs as [|j js [_ Hj] _ IH]; [done|]. cbn [app lines_aux].
  destruct (js ++ [[]]) as [|p ps] eqn:E; [by destruct js|]. rewrite <- E in *.
  rewrite strip_cr_id by done. by rewrite IH.
Qed.

Lemma unlines_app js ks : unlines (js ++ ks) = unlines js ++ unlines ks.
Proof. unfold unlines. by rewrite map_app, concat_app. Qed.

(** ** Trimming *)
Lemma utf8_encode_ascii s : is_ascii s -> utf8_encode s = s.
Proof.
  unfold utf8_encode. induction 1 as [|b s Hb _ IH]; [done|]. cbn [map concat]. rewrite IH.
  unfold utf8_encode1. by rewrite (proj2 (Z.ltb_lt b 128)) by lia.
Qed.

Lemma drop_while_id {A} (f : A -> bool) l : Forall (fun x => f x = false) l -> drop_while f l = l.
Proof. intros H. destruct H as [|x l Hx _]; [done|]. simpl. by rewrite Hx. Qed.

Lemma drop_while_end_id {A} (f : A -> bool) l : Forall (fun x => f x = false) l -> drop_while_end f l = l.
Proof.
  intros H. unfold drop_while_end. rewrite drop_while_id; [apply rev_involutive|].
  apply Forall_forall. intros x Hx. apply list_elem_of_In, in_rev, list_elem_of_In in Hx.
  by eapply Forall_forall in H.
Qed.

(** Text of visible ASCII characters is its own trim. *)
Definition is_visible (s : bytes) : Prop := Forall (fun b => 33 <= b <= 126) s.

Lemma visible_ascii s : is_visible s -> is_ascii s.
Proof. intros H. eapply Forall_impl; [exact H|]. simpl. lia. Qed.

Lemma visible_not_whitespace b : 33 <= b <= 126 -> is_whitespace b = false.
Proof. intros H. unfold is_whitespace, byte_in. lia. Qed.

Lemma trim_visible s : is_visible s -> trim s = s.
Proof.
  intros H. pose proof (visible_ascii s H). unfold trim. rewrite chars_ascii by done.
  assert (Forall (fun b => is_whitespace b = false) s).
  { eapply Forall_impl; [exact H|]. apply visible_not_whitespace. }
  by rewrite drop_while_id, drop_while_end_id, utf8_encode_ascii.
Qed.

Lemma visible_line s : is_visible s -> is_line s.
Proof.
  intros H. split; intros Hx; eapply Forall_forall in H; try exact Hx; simpl in H; lia.
Qed.

Lemma unlines_ascii js : Forall is_ascii js -> is_ascii (unlines js).
Proof.
  unfold unlines. induction 1 as [|j js Hj _ IH]; [by constructor|]. cbn [map concat].
  apply is_ascii_app. split; [|done]. apply is_ascii_app. split; [done|]. repeat constructor; lia.
Qed.

Lemma is_str_ascii s : is_ascii s -> is_str s = true.
Proof. intros H. unfold is_str. by rewrite from_utf8_ascii. Qed.

Lemma split_on_none c s : c ∉ s -> split_on c s = [s].
Proof.
  induction s as [|b s IH]; intros Hc; [done|]. cbn [split_on]. rewrite not_elem_of_cons in Hc.
  destruct Hc as [Hb Hs]. rewrite IH by done. by rewrite (proj2 (Z.eqb_neq b c)) by done.
Qed.

Lemma hex_digit_range b d : hex_digit b = Some d -> 0 <= d <= 15.
Proof. unfold hex_digit, byte_in. repeat case_match; intros [= <-]; lia. Qed.

Lemma radix16_bound mx acc s v : 0 <= acc <= mx -> radix16 mx acc s = Some v -> 0 <= v <= mx.
Proof.
  revert acc. induction s as [|b s IH]; intros acc Ha; cbn [radix16]; [by intros [= <-]|].
  destruct (hex_digit b) as [d|] eqn:Hd; [|done]. apply hex_digit_range in Hd. case_match eqn:E; [|done]. apply Z.leb_le in E.
  apply IH. lia.
Qed.

Lemma u8_from_hex_byte s v : u8_from_hex s = Some v -> is_byte v.
Proof.
  unfold u8_from_hex, is_byte. intros Hv.
  assert (0 <= 0 <= u8_max) as H0 by (unfold u8_max; lia).
  repeat case_match; try done; by apply radix16_bound in Hv.
Qed.

(** ** First occurrences *)
Lemma find_spec s p : match find s p with
  | Some i => starts_with (drop i s) p = true /\ (i <= length s)%nat /\ forall j, (j < i)%nat -> starts_with (drop j s) p = false
  | None => forall j, (j <= length s)%nat -> starts_with (drop j s) p = false
  end.
Proof.
  induction s as [|c s IH]; cbn [find].
  - destruct (starts_with [] p) eqn:E; [cbn; split; [done|]; split; [done|lia]|]. intros j _. by rewrite drop_nil.
  - destruct (starts_with (c :: s) p) eqn:E; [cbn; split; [done|]; split; [lia|lia]|].
    destruct (find s p) as [i|]; cbn.
    + destruct IH as (Hs & Hi & Hj). split; [done|]. split; [lia|]. intros [|j] Hlt; [done|]. apply Hj. lia.
    + intros [|j] Hlt; [done|]. apply IH. lia.
Qed.

(** [str::to_lowercase] on ASCII text. *)
Definition lower1 (b : Z) : Z := if byte_in 65 90 b then b + 32 else b.
Definition ascii_lower (s : bytes) : bytes := map lower1 s.

Lemma ascii_lower_ascii s : is_ascii s -> is_ascii (ascii_lower s).
Proof.
  intros H. apply Forall_map. eapply Forall_impl; [exact H|]. intros b Hb. cbn beta in *. unfold lower1, byte_in.
  case_match; lia.
Qed.

Lemma starts_with_prefix s p : starts_with s p = true <-> take (length p) s = p.
Proof.
  rewrite starts_with_spec. split; [intros [t ->]; by rewrite take_app_length|].
  intros H. exists (drop (length p) s). rewrite <- H at 1. by rewrite take_drop.
Qed.

(** ** Fields of buffers in little-endian order *)

Definition le (b : bytes) : Z := foldr (fun x acc => x + 256 * acc) 0 b.
Definition field (buffer : bytes) (off size : nat) : Z := le (take size (drop off buffer)).
Definition le_encode (n : nat) (v : Z) : bytes := map (fun i => (v / 256 ^ Z.of_nat i) mod 256) (seq 0 n).

Lemma le_encode_S n v : le_encode (S n) v = v mod 256 :: le_encode n (v / 256).
Proof.
  unfold le_encode. cbn [seq map]. change (256 ^ Z.of_nat 0) with 1. rewrite Z.div_1_r. f_equal.
  rewrite <- seq_shift, map_map. apply map_ext. intros i. rewrite Nat2Z.inj_succ, Z.pow_succ_r, Z.div_div by lia. done.
Qed.

Lemma le_encode_length n v : length (le_encode n v) = n.
Proof. unfold le_encode. by rewrite length_map, length_seq. Qed.

Lemma le_encode_round_trip n v : 0 <= v < 256 ^ Z.of_nat n -> le (le_encode n v) = v.
Proof.
  revert v. induction n as [|n IH]; intros v Hv; [cbn in *; lia|].
  rewrite le_encode_S. unfold le in *. cbn [foldr]. rewrite IH.
  - pose proof (Z.div_mod v 256). lia.
  - rewrite Nat2Z.inj_succ, Z.pow_succ_r in Hv by lia. split; [apply Z.div_pos; lia|apply Z.div_lt_upper_bound; lia].
Qed.

Lemma le_encode_4 v : 0 <= v <= u32_max -> le (le_encode 4 v) = v.
Proof. unfold u32_max. intros Hv. apply le_encode_round_trip. change (256 ^ Z.of_nat 4) with 4294967296. lia. Qed.

Lemma field_app pre b post : field (pre ++ b ++ post) (length pre) (length b) = le b.
Proof. unfold field. by rewrite drop_app_length, take_app_length. Qed.

Lemma field_at buffer pre b post off size : buffer = pre ++ b ++ post -> length pre = off -> length b = size ->
  field buffer off size = le b.
Proof. intros -> <- <-. apply field_app. Qed.

Lemma slice_at {A} (buffer pre b post : list A) off size : buffer = pre ++ b ++ post -> length pre = off -> length b = size ->
  take size (drop off buffer) = b.
Proof. intros -> <- <-. by rewrite drop_app_length, take_app_length. Qed.

(** ** Buffers with a string in them *)

Lemma from_utf8_lossy_fuel_valid fuel s cs : from_utf8_fuel fuel s = Some cs -> from_utf8_lossy_fuel fuel s = s.
Proof.
  revert s cs. induction fuel as [|fuel IH]; intros s cs; cbn [from_utf8_fuel from_utf8_lossy_fuel]; [by destruct s|].
  destruct (decode1 s) as [[[c w]|w]|] eqn:E; [|done|].
  - destruct (from_utf8_fuel fuel (drop w s)) as [cs'|] eqn:E'; [|done]. intros _. rewrite (IH _ _ E'). apply take_drop.
  - intros _. by destruct s.
Qed.

Lemma from_utf8_lossy_valid s : is_str s = true -> from_utf8_lossy s = s.
Proof.
  unfold is_str, from_utf8. destruct (from_utf8_fuel (length s) s) eqn:E; [|done]. intros _. by eapply from_utf8_lossy_fuel_valid.
Qed.

Lemma drop_while_replicate (c : Z) n l : drop_while (Z.eqb c) (replicate n c ++ l) = drop_while (Z.eqb c) l.
Proof. induction n as [|n IH]; [done|]. cbn. by rewrite Z.eqb_refl. Qed.

Lemma trim_matches_pad c s n : c ∉ s -> trim_matches c (s ++ replicate n c) = s.
Proof.
  intros Hs. assert (Hf : Forall (fun x => (c =? x) = false) s).
  { apply Forall_forall. intros x Hx. apply Z.eqb_neq. by intros ->. }
  unfold trim_matches, drop_while_end. destruct s as [|x s]; cbn [app].
  - rewrite <- (app_nil_r (replicate n c)), drop_while_replicate. done.
  - apply Forall_cons in Hf as [Hx Hf]. cbn [drop_while]. rewrite Hx. cbn [rev app].
    rewrite rev_app_distr, (rev_alt (replicate n c) : _ = reverse _), reverse_replicate, <- app_assoc, drop_while_replicate.
    apply (drop_while_end_id _ (x :: s)). by constructor.
Qed.

Lemma le_app a b : le (a ++ b) = le a + 256 ^ Z.of_nat (length a) * le b.
Proof.
  unfold le. induction a as [|x a IH]; cbn [app foldr length]; [rewrite Z.pow_0_r; lia|].
  rewrite IH, Nat2Z.inj_succ, Z.pow_succ_r by lia. ring.
Qed.

Lemma le_nonneg b : is_bytes b -> 0 <= le b.
Proof. unfold is_bytes, is_byte, le. induction 1 as [|x b Hx _ IH]; cbn [foldr]; lia. Qed.
