(* ===== verification/F64.v ===== *)
(** Rust's [f64] as the standard library's executable binary64 values, with
    the comparisons and the [Display] the blockchain node uses. *)
From S2P Require Import Prelude Bytes.
From Stdlib Require Export SpecFloat.

Abbreviation f64 := spec_float.
Definition f64_of_Z (n : Z) : f64 := binary_normalize 53 1024 n 0 false.
Definition f64_zero : f64 := S754_zero false.
(** [x <= y]: false as soon as one side is NaN. *)
Definition f64_le (x y : f64) : bool := SFleb x y.

(** ** [Display]: the shortest decimal that reads back as the same float,
    printed without an exponent. *)

(** [d * 10^t] against [x * 2^q]. *)
Definition dec_cmp (d t x q : Z) : comparison :=
  (d * 10 ^ Z.max t 0 * 2 ^ Z.max (- q) 0) ?= (x * 2 ^ Z.max q 0 * 10 ^ Z.max (- t) 0).
Definition cmp_le (incl : bool) (c : comparison) : bool :=
  match c with Lt => true | Eq => incl | Gt => false end.
Definition cmp_ge (incl : bool) (c : comparison) : bool :=
  match c with Gt => true | Eq => incl | Lt => false end.

(** Is [d * 10^t] in the interval of decimals that round to [m * 2^e]?  Its
    ends are half way to the neighbours and belong to it when [m] is even. *)
Definition rounds_to (m e d t : Z) : bool :=
  let lo := 4 * m - (if (m =? 2 ^ 52) && negb (e =? -1074) then 1 else 2) in
  cmp_ge (Z.even m) (dec_cmp d t lo (e - 2)) && cmp_le (Z.even m) (dec_cmp d t (4 * m + 2) (e - 2)).

(** The number of integer digits of [m * 2^e], from an estimate of its
    logarithm and one correction. *)
Definition int_digits (m e : Z) : Z :=
  let k := (Z.log2 m + e) * 1233 / 4096 in
  let up k := if cmp_le true (dec_cmp 1 k m e) then k + 1 else k in
  up (up (up k)).

(** Shortest digits: try [n], [n+1], ... of them. *)
Fixpoint shortest (fuel : nat) (m e k n : Z) : Z * Z :=
  let t := k - n in
  let d := (m * 2 ^ Z.max e 0 * 10 ^ Z.max (- t) 0) / (2 ^ Z.max (- e) 0 * 10 ^ Z.max t 0) in
  match fuel with
  | O => (d, t)
  | S fuel =>
      match rounds_to m e d t, rounds_to m e (d + 1) t with
      | true, true => if cmp_ge false (dec_cmp (2 * d + 1) t (2 * m) e) then (d, t) else (d + 1, t)
      | true, false => (d, t)
      | false, true => (d + 1, t)
      | false, false => shortest fuel m e k (n + 1)
      end
  end.
Fixpoint strip_zeros (fuel : nat) (d t : Z) : Z * Z :=
  match fuel with
  | O => (d, t)
  | S fuel => if d mod 10 =? 0 then strip_zeros fuel (d / 10) (t + 1) else (d, t)
  end.

Definition f64_display_finite (m e : Z) : bytes :=
  let '(d, t) := shortest 17 m e (int_digits m e) 1 in
  let '(d, t) := strip_zeros 18 d t in
  let ds := dec d in
  if 0 <=? t then ds ++ replicate (Z.to_nat t) 48
  else
    let frac := Z.to_nat (- t) in
    if (frac <? length ds)%nat
    then take (length ds - frac) ds ++ [46] ++ drop (length ds - frac) ds
    else lit "0." ++ replicate (frac - length ds) 48 ++ ds.

Definition f64_display (x : f64) : bytes :=
  match x with
  | S754_nan => lit "NaN"
  | S754_infinity s => if s then lit "-inf" else lit "inf"
  | S754_zero s => if s then lit "-0" else lit "0"
  | S754_finite s m e =>
      (if s then lit "-" else []) ++ f64_display_finite (Zpos m) e
  end.

(** [a / b] rounded to binary64, for the examples. *)
Definition f64_ratio (a b : Z) : f64 := SFdiv 53 1024 (f64_of_Z a) (f64_of_Z b).
Example f64_display_examples :
  f64_display (f64_of_Z 100) = lit "100" /\ f64_display (f64_of_Z 1000000) = lit "1000000" /\
  f64_display (f64_ratio 1 10) = lit "0.1" /\ f64_display (f64_ratio (-3) 2) = lit "-1.5" /\
  f64_display (f64_ratio 1 3) = lit "0.3333333333333333" /\
  f64_display (f64_ratio 2 3) = lit "0.6666666666666666" /\
  f64_display (f64_of_Z (10 ^ 23)) = lit "100000000000000000000000" /\
  f64_display (f64_of_Z (2 ^ 53 + 2)) = lit "9007199254740994" /\
  f64_display (SFadd 53 1024 (f64_ratio 1 10) (f64_ratio 2 10)) = lit "0.30000000000000004" /\
  length (f64_display (S754_finite false 1 (-1074))) = 326%nat /\
  f64_le S754_nan f64_zero = false /\ f64_le (f64_of_Z (-1)) f64_zero = true.
Proof. vm_compute. repeat split. Qed.
