(* ===== verification/AntiDdos.v ===== *)
(** The connection-limiting proxy of [src/anti_ddos/src/main.rs].

    [AntiDDoSShield] is the record [shield]; each client handler is a task of
    the runtime whose body, [handle_client], is cut at its await points and
    at the DashMap entry locks into the phases of [phase].  [step] performs one
    segment of one task, so a run of the proxy is a list of labelled steps of
    any number of interleaved handlers. *)
From S2P Require Import Prelude Net Concurrency.

(** ** Constants of the proxy; durations are in nanoseconds. *)
Definition secs (n : Z) : Z := n * 1000000000.
Definition MAX_GLOBAL_CONNECTIONS : Z := 10000.
Definition MAX_CONN_PER_IP : Z := 20.
Definition BURST_WINDOW : Z := secs 1.
Definition MAX_RPS_PER_IP : Z := 50.
Definition BUFFER_LEN : Z := 4096.

(** ** State *)
Record IpStats : Type := mkIpStats {
  connection_count : Z;
  rps_count : Z;
  last_request_time : Z;
}.

(** The DashMap [ip_registry]: every access locks the entry it touches. *)
Abbreviation registry := (gmap SocketAddr IpStats).

(** [Instant::duration_since] saturates at zero. *)
Definition duration_since (now earlier : Z) : Z := Z.max 0 (now - earlier).

Definition err_global : string := "Global connection limit reached (SYN/Connection Flood Protection)".
Definition err_per_ip : string := "Too many connections from this IP (L4 Flood Mitigation)".
Definition err_slow : string := "Read timeout exceeded (Slowloris / Slow Read Attack Mitigation)".
Definition err_rps : string := "RPS limit exceeded (L7 HTTP Flood Protection)".
Definition err_upstream : string := "Upstream server unavailable".

(** ** Operations on the registry *)

(** First entry block of [handle_client]: find or create the entry, refuse a
    full one, otherwise count the connection. *)
Definition enter_ip (reg : registry) (ip : SocketAddr) (now : Z) : registry * result unit string :=
  let entry := default (mkIpStats 0 0 now) (reg !! ip) in
  let reg := <[ip := entry]> reg in
  if MAX_CONN_PER_IP <=? connection_count entry then (reg, Err err_per_ip)
  else (<[ip := mkIpStats (connection_count entry + 1) (rps_count entry)
                          (last_request_time entry)]> reg, Ok tt).

(** The closure of the cleanup guard. *)
Definition cleanup (reg : registry) (ip : SocketAddr) : registry :=
  match reg !! ip with
  | Some entry =>
      if 0 <? connection_count entry
      then <[ip := mkIpStats (connection_count entry - 1) (rps_count entry)
                             (last_request_time entry)]> reg
      else reg
  | None => reg
  end.

(** Second entry block, on an entry: start a new window, or count the request
    in the current one and refuse it over the limit. *)
Definition rps_entry (chk : bool) (entry : IpStats) (now : Z) : outcome (IpStats * result unit string) :=
  if BURST_WINDOW <? duration_since now (last_request_time entry)
  then Val (mkIpStats (connection_count entry) 1 now, Ok tt)
  else
    n ← add_usize chk (rps_count entry) 1;
    Val (mkIpStats (connection_count entry) n (last_request_time entry),
         if MAX_RPS_PER_IP <? n then Err err_rps else Ok tt).

(** The same block on the registry; [ins] is the instant of the entry it
    creates when there is none, [now] the instant read after that. *)
Definition check_rps (chk : bool) (reg : registry) (ip : SocketAddr) (ins now : Z)
  : outcome (registry * result unit string) :=
  let entry := default (mkIpStats 1 0 ins) (reg !! ip) in
  '(entry, r) ← rps_entry chk entry now;
  Val (<[ip := entry]> reg, r).

(** The predicate of the 30-second [retain]. *)
Definition keep_entry (now : Z) (stats : IpStats) : bool :=
  (duration_since now (last_request_time stats) <? secs 60) || (0 <? connection_count stats).
Definition sweep (reg : registry) (now : Z) : registry :=
  filter (fun kv => keep_entry now kv.2 = true) reg.

(** ** The guard of the module [scopeguard] *)
Record Guard (T R : Type) : Type := mkGuard { data : T; drop_fn : option (T -> R) }.
Arguments mkGuard {T R}. Arguments data {T R}. Arguments drop_fn {T R}.

Definition guard {T R} (d : T) (f : T -> R) : Guard T R := mkGuard d (Some f).
(** [Drop::drop]: take the closure; what it returned when it ran. *)
Definition guard_drop {T R} (zeroed : T) (g : Guard T R) : Guard T R * option R :=
  match drop_fn g with
  | Some f => (mkGuard zeroed None, Some (f (data g)))
  | None => (g, None)
  end.

(** ** Proxying an admitted request

    The end of [handle_client], when [first] is what the first read gave: what
    the upstream server and the client are written, and how the task goes on.
    [select!] ends with the copy that returns first and drops the other one,
    which had [polls] polls. *)
Inductive proxy_outcome : Type :=
| ConnectTimeout | ProxyErr (msg : string) | ProxyDone.

Inductive race : Type := ClientFirst (polls : nat) | UpstreamFirst (polls : nat).

Section relay.
Context {W : Type} `{!Copy W}.

Record upstream_env : Type := mkUpstream {
  connects : option (result unit string);    (* [None]: no answer in 3 seconds *)
  write_first : result unit (nat * string);  (* [write_all]: an error after some bytes *)
  first_done : race;
  to_upstream : W;
  to_client : W;
  copy_error : string;
}.

Definition copy_outcome (e : upstream_env) (r : result Z unit) : proxy_outcome :=
  match r with Ok _ => ProxyDone | Err _ => ProxyErr (copy_error e) end.

Definition proxy (e : upstream_env) (first : list Z) (client upstream : reader) : list Z * list Z * proxy_outcome :=
  match connects e with
  | None => ([], [], ConnectTimeout)
  | Some (Err msg) => ([], [], ProxyErr msg)
  | Some (Ok _) =>
      match write_first e with
      | Err (k, msg) => (take k first, [], ProxyErr msg)
      | Ok _ =>
          match first_done e with
          | ClientFirst polls =>
              let '(sent, r) := copy client (to_upstream e) in
              (first ++ sent, copy_dropped upstream (to_client e) polls, copy_outcome e r)
          | UpstreamFirst polls =>
              let '(sent, r) := copy upstream (to_client e) in
              (first ++ copy_dropped client (to_upstream e) polls, sent, copy_outcome e r)
          end
      end
  end.
End relay.
Arguments upstream_env : clear implicits.

(** ** Handlers *)
Inductive task_result : Type :=
| TOk
| TErr (msg : string)
| TPanic.

(** Where a handler stands in [handle_client]. *)
Inductive phase : Type :=
| PSpawned                      (* before [try_acquire] *)
| PPermit                       (* holds the permit, not yet counted *)
| PReading                      (* counted, guard armed, awaiting the first read *)
| PRequest (bytes_read : Z)     (* read something; before the RPS block *)
| PProxy (bytes_read : Z)       (* admitted; connecting to and serving upstream *)
| PCleanup (r : task_result)    (* body left; the guard is the next drop *)
| PRelease (r : task_result)    (* only the permit is left to drop *)
| PDone (r : task_result).

Inductive read_outcome : Type :=
| ReadTimeout | ReadErr (msg : string) | ReadBytes (n : Z).

Section proxy.
Context {S : Type} `{!Semaphore S}.

Record shield : Type := mkShield {
  ip_registry : registry;
  global_connections : S;
}.

Record state : Type := mkState {
  the_shield : shield;
  tasks : gmap nat (SocketAddr * phase);
  clock : Z;
}.

Definition initial : state :=
  mkState (mkShield ∅ (sem_new MAX_GLOBAL_CONNECTIONS)) ∅ 0.

Inductive label : Type :=
| LAccept (tid : nat) (client_addr : SocketAddr)
| LAcquire (tid : nat)
| LEnter (tid : nat)
| LRead (tid : nat) (o : read_outcome)
| LRps (tid : nat) (ins : Z)
| LProxy (tid : nat) (o : proxy_outcome)
| LCleanup (tid : nat)
| LRelease (tid : nat)
| LSweep
| LTick (d : Z).

Definition set_registry (s : state) (reg : registry) : state :=
  mkState (mkShield reg (global_connections (the_shield s))) (tasks s) (clock s).
Definition set_sem (s : state) (sem : S) : state :=
  mkState (mkShield (ip_registry (the_shield s)) sem) (tasks s) (clock s).
Definition set_phase (s : state) (tid : nat) (ip : SocketAddr) (p : phase) : state :=
  mkState (the_shield s) (<[tid := (ip, p)]> (tasks s)) (clock s).

(** [handle_client] up to [try_acquire]. *)
Definition do_acquire (s : state) (tid : nat) (ip : SocketAddr) : state :=
  match sem_try_acquire (global_connections (the_shield s)) with
  | Some sem => set_phase (set_sem s sem) tid ip PPermit
  | None => set_phase s tid ip (PDone (TErr err_global))
  end.

(** The first entry block; an early return there has no guard to run. *)
Definition do_enter (s : state) (tid : nat) (ip : SocketAddr) : state :=
  match enter_ip (ip_registry (the_shield s)) ip (clock s) with
  | (reg, Ok _) => set_phase (set_registry s reg) tid ip PReading
  | (reg, Err e) => set_phase (set_registry s reg) tid ip (PRelease (TErr e))
  end.

(** The timed read of at most the buffer's length. *)
Definition do_read (s : state) (tid : nat) (ip : SocketAddr) (o : read_outcome) : option state :=
  match o with
  | ReadTimeout => Some (set_phase s tid ip (PCleanup (TErr err_slow)))
  | ReadErr e => Some (set_phase s tid ip (PCleanup (TErr e)))
  | ReadBytes n =>
      if (0 <=? n) && (n <=? BUFFER_LEN)
      then Some (set_phase s tid ip (if n =? 0 then PCleanup TOk else PRequest n))
      else None
  end.

(** The RPS block; a panic in it unwinds through the guard. *)
Definition do_rps (chk : bool) (s : state) (tid : nat) (ip : SocketAddr) (n ins : Z) : state :=
  match check_rps chk (ip_registry (the_shield s)) ip ins (clock s) with
  | Val (reg, Ok _) => set_phase (set_registry s reg) tid ip (PProxy n)
  | Val (reg, Err e) => set_phase (set_registry s reg) tid ip (PCleanup (TErr e))
  | Panic => set_phase s tid ip (PCleanup TPanic)
  end.

Definition do_proxy (s : state) (tid : nat) (ip : SocketAddr) (o : proxy_outcome) : state :=
  set_phase s tid ip (PCleanup
    match o with
    | ConnectTimeout => TErr err_upstream
    | ProxyErr e => TErr e
    | ProxyDone => TOk
    end).

(** The drop of [_cleanup], then of [_global_permit]. *)
Definition do_cleanup (s : state) (tid : nat) (ip : SocketAddr) (r : task_result) : state :=
  let g := guard tt (fun _ => cleanup (ip_registry (the_shield s)) ip) in
  set_phase (set_registry s (default (ip_registry (the_shield s)) (guard_drop tt g).2))
            tid ip (PRelease r).
Definition do_release (s : state) (tid : nat) (ip : SocketAddr) (r : task_result) : state :=
  set_phase (set_sem s (sem_release (global_connections (the_shield s)))) tid ip (PDone r).

(** One step of the service, [None] when the label is not enabled. *)
Definition step (chk : bool) (l : label) (s : state) : option state :=
  match l with
  | LAccept tid ip =>
      match tasks s !! tid with None => Some (set_phase s tid ip PSpawned) | Some _ => None end
  | LAcquire tid =>
      match tasks s !! tid with Some (ip, PSpawned) => Some (do_acquire s tid ip) | _ => None end
  | LEnter tid =>
      match tasks s !! tid with Some (ip, PPermit) => Some (do_enter s tid ip) | _ => None end
  | LRead tid o =>
      match tasks s !! tid with Some (ip, PReading) => do_read s tid ip o | _ => None end
  | LRps tid ins =>
      match tasks s !! tid with
      | Some (ip, PRequest n) =>
          if ins <=? clock s then Some (do_rps chk s tid ip n ins) else None
      | _ => None
      end
  | LProxy tid o =>
      match tasks s !! tid with Some (ip, PProxy _) => Some (do_proxy s tid ip o) | _ => None end
  | LCleanup tid =>
      match tasks s !! tid with Some (ip, PCleanup r) => Some (do_cleanup s tid ip r) | _ => None end
  | LRelease tid =>
      match tasks s !! tid with Some (ip, PRelease r) => Some (do_release s tid ip r) | _ => None end
  | LSweep => Some (set_registry s (sweep (ip_registry (the_shield s)) (clock s)))
  | LTick d =>
      if 0 <=? d then Some (mkState (the_shield s) (tasks s) (clock s + d)) else None
  end.

Definition run (chk : bool) (ls : list label) (s : state) : option state := exec (step chk) ls s.
Definition reachable (chk : bool) (s : state) : Prop := reach (step chk) initial s.
End proxy.
Arguments shield : clear implicits.
Arguments state : clear implicits.

(** ** Resource accounting *)

(** Phases in which the handler owns a permit of the global semaphore. *)
Definition holds_permit (p : phase) : bool :=
  match p with PSpawned | PDone _ => false | _ => true end.
(** Phases in which the handler is counted in the registry. *)
Definition counted (p : phase) : bool :=
  match p with PReading | PRequest _ | PProxy _ | PCleanup _ => true | _ => false end.
Definition counted_at (ip : SocketAddr) (t : SocketAddr * phase) : bool :=
  bool_decide (t.1 = ip) && counted t.2.

(** The registry's count for an address; an absent entry counts nothing. *)
Definition conns (reg : registry) (ip : SocketAddr) : Z :=
  from_option connection_count 0 (reg !! ip).

Section accounting.
Context {S : Type} `{!Semaphore S}.

Record accounting (s : state S) : Prop := {
  acc_permits :
    sem_available (global_connections (the_shield s))
      + Z.of_nat (mcount (fun t => holds_permit t.2) (tasks s)) = MAX_GLOBAL_CONNECTIONS;
  acc_conns : forall ip,
    conns (ip_registry (the_shield s)) ip = Z.of_nat (mcount (counted_at ip) (tasks s));
  acc_limit : forall ip, conns (ip_registry (the_shield s)) ip <= MAX_CONN_PER_IP;
}.

Lemma accounting_initial : accounting initial.
Proof.
  split; simpl.
  - rewrite sem_new_available by done. by rewrite mcount_empty.
  - intros ip. by rewrite mcount_empty.
  - intros ip. unfold conns. rewrite lookup_empty. done.
Qed.

(** What a step of task [tid] at [ip] does to the two counters when it moves
    the task from phase [p] to phase [q]. *)
Lemma count_move (m : gmap nat (SocketAddr * phase)) tid ip p q (f : SocketAddr * phase -> bool) :
  m !! tid = Some (ip, p) ->
  Z.of_nat (mcount f (<[tid := (ip, q)]> m))
    = Z.of_nat (mcount f m) + Z.b2z (f (ip, q)) - Z.b2z (f (ip, p)).
Proof.
  intros Hl. pose proof (mcount_update f m tid (ip, q) (ip, p) Hl).
  destruct (f (ip, p)), (f (ip, q)); simpl in *; lia.
Qed.

Lemma counted_at_self ip p : counted_at ip (ip, p) = counted p.
Proof. unfold counted_at. simpl. by rewrite bool_decide_true. Qed.
Lemma counted_at_other ip ip' p : ip' ≠ ip -> counted_at ip (ip', p) = false.
Proof. intros. unfold counted_at. simpl. by rewrite bool_decide_false. Qed.

(** The shape of every step of a task: the semaphore and the count of the
    task's own address change by exactly what the phase change says. *)
Lemma accounting_move (s : state S) tid ip p q (sh : shield S) :
  accounting s ->
  tasks s !! tid = Some (ip, p) ->
  sem_available (global_connections sh) =
    sem_available (global_connections (the_shield s))
      + Z.b2z (holds_permit p) - Z.b2z (holds_permit q) ->
  conns (ip_registry sh) ip =
    conns (ip_registry (the_shield s)) ip + Z.b2z (counted q) - Z.b2z (counted p) ->
  conns (ip_registry sh) ip <= MAX_CONN_PER_IP ->
  (forall ip', ip' ≠ ip -> conns (ip_registry sh) ip' = conns (ip_registry (the_shield s)) ip') ->
  accounting (mkState sh (<[tid := (ip, q)]> (tasks s)) (clock s)).
Proof.
  intros [Hp Hc Hl] Ht Hsem Hself Hmax Hother. split; simpl.
  - rewrite (count_move _ tid ip p q) by done. simpl. lia.
  - intros ip'. rewrite (count_move _ tid ip p q) by done.
    destruct (decide (ip' = ip)) as [->|Hne].
    + rewrite !counted_at_self, Hself, Hc. lia.
    + rewrite !counted_at_other by done. rewrite Hother, Hc by done. simpl; lia.
  - intros ip'. destruct (decide (ip' = ip)) as [->|Hne]; [done|].
    rewrite Hother by done. apply Hl.
Qed.

Lemma conns_insert_eq reg ip e : conns (<[ip := e]> reg) ip = connection_count e.
Proof. unfold conns. by rewrite lookup_insert_eq. Qed.
Lemma conns_insert_ne reg ip ip' e :
  ip' ≠ ip -> conns (<[ip := e]> reg) ip' = conns reg ip'.
Proof. intros. unfold conns. by rewrite lookup_insert_ne by done. Qed.
Lemma conns_default reg ip e :
  connection_count e = 0 -> connection_count (default e (reg !! ip)) = conns reg ip.
Proof. intros. unfold conns. by destruct (reg !! ip). Qed.

Lemma enter_ip_spec reg ip now reg' r :
  enter_ip reg ip now = (reg', r) ->
  (forall ip', ip' ≠ ip -> conns reg' ip' = conns reg ip') /\
  match r with
  | Ok _ => conns reg ip < MAX_CONN_PER_IP /\ conns reg' ip = conns reg ip + 1
  | Err _ => MAX_CONN_PER_IP <= conns reg ip /\ conns reg' ip = conns reg ip
  end.
Proof.
  unfold enter_ip. rewrite !conns_default by done.
  case_match; b2p; intros; simplify_eq.
  - split; [intros; by rewrite conns_insert_ne|].
    rewrite conns_insert_eq, conns_default by done. done.
  - split; [intros; by rewrite !conns_insert_ne|].
    rewrite conns_insert_eq. simpl. lia.
Qed.

Lemma cleanup_conns reg ip ip' :
  conns (cleanup reg ip) ip' =
    if decide (ip' = ip) then (if 0 <? conns reg ip then conns reg ip - 1 else conns reg ip)
    else conns reg ip'.
Proof.
  unfold cleanup, conns. destruct (reg !! ip) as [e|] eqn:He; case_decide; subst; simpl;
    rewrite ?He; simpl; try done.
  - case_match; [by rewrite lookup_insert_eq|by rewrite He].
  - case_match; [by rewrite lookup_insert_ne|done].
Qed.

Lemma rps_entry_count chk e now e' r :
  rps_entry chk e now = Val (e', r) -> connection_count e' = connection_count e.
Proof.
  unfold rps_entry. case_match; [by intros; simplify_eq|].
  destruct (add_usize _ _ _); intros; by simplify_eq/=.
Qed.

Lemma check_rps_conns chk reg ip ins now reg' r ip' :
  is_Some (reg !! ip) ->
  check_rps chk reg ip ins now = Val (reg', r) -> conns reg' ip' = conns reg ip'.
Proof.
  intros [e He]. unfold check_rps. rewrite He. simpl.
  destruct (rps_entry chk e now) as [[e' r']|] eqn:Hr; simpl; intros; simplify_eq.
  apply rps_entry_count in Hr. unfold conns.
  destruct (decide (ip' = ip)) as [->|]; [rewrite lookup_insert_eq, He|rewrite lookup_insert_ne]; done.
Qed.

Lemma sweep_conns reg now ip :
  0 <= conns reg ip -> conns (sweep reg now) ip = conns reg ip.
Proof.
  unfold conns, sweep. destruct (reg !! ip) as [e|] eqn:He; simpl; intros Hpos.
  - destruct (keep_entry now e) eqn:Hk.
    + by rewrite (map_lookup_filter_Some_2 _ _ _ _ He).
    + rewrite (proj2 (map_lookup_filter_None _ _ _)); simpl.
      * unfold keep_entry in Hk. b2p. lia.
      * right. intros e' He'. simplify_eq/=. by rewrite Hk.
  - by rewrite (proj2 (map_lookup_filter_None _ _ _)) by auto.
Qed.

Lemma conns_nonneg (s : state S) ip :
  accounting s -> 0 <= conns (ip_registry (the_shield s)) ip.
Proof. intros H. rewrite (acc_conns s H). lia. Qed.

(** A counted task's address has an entry, with a positive count. *)
Lemma counted_positive (s : state S) tid ip p :
  accounting s -> tasks s !! tid = Some (ip, p) -> counted p = true ->
  0 < conns (ip_registry (the_shield s)) ip.
Proof.
  intros H Ht Hp. rewrite (acc_conns s H), (mcount_delete _ _ _ _ Ht).
  rewrite counted_at_self, Hp. simpl. lia.
Qed.
Lemma conns_pos_entry reg ip : 0 < conns reg ip -> is_Some (reg !! ip).
Proof. unfold conns. destruct (reg !! ip); simpl; [eauto|lia]. Qed.

(** A move that touches neither the semaphore nor the registry. *)
Lemma accounting_stay (s : state S) tid ip p q :
  accounting s -> tasks s !! tid = Some (ip, p) ->
  holds_permit q = holds_permit p -> counted q = counted p ->
  accounting (set_phase s tid ip q).
Proof.
  intros H Ht Hh Hc. pose proof (acc_limit s H ip).
  apply (accounting_move s tid ip p q); auto; rewrite ?Hh, ?Hc; lia.
Qed.

Lemma accounting_acquire (s : state S) tid ip :
  accounting s -> tasks s !! tid = Some (ip, PSpawned) -> accounting (do_acquire s tid ip).
Proof.
  intros H Ht. unfold do_acquire.
  destruct (sem_try_acquire _) as [sem|] eqn:Hs; [|by apply (accounting_stay _ _ _ PSpawned)].
  apply sem_acquire_some in Hs as [_ Hs]. pose proof (acc_limit s H ip).
  apply (accounting_move s tid ip PSpawned PPermit); simpl; auto; lia.
Qed.

Lemma accounting_enter (s : state S) tid ip :
  accounting s -> tasks s !! tid = Some (ip, PPermit) -> accounting (do_enter s tid ip).
Proof.
  intros H Ht. unfold do_enter.
  destruct (enter_ip _ _ _) as [reg r] eqn:He.
  apply enter_ip_spec in He as [Ho Hr].
  pose proof (acc_limit s H ip). destruct r; destruct Hr;
    [apply (accounting_move s tid ip PPermit PReading)
    |apply (accounting_move s tid ip PPermit (PRelease (TErr e)))]; simpl; auto; lia.
Qed.

Lemma accounting_rps chk (s : state S) tid ip n ins :
  accounting s -> tasks s !! tid = Some (ip, PRequest n) ->
  accounting (do_rps chk s tid ip n ins).
Proof.
  intros H Ht. unfold do_rps.
  destruct (check_rps _ _ _ _ _) as [[reg r]|] eqn:Hc;
    [|by apply (accounting_stay _ _ _ (PRequest n))].
  assert (Hsame : forall ip', conns reg ip' = conns (ip_registry (the_shield s)) ip').
  { intros ip'. eapply check_rps_conns, Hc.
    by eapply conns_pos_entry, counted_positive. }
  pose proof (acc_limit s H ip).
  destruct r;
    [apply (accounting_move s tid ip (PRequest n) (PProxy n))
    |apply (accounting_move s tid ip (PRequest n) (PCleanup (TErr e)))];
    simpl; rewrite ?Hsame; auto; lia.
Qed.

Lemma accounting_cleanup (s : state S) tid ip r :
  accounting s -> tasks s !! tid = Some (ip, PCleanup r) -> accounting (do_cleanup s tid ip r).
Proof.
  intros H Ht. pose proof (counted_positive s tid ip _ H Ht eq_refl).
  pose proof (acc_limit s H ip).
  apply (accounting_move s tid ip (PCleanup r) (PRelease r)); simpl; auto; try lia.
  - rewrite cleanup_conns, decide_True by done. case_match; b2p; lia.
  - rewrite cleanup_conns, decide_True by done. case_match; b2p; lia.
  - intros ip' Hne. by rewrite cleanup_conns, decide_False by done.
Qed.

Lemma accounting_release (s : state S) tid ip r :
  accounting s -> tasks s !! tid = Some (ip, PRelease r) -> accounting (do_release s tid ip r).
Proof.
  intros H Ht. pose proof (acc_limit s H ip).
  apply (accounting_move s tid ip (PRelease r) (PDone r)); simpl; auto; try lia.
  rewrite sem_release_available. lia.
Qed.

Lemma accounting_sweep (s : state S) :
  accounting s -> accounting (set_registry s (sweep (ip_registry (the_shield s)) (clock s))).
Proof.
  intros H. destruct H as [Hp Hc Hl] eqn:E.
  assert (Hs : forall ip, conns (sweep (ip_registry (the_shield s)) (clock s)) ip
                          = conns (ip_registry (the_shield s)) ip).
  { intros ip. by apply sweep_conns, conns_nonneg. }
  split; simpl; [done|intros ip; rewrite Hs..]; auto.
Qed.

Lemma accounting_step chk l (s s' : state S) :
  accounting s -> step chk l s = Some s' -> accounting s'.
Proof.
  intros H Hs. destruct l; simpl in Hs.
  - destruct (tasks s !! tid) eqn:Ht; simplify_eq.
    destruct H as [Hp Hc Hl]. split; simpl; [|intros ip|done];
      rewrite mcount_insert_fresh by done; simpl; [lia|].
    rewrite Hc. unfold counted_at; simpl. rewrite andb_false_r. simpl. lia.
  - split_match. by apply accounting_acquire.
  - split_match. by apply accounting_enter.
  - destruct (tasks s !! tid) as [[ip [| | | | | | |]]|] eqn:Ht; try done.
    unfold do_read in Hs. split_match; by apply (accounting_stay _ _ _ PReading).
  - split_match. by apply accounting_rps.
  - split_match. by eapply accounting_stay.
  - split_match. by apply accounting_cleanup.
  - split_match. by apply accounting_release.
  - simplify_eq. by apply accounting_sweep.
  - split_match. by destruct H.
Qed.

Lemma accounting_reachable chk (s : state S) : reachable chk s -> accounting s.
Proof.
  apply reach_invariant; [|apply accounting_initial]. intros l s0 s1 Ha. by apply accounting_step.
Qed.

Lemma run_reachable chk ls (s0 s : state S) :
  reachable chk s0 -> run chk ls s0 = Some s -> reachable chk s.
Proof. apply reach_exec. Qed.
End accounting.

(** ** Draining the proxy *)
Section draining.
Context {S : Type} `{!Semaphore S}.

Definition is_done (p : phase) : bool := match p with PDone _ => true | _ => false end.

Lemma do_rps_task chk (s : state S) tid ip n ins :
  exists q, tasks (do_rps chk s tid ip n ins) = <[tid := (ip, q)]> (tasks s) /\
    ((exists m, q = PProxy m) \/ (exists r, q = PCleanup r)).
Proof. unfold do_rps. split_match; simpl; eauto 10. Qed.

Lemma do_enter_task (s : state S) tid ip :
  exists q, tasks (do_enter s tid ip) = <[tid := (ip, q)]> (tasks s) /\
    (q = PReading \/ (exists r, q = PRelease r)).
Proof. unfold do_enter. split_match; simpl; eauto 10. Qed.

Lemma do_acquire_task (s : state S) tid ip :
  exists q, tasks (do_acquire s tid ip) = <[tid := (ip, q)]> (tasks s) /\
    (q = PPermit \/ (exists r, q = PDone r)).
Proof. unfold do_acquire. split_match; simpl; eauto 10. Qed.

(** [can_finish p]: from any state where [tid] is in phase [p], some run of
    [tid] alone ends it, leaving the other tasks where they are. *)
Definition finishes chk (s : state S) tid : Prop :=
  exists ls s', run chk ls s = Some s' /\
    (exists t, tasks s' !! tid = Some t /\ is_done t.2 = true) /\
    forall tid', tid' ≠ tid -> tasks s' !! tid' = tasks s !! tid'.
Definition can_finish chk (p : phase) : Prop :=
  forall (s : state S) tid ip, tasks s !! tid = Some (ip, p) -> finishes chk s tid.

Lemma finishes_step chk l (s s1 : state S) tid ip q :
  step chk l s = Some s1 -> tasks s1 = <[tid := (ip, q)]> (tasks s) ->
  can_finish chk q -> finishes chk s tid.
Proof.
  intros Hl Ht Hq.
  destruct (Hq s1 tid ip) as (ls & s' & Hr & Hd & Ho); [rewrite Ht; apply lookup_insert_eq|].
  exists (l :: ls), s'. simpl. rewrite Hl. split; [done|]. split; [done|].
  intros tid' Hne. rewrite Ho by done. rewrite Ht. by apply lookup_insert_ne.
Qed.

Lemma finish_done chk r : can_finish chk (PDone r).
Proof. intros s tid ip Ht. exists [], s. split; [done|]. split; [|done]. eauto. Qed.
Lemma finish_release chk r : can_finish chk (PRelease r).
Proof.
  intros s tid ip Ht. eapply (finishes_step _ (LRelease tid)); simpl; [by rewrite Ht| |].
  - reflexivity.
  - apply finish_done.
Qed.
Lemma finish_cleanup chk r : can_finish chk (PCleanup r).
Proof.
  intros s tid ip Ht. eapply (finishes_step _ (LCleanup tid)); simpl; [by rewrite Ht| |].
  - reflexivity.
  - apply finish_release.
Qed.
Lemma finish_proxy chk n : can_finish chk (PProxy n).
Proof.
  intros s tid ip Ht. eapply (finishes_step _ (LProxy tid ConnectTimeout)); simpl; [by rewrite Ht| |].
  - reflexivity.
  - apply finish_cleanup.
Qed.
Lemma finish_request chk n : can_finish chk (PRequest n).
Proof.
  intros s tid ip Ht. destruct (do_rps_task chk s tid ip n (clock s)) as (q & Hq & Hc).
  eapply (finishes_step _ (LRps tid (clock s))); simpl;
    [by rewrite Ht, (proj2 (Z.leb_le _ _) (Z.le_refl _))|exact Hq|].
  destruct Hc as [[m ->]|[r ->]]; [apply finish_proxy|apply finish_cleanup].
Qed.
Lemma finish_reading chk : can_finish chk PReading.
Proof.
  intros s tid ip Ht. eapply (finishes_step _ (LRead tid ReadTimeout)); simpl; [by rewrite Ht| |].
  - reflexivity.
  - apply finish_cleanup.
Qed.
Lemma finish_permit chk : can_finish chk PPermit.
Proof.
  intros s tid ip Ht. destruct (do_enter_task s tid ip) as (q & Hq & Hc).
  eapply (finishes_step _ (LEnter tid)); simpl; [by rewrite Ht|exact Hq|].
  destruct Hc as [->|[r ->]]; [apply finish_reading|apply finish_release].
Qed.
Lemma finish_any chk p : can_finish chk p.
Proof.
  destruct p; eauto using finish_done, finish_release, finish_cleanup, finish_proxy,
    finish_request, finish_reading, finish_permit.
  intros s tid ip Ht. destruct (do_acquire_task s tid ip) as (q & Hq & Hc).
  eapply (finishes_step _ (LAcquire tid)); simpl; [by rewrite Ht|exact Hq|].
  destruct Hc as [->|[r ->]]; [apply finish_permit|apply finish_done].
Qed.

(** The tasks outside [todo] being done, the rest can be driven to the end. *)
Lemma drain_list chk (todo : list nat) (s : state S) :
  (forall tid t, tasks s !! tid = Some t -> tid ∈ todo \/ is_done t.2 = true) ->
  exists ls s', run chk ls s = Some s' /\
    forall tid t, tasks s' !! tid = Some t -> is_done t.2 = true.
Proof.
  revert s. induction todo as [|tid todo IH]; intros s Hs.
  - exists [], s. split; [done|]. intros tid t Ht.
    destruct (Hs tid t Ht) as [Hin|]; [by apply not_elem_of_nil in Hin|done].
  - destruct (tasks s !! tid) as [[ip p]|] eqn:Ht.
    + destruct (finish_any chk p s tid ip Ht) as (ls1 & s1 & Hr1 & (t & Ht1 & Hd) & Ho).
      destruct (IH s1) as (ls2 & s2 & Hr2 & Hall).
      { intros tid' t' Ht'. destruct (decide (tid' = tid)) as [->|Hne]; [right; by simplify_eq|].
        rewrite Ho in Ht' by done. destruct (Hs tid' t' Ht') as [Hin|]; [|by right].
        apply elem_of_cons in Hin as [->|]; [done|by left]. }
      exists (ls1 ++ ls2), s2. unfold run. by rewrite (exec_from _ _ _ _ _ Hr1).
    + apply IH. intros tid' t' Ht'. destruct (Hs tid' t' Ht') as [Hin|]; [|by right].
      apply elem_of_cons in Hin as [->|]; [congruence|by left].
Qed.
End draining.

(** ** The request-rate window of one entry *)
Section rate.
(** The instants of [ts] at which the RPS block admits the request. *)
Fixpoint admitted (chk : bool) (e : IpStats) (ts : list Z) : outcome (list Z) :=
  match ts with
  | [] => Val []
  | t :: ts =>
      '(e', r) ← rps_entry chk e t;
      rest ← admitted chk e' ts;
      Val (match r with Ok _ => t :: rest | Err _ => rest end)
  end.

(** How many of them fall in the closed window starting at [a]. *)
Definition in_window (a : Z) (l : list Z) : Z :=
  Z.of_nat (length (List.filter (fun t => (a <=? t) && (t <=? a + BURST_WINDOW)) l)).

Definition budget (e : IpStats) : Z := Z.max 0 (MAX_RPS_PER_IP - rps_count e).

Lemma in_window_cons a t l :
  in_window a (t :: l) =
    in_window a l + Z.b2z ((a <=? t) && (t <=? a + BURST_WINDOW)).
Proof. unfold in_window. simpl. case_match; simpl; lia. Qed.

(** The two ways the block can go. *)
Inductive rps_case (chk : bool) (e : IpStats) (t : Z) : Prop :=
| rps_reset :
    last_request_time e + BURST_WINDOW < t ->
    rps_entry chk e t = Val (mkIpStats (connection_count e) 1 t, Ok tt) -> rps_case chk e t
| rps_count_up (r : result unit string) :
    t <= last_request_time e + BURST_WINDOW ->
    rps_entry chk e t =
      Val (mkIpStats (connection_count e) (rps_count e + 1) (last_request_time e), r) ->
    is_err r = (MAX_RPS_PER_IP <? rps_count e + 1) -> rps_case chk e t.

Lemma rps_entry_cases chk e t :
  last_request_time e <= t -> 0 <= rps_count e < u64_max -> rps_case chk e t.
Proof.
  intros Ht Hr. destruct (Z.ltb_spec (last_request_time e + BURST_WINDOW) t) as [Hw|Hw].
  - apply rps_reset; [done|]. unfold rps_entry, duration_since.
    case_match; b2p; [done|lia].
  - eapply (rps_count_up _ _ _ (if MAX_RPS_PER_IP <? rps_count e + 1 then Err err_rps else Ok tt));
      [done| |by case_match].
    unfold rps_entry, duration_since. rewrite (proj2 (Z.ltb_ge _ _)) by (unfold BURST_WINDOW, secs in *; lia).
    unfold add_usize. rewrite checked_arith_fits by lia. done.
Qed.

Definition room (e : IpStats) (ts : list Z) : Prop :=
  0 <= rps_count e /\ rps_count e + Z.of_nat (length ts) <= u64_max.
Definition from (e : IpStats) (ts : list Z) : Prop := Sorted Z.le (last_request_time e :: ts).

Lemma from_inv e t ts :
  from e (t :: ts) -> last_request_time e <= t /\ from (mkIpStats (connection_count e) 1 t) ts /\
    from (mkIpStats (connection_count e) (rps_count e + 1) (last_request_time e)) ts.
Proof.
  unfold from. intros Hs. inversion Hs as [|? ? Hts Hh]; subst. inversion Hh; subst.
  split; [done|]. split; [done|]. simpl. inversion Hts as [|? ? Hts' Hh']; subst.
  constructor; [done|]. destruct ts; constructor. inversion Hh'; subst. lia.
Qed.

(** What serving one more request does, as the two successor entries. *)
Lemma admitted_cons chk e t ts l :
  room e (t :: ts) -> from e (t :: ts) -> admitted chk e (t :: ts) = Val l ->
  last_request_time e <= t /\
  let reset := mkIpStats (connection_count e) 1 t in
  let bump := mkIpStats (connection_count e) (rps_count e + 1) (last_request_time e) in
  (last_request_time e + BURST_WINDOW < t /\ room reset ts /\ from reset ts /\
   exists l', admitted chk reset ts = Val l' /\ l = t :: l') \/
  (t <= last_request_time e + BURST_WINDOW /\ room bump ts /\ from bump ts /\
   exists l', admitted chk bump ts = Val l' /\
     l = if MAX_RPS_PER_IP <? rps_count e + 1 then l' else t :: l').
Proof.
  intros [Hr1 Hr2] Hf Ha. destruct (from_inv e t ts Hf) as (Ht & Hf1 & Hf2).
  split; [done|]. simpl in Ha. cbn [length] in Hr2.
  destruct (rps_entry_cases chk e t Ht) as [Hw He|r Hw He Hr]; [lia|left|right].
  - rewrite He in Ha. cbn in Ha. split; [done|]. split; [split; simpl; lia|]. split; [done|].
    destruct (admitted chk _ ts); simplify_eq/=; eauto.
  - rewrite He in Ha. cbn in Ha. split; [done|]. split; [split; simpl; lia|]. split; [done|].
    destruct (admitted chk _ ts) as [l'|]; simplify_eq/=. exists l'. split; [done|].
    rewrite <- Hr. by destruct r.
Qed.

Lemma room_cons e t ts :
  room e (t :: ts) ->
  rps_count e < u64_max /\ room (mkIpStats (connection_count e) 1 t) ts /\
  room (mkIpStats (connection_count e) (rps_count e + 1) (last_request_time e)) ts.
Proof. unfold room. cbn [length rps_count]. lia. Qed.

Lemma admitted_total chk ts : forall e,
  room e ts -> from e ts -> exists l, admitted chk e ts = Val l.
Proof.
  induction ts as [|t ts IH]; intros e Hr Hf; [by eexists|].
  destruct (from_inv e t ts Hf) as (Ht & Hf1 & Hf2).
  destruct (room_cons e t ts Hr) as (Hlt & Hr1 & Hr2). destruct Hr as [Hpos _]. simpl.
  destruct (rps_entry_cases chk e t Ht (conj Hpos Hlt)) as [Hw He|r Hw He Hr]; rewrite He; cbn.
  - destruct (IH _ Hr1 Hf1) as [l ->]. by eexists.
  - destruct (IH _ Hr2 Hf2) as [l ->]. by eexists.
Qed.

(** Nothing is admitted before the entry's window. *)
Lemma admitted_after chk a ts : forall e l,
  room e ts -> from e ts -> admitted chk e ts = Val l ->
  a + BURST_WINDOW < last_request_time e -> in_window a l = 0.
Proof.
  induction ts as [|t ts IH]; intros e l Hr Hf Ha Hlt; [by simplify_eq/=|].
  destruct (admitted_cons _ _ _ _ _ Hr Hf Ha) as (Ht & [(? & ? & ? & l' & Ha' & ->)|(? & ? & ? & l' & Ha' & ->)]).
  - rewrite in_window_cons, (IH _ _ ltac:(done) ltac:(done) Ha') by (simpl; lia).
    rewrite (proj2 (Z.leb_gt t _)) by lia. by rewrite andb_false_r.
  - pose proof (IH _ _ ltac:(done) ltac:(done) Ha' ltac:(simpl; lia)) as Hin.
    case_match; [done|]. rewrite in_window_cons, Hin, (proj2 (Z.leb_gt t _)) by lia.
    by rewrite andb_false_r.
Qed.

(** An observation window that starts before the entry's one sees at most
    what the entry has left. *)
Lemma admitted_current chk a ts : forall e l,
  room e ts -> from e ts -> admitted chk e ts = Val l ->
  a <= last_request_time e -> in_window a l <= budget e.
Proof.
  induction ts as [|t ts IH]; intros e l Hr Hf Ha Hle; [simplify_eq/=; unfold budget, in_window; simpl; lia|].
  destruct (admitted_cons _ _ _ _ _ Hr Hf Ha) as (Ht & [(? & ? & ? & l' & Ha' & ->)|(? & ? & ? & l' & Ha' & ->)]).
  - rewrite in_window_cons, (admitted_after chk a ts _ l' ltac:(done) ltac:(done) Ha') by (simpl; lia).
    rewrite (proj2 (Z.leb_gt t _)) by lia. rewrite andb_false_r. unfold budget; simpl; lia.
  - pose proof (IH _ _ ltac:(done) ltac:(done) Ha' ltac:(simpl; lia)) as Hin.
    unfold budget in *; simpl in *. case_match; b2p; [lia|].
    rewrite in_window_cons. destruct ((a <=? t) && _); simpl; lia.
Qed.

(** One that starts inside it sees at most one more window's worth. *)
Lemma admitted_next chk a ts : forall e l,
  room e ts -> from e ts -> Forall (Z.le a) ts -> admitted chk e ts = Val l ->
  in_window a l <= budget e + MAX_RPS_PER_IP.
Proof.
  induction ts as [|t ts IH]; intros e l Hr Hf Hge Ha;
    [simplify_eq/=; unfold budget, in_window, MAX_RPS_PER_IP; simpl; lia|].
  apply Forall_cons in Hge as [Hat Hge].
  destruct (admitted_cons _ _ _ _ _ Hr Hf Ha) as (Ht & [(? & ? & ? & l' & Ha' & ->)|(? & ? & ? & l' & Ha' & ->)]).
  - rewrite in_window_cons.
    pose proof (admitted_current chk a ts _ l' ltac:(done) ltac:(done) Ha' ltac:(done)).
    unfold budget, MAX_RPS_PER_IP in *; simpl in *. destruct ((a <=? t) && _); simpl; lia.
  - pose proof (IH _ _ ltac:(done) ltac:(done) Hge Ha').
    unfold budget, MAX_RPS_PER_IP in *; simpl in *. case_match; b2p; [lia|].
    rewrite in_window_cons. destruct ((a <=? t) && _); simpl; lia.
Qed.

Lemma from_ge e t ts : from e (t :: ts) -> Forall (Z.le t) ts.
Proof.
  intros Hs. inversion Hs as [|? ? Hts _]; subst.
  apply Sorted_StronglySorted in Hts; [by inversion Hts|]. intros x y z. apply Z.le_trans.
Qed.

Lemma admitted_sliding chk a ts : forall e l,
  room e ts -> from e ts -> admitted chk e ts = Val l -> in_window a l <= 2 * MAX_RPS_PER_IP.
Proof.
  induction ts as [|t ts IH]; intros e l Hr Hf Ha; [by simplify_eq/=|].
  destruct (Z.le_gt_cases a t) as [Hat|Hat].
  - transitivity (budget e + MAX_RPS_PER_IP); [|destruct Hr; unfold budget, MAX_RPS_PER_IP; lia].
    eapply admitted_next; [done..| |done]. constructor; [done|].
    eapply Forall_impl; [by eapply from_ge|]. simpl; lia.
  - destruct (admitted_cons _ _ _ _ _ Hr Hf Ha) as (Ht & [(? & ? & ? & l' & Ha' & ->)|(? & ? & ? & l' & Ha' & ->)]);
      pose proof (IH _ _ ltac:(done) ltac:(done) Ha') as Hin; [|case_match; [done|]];
      by rewrite in_window_cons, (proj2 (Z.leb_gt a t)), Z.add_0_r.
Qed.
End rate.

(** ** Many connections from one address *)
Section one_host.
Context {S : Type} `{!Semaphore S}.

Definition host : list Z := [203; 0; 113; 7].
(** Counted handlers whose client has IP address [ip]. *)
Definition counted_from (ip : IpAddr) (t : SocketAddr * phase) : bool :=
  bool_decide (socket_ip t.1 = ip) && counted t.2.

Lemma one_host_reachable chk (n : nat) :
  Z.of_nat n <= MAX_GLOBAL_CONNECTIONS ->
  exists s : state S, reachable chk s /\
    (forall tid, tasks s !! tid =
       if (tid <? n)%nat then Some (SockV4 host (Z.of_nat tid), PReading) else None) /\
    mcount (counted_from (IpV4 host)) (tasks s) = n /\
    mcount (fun t => holds_permit t.2) (tasks s) = n.
Proof.
  induction n as [|n IH]; intros Hn.
  { exists initial. split; [apply reach_init|]. split; [done|]. split; apply mcount_empty. }
  destruct IH as (s & Hr & Ht & Hc & Hp); [lia|].
  pose proof (accounting_reachable _ _ Hr) as Hacc.
  set (ip := SockV4 host (Z.of_nat n)).
  assert (Hfresh : tasks s !! n = None) by (rewrite Ht; case_match eqn:E; [apply Nat.ltb_lt in E; lia|done]).
  assert (Hzero : conns (ip_registry (the_shield s)) ip = 0).
  { rewrite (acc_conns s Hacc), mcount_zero; [done|]. intros tid x Hx. rewrite Ht in Hx.
    case_match eqn:E; [|done]. apply Nat.ltb_lt in E. simplify_eq. unfold counted_at; simpl.
    rewrite bool_decide_false; [done|]. unfold ip. intros [=]. lia. }
  destruct (sem_try_acquire (global_connections (the_shield s))) as [sem|] eqn:Hs.
  2:{ apply sem_acquire_none in Hs. pose proof (acc_permits s Hacc). lia. }
  destruct (enter_ip (ip_registry (the_shield s)) ip (clock s)) as [reg r] eqn:He.
  destruct (enter_ip_spec _ _ _ _ _ He) as [_ Hres].
  destruct r as [[]|]; [|unfold MAX_CONN_PER_IP in Hres; lia].
  eexists. split; [eapply (run_reachable chk [LAccept n ip; LAcquire n; LEnter n] s); [done|]|].
  - simpl. rewrite Hfresh. simpl. rewrite lookup_insert_eq. unfold do_acquire. simpl. rewrite Hs.
    simpl. rewrite lookup_insert_eq. unfold do_enter. simpl. rewrite He. reflexivity.
  - simpl. rewrite !insert_insert_eq. rewrite !mcount_insert_fresh by done. split; [|simpl; lia].
    intros tid. destruct (decide (tid = n)) as [->|Hne].
    + rewrite lookup_insert_eq. by rewrite (proj2 (Nat.ltb_lt _ _)) by lia.
    + rewrite lookup_insert_ne, Ht by done.
      destruct (Nat.ltb_spec tid n), (Nat.ltb_spec tid (Datatypes.S n)); done || lia.
Qed.
End one_host.

(** ** Properties *)

(** What is proxied: the upstream server gets a beginning of the client's
    bytes, the client a beginning of the server's, and nothing before the
    first read has been passed on whole; a task that ends well has passed on
    everything of one side, up to its end.  Only of one side: a client that
    ends its request by closing its direction can get nothing of the answer. *)
Theorem proxied_bytes {W : Type} `{!Copy W} (e : upstream_env W) (first : list Z) (client upstream : reader) :
  let '(up, down, o) := proxy e first client upstream in
  up `prefix_of` first ++ readable client /\ down `prefix_of` readable upstream /\
  (down <> [] -> first `prefix_of` up) /\
  (o = ProxyDone ->
     (up = first ++ readable client /\ fails client = false) \/ (down = readable upstream /\ fails upstream = false)) /\
  (forall n, copy client (to_upstream e) = (readable client, Ok n) ->
     proxy (mkUpstream (Some (Ok tt)) (Ok tt) (ClientFirst 0) (to_upstream e) (to_client e) (copy_error e)) first client upstream =
       (first ++ readable client, [], ProxyDone)).
Proof.
  assert (forall n, copy client (to_upstream e) = (readable client, Ok n) ->
     proxy (mkUpstream (Some (Ok tt)) (Ok tt) (ClientFirst 0) (to_upstream e) (to_client e) (copy_error e)) first client upstream =
       (first ++ readable client, [], ProxyDone)) as Hhalf.
  { intros n Hn. unfold proxy. cbn. by rewrite Hn, copy_unpolled. }
  destruct (proxy e first client upstream) as [[up down] o] eqn:E. unfold proxy in E.
  destruct (connects e) as [[|m]|]; simplify_eq; [|split_and!; auto using prefix_nil; done..].
  destruct (write_first e) as [|[k m]]; simplify_eq.
  2:{ split_and!; auto using prefix_nil; [|done..]. transitivity first; [apply prefix_take|by apply prefix_app_r]. }
  destruct (first_done e) as [k|k].
  - destruct (copy client (to_upstream e)) as [sent r] eqn:Ec; simplify_eq. pose proof (copy_prefix client (to_upstream e)) as Hp. rewrite Ec in Hp. split_and!; [| | | |done].
    + by apply prefix_app.
    + apply copy_dropped_prefix.
    + intros _. by apply prefix_app_r.
    + destruct r as [n|]; [|done]. intros _. left. by apply copy_ok in Ec as (Hf & -> & _).
  - destruct (copy upstream (to_client e)) as [sent r] eqn:Ec; simplify_eq. pose proof (copy_prefix upstream (to_client e)) as Hp. rewrite Ec in Hp. split_and!; [|done| | |done].
    + apply prefix_app, copy_dropped_prefix.
    + intros _. by apply prefix_app_r.
    + destruct r as [n|]; [|done]. intros _. right. by apply copy_ok in Ec as (Hf & -> & _).
Qed.

(** C4. In every reachable state of the proxy, for any interleaving of the
    handlers, the sweeps and the clock: the free permits and the handlers
    holding one add up to the 10000 of the semaphore, so at most that many
    handlers are past [try_acquire]; the registry counts for each socket
    address exactly the handlers that entered it and have not run their cleanup
    guard; and no socket address has more than 20 of them. *)
Theorem shield_accounting {S : Type} `{!Semaphore S} (chk : bool) (s : state S) :
  reachable chk s ->
  sem_available (global_connections (the_shield s))
    + Z.of_nat (mcount (fun t => holds_permit t.2) (tasks s)) = MAX_GLOBAL_CONNECTIONS /\
  (forall ip, conns (ip_registry (the_shield s)) ip = Z.of_nat (mcount (counted_at ip) (tasks s))) /\
  (forall ip, Z.of_nat (mcount (counted_at ip) (tasks s)) <= MAX_CONN_PER_IP).
Proof.
  intros Hr. destruct (accounting_reachable chk s Hr) as [Hp Hc Hl].
  split; [done|]. split; [done|]. intros ip. rewrite <- Hc. apply Hl.
Qed.

(** C32. Nothing leaks: from every reachable state the proxy has a run after
    which every handler has ended, and then all 10000 permits are free again
    and every address counts zero connections. *)
Theorem shield_drains {S : Type} `{!Semaphore S} (chk : bool) (s : state S) :
  reachable chk s ->
  exists ls s', run chk ls s = Some s' /\
    (forall tid t, tasks s' !! tid = Some t -> is_done t.2 = true) /\
    sem_available (global_connections (the_shield s')) = MAX_GLOBAL_CONNECTIONS /\
    forall ip, conns (ip_registry (the_shield s')) ip = 0.
Proof.
  intros Hr. destruct (drain_list chk (map fst (map_to_list (tasks s))) s) as (ls & s' & Hrun & Hd).
  { intros tid t Ht. left. apply list_elem_of_fmap. exists (tid, t).
    split; [done|]. by apply elem_of_map_to_list. }
  exists ls, s'. split; [done|]. split; [done|].
  assert (Hnone : forall f : SocketAddr * phase -> bool,
            (forall t, is_done t.2 = true -> f t = false) -> mcount f (tasks s') = 0%nat).
  { intros f Hf. apply mcount_zero. eauto. }
  destruct (accounting_reachable chk s' (run_reachable _ _ _ _ Hr Hrun)) as [Hp Hc _].
  split.
  - rewrite Hnone in Hp by (by intros [? []]). lia.
  - intros ip. rewrite Hc, Hnone; [done|]. intros [ip' []]; try done.
    intros _. apply andb_false_r.
Qed.

(** C33. Rate limit: for requests of one socket address arriving at
    nondecreasing instants, in either build, the RPS block admits at most
    twice [MAX_RPS_PER_IP] in any closed window of one second (two counting
    windows can meet inside it), and at most what the entry has left of its 50
    while its own window lasts. *)
Theorem rps_sliding_window (chk : bool) (e : IpStats) (ts : list Z) :
  0 <= rps_count e -> rps_count e + Z.of_nat (length ts) <= u64_max ->
  Sorted Z.le (last_request_time e :: ts) ->
  exists l, admitted chk e ts = Val l /\
    (forall a, in_window a l <= 2 * MAX_RPS_PER_IP) /\
    in_window (last_request_time e) l <= Z.max 0 (MAX_RPS_PER_IP - rps_count e).
Proof.
  intros Hpos Hroom Hs. destruct (admitted_total chk ts e) as [l Hl]; [by split|done|].
  exists l. split; [done|]. split.
  - intros a. eapply admitted_sliding; [by split|done..].
  - eapply admitted_current; [by split|done..].
Qed.

(** The registry is keyed by the whole socket address, port included, so
    the "per IP" limit does not bound one client host: for every [n] up to the
    global limit a state is reachable in which [n] handlers of the same IP
    address are connected at once. *)
Theorem per_ip_limit_is_per_port {S : Type} `{!Semaphore S} (chk : bool) (n : nat) :
  Z.of_nat n <= MAX_GLOBAL_CONNECTIONS ->
  exists (s : state S) (ip : IpAddr), reachable chk s /\ mcount (counted_from ip) (tasks s) = n.
Proof.
  intros Hn. destruct (one_host_reachable (S := S) chk n Hn) as (s & Hr & _ & Hc & _).
  by exists s, (IpV4 host).
Qed.

(** *** Witnesses *)
Definition client_a : SocketAddr := SockV4 [203; 0; 113; 7] 50000.
Definition client_b : SocketAddr := SockV4 [203; 0; 113; 7] 50001.

(** Two clients; the first is admitted and served, the second is cut off by
    the read timeout, and a sweep runs in between. *)
Definition demo : list label :=
  [LAccept 0 client_a; LAccept 1 client_b; LAcquire 0; LEnter 0; LAcquire 1; LTick (secs 2);
   LRead 0 (ReadBytes 120); LEnter 1; LRps 0 0; LSweep; LRead 1 ReadTimeout; LCleanup 1].
Definition demo_state : state Z := default initial (run true demo initial).

Example demo_phases :
  tasks demo_state !! 0%nat = Some (client_a, PProxy 120) /\
  tasks demo_state !! 1%nat = Some (client_b, PRelease (TErr err_slow)) /\
  global_connections (the_shield demo_state) = 9998.
Proof. vm_compute. done. Qed.

Lemma demo_reachable : reachable true demo_state.
Proof. apply (run_reachable true demo initial); [apply reach_init|]. vm_compute. reflexivity. Qed.

Lemma shield_accounting_witness :
  sem_available (global_connections (the_shield demo_state))
    + Z.of_nat (mcount (fun t => holds_permit t.2) (tasks demo_state)) = MAX_GLOBAL_CONNECTIONS.
Proof. exact (proj1 (shield_accounting true demo_state demo_reachable)). Defined.

Lemma shield_drains_witness :
  exists ls s', run true ls demo_state = Some s' /\
    sem_available (global_connections (the_shield s')) = 10000.
Proof.
  destruct (shield_drains true demo_state demo_reachable) as (ls & s' & Hr & _ & Ha & _).
  exists ls, s'. split; [exact Hr|exact Ha].
Defined.

(** Sixty requests at the end of a window and sixty in the next: fifty of each
    are admitted, a hundred within one second. *)
Lemma rps_sliding_window_witness :
  let e := mkIpStats 1 0 0 in
  let ts := replicate 60 (secs 1) ++ replicate 60 (secs 1 + 1) in
  (exists l, admitted true e ts = Val l /\ in_window (secs 1) l = 100) /\
  exists l, admitted true e ts = Val l /\ forall a, in_window a l <= 100.
Proof.
  split; [exists (replicate 50 (secs 1) ++ replicate 50 (secs 1 + 1)); split; [vm_compute|]; reflexivity|].
  destruct (rps_sliding_window true (mkIpStats 1 0 0)
              (replicate 60 (secs 1) ++ replicate 60 (secs 1 + 1))) as (l & Hl & Ha & _).
  - vm_compute. done.
  - vm_compute. done.
  - unfold secs; cbn [replicate app last_request_time]. repeat first [apply Sorted_nil | apply Sorted_cons | apply HdRel_nil | apply HdRel_cons
                      | (vm_compute; discriminate)].
  - exists l. split; [exact Hl|exact Ha].
Defined.

Lemma per_ip_limit_is_per_port_witness :
  exists (s : state Z) (ip : IpAddr), reachable true s /\ mcount (counted_from ip) (tasks s) = 500%nat.
Proof. apply (per_ip_limit_is_per_port true 500). vm_compute. discriminate. Defined.
