(* ===== verification/Doge.v ===== *)
(** The blockchain node of [src/doge-rust/src/main.rs]: transactions, blocks,
    the chain, the [hex] module and the node's message handler.

    SHA-256, ed25519 and serde_json are crates: they are the fields of the
    classes [Crypto] and [Json], with the laws the node relies on.  [chk] says
    whether the build checks integer overflow (see [Prelude]). *)
From S2P Require Import Prelude Bytes F64 Net.

(** ** The module [hex] *)
Module Hex.
Definition encode (bs : bytes) : bytes := concat (map hex2 bs).

(** [decode]: the pieces [s\[i..i+2\]] are taken one after the other, each may
    panic; the first parse error ends the collection. *)
Fixpoint decode_at (s : bytes) (idx : list nat) : outcome (result bytes unit) :=
  match idx with
  | [] => Val (Ok [])
  | i :: idx =>
      piece ← slice s i (i + 2);
      match u8_from_hex piece with
      | None => Val (Err tt)
      | Some b =>
          r ← decode_at s idx;
          Val (match r with Ok bs => Ok (b :: bs) | Err e => Err e end)
      end
  end.
(** [(0..s.len()).step_by(2)]. *)
Definition step_by_2 (n : nat) : list nat := map (fun k => (2 * k)%nat) (seq 0 (Nat.div2 (n + 1))).
Definition decode (s : bytes) : outcome (result bytes unit) := decode_at s (step_by_2 (length s)).
End Hex.

(** [Vec::try_into::<\[u8; n\]>().unwrap_or(\[0; n\])]. *)
Definition array_or_zeros (n : nat) (bs : bytes) : bytes :=
  if (length bs =? n)%nat then bs else replicate n 0.

Definition DIFFICULTY : nat := 4.
Definition MINING_REWARD : f64 := f64_of_Z 50.
Definition SYSTEM : bytes := lit "SYSTEM".

(** ** Data *)
Record Transaction : Type := mkTransaction {
  sender : bytes;
  receiver : bytes;
  amount : f64;
  signature : option bytes;
}.
Definition new_transaction (sender receiver : bytes) (amount : f64) : Transaction :=
  mkTransaction sender receiver amount None.

Record Block : Type := mkBlock {
  index : Z;                  (* u32 *)
  timestamp : Z;              (* u64 *)
  transactions : list Transaction;
  previous_hash : bytes;
  hash : bytes;
  nonce : Z;                  (* u64 *)
}.

Record Blockchain : Type := mkBlockchain {
  chain : list Block;
  pending_transactions : list Transaction;
}.

Inductive Message : Type :=
| NewTransaction (tx : Transaction)
| NewBlock (b : Block).

(** ** The crates *)
Class Crypto := {
  sha256 : bytes -> bytes;
  SigningKey : Type;
  VerifyingKey : Type;
  Signature : Type;
  verifying_key : SigningKey -> VerifyingKey;
  vk_to_bytes : VerifyingKey -> bytes;
  vk_from_bytes : bytes -> option VerifyingKey;
  sig_to_bytes : Signature -> bytes;
  sig_from_bytes : bytes -> option Signature;
  ed_sign : SigningKey -> bytes -> Signature;
  ed_verify : VerifyingKey -> bytes -> Signature -> bool;
  vk_bytes_wf : forall k, is_bytes (vk_to_bytes k) /\ length (vk_to_bytes k) = 32%nat;
  vk_round_trip : forall k, vk_from_bytes (vk_to_bytes k) = Some k;
  sig_bytes_len : forall s, length (sig_to_bytes s) = 64%nat;
  sig_round_trip : forall s, sig_from_bytes (sig_to_bytes s) = Some s;
  ed_correct : forall k m, ed_verify (verifying_key k) m (ed_sign k m) = true;
}.

Class Json := {
  txs_to_json : list Transaction -> bytes;
  msg_to_json : Message -> bytes;
  msg_from_json : bytes -> option Message;
}.

Section node.
Context {CR : Crypto} {JS : Json}.

(** ** [impl Transaction] *)
Definition tx_hash (tx : Transaction) : bytes :=
  sha256 (sender tx ++ receiver tx ++ f64_display (amount tx)).

Definition sign (tx : Transaction) (key : SigningKey) : Transaction :=
  mkTransaction (sender tx) (receiver tx) (amount tx)
    (Some (sig_to_bytes (ed_sign key (tx_hash tx)))).

Definition verify_signature (tx : Transaction) : outcome bool :=
  if decide (sender tx = SYSTEM) then Val true
  else
    match signature tx with
    | None => Val false
    | Some sig_bytes =>
        pk ← Hex.decode (sender tx);
        Val (match pk with
             | Err _ => false
             | Ok pk =>
                 match vk_from_bytes (array_or_zeros 32 pk) with
                 | None => false
                 | Some key =>
                     match sig_from_bytes (array_or_zeros 64 sig_bytes) with
                     | None => false
                     | Some sg => ed_verify key (tx_hash tx) sg
                     end
                 end
             end)
    end.

(** ** [impl Block] *)
Definition block_hash (b : Block) : bytes :=
  Hex.encode (sha256 (dec (index b) ++ dec (timestamp b) ++ txs_to_json (transactions b)
                      ++ previous_hash b ++ dec (nonce b))).

Definition with_nonce (b : Block) (n : Z) : Block :=
  let b := mkBlock (index b) (timestamp b) (transactions b) (previous_hash b) (hash b) n in
  mkBlock (index b) (timestamp b) (transactions b) (previous_hash b) (block_hash b) n.

(** [Block::new] at [now] seconds from the epoch; a clock before it panics. *)
Definition new_block (now : Z) (index : Z) (txs : list Transaction) (previous_hash : bytes) : outcome Block :=
  if now <? 0 then Panic
  else
    let b := mkBlock index now txs previous_hash [] 0 in
    Val (mkBlock index now txs previous_hash (block_hash b) 0).

(** The loop of [Block::mine], [None] when the fuel runs out. *)
Fixpoint mine (chk : bool) (fuel : nat) (difficulty : nat) (b : Block) : option (outcome Block) :=
  if starts_with (hash b) (replicate difficulty 48) then Some (Val b)
  else
    match fuel with
    | O => None
    | S fuel =>
        match add_u64 chk (nonce b) 1 with
        | Val n => mine chk fuel difficulty (with_nonce b n)
        | Panic => Some Panic
        end
    end.

(** ** [impl Blockchain] *)
Definition get_latest_block (bc : Blockchain) : outcome Block :=
  match last (chain bc) with Some b => Val b | None => Panic end.

Definition genesis_txs : list Transaction :=
  [new_transaction SYSTEM (lit "Genesis_Receiver") (f64_of_Z 1000000)].

Definition new_blockchain (chk : bool) (fuel : nat) (now : Z) : option (outcome Blockchain) :=
  match new_block now 0 genesis_txs (lit "0") with
  | Panic => Some Panic
  | Val g =>
      match mine chk fuel DIFFICULTY g with
      | None => None
      | Some r => Some (g ← r; Val (mkBlockchain ([] ++ [g]) []))
      end
  end.

Definition err_amount : string := "The transaction amount must be greater than 0".
Definition err_signature : string := "Critical error: Transaction digital signature is invalid!".
Definition err_previous : string := "The previous hash does not match ..".
Definition err_hash : string := "Block hash is corrupted ..".

Definition add_transaction (bc : Blockchain) (tx : Transaction) : outcome (Blockchain * result unit string) :=
  if f64_le (amount tx) f64_zero then Val (bc, Err err_amount)
  else
    ok ← verify_signature tx;
    Val (if negb ok then (bc, Err err_signature)
         else (mkBlockchain (chain bc) (pending_transactions bc ++ [tx]), Ok tt)).

(** The block it builds before mining. *)
Definition candidate (chk : bool) (bc : Blockchain) (miner_address : bytes) (now : Z) : outcome Block :=
  let reward_tx := new_transaction SYSTEM miner_address MINING_REWARD in
  let block_txs := [reward_tx] ++ pending_transactions bc in
  last_block ← get_latest_block bc;
  i ← add_u32 chk (index last_block) 1;
  new_block now i block_txs (hash last_block).

Definition mine_pending_transactions (chk : bool) (fuel : nat) (bc : Blockchain)
    (miner_address : bytes) (now : Z) : option (outcome (Blockchain * Block)) :=
  match candidate chk bc miner_address now with
  | Panic => Some Panic
  | Val b =>
      match mine chk fuel DIFFICULTY b with
      | None => None
      | Some r => Some (b ← r; Val (mkBlockchain (chain bc ++ [b]) [], b))
      end
  end.

Definition add_block_from_network (bc : Blockchain) (b : Block) : outcome (Blockchain * result unit string) :=
  last_block ← get_latest_block bc;
  Val (if bool_decide (previous_hash b ≠ hash last_block) then (bc, Err err_previous)
       else if bool_decide (hash b ≠ block_hash b) then (bc, Err err_hash)
       else (mkBlockchain (chain bc ++ [b]) [], Ok tt)).

(** ** The network *)

(** [handle_connection] on what one read into the 4096-byte buffer returned
    ([None]: the read failed).  A panic ends the task; tokio's mutex is not
    poisoned, so the shared chain stays as it was. *)
Definition handle_connection (bc : Blockchain) (read : option bytes) : outcome Blockchain :=
  match read with
  | None | Some [] => Val bc
  | Some data =>
      match msg_from_json data with
      | None => Val bc
      | Some (NewTransaction tx) => fst <$> add_transaction bc tx
      | Some (NewBlock b) => fst <$> add_block_from_network bc b
      end
  end.
Definition READ_BUFFER : nat := 4096.

(** [broadcast_message]: the payloads written, for the peers that accept. *)
Definition broadcast_message (peers : list SocketAddr) (accepts : SocketAddr -> bool) (msg : Message)
  : list (SocketAddr * bytes) :=
  map (fun p => (p, msg_to_json msg)) (List.filter accepts peers).
End node.


(** ** [hex::decode] *)
Section hex_facts.

(** A text that goes on inside a character. *)
Definition inside (s : bytes) : bool := match s with b :: _ => is_cont b | [] => false end.

(** The same function by recursion on pairs of bytes. *)
Fixpoint hex_pairs (s : bytes) : outcome (result bytes unit) :=
  match s with
  | [] => Val (Ok [])
  | [_] => Panic
  | a :: b :: s =>
      if inside s then Panic
      else
        match u8_from_hex [a; b] with
        | None => Val (Err tt)
        | Some x => r ← hex_pairs s; Val (match r with Ok bs => Ok (x :: bs) | Err e => Err e end)
        end
  end.

Lemma step_by_2_pair n :
  Hex.step_by_2 (S (S n)) = 0%nat :: map (fun i => (2 + i)%nat) (Hex.step_by_2 n).
Proof.
  unfold Hex.step_by_2. replace (Nat.div2 (S (S n) + 1)) with (S (Nat.div2 (n + 1))) by done.
  cbn [seq map]. f_equal. rewrite <- seq_shift, !map_map. apply map_ext. intros; lia.
Qed.

Lemma boundary_behind pre s : pre <> [] -> is_boundary (pre ++ s) (length pre) = negb (inside s).
Proof.
  intros Hne. unfold is_boundary. destruct (length pre) as [|n] eqn:E; [by destruct pre|]. rewrite <- E.
  rewrite lookup_app_r, Nat.sub_diag by lia. destruct s as [|b s]; cbn; [|done].
  rewrite app_nil_r. by rewrite Nat.eqb_refl.
Qed.

Lemma boundary_2 a b s : is_boundary (a :: b :: s) 2 = negb (inside s).
Proof. apply (boundary_behind [a; b]). done. Qed.

Lemma slice_pair pre a b s : is_boundary (pre ++ a :: b :: s) (length pre) = true ->
  slice (pre ++ a :: b :: s) (length pre) (length pre + 2) = if inside s then Panic else Val [a; b].
Proof.
  intros Hb. unfold slice. rewrite Hb, (proj2 (Nat.leb_le _ _)), (proj2 (Nat.leb_le _ _)) by (rewrite ?length_app; cbn; lia).
  pose proof (boundary_behind (pre ++ [a; b]) s ltac:(by destruct pre)) as H2. rewrite length_app, <- app_assoc in H2. cbn [length app] in H2.
  rewrite H2. cbn [andb]. destruct (inside s); [done|]. cbn [negb].
  rewrite drop_app_length. replace (length pre + 2 - length pre)%nat with 2%nat by lia. done.
Qed.

Lemma decode_at_pairs (n : nat) : forall s pre, (length s <= n)%nat -> is_boundary (pre ++ s) (length pre) = true ->
  Hex.decode_at (pre ++ s) (map (fun i => (length pre + i)%nat) (Hex.step_by_2 (length s)))
    = hex_pairs s.
Proof.
  induction n as [|n IH]; intros [|a [|b s]] pre Hlen Hb; simpl in Hlen; try lia; [done..| |].
  - cbn. rewrite Nat.add_0_r, slice_over; [done|]. rewrite length_app; simpl; lia.
  - cbn [length]. rewrite step_by_2_pair. cbn [map Hex.decode_at]. rewrite Nat.add_0_r.
    rewrite slice_pair by done. cbn [hex_pairs]. destruct (inside s) eqn:Hi; [done|]. cbn [mbind outcome_bind].
    destruct (u8_from_hex [a; b]) as [x|]; [|done].
    rewrite <- (IH s (pre ++ [a; b])); [|lia|by rewrite boundary_behind, Hi by by destruct pre].
    rewrite <- app_assoc, map_map, length_app. cbn [app length].
    do 2 f_equal. apply map_ext. intros; lia.
Qed.

Lemma decode_pairs s : Hex.decode s = hex_pairs s.
Proof.
  rewrite <- (decode_at_pairs (length s) s []) by done.
  unfold Hex.decode. simpl. by rewrite map_id.
Qed.

Lemma ascii_inside s : is_ascii s -> inside s = false.
Proof. destruct 1 as [|b s Hb _]; [done|]. cbn. unfold is_cont, byte_in. lia. Qed.

Lemma encode_ascii bs : is_bytes bs -> is_ascii (Hex.encode bs).
Proof.
  unfold Hex.encode. induction 1 as [|b bs Hb _ IH]; [by constructor|].
  cbn [map concat]. apply is_ascii_app. split; [by apply hex2_ascii|done].
Qed.

Lemma hex_pairs_encode bs t : inside t = false ->
  is_bytes bs -> hex_pairs (Hex.encode bs ++ t) =
    (r ← hex_pairs t; Val (match r with Ok cs => Ok (bs ++ cs) | Err e => Err e end)).
Proof.
  intros Ht. unfold Hex.encode. induction 1 as [|b bs Hb Hbs IH].
  - simpl. by destruct (hex_pairs t) as [[]|].
  - assert (inside (concat (map hex2 bs) ++ t) = false) as Hi.
    { pose proof (ascii_inside _ (encode_ascii bs Hbs)) as Hi. unfold Hex.encode in Hi. by destruct (concat (map hex2 bs)). }
    cbn [map concat]. rewrite <- app_assoc. unfold hex2 at 1. cbn [app hex_pairs]. rewrite Hi.
    pose proof (u8_from_hex2 b Hb) as Hx. unfold hex2 in Hx. rewrite Hx, IH.
    by destruct (hex_pairs t) as [[]|].
Qed.

Lemma hex_round_trip bs : is_bytes bs -> Hex.decode (Hex.encode bs) = Val (Ok bs).
Proof.
  intros Hb. rewrite decode_pairs.
  rewrite <- (app_nil_r (Hex.encode bs)), hex_pairs_encode by done. simpl. by rewrite app_nil_r.
Qed.

(** A panic means full pairs of digits in front of a piece that does not end
    at a character boundary. *)
Lemma hex_pairs_panic n : forall s, (length s <= n)%nat ->
  hex_pairs s = Panic <->
  exists t u bs, s = t ++ u /\ hex_pairs t = Val (Ok bs) /\ u <> [] /\ is_boundary u 2 = false.
Proof.
  induction n as [|n IH]; intros [|a [|b s]] Hlen; simpl in Hlen; try lia.
  1,2: split; [done|]. 1,2: intros ([|] & [|] & bs & Heq & _ & Hu & _); simplify_eq/=.
  - split; [|done]. intros _. by exists [], [a], [].
  - cbn [hex_pairs]. destruct (inside s) eqn:Hi.
    { split; [|done]. intros _. exists [], (a :: b :: s), []. by rewrite boundary_2, Hi. }
    specialize (IH s ltac:(lia)). split.
    + destruct (u8_from_hex [a; b]) as [x|] eqn:Hx; [|done].
      destruct (hex_pairs s) as [r|] eqn:Hs; [by destruct r|]. intros _.
      destruct (proj1 IH eq_refl) as (t & u & bs & -> & Ht & Hu). exists (a :: b :: t), u, (x :: bs). split; [done|].
      split; [|done]. cbn [hex_pairs]. assert (inside t = false) as -> by by destruct t. by rewrite Hx, Ht.
    + intros (t & u & bs & Heq & Ht & Hu & Hb). destruct t as [|a' t0].
      { cbn in Heq. subst u. by rewrite boundary_2, Hi in Hb. }
      destruct t0 as [|b' t]; [done|]. injection Heq as <- <- ->. cbn [hex_pairs] in Ht.
      destruct (inside t); [done|]. destruct (u8_from_hex [a; b]) as [x|]; [|done].
      destruct (hex_pairs t) as [[bs'|]|] eqn:Ht'; try done.
      rewrite (proj2 IH); [done|]. by exists t, u, bs'.
Qed.

Lemma hex_decode_panic s : Hex.decode s = Panic <->
  exists t u bs, s = t ++ u /\ Hex.decode t = Val (Ok bs) /\ u <> [] /\ is_boundary u 2 = false.
Proof.
  rewrite decode_pairs, (hex_pairs_panic (length s)) by done.
  split; intros (t & u & bs & Ht); exists t, u, bs; by rewrite ?decode_pairs in *.
Qed.

(** In ASCII text such a piece is a single character. *)
Lemma ascii_boundary_2 u : is_ascii u -> u <> [] -> is_boundary u 2 = false <-> exists c, u = [c].
Proof.
  intros Ha Hne. destruct u as [|a [|b u]]; [done|split; [by exists a|done]|].
  rewrite boundary_2, ascii_inside by (by apply Forall_inv_tail, Forall_inv_tail in Ha). split; [done|by intros [? [=]]].
Qed.

Lemma hex_decode_panic_ascii s : is_ascii s ->
  Hex.decode s = Panic <-> exists t c bs, s = t ++ [c] /\ Hex.decode t = Val (Ok bs).
Proof.
  intros Ha. rewrite hex_decode_panic. split.
  - intros (t & u & bs & -> & Ht & Hne & Hb). apply is_ascii_app in Ha as [_ Ha].
    apply ascii_boundary_2 in Hb as [c ->]; [|done..]. by exists t, c, bs.
  - intros (t & c & bs & -> & Ht). by exists t, [c], bs.
Qed.
End hex_facts.

(** ** Transactions *)
Section transaction_facts.
Context {CR : Crypto} {JS : Json}.

Lemma array_or_zeros_id n bs : length bs = n -> array_or_zeros n bs = bs.
Proof. intros H. unfold array_or_zeros. by rewrite (proj2 (Nat.eqb_eq _ _) H). Qed.

(** What the verification of a decoded sender decides. *)
Definition signature_valid (tx : Transaction) (pk sig_bytes : bytes) : bool :=
  match vk_from_bytes (array_or_zeros 32 pk), sig_from_bytes (array_or_zeros 64 sig_bytes) with
  | Some key, Some sg => ed_verify key (tx_hash tx) sg
  | _, _ => false
  end.

Lemma verify_signature_decoded tx sg pk :
  sender tx ≠ SYSTEM -> signature tx = Some sg -> Hex.decode (sender tx) = Val (Ok pk) ->
  verify_signature tx = Val (signature_valid tx pk sg).
Proof.
  intros Hs Hg Hd. unfold verify_signature, signature_valid.
  rewrite decide_False by done. rewrite Hg, Hd. simpl. by repeat case_match.
Qed.

Lemma verify_signature_panics tx :
  verify_signature tx = Panic <->
  sender tx ≠ SYSTEM /\ is_Some (signature tx) /\ Hex.decode (sender tx) = Panic.
Proof.
  unfold verify_signature. destruct (decide _) as [|Hs]; [split; [done|by intros []]|].
  destruct (signature tx) as [sg|]; [|split; [done|by intros (_ & [] & _)]].
  destruct (Hex.decode (sender tx)) as [r|]; simpl; split; try done; eauto.
  by intros (_ & _ & ?).
Qed.

Lemma sign_verifies tx key : sender tx = Hex.encode (vk_to_bytes (verifying_key key)) -> verify_signature (sign tx key) = Val true.
Proof.
  intros Hs. destruct (vk_bytes_wf (verifying_key key)) as [Hb Hlen].
  destruct (decide (sender (sign tx key) = SYSTEM)) as [E|E]; [unfold verify_signature; by rewrite decide_True|].
  rewrite (verify_signature_decoded _ (sig_to_bytes (ed_sign key (tx_hash tx)))
             (vk_to_bytes (verifying_key key)) E); [|done|simpl; rewrite Hs; by apply hex_round_trip].
  unfold signature_valid.
  rewrite !array_or_zeros_id, vk_round_trip, sig_round_trip by (done || apply sig_bytes_len).
  f_equal. apply ed_correct.
Qed.
End transaction_facts.

(** ** Mining *)
Section mining_facts.
Context {CR : Crypto} {JS : Json}.

Definition target (difficulty : nat) (h : bytes) : bool := starts_with h (replicate difficulty 48).

Lemma with_nonce_twice b n m : with_nonce (with_nonce b n) m = with_nonce b m.
Proof. done. Qed.
Lemma with_nonce_self b : hash b = block_hash b -> with_nonce b (nonce b) = b.
Proof. intros H. destruct b. unfold with_nonce, block_hash in *. simpl in *. by rewrite H. Qed.
Lemma with_nonce_hash b n : hash (with_nonce b n) = block_hash (with_nonce b n).
Proof. done. Qed.

Lemma mine_finds chk difficulty (k : nat) : forall b fuel,
  hash b = block_hash b -> 0 <= nonce b ->
  (k <= fuel)%nat -> nonce b + Z.of_nat k <= u64_max ->
  target difficulty (hash (with_nonce b (nonce b + Z.of_nat k))) = true ->
  (forall i, nonce b <= i < nonce b + Z.of_nat k ->
     target difficulty (hash (with_nonce b i)) = false) ->
  mine chk fuel difficulty b = Some (Val (with_nonce b (nonce b + Z.of_nat k))).
Proof.
  induction k as [|k IH]; intros b fuel Hb Hn Hf Hmax Hgood Hleast;
    pose proof (with_nonce_self b Hb) as Hself.
  - rewrite Z.add_0_r, Hself in *. unfold target in Hgood. destruct fuel; simpl; by rewrite Hgood.
  - destruct fuel as [|fuel]; [lia|]. cbn [mine].
    assert (H0 := Hleast (nonce b) ltac:(lia)). unfold target in H0. rewrite Hself in H0. rewrite H0.
    unfold add_u64. rewrite checked_arith_fits by lia.
    replace (nonce b + Z.of_nat (S k)) with (nonce b + 1 + Z.of_nat k) in * by lia.
    apply (IH (with_nonce b (nonce b + 1)) fuel); try done; try (simpl; lia).
    intros i Hi. apply (Hleast i). simpl in Hi. lia.
Qed.

(** Whatever the loop returns hashes correctly and meets the target. *)
Lemma mine_sound chk difficulty fuel : forall b b',
  hash b = block_hash b -> mine chk fuel difficulty b = Some (Val b') ->
  hash b' = block_hash b' /\ target difficulty (hash b') = true /\
  index b' = index b /\ timestamp b' = timestamp b /\
  transactions b' = transactions b /\ previous_hash b' = previous_hash b.
Proof.
  induction fuel as [|fuel IH]; intros b b' Hb; cbn [mine].
  - destruct (starts_with _ _) eqn:E; [|done]. by intros [= <-].
  - destruct (starts_with _ _) eqn:E; [by intros [= <-]|].
    destruct (add_u64 _ _ _) as [n|]; [|done]. intros Hm.
    by destruct (IH _ _ (with_nonce_hash b n) Hm) as (? & ? & ? & ? & ? & ?).
Qed.

Lemma new_block_hash now i txs prev b :
  new_block now i txs prev = Val b ->
  hash b = block_hash b /\ index b = i /\ transactions b = txs /\ previous_hash b = prev /\ nonce b = 0.
Proof. unfold new_block. case_match; [done|]. by intros [= <-]. Qed.
End mining_facts.

(** ** The chain *)
Section chain_facts.
Context {CR : Crypto} {JS : Json}.

(** Each block points to the hash of the one before it. *)
Fixpoint linked (l : list Block) : Prop :=
  match l with
  | b1 :: ((b2 :: _) as l') => previous_hash b2 = hash b1 /\ linked l'
  | _ => True
  end.

Lemma linked_snoc l b :
  linked l -> (forall b0, last l = Some b0 -> previous_hash b = hash b0) -> linked (l ++ [b]).
Proof.
  induction l as [|b1 [|b2 l] IH]; intros Hl Hb; [done|split; [by apply Hb|done]|].
  destruct Hl as [H12 Hl]. split; [done|]. apply IH; [done|].
  intros b0 H0. apply Hb. by rewrite last_cons_cons.
Qed.

(** A transaction [add_transaction] lets in. *)
Definition tx_accepted (tx : Transaction) : Prop :=
  f64_le (amount tx) f64_zero = false /\ verify_signature tx = Val true.

Record chain_ok (bc : Blockchain) : Prop := {
  ok_nonempty : chain bc ≠ [];
  ok_linked : linked (chain bc);
  ok_hashes : Forall (fun b => hash b = block_hash b) (chain bc);
  ok_pending : Forall tx_accepted (pending_transactions bc);
}.

(** What a running node does with its chain. *)
Inductive node_step (chk : bool) : Blockchain -> Blockchain -> Prop :=
| step_add bc tx bc' r :
    add_transaction bc tx = Val (bc', r) -> node_step chk bc bc'
| step_mine bc fuel addr now bc' b :
    mine_pending_transactions chk fuel bc addr now = Some (Val (bc', b)) -> node_step chk bc bc'
| step_connection bc read bc' :
    handle_connection bc read = Val bc' -> node_step chk bc bc'.

Lemma get_latest_block_some bc : chain bc ≠ [] -> exists b, last (chain bc) = Some b /\ get_latest_block bc = Val b.
Proof.
  unfold get_latest_block. intros Hne. destruct (last (chain bc)) as [b|] eqn:E; [eauto|].
  by apply last_None in E.
Qed.

Lemma add_transaction_cases bc tx bc' r :
  add_transaction bc tx = Val (bc', r) ->
  (r = Ok tt /\ tx_accepted tx /\ bc' = mkBlockchain (chain bc) (pending_transactions bc ++ [tx])) \/
  (is_err r = true /\ bc' = bc).
Proof.
  unfold add_transaction, tx_accepted. destruct (f64_le _ _); [intros; simplify_eq; by right|].
  destruct (verify_signature tx) as [[]|]; simpl; intros; simplify_eq; [by left|by right].
Qed.

Lemma add_block_cases bc b bc' r :
  add_block_from_network bc b = Val (bc', r) ->
  (r = Ok tt /\ (forall l, last (chain bc) = Some l -> previous_hash b = hash l) /\
   hash b = block_hash b /\ bc' = mkBlockchain (chain bc ++ [b]) []) \/
  (is_err r = true /\ bc' = bc).
Proof.
  unfold add_block_from_network, get_latest_block.
  destruct (last (chain bc)) as [l|]; [|done]. simpl.
  destruct (bool_decide _) eqn:E1; [intros; simplify_eq; by right|].
  destruct (bool_decide (hash b ≠ _)) eqn:E2; [intros; simplify_eq; by right|].
  intros; simplify_eq. b2p. left. split; [done|]. split; [|split; [|done]].
  - intros ? [= <-]. by destruct (decide (previous_hash b = hash l)).
  - by destruct (decide (hash b = block_hash b)).
Qed.

Lemma mine_pending_cases chk fuel bc addr now bc' b :
  mine_pending_transactions chk fuel bc addr now = Some (Val (bc', b)) ->
  bc' = mkBlockchain (chain bc ++ [b]) [] /\ hash b = block_hash b /\
  target DIFFICULTY (hash b) = true /\
  transactions b = new_transaction SYSTEM addr MINING_REWARD :: pending_transactions bc /\
  exists l, last (chain bc) = Some l /\ previous_hash b = hash l /\
    add_u32 chk (index l) 1 = Val (index b).
Proof.
  unfold mine_pending_transactions, candidate, get_latest_block.
  destruct (last (chain bc)) as [l|]; [|done]. cbn [mbind outcome_bind].
  destruct (add_u32 chk (index l) 1) as [i|] eqn:Hi; [|done]. cbn [mbind outcome_bind].
  destruct (new_block _ _ _ _) as [b0|] eqn:Hb; [|done].
  destruct (new_block_hash _ _ _ _ _ Hb) as (Hh & Hix & Htx & Hp & _).
  destruct (mine _ _ _ b0) as [[b1|]|] eqn:Hm; try done. cbn. intros; simplify_eq.
  destruct (mine_sound _ _ _ _ _ Hh Hm) as (? & ? & Hi' & _ & Ht' & Hp').
  rewrite Ht', Htx. do 4 (split; [done|]). exists l. split; [done|]. split; [congruence|]. by rewrite Hi'.
Qed.

Lemma chain_ok_extend bc b :
  chain_ok bc -> hash b = block_hash b ->
  (forall l, last (chain bc) = Some l -> previous_hash b = hash l) ->
  chain_ok (mkBlockchain (chain bc ++ [b]) []).
Proof.
  intros [Hne Hl Hh Hp] Hb Hprev. split; simpl.
  - by destruct (chain bc).
  - by apply linked_snoc.
  - apply Forall_app. split; [done|by apply Forall_singleton].
  - constructor.
Qed.

Lemma handle_connection_cases bc read bc' :
  handle_connection bc read = Val bc' ->
  bc' = bc \/ (exists tx r, add_transaction bc tx = Val (bc', r))
           \/ (exists b r, add_block_from_network bc b = Val (bc', r)).
Proof.
  unfold handle_connection.
  destruct read as [[|c data]|]; [intros; simplify_eq; by left| |intros; simplify_eq; by left].
  destruct (msg_from_json _) as [[tx|b]|]; [right; left|right; right|intros; simplify_eq; by left].
  - destruct (add_transaction bc tx) as [[? ?]|] eqn:E; simpl in *; intros; simplify_eq. eauto.
  - destruct (add_block_from_network bc b) as [[? ?]|] eqn:E; simpl in *; intros; simplify_eq. eauto.
Qed.

(** Every step keeps the chain well formed and only appends to it. *)
Lemma node_step_ok chk bc bc' :
  chain_ok bc -> node_step chk bc bc' -> chain_ok bc' /\ chain bc `prefix_of` chain bc'.
Proof.
  intros Hok Hs.
  assert (Hadd : forall tx bc1 r, add_transaction bc tx = Val (bc1, r) ->
            chain_ok bc1 /\ chain bc `prefix_of` chain bc1).
  { intros tx bc1 r [(_ & Htx & ->)|[_ ->]]%add_transaction_cases; [|done]. split; [|done].
    destruct Hok. split; simpl; try done. apply Forall_app. split; [done|by apply Forall_singleton]. }
  assert (Hnet : forall b bc1 r, add_block_from_network bc b = Val (bc1, r) ->
            chain_ok bc1 /\ chain bc `prefix_of` chain bc1).
  { intros b bc1 r [(_ & Hp & Hh & ->)|[_ ->]]%add_block_cases; [|done].
    split; [by apply chain_ok_extend|by apply prefix_app_r]. }
  destruct Hs as [bc tx bc' r H|bc fuel addr now bc' b H|bc read bc' H].
  - by eapply Hadd.
  - apply mine_pending_cases in H as (-> & Hh & _ & _ & l & Hl & Hp & _).
    split; [|by apply prefix_app_r]. apply chain_ok_extend; [done..|]. congruence.
  - apply handle_connection_cases in H as [->|[(tx & r & H)|(b & r & H)]]; eauto.
Qed.

Lemma new_blockchain_ok chk fuel now bc :
  new_blockchain chk fuel now = Some (Val bc) ->
  chain_ok bc /\ exists g, chain bc = [g] /\ index g = 0 /\ previous_hash g = lit "0" /\
    transactions g = genesis_txs /\ target DIFFICULTY (hash g) = true.
Proof.
  unfold new_blockchain. destruct (new_block _ _ _ _) as [g0|] eqn:Hb; [|done].
  destruct (new_block_hash _ _ _ _ _ Hb) as (Hh & Hix & Htx & Hp & _).
  destruct (mine _ _ _ g0) as [[g|]|] eqn:Hm; [|done..]. cbn. intros; simplify_eq.
  destruct (mine_sound _ _ _ _ _ Hh Hm) as (Hh' & Ht & Hi' & _ & Ht' & Hp').
  split; [split; simpl; [done|done|by repeat constructor|constructor]|].
  exists g. rewrite Hi', Hp', Ht', Hix, Hp, Htx. done.
Qed.

(** A peer whose last hash is the block's previous one appends it. *)
Lemma peer_appends bc b l : last (chain bc) = Some l -> previous_hash b = hash l -> hash b = block_hash b ->
  add_block_from_network bc b = Val (mkBlockchain (chain bc ++ [b]) [], Ok tt).
Proof.
  intros Hl Hp Hh. unfold add_block_from_network, get_latest_block. rewrite Hl. simpl.
  by rewrite !bool_decide_false by (intros Hn; apply Hn; congruence).
Qed.

Lemma read_in_buffer (payload : bytes) msg : (0 < length payload <= READ_BUFFER)%nat -> msg_from_json payload = Some msg ->
  forall bc, handle_connection bc (Some (take READ_BUFFER payload)) =
    match msg with
    | NewTransaction tx => fst <$> add_transaction bc tx
    | NewBlock b => fst <$> add_block_from_network bc b
    end.
Proof. intros Hlen Hj bc. rewrite take_ge by lia. unfold handle_connection. destruct payload; [cbn in Hlen; lia|]. by rewrite Hj. Qed.
End chain_facts.

(** ** Properties *)

(** C34. A transaction signed with the key whose hexadecimal public key is its
    sender verifies, so the node accepts it exactly when its amount is not at
    most zero (in particular the hex and array conversions on the way lose
    nothing). *)
Theorem signed_transaction_accepted {CR : Crypto} (bc : Blockchain) (tx : Transaction) (key : SigningKey) :
  sender tx = Hex.encode (vk_to_bytes (verifying_key key)) ->
  verify_signature (sign tx key) = Val true /\
  add_transaction bc (sign tx key) =
    Val (if f64_le (amount tx) f64_zero then (bc, Err err_amount)
         else (mkBlockchain (chain bc) (pending_transactions bc ++ [sign tx key]), Ok tt)).
Proof.
  intros Hs. pose proof (sign_verifies tx key Hs) as Hv.
  split; [done|]. unfold add_transaction. rewrite Hv. simpl. by case_match.
Qed.

(** C30. Verifying the signature of a transaction panics exactly when it is
    signed, its sender is not the system's, and that sender is a text that
    [hex::decode] accepts, followed by something whose first two bytes do not
    end at a character boundary: the slice of that piece is out of range or cuts
    a character.  For a sender of ASCII characters this is an accepted text
    followed by one more character, of any kind. *)
Theorem verify_signature_panic_iff {CR : Crypto} (tx : Transaction) :
  (verify_signature tx = Panic <->
   sender tx ≠ SYSTEM /\ is_Some (signature tx) /\
   exists t u bs, sender tx = t ++ u /\ Hex.decode t = Val (Ok bs) /\ u <> [] /\ is_boundary u 2 = false) /\
  (is_ascii (sender tx) ->
   verify_signature tx = Panic <->
   sender tx ≠ SYSTEM /\ is_Some (signature tx) /\
   exists t c bs, sender tx = t ++ [c] /\ Hex.decode t = Val (Ok bs)).
Proof.
  rewrite verify_signature_panics. split; [by rewrite hex_decode_panic|].
  intros Ha. by rewrite hex_decode_panic_ascii.
Qed.

(** The signed preimage is the bare concatenation of sender, receiver and
    amount, so a signature also covers every other split of the same
    characters: one over 5 coins to the address [r] followed by the digit 1
    is valid for 15 coins to [r], whoever signed and whatever the hash. *)
Theorem signature_covers_other_split {CR : Crypto} (s r : bytes) (sg : option bytes) (bc : Blockchain) :
  let tx5 := mkTransaction s (r ++ lit "1") (f64_of_Z 5) sg in
  let tx15 := mkTransaction s r (f64_of_Z 15) sg in
  tx_hash tx5 = tx_hash tx15 /\ verify_signature tx5 = verify_signature tx15 /\
  (is_err <$> (snd <$> add_transaction bc tx5)) = (is_err <$> (snd <$> add_transaction bc tx15)).
Proof.
  intros tx5 tx15.
  assert (Hh : tx_hash tx5 = tx_hash tx15).
  { unfold tx_hash, tx5, tx15; cbn [sender receiver amount]. rewrite <- app_assoc.
    by replace (lit "1" ++ f64_display (f64_of_Z 5)) with (f64_display (f64_of_Z 15))
      by (vm_compute; reflexivity). }
  assert (Hv : verify_signature tx5 = verify_signature tx15).
  { unfold verify_signature. by rewrite Hh. }
  split; [done|]. split; [done|]. unfold add_transaction.
  replace (f64_le (amount tx5) f64_zero) with false by (vm_compute; reflexivity).
  replace (f64_le (amount tx15) f64_zero) with false by (vm_compute; reflexivity).
  rewrite Hv. by destruct (verify_signature tx15) as [[]|].
Qed.

(** C31. Mining terminates with the least nonce that works: if [n] is the first
    nonce from the block's own whose hash starts with [difficulty] zeros and it
    fits in a u64, the loop returns the block with that nonce and its hash, in
    either build, for every amount of fuel from the distance on. *)
Theorem mine_least_nonce {CR : Crypto} {JS : Json} (chk : bool) (difficulty fuel : nat) (b : Block) (n : Z) :
  hash b = block_hash b -> 0 <= nonce b <= n -> n <= u64_max ->
  (Z.to_nat (n - nonce b) <= fuel)%nat ->
  target difficulty (hash (with_nonce b n)) = true ->
  (forall i, nonce b <= i < n -> target difficulty (hash (with_nonce b i)) = false) ->
  mine chk fuel difficulty b = Some (Val (with_nonce b n)) /\ nonce (with_nonce b n) = n.
Proof.
  intros Hb [Hn0 Hn] Hmax Hf Hgood Hleast. split; [|done].
  destruct (Z_of_nat_complete (n - nonce b)) as [k Hk]; [lia|].
  assert (n = nonce b + Z.of_nat k) as -> by lia.
  apply mine_finds; auto; lia.
Qed.

(** C6. Chain integrity: whatever a node started by [Blockchain::new] does
    (local transactions, mining, any bytes from the network), its chain keeps
    its mined genesis block first and only grows at the end, every block points
    to the hash of its predecessor and carries its own recomputed hash, every
    pending transaction has passed the checks, and [get_latest_block] never
    panics. *)
Theorem chain_integrity {CR : Crypto} {JS : Json} (chk : bool) (fuel : nat) (now : Z) (bc0 bc : Blockchain) :
  new_blockchain chk fuel now = Some (Val bc0) -> rtc (node_step chk) bc0 bc ->
  chain_ok bc /\ chain bc0 `prefix_of` chain bc /\
  (exists g, chain bc !! 0%nat = Some g /\ index g = 0 /\ transactions g = genesis_txs) /\
  get_latest_block bc ≠ Panic.
Proof.
  intros Hnew Hr. destruct (new_blockchain_ok _ _ _ _ Hnew) as (Hok0 & g & Hg & Hi & _ & Ht & _).
  assert (Hgen : chain_ok bc /\ chain bc0 `prefix_of` chain bc).
  { clear Hnew Hg. induction Hr as [bc|bc1 bc2 bc3 Hs _ IH]; [done|].
    destruct (node_step_ok _ _ _ Hok0 Hs) as [Hok2 Hp]. destruct (IH Hok2) as [Hok3 Hp'].
    split; [done|]. by etrans. }
  destruct Hgen as [Hok Hp]. split; [done|]. split; [done|]. split.
  - exists g. split; [|done]. eapply prefix_lookup_Some; [|done]. by rewrite Hg.
  - destruct (get_latest_block_some bc (ok_nonempty _ Hok)) as (b & _ & ->). done.
Qed.

(** A transaction whose sender is the literal "SYSTEM" needs no signature
    wherever it comes from: a peer that sends one with any receiver and any
    amount that is not at most zero (NaN included) gets it into the pending
    transactions, and so into the next mined block. *)
Theorem system_transaction_unauthenticated {CR : Crypto} {JS : Json}
    (bc : Blockchain) (rcv data : bytes) (amt : f64) (sg : option bytes) :
  let tx := mkTransaction SYSTEM rcv amt sg in
  data ≠ [] -> msg_from_json data = Some (NewTransaction tx) -> f64_le amt f64_zero = false ->
  handle_connection bc (Some data)
    = Val (mkBlockchain (chain bc) (pending_transactions bc ++ [tx])) /\
  forall chk fuel addr now bc' b,
    mine_pending_transactions chk fuel (mkBlockchain (chain bc) (pending_transactions bc ++ [tx])) addr now
      = Some (Val (bc', b)) -> tx ∈ transactions b.
Proof.
  intros tx Hne Hj Ha. split.
  - unfold handle_connection. destruct data; [done|]. rewrite Hj.
    unfold add_transaction, tx. cbn [amount]. by rewrite Ha.
  - intros chk fuel addr now bc' b (_ & _ & _ & Ht & _)%mine_pending_cases.
    rewrite Ht. simpl. set_solver.
Qed.

(** Index overflow: the network check of a block ignores its index and its
    proof of work, so a peer can append a block of index 2^32-1; after that,
    in a build with overflow checks, no amount of fuel lets the node mine
    again: computing the next index panics. *)
Theorem network_index_stops_mining {CR : Crypto} {JS : Json} (bc : Blockchain) (l b : Block) :
  last (chain bc) = Some l -> previous_hash b = hash l -> hash b = block_hash b ->
  index b = u32_max ->
  let bc' := mkBlockchain (chain bc ++ [b]) [] in
  add_block_from_network bc b = Val (bc', Ok tt) /\
  forall fuel addr now, mine_pending_transactions true fuel bc' addr now = Some Panic.
Proof.
  intros Hl Hp Hh Hi bc'. split.
  - unfold add_block_from_network, get_latest_block. rewrite Hl. simpl.
    rewrite !bool_decide_false by (by intros []). done.
  - intros fuel addr now. unfold mine_pending_transactions, candidate, get_latest_block, bc'.
    cbn [chain]. rewrite last_snoc. cbn [mbind outcome_bind]. rewrite Hi.
    unfold add_u32. by rewrite checked_arith_overflow by (unfold u32_max; lia).
Qed.

(** Propagation: when one node mines a block on a chain whose last hash a
    peer shares, and the message fits in the peer's 4096-byte buffer and parses
    back, the broadcast payload makes the peer append exactly that block. *)
Theorem mined_block_propagates {CR : Crypto} {JS : Json} (chk : bool) (fuel : nat) (bcA bcA' bcB : Blockchain)
    (addr : bytes) (now : Z) (b lA lB : Block) (peers : list SocketAddr) (accepts : SocketAddr -> bool)
    (p : SocketAddr) (payload : bytes) :
  mine_pending_transactions chk fuel bcA addr now = Some (Val (bcA', b)) ->
  last (chain bcA) = Some lA -> last (chain bcB) = Some lB -> hash lA = hash lB ->
  (p, payload) ∈ broadcast_message peers accepts (NewBlock b) ->
  (0 < length payload <= READ_BUFFER)%nat -> msg_from_json payload = Some (NewBlock b) ->
  handle_connection bcB (Some (take READ_BUFFER payload)) = Val (mkBlockchain (chain bcB ++ [b]) []) /\
  last (chain bcA') = Some b.
Proof.
  intros (-> & Hh & _ & _ & l & Hl & Hp & _)%mine_pending_cases HA HB Heq Hin Hlen Hj.
  split; [|simpl; by rewrite last_snoc]. rewrite (read_in_buffer _ _ Hlen Hj).
  by rewrite (peer_appends bcB b lB) by congruence.
Qed.

(** *** Witnesses: the classes instantiated by executable stand-ins *)
Definition toy_sha (m : bytes) : bytes :=
  let h := fold_left (fun acc b => (acc * 31 + b) mod 65536) m 7 in
  [h mod 3; (h / 3) mod 4; h / 256; h mod 256].
Definition toy_sig (k : bool) (m : bytes) : Z := fold_left Z.add m (if k then 1 else 2).

#[refine, local] Instance toy_crypto : Crypto := {|
  sha256 := toy_sha;
  SigningKey := bool;
  VerifyingKey := bool;
  Signature := Z;
  verifying_key k := k;
  vk_to_bytes k := replicate 32 (if k then 161 else 162);
  vk_from_bytes b := Some (bool_decide (head b = Some 161));
  sig_to_bytes s := s :: replicate 63 0;
  sig_from_bytes b := head b;
  ed_sign := toy_sig;
  ed_verify k m s := s =? toy_sig k m;
|}.
Proof.
  - intros k. split; [|done]. apply Forall_replicate. by destruct k.
  - by intros [].
  - done.
  - done.
  - intros. apply Z.eqb_refl.
Defined.

(** Messages are parsed as the one given. *)
Definition toy_json (m : option Message) : Json := {|
  txs_to_json txs := concat (map (fun tx => sender tx ++ receiver tx ++ f64_display (amount tx)) txs);
  msg_to_json _ := lit "{}";
  msg_from_json _ := m;
|}.

Definition toy_value {A} (d : A) (r : option (outcome A)) : A :=
  match r with Some (Val a) => a | _ => d end.
Definition empty_chain : Blockchain := mkBlockchain [] [].
Definition alice : bytes := Hex.encode (vk_to_bytes (Crypto := toy_crypto) true).
Definition toy_tx : Transaction := new_transaction alice (lit "bob") (f64_of_Z 100).
Definition node0 : Blockchain := toy_value empty_chain (new_blockchain (JS := toy_json None) true 200 17).
Definition node1 : Blockchain := mkBlockchain (chain node0) [sign toy_tx true].
Definition mined1 : Blockchain * Block :=
  toy_value (empty_chain, mkBlock 0 0 [] [] [] 0)
    (mine_pending_transactions (JS := toy_json None) true 200 node1 alice 18).

Lemma signed_transaction_accepted_witness :
  verify_signature (sign toy_tx true) = Val true /\
  add_transaction node0 (sign toy_tx true) = Val (node1, Ok tt).
Proof.
  destruct (signed_transaction_accepted (CR := toy_crypto) node0 toy_tx true eq_refl) as [Hv Ha].
  split; [exact Hv|]. rewrite Ha. vm_compute. reflexivity.
Defined.

(** The public key with one character too many, and with a character of two
    bytes cut behind its first. *)
Lemma verify_signature_panic_iff_witness :
  verify_signature (mkTransaction (alice ++ lit "z") (lit "bob") (f64_of_Z 1) (Some [])) = Panic /\
  verify_signature (mkTransaction (alice ++ lit "0" ++ [208; 159]) (lit "bob") (f64_of_Z 1) (Some [])) = Panic.
Proof.
  split.
  - apply (proj2 (verify_signature_panic_iff (CR := toy_crypto)
             (mkTransaction (alice ++ lit "z") (lit "bob") (f64_of_Z 1) (Some [])))).
    + vm_compute. repeat (constructor; [split; discriminate|]). constructor.
    + split; [vm_compute; discriminate|]. split; [by eexists|].
      exists alice, 122, (replicate 32 161). split; [reflexivity|]. vm_compute. reflexivity.
  - apply (proj1 (verify_signature_panic_iff (CR := toy_crypto)
             (mkTransaction (alice ++ lit "0" ++ [208; 159]) (lit "bob") (f64_of_Z 1) (Some [])))).
    split; [vm_compute; discriminate|]. split; [by eexists|].
    exists alice, (lit "0" ++ [208; 159]), (replicate 32 161). split; [reflexivity|].
    split; [vm_compute; reflexivity|]. split; [discriminate|vm_compute; reflexivity].
Defined.

Definition toy_block : Block :=
  match new_block (JS := toy_json None) 12 3 [] (lit "ab") with Val b => b | Panic => mkBlock 0 0 [] [] [] 0 end.
Lemma mine_least_nonce_witness :
  mine (JS := toy_json None) true 50 4 toy_block = Some (Val (with_nonce (JS := toy_json None) toy_block 2)).
Proof.
  apply (mine_least_nonce (JS := toy_json None) true 4 50 toy_block 2).
  - vm_compute. reflexivity.
  - vm_compute. split; discriminate.
  - vm_compute. discriminate.
  - vm_compute. lia.
  - vm_compute. reflexivity.
  - intros i Hi. assert (i = 0 \/ i = 1) as [-> | ->] by (cbn in Hi; lia); vm_compute; reflexivity.
Defined.

Lemma chain_integrity_witness :
  chain_ok (JS := toy_json None) mined1.1 /\ length (chain mined1.1) = 2%nat.
Proof.
  split; [|vm_compute; reflexivity].
  refine (proj1 (chain_integrity (JS := toy_json None) true 200 17 node0 mined1.1 _ _)).
  - vm_compute. reflexivity.
  - eapply rtc_l; [apply (step_add _ _ (sign (CR := toy_crypto) toy_tx true) node1 (Ok tt)); vm_compute; reflexivity|].
    eapply rtc_l; [|apply rtc_refl].
    apply (step_mine _ _ 200 alice 18 _ mined1.2). vm_compute. reflexivity.
Defined.

(** A minted NaN. *)
Definition forged : Transaction := mkTransaction SYSTEM (lit "mallory") S754_nan None.
Lemma system_transaction_unauthenticated_witness :
  handle_connection (JS := toy_json (Some (NewTransaction forged))) node0 (Some (lit "{}"))
    = Val (mkBlockchain (chain node0) [forged]).
Proof.
  refine (proj1 (system_transaction_unauthenticated (JS := toy_json (Some (NewTransaction forged)))
                   node0 (lit "mallory") (lit "{}") S754_nan None _ _ _));
    vm_compute; first [reflexivity | discriminate].
Defined.

Definition last_hash (bc : Blockchain) : bytes := from_option hash [] (last (chain bc)).
Definition poison : Block :=
  with_nonce (JS := toy_json None) (mkBlock u32_max 0 [] (last_hash node0) [] 0) 0.
Lemma network_index_stops_mining_witness :
  add_block_from_network (JS := toy_json None) node0 poison
    = Val (mkBlockchain (chain node0 ++ [poison]) [], Ok tt).
Proof.
  refine (proj1 (network_index_stops_mining (JS := toy_json None) node0
                   (default poison (last (chain node0))) poison _ _ _ _)); vm_compute; reflexivity.
Defined.

Definition peer : SocketAddr := SockV4 [127; 0; 0; 1] 8081.
Lemma mined_block_propagates_witness :
  handle_connection (JS := toy_json (Some (NewBlock mined1.2))) node0 (Some (take READ_BUFFER (lit "{}")))
    = Val (mkBlockchain (chain node0 ++ [mined1.2]) []).
Proof.
  refine (proj1 (mined_block_propagates (JS := toy_json (Some (NewBlock mined1.2))) true 200
                   node1 mined1.1 node0 alice 18 mined1.2
                   (default poison (last (chain node0))) (default poison (last (chain node0)))
                   [peer] (fun _ => true) peer (lit "{}") _ _ _ _ _ _ _)).
  - vm_compute. reflexivity.
  - vm_compute. reflexivity.
  - vm_compute. reflexivity.
  - reflexivity.
  - apply elem_of_cons. left. reflexivity.
  - vm_compute. lia.
  - reflexivity.
Defined.
