(* ===== verification/DogeMain.v ===== *)
(** The demonstration in [main] of [src/doge-rust/src/main.rs]: a node that
    serves its port while it signs, broadcasts and mines a transaction. *)
From S2P Require Import Prelude Net Bytes F64 Doge.

Section demo.
Context {CR : Crypto} {JS : Json}.






(** ** The server between the steps *)





(** ** The demonstration *)









End demo.


