(* ===== verification/Siem.v ===== *)
(** The batching SIEM processor of
    [src/siem_clickhouse_processor/src/main.rs].

    [write_batch] and [dump_to_wal] are functions on the world (the committed
    ClickHouse rows, the bytes of the WAL file); what the ClickHouse client and
    the file system answer comes in as oracles.  Several [write_batch] run at
    the same time on one file: [writer_step] is the same code one operation on
    the world at a time, [write_batch] its run without interruption
    ([run_writer_batch]).  [BatchManager::run], the spawned writers, the producer's
    channel and the end of [main] form the labelled step function [step]. *)
From S2P Require Import Prelude Bytes Concurrency.

Record SiemEvent : Type := mkEvent {
  event_id : Z;               (* 128-bit Uuid *)
  timestamp : Z;
  event_type : bytes;
  source_ip : bytes;
  destination_ip : bytes;
  severity : bytes;
  message : bytes;
}.

Record Config : Type := mkConfig {
  max_batch_size : nat;
  batch_timeout : Z;          (* nanoseconds *)
}.

(** ** [ClickHouseWriter] *)

(** What one insert session of the client answers.  A failing [end] leaves
    open whether the server committed the batch. *)
Inductive end_result : Type := EndOk | EndErr (committed : bool).
Record Session : Type := mkSession {
  ses_insert : bool;                  (* [client.insert] is [Ok] *)
  ses_write : SiemEvent -> bool;      (* [insert.write(event)] is [Ok] *)
  ses_end : end_result;
}.

(** What the file system answers to one dump: the n-th [write_all] either
    writes everything or fails after some bytes. *)
Record WalIo : Type := mkWalIo {
  io_open : bool;
  io_write : nat -> result unit nat;
  io_flush : bool;
}.

(** [critical] collects the batches reported lost by the CRITICAL log line. *)
Record World : Type := mkWorld {
  ch_rows : list SiemEvent;
  wal : bytes;
  critical : list (list SiemEvent);
}.

Section writer.
(** [serde_json::to_string]. *)
Context (to_json : SiemEvent -> option bytes).

(** The loop of [dump_to_wal] from its n-th event, on the file's bytes. *)
Fixpoint dump_events (io : WalIo) (n : nat) (batch : list SiemEvent) (file : bytes) : bytes * result unit unit :=
  match batch with
  | [] => (file, if io_flush io then Ok tt else Err tt)
  | event :: batch =>
      match to_json event with
      | None => (file, Err tt)
      | Some serialized =>
          match io_write io (2 * n) with
          | Err k => (file ++ take k serialized, Err tt)
          | Ok _ =>
              match io_write io (2 * n + 1) with
              | Err k => (file ++ serialized ++ take k [10], Err tt)
              | Ok _ => dump_events io (S n) batch (file ++ serialized ++ [10])
              end
          end
      end
  end.

Definition dump_to_wal (io : WalIo) (batch : list SiemEvent) (w : World) : World * result unit unit :=
  if io_open io then
    let '(file, r) := dump_events io 0 batch (wal w) in
    (mkWorld (ch_rows w) file (critical w), r)
  else (w, Err tt).

Definition write_batch (ses : Session) (io : WalIo) (batch : list SiemEvent) (w : World) : World :=
  match batch with
  | [] => w
  | _ =>
      if negb (ses_insert ses) then fst (dump_to_wal io batch w)
      else
        let written := forallb (ses_write ses) batch in
        let '(w, failed) :=
          if written then
            match ses_end ses with
            | EndOk => (mkWorld (ch_rows w ++ batch) (wal w) (critical w), false)
            | EndErr c => (mkWorld (ch_rows w ++ if c then batch else []) (wal w) (critical w), true)
            end
          else (w, true) in
        if failed then
          match dump_to_wal io batch w with
          | (w, Ok _) => w
          | (w, Err _) => mkWorld (ch_rows w) (wal w) (critical w ++ [batch])
          end
        else w
  end.

(** *** The same code one operation on the world at a time

    A writer holds its batch; [report] tells whether a failing dump is logged
    as CRITICAL (the second call of [dump_to_wal]) or ignored (the first). *)
Inductive writer : Type :=
| WInsert (batch : list SiemEvent)                            (* before [client.insert] *)
| WOpen (batch : list SiemEvent) (report : bool)              (* before [open] *)
| WJson (batch : list SiemEvent) (report : bool) (n : nat)    (* before the n-th event *)
| WNewline (batch : list SiemEvent) (report : bool) (n : nat). (* after the first of its two [write_all] *)

Definition append (w : World) (bs : bytes) : World := mkWorld (ch_rows w) (wal w ++ bs) (critical w).
Definition report_lost (report : bool) (batch : list SiemEvent) (w : World) : World :=
  if report then mkWorld (ch_rows w) (wal w) (critical w ++ [batch]) else w.

(** The rows of a batch are streamed to the server and committed by [end]:
    one step.  [None] is the end of [write_batch]. *)
Definition writer_step (ses : Session) (io : WalIo) (wr : writer) (w : World) : option writer * World :=
  match wr with
  | WInsert [] => (None, w)
  | WInsert batch =>
      if negb (ses_insert ses) then (Some (WOpen batch false), w)
      else if forallb (ses_write ses) batch then
        match ses_end ses with
        | EndOk => (None, mkWorld (ch_rows w ++ batch) (wal w) (critical w))
        | EndErr c => (Some (WOpen batch true),
                       mkWorld (ch_rows w ++ if c then batch else []) (wal w) (critical w))
        end
      else (Some (WOpen batch true), w)
  | WOpen batch report =>
      if io_open io then (Some (WJson batch report 0), w) else (None, report_lost report batch w)
  | WJson batch report n =>
      match batch !! n with
      | None => (None, if io_flush io then w else report_lost report batch w)
      | Some event =>
          match to_json event with
          | None => (None, report_lost report batch w)
          | Some serialized =>
              match io_write io (2 * n) with
              | Ok _ => (Some (WNewline batch report n), append w serialized)
              | Err k => (None, report_lost report batch (append w (take k serialized)))
              end
          end
      end
  | WNewline batch report n =>
      match io_write io (2 * n + 1) with
      | Ok _ => (Some (WJson batch report (S n)), append w [10])
      | Err k => (None, report_lost report batch (append w (take k [10])))
      end
  end.

(** A writer nobody interferes with; [fuel] bounds its operations. *)
Fixpoint run_writer (fuel : nat) (ses : Session) (io : WalIo) (wr : writer) (w : World) : option World :=
  match fuel with
  | O => None
  | S fuel =>
      match writer_step ses io wr w with
      | (None, w) => Some w
      | (Some wr, w) => run_writer fuel ses io wr w
      end
  end.
End writer.

(** ** [BatchManager] and the process around it *)
Section manager.
Context {C : Type} `{!Mpsc SiemEvent C} (to_json : SiemEvent -> option bytes) (config : Config).

(** [BatchManager::run]: its loop, the [write_batch] it awaits after the channel
    closed, its end. *)
Inductive manager : Type := Looping | Flushing (wr : writer) | Returned.

(** [arrivals] are the instants the buffered events were received at and
    [sent], [handed] the histories of accepted sends and of batches given to a
    writer: bookkeeping the properties speak about, read by no step. *)
Record state : Type := mkState {
  channel : C;
  closed : bool;                       (* the sender is dropped *)
  buffer : list SiemEvent;
  deadline : Z;                        (* of the pinned [sleep] *)
  mgr : manager;
  tasks : list writer;                 (* spawned [write_batch] not yet done *)
  exited : bool;                       (* [main] has returned *)
  world : World;
  now : Z;
  arrivals : list Z;
  sent : list SiemEvent;
  handed : list (list SiemEvent);
}.

Definition CHANNEL_CAPACITY : nat := 100.
Definition initial : state :=
  mkState (ch_new CHANNEL_CAPACITY) false [] (batch_timeout config) Looping [] false
    (mkWorld [] [] []) 0 [] [] [].

(** Replace the buffer and give it to a spawned writer; the timer restarts. *)
Definition spawn_batch (s : state) (batch : list SiemEvent) : state :=
  mkState (channel s) (closed s) [] (now s + batch_timeout config) (mgr s) (tasks s ++ [WInsert batch])
    (exited s) (world s) (now s) [] (sent s) (handed s ++ [batch]).

(** The branch [Some(event)] of the receive. *)
Definition on_event (s : state) (c : C) (event : SiemEvent) : state :=
  let buf := buffer s ++ [event] in
  let s := mkState c (closed s) buf (deadline s) (mgr s) (tasks s) (exited s) (world s)
             (now s) (arrivals s ++ [now s]) (sent s) (handed s) in
  if (max_batch_size config <=? length buf)%nat then spawn_batch s buf else s.

(** The branch [None]: the manager starts to write what is left, or returns. *)
Definition on_closed (s : state) : state :=
  match buffer s with
  | [] => mkState (channel s) (closed s) [] (deadline s) Returned (tasks s) (exited s) (world s)
            (now s) (arrivals s) (sent s) (handed s)
  | buf => mkState (channel s) (closed s) [] (deadline s) (Flushing (WInsert buf)) (tasks s) (exited s)
            (world s) (now s) [] (sent s) (handed s ++ [buf])
  end.

(** The branch of the expired timer. *)
Definition on_timeout (s : state) : state :=
  match buffer s with
  | [] => mkState (channel s) (closed s) [] (now s + batch_timeout config) (mgr s) (tasks s)
            (exited s) (world s) (now s) (arrivals s) (sent s) (handed s)
  | buf => spawn_batch s buf
  end.

Inductive label : Type :=
| LSend (event : SiemEvent)                      (* the producer *)
| LClose
| LRecv                                          (* the select branches of [run] *)
| LRecvNone
| LTimeout
| LFlush (ses : Session) (io : WalIo)            (* the awaited [write_batch] advances *)
| LWriter (i : nat) (ses : Session) (io : WalIo) (* a spawned writer advances *)
| LTick (d : Z)
| LExit.                                         (* both joined tasks are done *)

Definition set_channel (s : state) (c : C) (cl : bool) (snt : list SiemEvent) : state :=
  mkState c cl (buffer s) (deadline s) (mgr s) (tasks s) (exited s) (world s)
    (now s) (arrivals s) snt (handed s).
Definition set_writers (s : state) (m : manager) (ts : list writer) (w : World) : state :=
  mkState (channel s) (closed s) (buffer s) (deadline s) m ts (exited s) w
    (now s) (arrivals s) (sent s) (handed s).

Definition looping (s : state) : bool := match mgr s with Looping => true | _ => false end.
Definition finished (s : state) : bool := match mgr s with Returned => true | _ => false end.

(** When [main] returns, the runtime drops the tasks still spawned. *)
Definition step (l : label) (s : state) : option state :=
  if exited s then None
  else
    match l with
    | LSend e =>
        if closed s then None
        else match ch_send (channel s) e with
             | Some c => Some (set_channel s c false (sent s ++ [e]))
             | None => None
             end
    | LClose => if closed s then None else Some (set_channel s (channel s) true (sent s))
    | LRecv =>
        if negb (looping s) then None
        else match ch_recv (channel s) with
             | Some (e, c) => Some (on_event s c e)
             | None => None
             end
    | LRecvNone =>
        if negb (looping s) || negb (closed s) then None
        else match ch_recv (channel s) with
             | None => Some (on_closed s)
             | Some _ => None
             end
    | LTimeout => if negb (looping s) || (now s <? deadline s) then None else Some (on_timeout s)
    | LFlush ses io =>
        match mgr s with
        | Flushing wr =>
            match writer_step to_json ses io wr (world s) with
            | (None, w) => Some (set_writers s Returned (tasks s) w)
            | (Some wr, w) => Some (set_writers s (Flushing wr) (tasks s) w)
            end
        | _ => None
        end
    | LWriter i ses io =>
        match tasks s !! i with
        | Some wr =>
            match writer_step to_json ses io wr (world s) with
            | (None, w) => Some (set_writers s (mgr s) (delete i (tasks s)) w)
            | (Some wr, w) => Some (set_writers s (mgr s) (<[i := wr]> (tasks s)) w)
            end
        | None => None
        end
    | LTick d =>
        if 0 <=? d then
          Some (mkState (channel s) (closed s) (buffer s) (deadline s) (mgr s) (tasks s)
                  (exited s) (world s) (now s + d) (arrivals s) (sent s) (handed s))
        else None
    | LExit =>
        if finished s && closed s then
          Some (mkState (channel s) (closed s) (buffer s) (deadline s) (mgr s) []
                  true (world s) (now s) (arrivals s) (sent s) (handed s))
        else None
    end.

Definition run (ls : list label) (s : state) : option state := exec step ls s.
Definition reachable (s : state) : Prop := reach step initial s.
End manager.
Arguments state : clear implicits.

(** ** The load generator *)
Definition severities : list bytes := map lit ["LOW"; "MEDIUM"; "HIGH"; "CRITICAL"]%string.
Definition types : list bytes :=
  map lit ["Auth_Failure"; "Malware_Detected"; "Port_Scan"; "Data_Exfiltration"]%string.

Definition simulated_event (uuid at_ : Z) (counter : nat) : SiemEvent :=
  mkEvent uuid at_
    (nth (counter mod length types) types [])
    (lit "192.168.1." ++ dec (Z.of_nat (counter mod 254)))
    (lit "10.0.0.1")
    (nth (counter mod length severities) severities [])
    (lit "SIEM alert log sequence id: " ++ dec (Z.of_nat counter)).

(** Milliseconds slept after the event [counter]. *)
Definition pause_after (counter : nat) : Z := if (counter mod 15 =? 0)%nat then 2000 else 10.

(** [simulate_siem_traffic]: the events sent and the pauses between them;
    [accepts] is what each send answers, [fuel] bounds the loop. *)
Fixpoint simulate (fuel : nat) (uuid at_ : nat -> Z) (accepts : nat -> bool) (counter : nat)
  : option (list (SiemEvent * Z)) :=
  match fuel with
  | O => None
  | S fuel =>
      let counter := S counter in
      if negb (accepts counter) then Some []
      else
        let ev := simulated_event (uuid counter) (at_ counter) counter in
        if (50 <=? counter)%nat then Some [(ev, pause_after counter)]
        else cons (ev, pause_after counter) <$> simulate fuel uuid at_ accepts counter
  end.

(** The configuration of [main]. *)
Definition main_config : Config := mkConfig 20 1000000000.

(** ** The writer *)
Section writer_facts.
Context (to_json : SiemEvent -> option bytes).

Definition healthy (io : WalIo) : Prop :=
  io_open io = true /\ (forall n, io_write io n = Ok tt) /\ io_flush io = true.

Lemma dump_events_healthy io batch : forall n file js,
  healthy io -> mapM to_json batch = Some js ->
  dump_events to_json io n batch file = (file ++ unlines js, Ok tt).
Proof.
  intros n file js Hio. revert n file js. destruct Hio as (_ & Hw & Hf).
  induction batch as [|e batch IH]; intros n file js Hjs; simpl.
  - apply mapM_Some_1 in Hjs. inversion Hjs; subst. unfold unlines; simpl. by rewrite Hf, app_nil_r.
  - apply mapM_Some_1 in Hjs. inversion Hjs as [|? j ? js' Hj Hjs']; subst.
    rewrite Hj, !Hw, (IH _ _ js') by by apply mapM_Some_2.
    unfold unlines. cbn [map concat]. by rewrite <- !app_assoc.
Qed.

(** A successful dump appended the whole batch, one line per event. *)
Lemma dump_events_ok io batch : forall n file file',
  dump_events to_json io n batch file = (file', Ok tt) ->
  exists js, mapM to_json batch = Some js /\ file' = file ++ unlines js.
Proof.
  induction batch as [|e batch IH]; intros n file file'; simpl.
  - case_match; intros; simplify_eq. exists []. unfold unlines; simpl. by rewrite app_nil_r.
  - destruct (to_json e) as [j|]; [|done]. simpl. do 2 (case_match; [|done]).
    intros H'. apply IH in H' as (js & Hjs & ->). exists (j :: js). rewrite Hjs. split; [done|].
    unfold unlines. cbn [map concat]. by rewrite <- !app_assoc.
Qed.

Definition dump_fails (io : WalIo) (batch : list SiemEvent) (w : World) : Prop :=
  io_open io = false \/ snd (dump_events to_json io 0 batch (wal w)) = Err tt.

(** Every way a batch can end up. *)
Inductive fate (ses : Session) (io : WalIo) (batch : list SiemEvent) (w w' : World) : Prop :=
| fate_committed :
    w' = mkWorld (ch_rows w ++ batch) (wal w) (critical w) -> fate ses io batch w w'
| fate_walled js rows :
    mapM to_json batch = Some js -> (rows = [] \/ rows = batch) ->
    w' = mkWorld (ch_rows w ++ rows) (wal w ++ unlines js) (critical w) -> fate ses io batch w w'
| fate_reported file rows :
    (rows = [] \/ rows = batch) -> dump_fails io batch w ->
    w' = mkWorld (ch_rows w ++ rows) file (critical w ++ [batch]) -> fate ses io batch w w'
| fate_silent file :
    ses_insert ses = false -> dump_fails io batch w ->
    w' = mkWorld (ch_rows w) file (critical w) -> fate ses io batch w w'.

Lemma dump_to_wal_cases io batch w w' r :
  dump_to_wal to_json io batch w = (w', r) ->
  ch_rows w' = ch_rows w /\ critical w' = critical w /\
  match r with
  | Ok _ => exists js, mapM to_json batch = Some js /\ wal w' = wal w ++ unlines js
  | Err _ => dump_fails io batch w
  end.
Proof.
  unfold dump_to_wal, dump_fails. destruct (io_open io); [|intros; simplify_eq; eauto].
  destruct (dump_events to_json io 0 batch (wal w)) as [file q] eqn:E. intros; simplify_eq.
  split; [done|]. split; [done|]. destruct r as [[]|[]]; [|by right].
  by apply dump_events_ok in E.
Qed.

Lemma write_batch_cases ses io batch w :
  batch ≠ [] -> fate ses io batch w (write_batch to_json ses io batch w).
Proof.
  intros Hne. unfold write_batch.
  destruct batch as [|e0 batch0]; [done|]. set (batch := e0 :: batch0). fold batch.
  destruct (ses_insert ses) eqn:Hi; simpl.
  - assert (Hdump : forall rows, (rows = [] \/ rows = batch) ->
      fate ses io batch w
        match dump_to_wal to_json io batch (mkWorld (ch_rows w ++ rows) (wal w) (critical w)) with
        | (w', Ok _) => w'
        | (w', Err _) => mkWorld (ch_rows w') (wal w') (critical w' ++ [batch])
        end).
    { intros rows Hrows. destruct (dump_to_wal _ _ _ _) as [w' r] eqn:E.
      apply dump_to_wal_cases in E as (Hr & Hc & Hcase). simpl in *. destruct r.
      - destruct Hcase as (js & Hjs & Hwal). eapply fate_walled; [done..|].
        destruct w'; simpl in *; by subst.
      - eapply fate_reported; [done..|]. by rewrite Hr, Hc. }
    pose proof (Hdump [] (or_introl eq_refl)) as Hnil. rewrite app_nil_r in Hnil.
    destruct (forallb (ses_write ses) batch) eqn:Hw; simpl in Hw; unfold batch in *; simpl; rewrite ?Hw.
    + destruct (ses_end ses) as [|c]; [by apply fate_committed|].
      apply Hdump. destruct c; auto.
    + destruct w; apply Hnil.
  - destruct (dump_to_wal to_json io batch w) as [w' r] eqn:E. simpl.
    apply dump_to_wal_cases in E as (Hr & Hc & Hcase). destruct w' as [rows file crit]; simpl in *. subst.
    destruct r.
    + destruct Hcase as (js & Hjs & ->). eapply (fate_walled _ _ _ _ _ js []); [done|by left|].
      by rewrite app_nil_r.
    + by eapply fate_silent.
Qed.
(** *** The small steps and the whole call *)
Definition dumped (report : bool) (batch : list SiemEvent) (w : World) (r : bytes * result unit unit) : World :=
  let w' := mkWorld (ch_rows w) (fst r) (critical w) in
  match snd r with Ok _ => w' | Err _ => report_lost report batch w' end.

Lemma run_writer_dump ses io batch report : forall rest n w fuel,
  drop n batch = rest -> (2 * length rest + 1 <= fuel)%nat ->
  run_writer to_json fuel ses io (WJson batch report n) w =
    Some (dumped report batch w (dump_events to_json io n rest (wal w))).
Proof.
  unfold dumped. induction rest as [|e rest IH]; intros n w fuel Hd Hf; (destruct fuel as [|fuel]; [simpl in Hf; lia|]).
  - assert (batch !! n = None) as Hn.
    { apply lookup_ge_None. apply (f_equal length) in Hd. rewrite length_drop in Hd. simpl in Hd. lia. }
    simpl. rewrite Hn. destruct w, (io_flush io); done.
  - assert (batch !! n = Some e) as Hn by (rewrite <- (Nat.add_0_r n), <- lookup_drop, Hd; done).
    assert (drop (S n) batch = rest) as Hd' by (rewrite <- Nat.add_1_r, <- drop_drop, Hd; done).
    cbn [run_writer writer_step dump_events]. rewrite Hn. destruct (to_json e) as [j|]; [|by destruct w].
    destruct (io_write io (2 * n)); [|done]. destruct fuel as [|fuel]; [simpl in Hf; lia|].
    cbn [run_writer writer_step]. destruct (io_write io (2 * n + 1)).
    + rewrite (IH (S n)) by (done || (simpl in Hf; lia)). unfold append. simpl. by rewrite <- app_assoc.
    + unfold append. simpl. by rewrite <- app_assoc.
Qed.

Lemma run_writer_open ses io batch report w fuel : (2 * length batch + 2 <= fuel)%nat ->
  run_writer to_json fuel ses io (WOpen batch report) w =
    Some (match dump_to_wal to_json io batch w with
          | (w', Ok _) => w'
          | (w', Err _) => report_lost report batch w'
          end).
Proof.
  intros Hf. destruct fuel as [|fuel]; [lia|]. unfold dump_to_wal. cbn [run_writer writer_step].
  destruct (io_open io); [|done]. rewrite (run_writer_dump _ _ _ _ batch) by (done || lia).
  unfold dumped. by destruct (dump_events _ _ _ _ _) as [file []].
Qed.

Lemma run_writer_batch ses io batch w fuel : (2 * length batch + 3 <= fuel)%nat ->
  run_writer to_json fuel ses io (WInsert batch) w = Some (write_batch to_json ses io batch w).
Proof.
  intros Hf. destruct fuel as [|fuel]; [lia|]. destruct batch as [|e b]; [done|].
  remember (e :: b) as batch eqn:Eb. assert (write_batch to_json ses io batch w = write_batch to_json ses io (e :: b) w) as Hb by by subst.
  cbn [run_writer]. rewrite Hb. unfold writer_step, write_batch. rewrite <- Eb. subst batch.
  destruct (ses_insert ses); cbn [negb].
  2:{ rewrite run_writer_open by lia. by destruct (dump_to_wal _ _ _ _) as [w' []]. }
  destruct (forallb _ _); [|rewrite run_writer_open by lia; by destruct (dump_to_wal _ _ _ _) as [w' []]].
  destruct (ses_end ses); [done|]. rewrite run_writer_open by lia. by destruct (dump_to_wal _ _ _ _) as [w' []].
Qed.
End writer_facts.

(** ** The manager *)

Definition batch_of (wr : writer) : list SiemEvent :=
  match wr with WInsert b => b | WOpen b _ => b | WJson b _ _ => b | WNewline b _ _ => b end.

(** The writers at work: the spawned ones and the one the manager awaits. *)
Definition writers {C} (s : state C) : list writer :=
  tasks s ++ match mgr s with Flushing wr => [wr] | _ => [] end.

Section manager_facts.
Context {C : Type} `{MP : !Mpsc SiemEvent C} (to_json : SiemEvent -> option bytes) (config : Config).

Lemma writer_step_batch ses io wr w wr' w' :
  writer_step to_json ses io wr w = (Some wr', w') -> batch_of wr' = batch_of wr.
Proof. destruct wr as [[|e b]|b r|b r n|b r n]; simpl; intros; split_match; done. Qed.

(** What a step of a writer does to the state: only the writer and the world
    change. *)
Record writer_moves (ses : Session) (io : WalIo) (s s' : state C) : Prop := {
  wm_step : exists wr (rest : list writer) o, Permutation (writers s) (wr :: rest) /\
    writer_step to_json ses io wr (world s) = (o, world s') /\ Permutation (writers s') (option_list o ++ rest);
  wm_looping : looping s' = looping s;
  wm_same : s' = set_writers s (mgr s') (tasks s') (world s');
}.

Lemma flush_moves ses io s s' : step to_json config (LFlush ses io) s = Some s' -> writer_moves ses io s s'.
Proof.
  unfold step. destruct (exited s); [done|]. destruct (mgr s) as [|wr|] eqn:Hm; [done| |done].
  destruct (writer_step _ _ _ _ _) as [o w] eqn:Ew. intros Hs.
  assert (Permutation (writers s) (wr :: tasks s)) as Hp
    by (unfold writers; rewrite Hm; symmetry; apply Permutation_cons_append).
  destruct o as [wr'|]; simplify_eq; split; try done; try (unfold looping; simpl; by rewrite Hm).
  - exists wr, (tasks s), (Some wr'). split; [done|]. split; [done|]. simpl.
    symmetry. apply Permutation_cons_append.
  - exists wr, (tasks s), None. split; [done|]. split; [done|]. simpl. unfold writers. simpl. by rewrite app_nil_r.
Qed.

Lemma spawned_moves i ses io s s' : step to_json config (LWriter i ses io) s = Some s' -> writer_moves ses io s s'.
Proof.
  unfold step. destruct (exited s); [done|]. destruct (tasks s !! i) as [wr|] eqn:Hi; [|done].
  destruct (writer_step _ _ _ _ _) as [o w] eqn:Ew. intros Hs.
  set (fl := match mgr s with Flushing wr => [wr] | _ => [] end).
  assert (Permutation (writers s) (wr :: (delete i (tasks s) ++ fl))) as Hp.
  { unfold writers. fold fl. by rewrite (delete_Permutation _ _ _ Hi) at 1. }
  destruct o as [wr'|]; simplify_eq; split; try done.
  - exists wr, (delete i (tasks s) ++ fl), (Some wr'). split; [done|]. split; [done|].
    unfold writers. simpl. fold fl. rewrite (insert_take_drop (tasks s) i wr') by by eapply lookup_lt_Some.
    rewrite <- Permutation_middle. by rewrite delete_take_drop.
  - by exists wr, (delete i (tasks s) ++ fl), None.
Qed.

Record manager_inv (s : state C) : Prop := {
  inv_fifo : concat (handed s) ++ buffer s ++ ch_view (channel s) = sent s;
  inv_handed : Forall (fun b => b ≠ []) (handed s);
  inv_batch : (1 <= max_batch_size config)%nat ->
    Forall (fun b => (length b <= max_batch_size config)%nat) (handed s) /\
    (length (buffer s) < max_batch_size config)%nat;
  inv_arrivals : length (arrivals s) = length (buffer s);
  inv_deadline : Forall (fun t => deadline s <= t + batch_timeout config) (arrivals s);
  inv_past : deadline s <= now s + batch_timeout config;
  inv_finished : looping s = false -> closed s = true /\ buffer s = [] /\ ch_view (channel s) = [];
  inv_writers : forall wr, wr ∈ writers s -> batch_of wr ∈ handed s;
}.

Lemma manager_inv_initial : manager_inv (initial config).
Proof.
  destruct (ch_new_view CHANNEL_CAPACITY) as [Hv _].
  split; simpl; try done; rewrite ?Hv; try done; try lia.
  intros wr Hin. by apply not_elem_of_nil in Hin.
Qed.

Lemma finished_looping s : finished s = true -> looping (C := C) s = false.
Proof. unfold finished, looping. by destruct (mgr s). Qed.
Lemma looping_writers s : looping s = true -> writers (C := C) s = tasks s.
Proof. unfold looping, writers. destruct (mgr s); try done. by rewrite app_nil_r. Qed.

(** Handing the whole (non-empty, not oversized) buffer to a writer. *)
Lemma spawn_batch_inv s :
  concat (handed s) ++ buffer s ++ ch_view (channel s) = sent s ->
  Forall (fun b => b ≠ []) (handed s) -> buffer s ≠ [] ->
  ((1 <= max_batch_size config)%nat ->
    Forall (fun b => (length b <= max_batch_size config)%nat) (handed s) /\
    (length (buffer s) <= max_batch_size config)%nat) ->
  looping s = true ->
  (forall wr, wr ∈ writers s -> batch_of wr ∈ handed s) ->
  manager_inv (spawn_batch config s (buffer s)).
Proof.
  intros Hf Hh Hne Hb Hfin Ht. split; simpl; try done; try lia.
  - rewrite concat_app. simpl. rewrite app_nil_r, <- app_assoc. done.
  - apply Forall_app. split; [done|by apply Forall_singleton].
  - intros H1. destruct (Hb H1) as [H2 H3]. split; [|lia].
    apply Forall_app. split; [done|by apply Forall_singleton].
  - intros Hx. unfold looping in *. simpl in Hx. congruence.
  - rewrite looping_writers in Ht by done. rewrite (looping_writers (spawn_batch _ _ _)) by done. simpl.
    intros wr [Hin|Hin]%elem_of_app; apply elem_of_app; [left; auto|right].
    apply list_elem_of_singleton in Hin as ->. by apply list_elem_of_singleton.
Qed.

Lemma on_event_inv s c e :
  manager_inv s -> looping s = true -> ch_recv (channel s) = Some (e, c) ->
  manager_inv (on_event config s c e).
Proof.
  intros [Hf Hh Hb Hl Hd Hp Hfin Ht] Hnf Hr. apply ch_recv_some in Hr as [Hv _].
  unfold on_event.
  assert (Hf' : concat (handed s) ++ (buffer s ++ [e]) ++ ch_view c = sent s).
  { rewrite <- Hf, Hv. by rewrite <- !app_assoc. }
  case_match eqn:E.
  - apply (spawn_batch_inv (mkState c (closed s) (buffer s ++ [e]) _ _ _ _ _ _ _ _ _)); simpl; auto.
    + by destruct (buffer s).
    + intros H1. destruct (Hb H1). split; [done|]. rewrite length_app. simpl. lia.
  - apply Nat.leb_gt in E. split; simpl; auto.
    + intros H1. destruct (Hb H1). auto.
    + rewrite !length_app. simpl. lia.
    + apply Forall_app. split; [done|]. by apply Forall_singleton.
    + unfold looping in *. simpl. congruence.
Qed.

Lemma on_closed_inv s :
  manager_inv s -> looping s = true -> closed s = true -> ch_recv (channel s) = None ->
  manager_inv (on_closed s).
Proof.
  intros [Hf Hh Hb Hl Hd Hp Hfin Ht] Hnf Hc Hr. apply ch_recv_none in Hr.
  rewrite looping_writers in Ht by done.
  unfold on_closed. destruct (buffer s) as [|e buf] eqn:Eb; split; simpl; auto.
  - intros wr [Hin|Hin]%elem_of_app; [by auto|by apply not_elem_of_nil in Hin].
  - rewrite concat_app. cbn [concat]. rewrite app_nil_r, <- app_assoc. done.
  - apply Forall_app. split; [done|by apply Forall_singleton].
  - intros H1. destruct (Hb H1) as [H2 H3]. split; [|lia]. apply Forall_app.
    split; [done|]. apply Forall_singleton. lia.
  - intros wr [Hin|Hin]%elem_of_app; apply elem_of_app; [left; auto|right].
    apply list_elem_of_singleton in Hin as ->. by apply list_elem_of_singleton.
Qed.

Lemma on_timeout_inv s : manager_inv s -> looping s = true -> manager_inv (on_timeout config s).
Proof.
  intros [Hf Hh Hb Hl Hd Hp Hfin Ht] Hnf. unfold on_timeout. destruct (buffer s) as [|e buf] eqn:Eb.
  - split; simpl; auto; [by destruct (arrivals s)|lia].
  - rewrite <- Eb. apply spawn_batch_inv; try done; rewrite Eb; try done.
    intros H1. destruct (Hb H1). split; [done|]. lia.
Qed.

Lemma writer_moves_inv ses io s s' : manager_inv s -> writer_moves ses io s s' -> manager_inv s'.
Proof.
  intros [Hf Hh Hb Hl Hd Hp Hfin Ht] [(wr & rest & o & Hp1 & Hs & Hp2) Hloop Hsame].
  rewrite Hsame. split; simpl; auto.
  - intros Hx. apply Hfin. rewrite <- Hloop. by rewrite Hsame.
  - rewrite <- Hsame. intros wr' Hin. rewrite Hp2 in Hin. apply elem_of_app in Hin as [Hin|Hin].
    + destruct o as [wr1|]; [|by apply not_elem_of_nil in Hin].
      apply list_elem_of_singleton in Hin as ->. rewrite (writer_step_batch _ _ _ _ _ _ Hs).
      apply Ht. rewrite Hp1. left.
    + apply Ht. rewrite Hp1. by right.
Qed.

Lemma step_inv l s s' :
  manager_inv s -> step to_json config l s = Some s' -> manager_inv s'.
Proof.
  intros Hinv Hs. destruct l as [e| | | | |ses io|i ses io|d|].
  6: { eapply writer_moves_inv; [done|by apply flush_moves]. }
  6: { eapply writer_moves_inv; [done|by eapply spawned_moves]. }
  all: pose proof Hinv as [Hf Hh Hb Hl Hd Hp Hfin Ht]; unfold step in Hs; destruct (exited s); [done|].
  - destruct (closed s) eqn:Hc; [done|]. destruct (ch_send _ _) as [c|] eqn:Hsend; simplify_eq.
    apply ch_send_some in Hsend as (_ & Hv & _). split; simpl; auto.
    + rewrite Hv, <- Hf. by rewrite <- !app_assoc.
    + intros Hx. destruct (Hfin Hx). congruence.
  - destruct (closed s) eqn:Hc; simplify_eq. split; simpl; auto.
    intros Hx. destruct (Hfin Hx) as [? ?]. congruence.
  - destruct (looping s) eqn:Hn; [|done]. simpl in Hs. destruct (ch_recv _) as [[e c]|] eqn:Hr; simplify_eq.
    by apply on_event_inv.
  - destruct (looping s) eqn:Hn; [|done]. destruct (closed s) eqn:Hc; [|done]. simpl in Hs.
    destruct (ch_recv _) as [|] eqn:Hr; simplify_eq. by apply on_closed_inv.
  - destruct (looping s) eqn:Hn; [|done]. simpl in Hs. case_match; [done|]. simplify_eq. by apply on_timeout_inv.
  - case_match; simplify_eq. b2p. split; simpl; auto. lia.
  - case_match eqn:Hx; simplify_eq. apply andb_prop in Hx as [Hx _]. split; simpl; auto.
    unfold writers, finished in *. simpl. destruct (mgr s); try done.
    intros wr Hin. by apply not_elem_of_nil in Hin.
Qed.

Lemma siem_run_reachable ls s : run to_json config ls (initial config) = Some s -> reachable to_json config s.
Proof. by exists ls. Qed.
Lemma reachable_inv s : reachable to_json config s -> manager_inv s.
Proof. apply reach_invariant; [apply step_inv|apply manager_inv_initial]. Qed.
End manager_facts.

(** ** Durability with a working disk *)
Section durability.
Context {C : Type} `{MP : !Mpsc SiemEvent C} (to_json : SiemEvent -> option bytes) (config : Config).
(** serde_json serialises every event, and escapes control characters. *)
Hypothesis json_line : forall e, exists j, to_json e = Some j /\ is_line j.

(** The WAL as the pieces written to it: whole JSON texts and newlines. *)
Definition piece (p : option bytes) : bytes := match p with Some j => j | None => [10] end.
Definition pieces (ps : list (option bytes)) : bytes := concat (map piece ps).

Definition dumped_in (ps : list (option bytes)) (e : SiemEvent) : Prop :=
  exists j, to_json e = Some j /\ Some j ∈ ps.
(** An event is kept when it is a committed row or one of the pieces. *)
Definition kept (w : World) (ps : list (option bytes)) (e : SiemEvent) : Prop :=
  e ∈ ch_rows w \/ dumped_in ps e.

(** The events whose text the writer has put into the WAL. *)
Definition written (wr : writer) : list SiemEvent :=
  match wr with
  | WInsert _ => []
  | WOpen _ _ => []
  | WJson b _ n => take n b
  | WNewline b _ n => take (S n) b
  end.
Definition in_line (wr : writer) : bool := match wr with WNewline _ _ _ => true | _ => false end.
Definition pending (ws : list writer) : nat := length (filter (fun wr => in_line wr = true) ws).

(** No writer starts a line while another one is inside its own. *)
Definition unmixed (s : state C) : Prop := (pending (writers s) <= 1)%nat.

(** Whole lines, then the [k] texts still without their newline. *)
Definition paired (ps : list (option bytes)) (k : nat) : Prop :=
  exists js open, Forall is_line (js ++ open) /\ length open = k /\
    ps = concat (map (fun j => [Some j; None]) js) ++ map Some open.

Lemma pieces_app ps qs : pieces (ps ++ qs) = pieces ps ++ pieces qs.
Proof. unfold pieces. by rewrite map_app, concat_app. Qed.

Lemma dumped_in_app ps qs e : dumped_in ps e \/ dumped_in qs e -> dumped_in (ps ++ qs) e.
Proof. intros [(j & Hj & Hin)|(j & Hj & Hin)]; exists j; (split; [done|]); apply elem_of_app; auto. Qed.

(** What a step of a writer adds when the disk works: what it adds to the WAL,
    whether it is inside a line before and after it, and where the events of
    its batch are when it ends. *)
Definition line_step (before after : bool) (added : list (option bytes)) : Prop :=
  (before = false /\ after = false /\ added = []) \/
  (before = false /\ after = true /\ exists j, is_line j /\ added = [Some j]) \/
  (before = true /\ after = false /\ added = [None]).

Record progress (wr : writer) (w w' : World) (o : option writer) (added : list (option bytes)) : Prop := {
  pr_wal : wal w' = wal w ++ pieces added;
  pr_critical : critical w' = critical w;
  pr_rows : forall e, e ∈ ch_rows w -> e ∈ ch_rows w';
  pr_next : match o with
            | Some wr' => forall e, e ∈ written wr' -> e ∈ written wr \/ dumped_in added e
            | None => forall e, e ∈ batch_of wr -> e ∈ ch_rows w' \/ e ∈ written wr
            end;
  pr_line : line_step (in_line wr) (match o with Some wr' => in_line wr' | None => false end) added;
}.

Lemma progress_silent wr w o rows :
  in_line wr = false -> match o with Some wr' => in_line wr' = false /\ written wr' = written wr | None => True end ->
  (o = None -> forall e, e ∈ batch_of wr -> e ∈ ch_rows w ++ rows \/ e ∈ written wr) ->
  progress wr w (mkWorld (ch_rows w ++ rows) (wal w) (critical w)) o [].
Proof.
  intros Hl Ho Hb. split; simpl; [by rewrite app_nil_r|done| | |].
  - intros e He. apply elem_of_app. by left.
  - destruct o as [wr'|]; [|by apply Hb]. destruct Ho as [_ ->]. auto.
  - left. split; [done|]. split; [|done]. destruct o; [by destruct Ho|done].
Qed.

Lemma world_id w : w = mkWorld (ch_rows w ++ []) (wal w) (critical w).
Proof. destruct w. simpl. by rewrite app_nil_r. Qed.

Lemma progress_insert ses io b w o w' :
  writer_step to_json ses io (WInsert b) w = (o, w') -> progress (WInsert b) w w' o [].
Proof.
  destruct b as [|e0 b0]; simpl.
  - intros [= <- <-]. rewrite (world_id w) at 2. apply progress_silent; try done.
    intros _ e He. by apply not_elem_of_nil in He.
  - set (b := e0 :: b0). destruct (ses_insert ses); simpl.
    2:{ intros [= <- <-]. rewrite (world_id w) at 2. by apply progress_silent. }
    destruct (_ && _).
    2:{ intros [= <- <-]. rewrite (world_id w) at 2. by apply progress_silent. }
    destruct (ses_end ses); intros [= <- <-]; apply progress_silent; try done.
    intros _ e He. left. apply elem_of_app. by right.
Qed.

Lemma progress_open ses io b r w o w' : healthy io ->
  writer_step to_json ses io (WOpen b r) w = (o, w') -> progress (WOpen b r) w w' o [].
Proof.
  intros (Ho & _) Hs. simpl in Hs. rewrite Ho in Hs. injection Hs as <- <-.
  rewrite (world_id w) at 2. by apply progress_silent.
Qed.

Lemma progress_json ses io b r n w o w' : healthy io ->
  writer_step to_json ses io (WJson b r n) w = (o, w') -> exists added, progress (WJson b r n) w w' o added.
Proof.
  intros (_ & Hw & Hf) Hs. simpl in Hs. destruct (b !! n) as [e|] eqn:Hn.
  - destruct (json_line e) as (j & Hj & Hl). rewrite Hj, Hw in Hs. simplify_eq. exists [Some j].
    split; simpl; try done; [unfold pieces; simpl; by rewrite app_nil_r| |].
    + intros e'. rewrite (take_S_r _ _ _ Hn). intros [He|He]%elem_of_app; [by left|right].
      apply list_elem_of_singleton in He as ->. exists j. split; [done|]. left.
    + right. left. eauto.
  - rewrite Hf in Hs. injection Hs as <- <-. exists []. rewrite (world_id w) at 2. apply progress_silent; try done.
    intros _ e He. right. simpl. rewrite take_ge by by apply lookup_ge_None. done.
Qed.

Lemma progress_newline ses io b r n w o w' : healthy io ->
  writer_step to_json ses io (WNewline b r n) w = (o, w') -> progress (WNewline b r n) w w' o [None].
Proof.
  intros (_ & Hw & _) Hs. simpl in Hs. rewrite Hw in Hs. simplify_eq.
  split; simpl; try done; [auto|]. right. by right.
Qed.

Lemma writer_progress ses io wr w o w' : healthy io ->
  writer_step to_json ses io wr w = (o, w') -> exists added, progress wr w w' o added.
Proof.
  intros Hio Hs. destruct wr as [b|b r|b r n|b r n].
  - exists []. by eapply progress_insert.
  - exists []. by eapply progress_open.
  - by eapply progress_json.
  - exists [None]. by eapply progress_newline.
Qed.

(** Lines stay whole as long as no two writers are inside one. *)
Lemma pending_cons wr ws : pending (wr :: ws) = ((if in_line wr then 1 else 0) + pending ws)%nat.
Proof. unfold pending. rewrite filter_cons. by destruct (in_line wr). Qed.
Lemma pending_perm ws ws' : Permutation ws ws' -> pending ws = pending ws'.
Proof. intros Hp. unfold pending. by rewrite Hp. Qed.
Lemma pending_app_opt o ws :
  pending (option_list o ++ ws) = ((if match o with Some wr => in_line wr | None => false end then 1 else 0) + pending ws)%nat.
Proof. destruct o; simpl; [apply pending_cons|done]. Qed.

Lemma paired_writer_step before after added ps k :
  line_step before after added ->
  ((if before then 1 else 0) + k <= 1)%nat -> ((if after then 1 else 0) + k <= 1)%nat ->
  paired ps ((if before then 1 else 0) + k)%nat -> paired (ps ++ added) ((if after then 1 else 0) + k)%nat.
Proof.
  intros Hl Hb Ha (js & op & Hj & Hlen & ->).
  destruct Hl as [(-> & -> & ->)|[(-> & -> & j & Hjl & ->)|(-> & -> & ->)]].
  - rewrite app_nil_r. by exists js, op.
  - assert (k = 0%nat) as -> by lia. destruct op; [|done]. exists js, [j].
    rewrite app_nil_r in Hj |- *. split; [by apply Forall_app; split; [|apply Forall_singleton]|done].
  - assert (k = 0%nat) as -> by lia. destruct op as [|j [|]]; try done. exists (js ++ [j]), [].
    rewrite !app_nil_r. split; [done|]. split; [done|]. rewrite map_app, concat_app. simpl. by rewrite <- app_assoc.
Qed.

(** The invariant; [strict]: no two writers were ever inside a line. *)
Record durable (strict : bool) (s : state C) (ps : list (option bytes)) : Prop := {
  dur_wal : wal (world s) = pieces ps;
  dur_critical : critical (world s) = [];
  dur_handed : forall b, b ∈ handed s ->
    (exists wr, wr ∈ writers s /\ batch_of wr = b) \/ forall e, e ∈ b -> kept (world s) ps e;
  dur_written : forall wr, wr ∈ writers s -> forall e, e ∈ written wr -> dumped_in ps e;
  dur_paired : strict = true -> paired ps (pending (writers s));
}.

(** Steps that start at most one writer and leave the world alone. *)
Lemma durable_same strict s s' ps new :
  durable strict s ps -> world s' = world s -> Permutation (writers s') (map WInsert new ++ writers s) ->
  (forall b, b ∈ handed s' -> b ∈ handed s \/ b ∈ new) ->
  durable strict s' ps.
Proof.
  intros [Hw Hc Hh Ht Hp] Ew Ewr Hs. split; rewrite ?Ew; auto.
  - intros b [Hb|Hb]%Hs.
    + destruct (Hh b Hb) as [(wr & Hin & Hwr)|]; [left|by right].
      exists wr. split; [|done]. rewrite Ewr. apply elem_of_app. by right.
    + left. exists (WInsert b). split; [|done]. rewrite Ewr. apply elem_of_app. left.
      apply list_elem_of_fmap. by exists b.
  - intros wr Hin e He. rewrite Ewr in Hin. apply elem_of_app in Hin as [Hin|Hin]; [|by eapply Ht].
    apply list_elem_of_fmap in Hin as (b & -> & _). by apply not_elem_of_nil in He.
  - intros Hst. rewrite (pending_perm _ _ Ewr). replace (pending (map WInsert new ++ writers s)) with (pending (writers s)); [auto|].
    clear. induction new as [|b new IH]; simpl; [done|]. by rewrite pending_cons.
Qed.

Lemma durable_moves strict ses io s s' ps :
  durable strict s ps -> healthy io -> writer_moves to_json ses io s s' ->
  (strict = true -> unmixed s /\ unmixed s') ->
  exists ps', durable strict s' ps'.
Proof.
  intros [Hw Hc Hh Ht Hp] Hio [(wr & rest & o & Hp1 & Hs & Hp2) _ Hsame] Hun.
  destruct (writer_progress _ _ _ _ _ _ Hio Hs) as (added & [Pw Pc Pr Pn Pl]).
  assert (Hwr : forall e, e ∈ written wr -> dumped_in ps e) by (apply Ht; rewrite Hp1; left).
  assert (Hkept : forall e, kept (world s) ps e -> kept (world s') (ps ++ added) e).
  { intros e [He|He]; [left; auto|right]. apply dumped_in_app. by left. }
  exists (ps ++ added). split.
  - by rewrite Pw, Hw, pieces_app.
  - congruence.
  - assert (handed s' = handed s) as -> by by rewrite Hsame.
    intros b Hb. destruct (Hh b Hb) as [(wr' & Hin & Hb')|Hk]; [|right; auto].
    rewrite Hp1 in Hin. apply elem_of_cons in Hin as [->|Hin].
    2:{ left. exists wr'. split; [|done]. rewrite Hp2. apply elem_of_app. by right. }
    destruct o as [wr1|]; [left; exists wr1|right].
    + rewrite Hp2. split; [left|]. by rewrite (writer_step_batch _ _ _ _ _ _ _ Hs).
    + subst b. intros e [He|He]%Pn; [by left|right]. apply dumped_in_app. auto.
  - intros wr' Hin e He. rewrite Hp2 in Hin. apply dumped_in_app. apply elem_of_app in Hin as [Hin|Hin].
    + destruct o as [wr1|]; [|by apply not_elem_of_nil in Hin]. apply list_elem_of_singleton in Hin as ->.
      apply Pn in He as [He|He]; auto.
    + left. apply (Ht wr'); [|done]. rewrite Hp1. by right.
  - intros Hst. destruct (Hun Hst) as [Hu1 Hu2]. unfold unmixed in *. specialize (Hp Hst).
    rewrite (pending_perm _ _ Hp1), pending_cons in Hp, Hu1. rewrite (pending_perm _ _ Hp2), pending_app_opt in Hu2 |- *.
    by eapply paired_writer_step.
Qed.

Definition label_healthy (l : label) : Prop :=
  match l with LFlush _ io | LWriter _ _ io => healthy io | _ => True end.

Lemma spawn_writers (s : state C) b : looping s = true ->
  Permutation (writers (spawn_batch config s b)) (map WInsert [b] ++ writers s).
Proof.
  intros Hl. rewrite !looping_writers by done. simpl. symmetry. apply Permutation_cons_append.
Qed.

Lemma durable_spawn strict s s0 b ps : durable strict s ps -> looping s = true ->
  world s0 = world s -> writers s0 = writers s -> looping s0 = true -> handed s0 = handed s ->
  durable strict (spawn_batch config s0 b) ps.
Proof.
  intros Hd Hl Ew Ewr Hl0 Eh. eapply (durable_same strict s _ ps [b]); [done|done| |].
  - rewrite spawn_writers by done. by rewrite Ewr.
  - simpl. rewrite Eh. intros b' Hb. by apply elem_of_app in Hb.
Qed.

Lemma durable_step strict l s s' ps :
  durable strict s ps -> label_healthy l -> (strict = true -> unmixed s /\ unmixed s') ->
  step to_json config l s = Some s' -> exited s' = false -> exists ps', durable strict s' ps'.
Proof.
  intros Hinv Hl Hun Hs He.
  assert (Hid : world s' = world s -> writers s' = writers s -> handed s' = handed s -> exists ps', durable strict s' ps').
  { intros Ew Ewr Eh. exists ps. apply (durable_same strict s s' ps []); [done|done|by rewrite Ewr|].
    rewrite Eh. by left. }
  destruct l as [e| | | | |ses io|i ses io|d|]; simpl in Hl.
  6: { eapply durable_moves; [done|done|by apply (flush_moves _ config)|done]. }
  6: { eapply durable_moves; [done|done|by eapply (spawned_moves _ config)|done]. }
  all: unfold step in Hs; destruct (exited s) eqn:Hex; [done|].
  - split_match. by apply Hid.
  - split_match. by apply Hid.
  - destruct (looping s) eqn:Hn; [|done]. simpl in Hs. split_match. unfold on_event in *. case_match; [|by apply Hid].
    exists ps. by eapply durable_spawn.
  - destruct (looping s) eqn:Hn; [|done]. simpl in Hs. split_match. unfold on_closed in *. destruct (buffer s) as [|e buf].
    + apply Hid; [done| |done]. rewrite (looping_writers s) by done. unfold writers. simpl. by rewrite app_nil_r.
    + exists ps. eapply (durable_same strict s _ ps [e :: buf]); [done|done| |].
      * rewrite (looping_writers s) by done. unfold writers. simpl. symmetry. apply Permutation_cons_append.
      * simpl. intros b Hb. by apply elem_of_app in Hb.
  - destruct (looping s) eqn:Hn; [|done]. simpl in Hs. split_match. unfold on_timeout in *.
    destruct (buffer s); [by apply Hid|]. exists ps. by eapply durable_spawn.
  - split_match. by apply Hid.
  - by split_match.
Qed.

Lemma durable_initial strict : durable strict (initial config) [].
Proof.
  split; simpl; try done.
  - intros b Hb. by apply not_elem_of_nil in Hb.
  - intros wr Hin. by apply not_elem_of_nil in Hin.
  - intros _. by exists [], [].
Qed.

(** From the initial state, as long as the process has not exited. *)
Lemma durable_run strict ls s :
  Forall label_healthy ls ->
  (strict = true -> through (step to_json config) unmixed ls (initial config)) ->
  run to_json config ls (initial config) = Some s -> exited s = false ->
  exists ps, durable strict s ps.
Proof.
  intros Hl Ht Hr.
  refine (exec_invariant_through (step to_json config) label_healthy (fun s => strict = true -> unmixed s)
    (fun s => exited s = false -> exists ps, durable strict s ps) _ ls _ _ _ Hl _ Hr).
  - intros l s0 s1 Hd Hl0 Hu0 Hu1 Hs He. assert (exited s0 = false) as He0.
    { unfold step in Hs. by destruct (exited s0). }
    destruct (Hd He0) as [ps Hd']. eapply durable_step; [done|done| |done|done]. auto.
  - intros _. exists []. apply durable_initial.
  - intros ls1 ls2 s' -> Hr' Hst. by eapply (Ht Hst).
Qed.

Lemma pieces_lines js : pieces (concat (map (fun j => [Some j; None]) js)) = unlines js.
Proof.
  induction js as [|j js IH]; [done|]. unfold pieces in *. cbn [map concat app]. unfold unlines in *. cbn [map concat piece].
  by rewrite IH, <- app_assoc.
Qed.

(** With no writer at work every piece is a line. *)
Lemma paired_lines ps e : paired ps 0 -> dumped_in ps e ->
  exists j, to_json e = Some j /\ j ∈ lines (pieces ps).
Proof.
  intros (js & op & Hl & Hlen & ->) (j & Hj & Hin). exists j. split; [done|].
  destruct op; [|done]. cbn [map] in *. rewrite !app_nil_r in *. rewrite pieces_lines, lines_unlines by done.
  clear -Hin. induction js as [|j' js IH]; cbn [map concat app] in Hin; [by apply not_elem_of_nil in Hin|].
  apply elem_of_cons in Hin as [[= ->]|Hin]; [left|].
  apply elem_of_cons in Hin as [|Hin]; [done|right; auto].
Qed.

(** Nobody at work: everything handed over is kept. *)
Lemma quiet_kept strict s ps e : durable strict s ps -> manager_inv config s ->
  finished s = true -> tasks s = [] -> e ∈ sent s -> kept (world s) ps e.
Proof.
  intros [_ _ Hh _ _] Hm Hfin Ht He. destruct (inv_finished _ _ Hm (finished_looping _ Hfin)) as (_ & Hb & Hc).
  pose proof (inv_fifo _ _ Hm) as Hf. rewrite Hb, Hc, !app_nil_r in Hf. rewrite <- Hf in He.
  apply list_elem_of_In, in_concat in He as (b & Hin & He). apply list_elem_of_In in Hin, He.
  destruct (Hh b Hin) as [(wr & Hwr & _)|Hk]; [|by apply Hk].
  unfold writers, finished in *. rewrite Ht in Hwr. destruct (mgr s); try done. by apply not_elem_of_nil in Hwr.
Qed.
End durability.

(** ** The first full batch under the configuration of [main] *)
Section first_batch.
Context {C : Type} `{MP : !Mpsc SiemEvent C} (to_json : SiemEvent -> option bytes).

(** A running manager that has received [l] and handed [h] over. *)
Record running (s : state C) (snt l : list SiemEvent) (h : list (list SiemEvent)) : Prop := {
  run_live : exited s = false /\ closed s = false /\ mgr s = Looping;
  run_channel : ch_view (channel s) = [] /\ ch_cap (channel s) = CHANNEL_CAPACITY;
  run_lists : sent s = snt /\ buffer s = l /\ handed s = h;
  run_world : world s = mkWorld [] [] [];
}.

Lemma feed_one s snt l h e :
  running s snt l h -> (length l < 20)%nat ->
  exists s', run to_json main_config [LSend e; LRecv] s = Some s' /\
    if (length l =? 19)%nat then running s' (snt ++ [e]) [] (h ++ [l ++ [e]])
    else running s' (snt ++ [e]) (l ++ [e]) h.
Proof.
  intros [(He & Hc & Hf) (Hv & Hcap) (Hs & Hb & Hh) Hw] Hl.
  destruct (ch_send (channel s) e) as [c1|] eqn:Hsend.
  2:{ apply ch_send_none in Hsend. rewrite Hv, Hcap in Hsend. unfold CHANNEL_CAPACITY in Hsend. simpl in Hsend. lia. }
  destruct (ch_send_some _ _ _ Hsend) as (_ & Hv1 & Hcap1). rewrite Hv in Hv1. simpl in Hv1.
  destruct (ch_recv c1) as [[e' c2]|] eqn:Hrecv.
  2:{ apply ch_recv_none in Hrecv. congruence. }
  destruct (ch_recv_some _ _ _ Hrecv) as (Hv2 & Hcap2). rewrite Hv1 in Hv2. injection Hv2 as <- Hv2.
  exists (on_event main_config (set_channel s c1 false (sent s ++ [e])) c2 e). split.
  { simpl. unfold step at 1. rewrite He, Hc, Hsend. unfold step. unfold looping. simpl. by rewrite He, Hf, Hrecv. }
  unfold on_event, set_channel. cbn [buffer].
  replace (max_batch_size main_config <=? length (buffer s ++ [e]))%nat with (length l =? 19)%nat.
  2:{ rewrite Hb, length_app. cbn [length max_batch_size main_config].
      destruct (Nat.eqb_spec (length l) 19), (Nat.leb_spec 20 (length l + 1)); lia. }
  case_match; split; simpl; rewrite ?Hs, ?Hh, ?Hb; auto; split; congruence.
Qed.

Lemma feed evs : forall s snt l,
  running s snt l [] -> (length l + length evs = 20)%nat -> evs ≠ [] ->
  exists ls s', run to_json main_config ls s = Some s' /\ running s' (snt ++ evs) [] [l ++ evs].
Proof.
  induction evs as [|e evs IH]; intros s snt l Hr Hlen Hne; [done|]. simpl in Hlen.
  destruct (feed_one s snt l [] e Hr) as (s1 & Hrun & Hcase); [lia|].
  destruct evs as [|e2 evs].
  - exists [LSend e; LRecv], s1. split; [done|]. simpl in Hlen.
    by rewrite (proj2 (Nat.eqb_eq (length l) 19)) in Hcase by lia.
  - rewrite (proj2 (Nat.eqb_neq (length l) 19)) in Hcase by (simpl in Hlen; lia).
    destruct (IH s1 (snt ++ [e]) (l ++ [e]) Hcase) as (ls & s' & Hrun' & Hr').
    { rewrite length_app. simpl in *. lia. }
    { done. }
    exists ([LSend e; LRecv] ++ ls), s'. unfold run. rewrite (exec_from _ _ _ _ _ Hrun).
    by rewrite <- !app_assoc in Hr'.
Qed.

Lemma running_initial : running (initial main_config) [] [] [].
Proof. destruct (ch_new_view (E := SiemEvent) (C := C) CHANNEL_CAPACITY). by split. Qed.

(** Dropping the sender, the manager's return and the end of [main]. *)
Lemma shut_down s snt h :
  running s snt [] h ->
  exists s', run to_json main_config [LClose; LRecvNone; LExit] s = Some s' /\
    exited s' = true /\ sent s' = snt /\ handed s' = h /\ world s' = mkWorld [] [] [].
Proof.
  intros [(He & Hc & Hf) (Hv & _) (Hs & Hb & Hh) Hw].
  destruct (ch_recv (channel s)) as [[e c]|] eqn:Hrecv.
  { apply ch_recv_some in Hrecv as [Hx _]. congruence. }
  eexists. split.
  - unfold run. cbn [exec]. unfold step at 1. rewrite He, Hc. unfold step at 1, looping. simpl. rewrite He, Hf.
    simpl. rewrite Hrecv. unfold on_closed. simpl. rewrite Hb. unfold step. simpl. rewrite He. reflexivity.
  - simpl. auto.
Qed.
End first_batch.

(** ** Two dumps at the same time *)
Definition down : Session := mkSession false (fun _ => false) EndOk.
Definition working : WalIo := mkWalIo true (fun _ => Ok tt) true.

Definition late (e : SiemEvent) : list label := [LSend e; LRecv; LTick 1000000000; LTimeout].
Definition mixing_run (e1 e2 : SiemEvent) : list label :=
  late e1 ++ late e2 ++
  map (fun i => LWriter i down working) [0; 0; 1; 1; 0; 1; 0; 1; 0; 0]%nat ++ [LClose; LRecvNone].

Lemma mixing_healthy e1 e2 : Forall label_healthy (mixing_run e1 e2).
Proof.
  assert (healthy working) by done. unfold mixing_run, late. cbn [app map].
  repeat (apply Forall_cons; split; [first [exact I|assumption]|]). by apply Forall_nil.
Qed.

Definition mixed_state (e1 e2 : SiemEvent) (j1 j2 : bytes) : state (nat * list SiemEvent) :=
  mkState (100%nat, []) true [] 3000000000 Returned [] false
    (mkWorld [] ((((j1 ++ j2) ++ [10]) ++ [10])) []) 2000000000 [] [e1; e2] [[e1]; [e2]].

Lemma mixed_lines j1 j2 : is_line j1 -> is_line j2 -> lines (((j1 ++ j2) ++ [10]) ++ [10]) = [j1 ++ j2; []].
Proof.
  intros [H1 H1'] [H2 H2']. rewrite <- (lines_unlines [j1 ++ j2; []]).
  - f_equal.
  - apply Forall_cons_2; [|apply Forall_cons_2; [|done]]; split; try apply not_elem_of_nil; by apply not_elem_of_app.
Qed.

(** The generator from the round after [c], with [n] rounds to go. *)
Lemma simulate_from (uuid at_ : nat -> Z) (accepts : nat -> bool) :
  forall n c fuel, (n = 50 - c)%nat -> (0 < n)%nat -> (n <= fuel)%nat ->
    exists l, simulate fuel uuid at_ accepts c = Some l /\ (length l <= n)%nat /\
      (forall i, (i < length l)%nat -> accepts (c + S i)%nat = true /\
         l !! i = Some (simulated_event (uuid (c + S i)%nat) (at_ (c + S i)%nat) (c + S i),
                        pause_after (c + S i))) /\
      (length l < n -> accepts (c + S (length l)) = false)%nat.
Proof.
  induction n as [|n IH]; intros c fuel Hn Hpos Hf; [lia|].
  destruct fuel as [|fuel]; [lia|]. cbn [simulate].
  destruct (accepts (S c)) eqn:Ha; cbn [negb].
  2:{ exists []. split; [done|]. simpl. split; [lia|]. split; [lia|].
      intros _. by replace (c + 1)%nat with (S c) by lia. }
  destruct (Nat.leb_spec 50 (S c)) as [Hlast|Hlast].
  - eexists. split; [done|]. simpl. split; [lia|]. split; [|lia].
    intros i Hi. assert (i = 0%nat) as -> by lia. by replace (c + 1)%nat with (S c) by lia.
  - destruct (IH (S c) fuel) as (l & Hl & Hlen & Hall & Hstop); [lia..|].
    rewrite Hl. eexists. split; [done|]. simpl. split; [lia|]. split.
    + intros [|i] Hi; [by replace (c + 1)%nat with (S c) by lia|].
      replace (c + S (S i))%nat with (S c + S i)%nat by lia. apply Hall. lia.
    + intros Hlt. replace (c + S (S (length l)))%nat with (S c + S (length l))%nat by lia.
      apply Hstop. lia.
Qed.

(** ** Properties *)

(** C18. Conservation: at every moment of every run, the batches handed to the
    writers, the buffer and the channel together are exactly the events the
    producer sent, each once and in the order of sending; batches are never
    empty nor longer than the configured size, and the buffer always stays
    below it; once the manager has returned, everything has been handed over. *)
Theorem siem_conservation {C : Type} `{MP : !Mpsc SiemEvent C} (to_json : SiemEvent -> option bytes)
    (config : Config) (s : state C) :
  (1 <= max_batch_size config)%nat -> reachable to_json config s ->
  concat (handed s) ++ buffer s ++ ch_view (channel s) = sent s /\
  Forall (fun b => (1 <= length b <= max_batch_size config)%nat) (handed s) /\
  (length (buffer s) < max_batch_size config)%nat /\
  (finished s = true -> concat (handed s) = sent s).
Proof.
  intros Hm Hr. destruct (reachable_inv to_json config s Hr) as [Hf Hh Hb _ _ _ Hfin _].
  destruct (Hb Hm) as [Hlen Hbuf]. split; [done|]. split; [|split; [done|]].
  - apply Forall_forall. intros b Hin. rewrite Forall_forall in Hh, Hlen.
    specialize (Hh b Hin). specialize (Hlen b Hin). destruct b; simpl in *; [done|lia].
  - intros Hx%finished_looping. destruct (Hfin Hx) as (_ & Hb0 & Hc0). rewrite Hb0, Hc0, !app_nil_r in Hf. done.
Qed.

(** C35. Latency: an event waits in the buffer for at most [batch_timeout];
    as soon as that time has passed since one arrived, the manager's timer
    branch is enabled and hands the whole buffer to a writer. *)
Theorem siem_latency {C : Type} `{MP : !Mpsc SiemEvent C} (to_json : SiemEvent -> option bytes)
    (config : Config) (s : state C) (t : Z) :
  reachable to_json config s -> exited s = false ->
  t ∈ arrivals s -> t + batch_timeout config <= now s ->
  length (arrivals s) = length (buffer s) /\
  exists s', step to_json config LTimeout s = Some s' /\
    buffer s' = [] /\ tasks s' = tasks s ++ [WInsert (buffer s)].
Proof.
  intros Hr He Hin Ht. destruct (reachable_inv to_json config s Hr) as [_ _ _ Hl Hd _ Hfin _].
  split; [done|]. rewrite Forall_forall in Hd. specialize (Hd t Hin).
  assert (Hne : buffer s ≠ []).
  { intros E. rewrite E in Hl. destruct (arrivals s); [by apply not_elem_of_nil in Hin|done]. }
  unfold step. rewrite He. destruct (looping s) eqn:Hn.
  2:{ destruct (Hfin eq_refl) as (_ & ? & _). done. }
  rewrite (proj2 (Z.ltb_ge _ _)) by lia. eexists. split; [reflexivity|].
  unfold on_timeout. by destruct (buffer s).
Qed.

(** C36. The fate of a batch, whatever the ClickHouse client and the disk do.
    A writer whose operations no other writer interleaves with ends after at
    most two operations per event and three more, in the world [write_batch]
    computes.  There the batch is committed as rows, or fully appended to the
    WAL one line per event, or reported by the CRITICAL log line; the only way
    it is lost without that report is that the insert session could not be
    created and the dump then failed.  An error of the final commit may leave
    it in both places. *)
Theorem write_batch_fate (to_json : SiemEvent -> option bytes) (ses : Session) (io : WalIo)
    (batch : list SiemEvent) (w : World) :
  let w' := write_batch to_json ses io batch w in
  batch ≠ [] ->
  (forall fuel, (2 * length batch + 3 <= fuel)%nat ->
     run_writer to_json fuel ses io (WInsert batch) w = Some w') /\
  ((w' = mkWorld (ch_rows w ++ batch) (wal w) (critical w)) \/
   (exists js rows, mapM to_json batch = Some js /\ (rows = [] \/ rows = batch) /\
      w' = mkWorld (ch_rows w ++ rows) (wal w ++ unlines js) (critical w)) \/
   (dump_fails to_json io batch w /\ critical w' = critical w ++ [batch]) \/
   (dump_fails to_json io batch w /\ ses_insert ses = false /\ critical w' = critical w)).
Proof.
  intros w' Hne. split; [intros fuel; apply run_writer_batch|].
  destruct (write_batch_cases to_json ses io batch w Hne)
    as [H|js rows Hjs Hr H|file rows Hr Hf H|file Hi Hf H]; subst w'; rewrite H; simpl; eauto 10.
Qed.

(** C3. Durability: if every dump finds a working disk, then whatever
    ClickHouse does and however the operations of concurrent writers
    interleave, once the manager has returned and the spawned writers have
    completed, nothing is reported lost and every event that was sent is a
    committed row or one of the JSON texts the WAL is made of; if moreover no
    two writers were ever inside a line at the same time, it is a committed
    row or a line that reading the WAL gives back. *)
Theorem siem_durability {C : Type} `{MP : !Mpsc SiemEvent C} (to_json : SiemEvent -> option bytes)
    (config : Config) (ls : list label) (s : state C) :
  (forall e, exists j, to_json e = Some j /\ is_line j) ->
  Forall label_healthy ls -> run to_json config ls (initial config) = Some s ->
  finished s = true -> tasks s = [] -> exited s = false ->
  critical (world s) = [] /\
  (exists ps, wal (world s) = pieces ps /\ forall e, e ∈ sent s -> kept to_json (world s) ps e) /\
  (through (step to_json config) unmixed ls (initial config) ->
   forall e, e ∈ sent s -> e ∈ ch_rows (world s) \/
     exists j, to_json e = Some j /\ j ∈ lines (wal (world s))).
Proof.
  intros Hj Hl Hr Hfin Ht Hx.
  pose proof (reachable_inv to_json config s (ex_intro _ ls Hr)) as Hm. split_and!.
  - destruct (durable_run to_json config Hj false ls s Hl) as [ps [_ Hc _ _ _]]; done.
  - destruct (durable_run to_json config Hj false ls s Hl) as [ps Hd]; [done..|].
    exists ps. split; [apply Hd|]. intros e He. by eapply quiet_kept.
  - intros Hu e He. destruct (durable_run to_json config Hj true ls s Hl) as [ps Hd]; [done..|].
    destruct (quiet_kept _ _ _ _ _ e Hd Hm Hfin Ht He) as [|Hk]; [by left|right].
    rewrite (dur_wal _ _ _ _ Hd). apply paired_lines; [|done].
    pose proof (dur_paired _ _ _ _ Hd eq_refl) as Hp. unfold writers, finished in *.
    rewrite Ht in Hp. by destruct (mgr s).
Qed.

(** Two dumps at the same time: ClickHouse is down, the disk works, and
    two timer flushes of one event each interleave in the WAL.  The events are
    not lost, but they share one line, which no reader of lines can parse as
    an event, and an empty line follows. *)
Theorem dumps_share_a_line (to_json : SiemEvent -> option bytes) (e1 e2 : SiemEvent) (j1 j2 : bytes) :
  to_json e1 = Some j1 -> to_json e2 = Some j2 -> is_line j1 -> is_line j2 ->
  exists ls (s : state (nat * list SiemEvent)),
    Forall label_healthy ls /\ run to_json main_config ls (initial main_config) = Some s /\
    finished s = true /\ tasks s = [] /\ sent s = [e1; e2] /\ ch_rows (world s) = [] /\
    lines (wal (world s)) = [j1 ++ j2; []].
Proof.
  intros H1 H2 Hl1 Hl2. exists (mixing_run e1 e2).
  assert (run to_json main_config (mixing_run e1 e2) (initial main_config) = Some (mixed_state e1 e2 j1 j2)) as Hr.
  { lazy. rewrite H1. lazy. rewrite H2. reflexivity. }
  eexists. split; [|split; [exact Hr|]].
  - apply mixing_healthy.
  - do 4 (split; [reflexivity|]). exact (mixed_lines j1 j2 Hl1 Hl2).
Qed.

(** Shutdown: [main] joins the generator and the manager but not the
    spawned writers, so the process can exit while a full batch is still with
    one of them, and its events are then neither rows nor in the WAL, although
    nothing failed.  With the configuration of [main] this can happen to the
    first 20 events, whichever they are. *)
Theorem exit_drops_spawned_batches {C : Type} `{MP : !Mpsc SiemEvent C}
    (to_json : SiemEvent -> option bytes) (evs : list SiemEvent) :
  length evs = 20%nat ->
  exists ls (s : state C), run to_json main_config ls (initial main_config) = Some s /\
    exited s = true /\ sent s = evs /\ handed s = [evs] /\ world s = mkWorld [] [] [].
Proof.
  intros Hlen. destruct (feed to_json evs (initial main_config) [] [] running_initial)
    as (ls & s1 & Hrun & Hr1); [done|by destruct evs|].
  destruct (shut_down to_json s1 evs [evs] Hr1) as (s2 & Hrun2 & Hx & Hs & Hh & Hw).
  exists (ls ++ [LClose; LRecvNone; LExit]), s2. unfold run.
  rewrite (exec_from _ _ _ _ _ Hrun). auto.
Qed.

(** The load generator terminates: with fuel for 50 rounds it sends the
    events numbered 1, 2, ... in order and stops after the first refused send
    or after the 50th; it never needs more. *)
Theorem generator_terminates (uuid at_ : nat -> Z) (accepts : nat -> bool) (fuel : nat) :
  (50 <= fuel)%nat ->
  exists l, simulate fuel uuid at_ accepts 0 = Some l /\ (length l <= 50)%nat /\
    (forall i, (1 <= i <= length l)%nat -> accepts i = true /\
       l !! (i - 1)%nat = Some (simulated_event (uuid i) (at_ i) i, pause_after i)) /\
    (length l < 50 -> accepts (S (length l)) = false)%nat.
Proof.
  intros Hf.
  destruct (simulate_from uuid at_ accepts 50%nat 0%nat fuel) as (l & Hl & Hlen & Hall & Hstop); [lia..|].
  exists l. split; [done|]. split; [done|]. split; [|done].
  intros i Hi. destruct (Hall (i - 1)%nat) as [Ha Hi']; [lia|].
  by replace (0 + S (i - 1))%nat with i in * by lia.
Qed.

(** *** Witnesses *)
Definition ev (n : nat) : SiemEvent := simulated_event (Z.of_nat n) 0 n.
(** A stand-in serialiser: the message. *)
Definition toy_ser (e : SiemEvent) : option bytes :=
  Some (List.filter (fun b => negb ((b =? 10) || (b =? 13))) (message e)).
Lemma toy_ser_line e : exists j, toy_ser e = Some j /\ is_line j.
Proof.
  eexists. split; [done|]. split; intros Hin%list_elem_of_In; apply filter_In in Hin as [_ Hin]; done.
Qed.
Definition disk : WalIo := mkWalIo true (fun _ => Ok tt) true.
Definition ch_up : Session := mkSession true (fun _ => true) EndOk.
Definition ch_down : Session := mkSession false (fun _ => false) EndOk.
Definition small : Config := mkConfig 2 1000.

(** Three events: a full batch of two that ClickHouse refuses, and the last
    one flushed at shutdown while the spawned writer is at work. *)
Definition demo : list label :=
  [LSend (ev 1); LRecv; LSend (ev 2); LTick 10; LRecv; LSend (ev 3); LRecv; LClose;
   LWriter 0 ch_down disk; LRecvNone; LWriter 0 ch_down disk; LWriter 0 ch_down disk; LFlush ch_up disk;
   LWriter 0 ch_down disk; LWriter 0 ch_down disk; LWriter 0 ch_down disk; LWriter 0 ch_down disk].
Definition demo_state : state (nat * list SiemEvent) :=
  default (initial small) (run toy_ser small demo (initial small)).
Lemma demo_run : run toy_ser small demo (initial small) = Some demo_state.
Proof. vm_compute. reflexivity. Qed.

Lemma siem_conservation_witness :
  concat (handed demo_state) = [ev 1; ev 2; ev 3] /\ finished demo_state = true.
Proof.
  destruct (siem_conservation toy_ser small demo_state) as (_ & _ & _ & H);
    [vm_compute; lia|exact (siem_run_reachable toy_ser small demo demo_state demo_run)|].
  split; [|vm_compute; reflexivity]. rewrite H; vm_compute; reflexivity.
Defined.

Definition waiting : state (nat * list SiemEvent) :=
  default (initial small) (run toy_ser small [LSend (ev 1); LTick 7; LRecv; LTick 1000] (initial small)).
Lemma siem_latency_witness :
  exists s', step toy_ser small LTimeout waiting = Some s' /\ tasks s' = [WInsert [ev 1]].
Proof.
  destruct (siem_latency toy_ser small waiting 7) as (_ & s' & Hs & _ & Ht).
  - apply (siem_run_reachable toy_ser small [LSend (ev 1); LTick 7; LRecv; LTick 1000]). vm_compute. reflexivity.
  - vm_compute. reflexivity.
  - apply elem_of_cons. left. vm_compute. reflexivity.
  - vm_compute. discriminate.
  - exists s'. split; [exact Hs|]. rewrite Ht. vm_compute. reflexivity.
Defined.

(** A commit error with a working disk: the batch is in the WAL. *)
Lemma write_batch_fate_witness :
  let w' := write_batch toy_ser (mkSession true (fun _ => true) (EndErr false)) disk [ev 1] (mkWorld [] [] []) in
  (exists js rows, mapM toy_ser [ev 1] = Some js /\ (rows = [] \/ rows = [ev 1]) /\
     w' = mkWorld ([] ++ rows) ([] ++ unlines js) []).
Proof.
  destruct (write_batch_fate toy_ser (mkSession true (fun _ => true) (EndErr false)) disk [ev 1]
              (mkWorld [] [] [])) as [_ [H|[H|[[_ H]|(_ & H & _)]]]].
  - discriminate.
  - vm_compute in H. discriminate.
  - exact H.
  - vm_compute in H. discriminate.
  - vm_compute in H. discriminate.
Defined.

(** In the run above only one writer uses the WAL. *)
Lemma demo_unmixed : through (step toy_ser small) unmixed demo (initial small).
Proof.
  intros ls1 ls2 s Hd Hr. assert (ls1 = take (length ls1) demo) as Hp by by rewrite Hd, take_app_length.
  assert (length ls1 <= 17)%nat as Hlen by (apply (f_equal length) in Hd; rewrite length_app in Hd; simpl in Hd; lia).
  rewrite Hp in Hr. clear Hp Hd. revert Hr. generalize (length ls1) Hlen. intros n Hn.
  do 18 (destruct n as [|n]; [vm_compute; intros; simplify_eq; vm_compute; lia|]). lia.
Qed.

Lemma siem_durability_witness :
  critical (world demo_state) = [] /\
  Forall (fun e => e ∈ ch_rows (world demo_state) \/
    exists j, toy_ser e = Some j /\ j ∈ lines (wal (world demo_state))) (sent demo_state).
Proof.
  destruct (siem_durability toy_ser small demo demo_state toy_ser_line) as (Hc & _ & Hl).
  - repeat (apply Forall_cons; split; [vm_compute; auto|]). apply Forall_nil. exact I.
  - exact demo_run.
  - vm_compute. reflexivity.
  - vm_compute. reflexivity.
  - vm_compute. reflexivity.
  - split; [exact Hc|]. apply Forall_forall. exact (Hl demo_unmixed).
Defined.

Lemma dumps_share_a_line_witness : exists ls (s : state (nat * list SiemEvent)),
  run toy_ser main_config ls (initial main_config) = Some s /\ sent s = [ev 1; ev 2] /\
  lines (wal (world s)) = [message (ev 1) ++ message (ev 2); []].
Proof.
  destruct (dumps_share_a_line toy_ser (ev 1) (ev 2) (message (ev 1)) (message (ev 2)))
    as (ls & s & _ & Hr & _ & _ & Hs & _ & Hw).
  - vm_compute. reflexivity.
  - vm_compute. reflexivity.
  - split; by_evaluation.
  - split; by_evaluation.
  - exists ls, s. split; [exact Hr|]. split; [exact Hs|exact Hw].
Defined.

Lemma exit_drops_spawned_batches_witness :
  exists ls (s : state (nat * list SiemEvent)),
    run toy_ser main_config ls (initial main_config) = Some s /\
    sent s = map ev (seq 1 20) /\ world s = mkWorld [] [] [].
Proof.
  destruct (exit_drops_spawned_batches (C := nat * list SiemEvent) toy_ser (map ev (seq 1 20)))
    as (ls & s & Hr & _ & Hs & _ & Hw); [reflexivity|].
  exists ls, s. split; [exact Hr|]. split; [exact Hs|exact Hw].
Defined.

Lemma generator_terminates_witness :
  exists l, simulate 60 (fun _ => 0) (fun _ => 0) (fun c => (c <=? 30)%nat) 0 = Some l /\ length l = 30%nat.
Proof.
  destruct (generator_terminates (fun _ => 0) (fun _ => 0) (fun c => (c <=? 30)%nat) 60)
    as (l & Hl & _); [lia|].
  exists l. split; [exact Hl|]. vm_compute in Hl. injection Hl as <-. reflexivity.
Defined.
