(* ===== verification/Bpf.v ===== *)
(** Interfaces of the kernel's eBPF maps (through the aya crates), with
    executable instances, the little-endian packet access the XDP programs
    share, and the sequence of calls by which the loaders start them (Module
    Aya).  The eBPF objects of the repository are built for [bpfel]. *)
From S2P Require Import Prelude Bytes.

(** ** [BPF_MAP_TYPE_HASH]

    A lookup returns the value stored under the key; an insert that succeeds
    stores it; inserting a key that is already there does not fail, nor does any insert
    while there is room. *)
Class BpfHash (K V M : Type) `{EqDecision K} := {
  bpf_empty : nat -> M;
  bpf_size : M -> nat;
  bpf_cap : M -> nat;
  bpf_get : M -> K -> option V;
  bpf_insert : M -> K -> V -> option M;
  bpf_get_empty : forall n k, bpf_get (bpf_empty n) k = None;
  bpf_insert_some : forall m k v m' k',
    bpf_insert m k v = Some m' -> bpf_get m' k' = if decide (k' = k) then Some v else bpf_get m k';
  bpf_insert_none : forall m k v, bpf_insert m k v = None -> bpf_get m k = None;
  bpf_size_empty : forall n, bpf_size (bpf_empty n) = 0%nat /\ bpf_cap (bpf_empty n) = n;
  bpf_insert_size : forall m k v m', bpf_insert m k v = Some m' ->
    bpf_cap m' = bpf_cap m /\
    bpf_size m' = match bpf_get m k with Some _ => bpf_size m | None => S (bpf_size m) end;
  bpf_insert_room : forall m k v, (bpf_size m < bpf_cap m)%nat -> is_Some (bpf_insert m k v);
}.

(** A finite map with a bound on its number of entries. *)
#[export] Program Instance gmap_bpf_hash (K V : Type) `{Countable K} : BpfHash K V (nat * gmap K V) := {|
  bpf_empty n := (n, ∅);
  bpf_size m := size (snd m);
  bpf_cap := fst;
  bpf_get m k := snd m !! k;
  bpf_insert m k v :=
    match snd m !! k with
    | Some _ => Some (fst m, <[k := v]> (snd m))
    | None => if (size (snd m) <? fst m)%nat then Some (fst m, <[k := v]> (snd m)) else None
    end;
|}.
Next Obligation. done. Qed.
Next Obligation.
  intros K V ? ? [n m] k v m' k'. simpl. intros Hi.
  assert (m' = (n, <[k := v]> m)) as -> by (repeat case_match; by simplify_eq).
  simpl. rewrite lookup_insert. by repeat case_decide; subst.
Qed.
Next Obligation. intros K V ? ? [n m] k v. simpl. by repeat case_match. Qed.
Next Obligation. intros. split; [apply map_size_empty|done]. Qed.
Next Obligation.
  intros K V ? ? [n m] k v m'. simpl. intros Hi. destruct (m !! k) eqn:E.
  - injection Hi as <-. simpl. rewrite map_size_insert, E. done.
  - case_match; [|done]. injection Hi as <-. simpl. by rewrite map_size_insert, E.
Qed.
Next Obligation.
  intros K V ? ? [n m] k v. simpl. intros Hr. case_match; [by eexists|].
  rewrite (proj2 (Nat.ltb_lt _ _)) by done. by eexists.
Qed.

(** Writes whose failure is ignored. *)
Section fill.
Context {K V M : Type} `{EqDecision K} {B : BpfHash K V M}.
Implicit Types (m : M) (kvs : list (K * V)).

Definition bpf_set m (kv : K * V) : M := default m (bpf_insert m kv.1 kv.2).
Definition bpf_fill m kvs : M := foldl bpf_set m kvs.

(** The keys of a map, counted. *)
Definition bpf_keys m (ks : list K) : Prop :=
  NoDup ks /\ bpf_size m = length ks /\ forall k, is_Some (bpf_get m k) <-> k ∈ ks.

Lemma bpf_keys_empty n : bpf_keys (bpf_empty n) [].
Proof.
  split; [constructor|]. split; [apply bpf_size_empty|]. intros k. rewrite bpf_get_empty. split.
  - by intros [].
  - by intros []%elem_of_nil.
Qed.

Lemma bpf_set_spec m ks u k v : bpf_keys m ks -> ks ⊆ u -> k ∈ u -> (length u <= bpf_cap m)%nat ->
  exists ks', bpf_keys (bpf_set m (k, v)) ks' /\ ks' ⊆ u /\ bpf_cap (bpf_set m (k, v)) = bpf_cap m /\
    forall k', bpf_get (bpf_set m (k, v)) k' = if decide (k' = k) then Some v else bpf_get m k'.
Proof.
  intros (Hnd & Hsz & Hk) Hu Hku Hcap. unfold bpf_set. cbn [fst snd].
  assert (is_Some (bpf_insert m k v)) as [m' Hi].
  { destruct (bpf_get m k) eqn:Hg.
    - destruct (bpf_insert m k v) eqn:Hi; [by eexists|]. by rewrite (bpf_insert_none _ _ _ Hi) in Hg.
    - apply bpf_insert_room. rewrite Hsz. eapply Nat.lt_le_trans; [|exact Hcap].
      assert (k :: ks ⊆+ u) as Hs%submseteq_length; [|exact Hs]. apply NoDup_submseteq.
      + constructor; [|done]. rewrite <- Hk, Hg. by intros [].
      + intros x [->|]%elem_of_cons; [done|by apply Hu]. }
  rewrite Hi. change (default m (Some m')) with m'. pose proof (bpf_insert_size _ _ _ _ Hi) as [Hc Hs].
  assert (forall k', bpf_get m' k' = if decide (k' = k) then Some v else bpf_get m k') as Hget
    by (intros; by apply bpf_insert_some).
  destruct (bpf_get m k) eqn:Hg.
  - exists ks. split; [|done]. split; [done|]. split; [congruence|]. intros k'. rewrite Hget, <- Hk.
    case_decide; [subst; rewrite Hg; split; eauto|done].
  - exists (k :: ks). split; [|split; [|done]].
    + split; [|split; [cbn; congruence|]].
      * constructor; [|done]. rewrite <- Hk, Hg. by intros [].
      * intros k'. rewrite Hget, elem_of_cons, <- Hk. case_decide; [|naive_solver]. split; eauto.
    + intros x [->|]%elem_of_cons; [done|by apply Hu].
Qed.

(** As long as the distinct keys fit, every write takes effect and the last
    one for a key is what a lookup finds. *)
Lemma bpf_fill_spec m ks u kvs : bpf_keys m ks -> ks ⊆ u -> kvs.*1 ⊆ u -> (length u <= bpf_cap m)%nat ->
  forall k, bpf_get (bpf_fill m kvs) k = match assoc_last k kvs with Some v => Some v | None => bpf_get m k end.
Proof.
  intros Hk Hu Hkv Hc.
  assert (exists ks', bpf_keys (bpf_fill m kvs) ks' /\ ks' ⊆ u /\ bpf_cap (bpf_fill m kvs) = bpf_cap m /\
    forall k, bpf_get (bpf_fill m kvs) k = match assoc_last k kvs with Some v => Some v | None => bpf_get m k end) as (?&?&?&?&?);
    [|done].
  unfold bpf_fill. induction kvs as [|[k v] kvs IH] using rev_ind; [exists ks; done|].
  rewrite fmap_app in Hkv. destruct IH as (ks1 & Hk1 & Hu1 & Hc1 & Hg1); [set_solver|].
  rewrite foldl_snoc. destruct (bpf_set_spec (foldl bpf_set m kvs) ks1 u k v) as (ks2 & Hk2 & Hu2 & Hc2 & Hg2);
    [done..|set_solver|by rewrite Hc1|].
  exists ks2. split; [done|]. split; [done|]. split; [congruence|]. intros k'. rewrite Hg2, Hg1, assoc_last_snoc.
  by repeat case_decide; subst.
Qed.

End fill.

(** ** [BPF_MAP_TYPE_LPM_TRIE]

    The trie maps bit prefixes to values, at most [lpm_cap] of them; an insert
    succeeds while there is room.  A lookup with a key of some length
    returns the value of the longest stored prefix of that key. *)
Class LpmTrie (V M : Type) := {
  lpm_empty : nat -> M;
  lpm_cap : M -> nat;
  lpm_view : M -> gmap (list bool) V;
  lpm_get : M -> list bool -> option V;
  lpm_insert : M -> list bool -> V -> option M;
  lpm_view_empty : forall n, lpm_view (lpm_empty n) = ∅ /\ lpm_cap (lpm_empty n) = n;
  lpm_insert_some : forall m p v m',
    lpm_insert m p v = Some m' -> lpm_view m' = <[p := v]> (lpm_view m) /\ lpm_cap m' = lpm_cap m;
  lpm_insert_room : forall m p v, (size (lpm_view m) < lpm_cap m)%nat -> is_Some (lpm_insert m p v);
  lpm_get_some : forall m k v, lpm_get m k = Some v <->
    exists p, lpm_view m !! p = Some v /\ p `prefix_of` k /\
      forall q, is_Some (lpm_view m !! q) -> q `prefix_of` k -> (length q <= length p)%nat;
}.

Fixpoint lpm_search {V} (m : gmap (list bool) V) (k : list bool) (n : nat) : option V :=
  match m !! take n k with
  | Some v => Some v
  | None => match n with O => None | S n => lpm_search m k n end
  end.

Lemma lpm_search_spec {V} (m : gmap (list bool) V) k n v :
  (n <= length k)%nat ->
  lpm_search m k n = Some v <->
  exists i, (i <= n)%nat /\ m !! take i k = Some v /\
    forall j, (i < j <= n)%nat -> m !! take j k = None.
Proof.
  induction n as [|n IH]; intros Hn; cbn [lpm_search].
  - destruct (m !! take 0 k) as [w|] eqn:E; split.
    + intros [= ->]. exists 0%nat. split; [done|]. split; [done|lia].
    + intros (i & Hi & Hv & _). assert (i = 0%nat) as -> by lia. congruence.
    + done.
    + intros (i & Hi & Hv & _). assert (i = 0%nat) as -> by lia. congruence.
  - destruct (m !! take (S n) k) as [w|] eqn:E.
    + split.
      * intros [= ->]. exists (S n). split; [done|]. split; [done|lia].
      * intros (i & Hi & Hv & Hj). destruct (decide (i = S n)) as [->|]; [congruence|].
        rewrite (Hj (S n)) in E by lia. done.
    + rewrite IH by lia. split; intros (i & Hi & Hv & Hj); exists i.
      * split; [lia|]. split; [done|]. intros j Hlt.
        destruct (decide (j = S n)) as [->|]; [done|apply Hj; lia].
      * destruct (decide (i = S n)) as [->|]; [congruence|].
        split; [lia|]. split; [done|]. intros j Hlt. apply Hj. lia.
Qed.

Lemma prefix_take {A} (p k : list A) : p `prefix_of` k <-> (length p <= length k)%nat /\ p = take (length p) k.
Proof.
  split.
  - intros [t ->]. split; [rewrite length_app; lia|]. by rewrite take_app_length.
  - intros [_ Hp]. exists (drop (length p) k). rewrite Hp at 1. by rewrite take_drop.
Qed.

#[export] Program Instance gmap_lpm (V : Type) : LpmTrie V (nat * gmap (list bool) V) := {|
  lpm_empty n := (n, ∅);
  lpm_cap := fst;
  lpm_view m := snd m;
  lpm_get m k := lpm_search (snd m) k (length k);
  lpm_insert m p v :=
    match snd m !! p with
    | Some _ => Some (fst m, <[p := v]> (snd m))
    | None => if (size (snd m) <? fst m)%nat then Some (fst m, <[p := v]> (snd m)) else None
    end;
|}.
Next Obligation. done. Qed.
Next Obligation. intros V [n m] p v m'. simpl. repeat case_match; intros; by simplify_eq/=. Qed.
Next Obligation.
  intros V [n m] p v. cbn [fst snd]. intros Hr. case_match; [by eexists|].
  rewrite (proj2 (Nat.ltb_lt _ _)) by done. by eexists.
Qed.
Next Obligation.
  intros V [n m] k v. cbn [snd]. rewrite lpm_search_spec by done. split.
  - intros (i & Hi & Hv & Hmax). exists (take i k). split; [done|].
    split; [exists (drop i k); by rewrite take_drop|].
    intros q [w Hq] Hp. apply prefix_take in Hp as [Hlen Hqk]. rewrite length_take.
    destruct (decide (length q <= i)%nat); [lia|]. rewrite Hqk, Hmax in Hq by lia. done.
  - intros (p & Hv & Hp & Hmax). pose proof Hp as [Hlen Hpk]%prefix_take.
    exists (length p). split; [done|]. rewrite <- Hpk. split; [done|].
    intros j Hj. destruct (m !! take j k) as [w|] eqn:E; [|done].
    assert (length (take j k) <= length p)%nat as Hle.
    { apply Hmax; [by eexists|]. exists (drop j k). by rewrite take_drop. }
    rewrite length_take in Hle. lia.
Qed.

(** A lookup succeeds exactly when some stored prefix matches. *)
Lemma lpm_get_is_some {V M} `{LpmTrie V M} (m : M) k : is_Some (lpm_get m k) <-> exists p, is_Some (lpm_view m !! p) /\ p `prefix_of` k.
Proof.
  split.
  - intros [v (p & Hp & Hk & _)%lpm_get_some]. eauto.
  - intros (p & Hp & Hk).
    (* the longest stored prefix *)
    assert (exists q, is_Some (lpm_view m !! q) /\ q `prefix_of` k /\
      forall r, is_Some (lpm_view m !! r) -> r `prefix_of` k -> (length r <= length q)%nat) as (q & [v Hq] & Hqk & Hm).
    { assert (length p <= length k)%nat as Hl by (by apply prefix_length).
      remember (length k - length p)%nat as d eqn:Hd. revert p Hp Hk Hl Hd.
      induction d as [d IH] using lt_wf_ind. intros p Hp Hk Hl Hd.
      destruct (decide (Exists (fun r => is_Some (lpm_view m !! r) /\ r `prefix_of` k /\ (length p < length r)%nat)
        (map (fun n => take n k) (seq 0 (S (length k)))))) as [He|Hn].
      - apply Exists_exists in He as (r & _ & Hr & Hrk & Hlt). pose proof (prefix_length _ _ Hrk).
        eapply (IH (length k - length r)%nat); [lia|exact Hr|done|done|done].
      - exists p. split; [done|]. split; [done|]. intros r Hr Hrk. destruct (decide (length p < length r)%nat); [|lia].
        exfalso. apply Hn. apply Exists_exists. exists r. split; [|done].
        apply prefix_take in Hrk as [Hlr Hrk]. apply list_elem_of_In, in_map_iff. exists (length r).
        split; [done|]. apply in_seq. lia. }
    exists v. apply lpm_get_some. eauto.
Qed.

(** ** Bits of a key, most significant first *)
Definition bits_of_byte (b : Z) : list bool := map (Z.testbit b) [7; 6; 5; 4; 3; 2; 1; 0].
Definition bits (bs : bytes) : list bool := concat (map bits_of_byte bs).

Lemma bits_length bs : length (bits bs) = (8 * length bs)%nat.
Proof.
  unfold bits. induction bs as [|b bs IH]; [done|]. cbn [map concat].
  rewrite length_app, IH. cbn [length]. simpl. lia.
Qed.

(** ** Packet access *)

(** [size] bytes at [off], or nothing when they do not lie inside. *)
Definition read_bytes (pkt : bytes) (off size : nat) : option bytes :=
  if (off + size <=? length pkt)%nat then Some (take size (drop off pkt)) else None.

(** A native (little-endian) u16, and [u16::from_be] on such a target. *)
Definition le16 (b : bytes) : Z := nth 0 b 0 + 256 * nth 1 b 0.
Definition u16_from_be (v : Z) : Z := Z.land v 255 * 256 + Z.shiftr v 8.

Lemma read_bytes_length pkt off size b : read_bytes pkt off size = Some b -> length b = size.
Proof.
  unfold read_bytes. case_match eqn:E; [|done]. apply Nat.leb_le in E. intros [= <-].
  rewrite length_take, length_drop. lia.
Qed.

Lemma bits_app a b : bits (a ++ b) = bits a ++ bits b.
Proof. unfold bits. by rewrite map_app, concat_app. Qed.

Lemma read_bytes_app a b c : read_bytes (a ++ b ++ c) (length a) (length b) = Some b.
Proof.
  unfold read_bytes. rewrite !length_app, (proj2 (Nat.leb_le _ _)) by lia.
  by rewrite drop_app_length, take_app_length.
Qed.

(** Two bytes are the big-endian value [v] exactly when they are its octets. *)
Lemma le16_from_be b0 b1 v : is_byte b0 -> is_byte b1 -> 0 <= v <= 65535 ->
  (le16 [b0; b1] = u16_from_be v <-> b0 = v / 256 /\ b1 = v mod 256).
Proof.
  unfold is_byte, u8_max, le16, u16_from_be. intros H0 H1 Hv. cbn [nth].
  change 255 with (Z.ones 8). rewrite Z.land_ones, Z.shiftr_div_pow2 by lia.
  change (2 ^ 8) with 256. Z.div_mod_to_equations; lia.
Qed.

Definition byte_of_bits (l : list bool) : Z := fold_left (fun acc b => 2 * acc + Z.b2z b) l 0.

Lemma bits_of_byte_inj a b : is_byte a -> is_byte b -> bits_of_byte a = bits_of_byte b -> a = b.
Proof.
  intros Ha Hb H. apply (f_equal byte_of_bits) in H.
  pose proof (byte_check (fun b => byte_of_bits (bits_of_byte b) =? b) ltac:(vm_compute; reflexivity)) as Hc.
  pose proof (Hc a Ha) as Ea. pose proof (Hc b Hb) as Eb. simpl in Ea, Eb. lia.
Qed.

Lemma bits_inj a b : is_bytes a -> is_bytes b -> bits a = bits b -> a = b.
Proof.
  intros Ha. revert b. induction Ha as [|x a Hx _ IH]; intros b Hb; destruct Hb as [|y b Hy Hb]; try done.
  change (bits (?z :: ?l)) with (bits_of_byte z ++ bits l). intros [Hxy Hab]%app_inj_1; [|done].
  f_equal; [by apply bits_of_byte_inj|by apply IH].
Qed.

(** The bytes of a frame that is long enough, one by one. *)
Ltac explode l :=
  lazymatch goal with
  | H : length l = O |- _ => destruct l; [|discriminate H]; clear H
  | H : length l = S _ |- _ =>
      let x := fresh "x" in let l' := fresh "l" in
      destruct l as [|x l']; [discriminate H|]; cbn [length] in H; apply Nat.succ_inj in H; explode l'
  | H : (S _ <= length l)%nat |- _ =>
      let x := fresh "x" in let l' := fresh "l" in
      destruct l as [|x l']; [cbn [length] in H; lia|]; cbn [length] in H; apply le_S_n in H; explode l'
  | |- _ => idtac
  end.

Lemma u16_from_be_le16 b0 b1 : is_byte b0 -> is_byte b1 -> u16_from_be (le16 [b0; b1]) = 256 * b0 + b1.
Proof.
  unfold is_byte, u8_max, le16, u16_from_be. intros H0 H1. cbn [nth].
  change 255 with (Z.ones 8). rewrite Z.land_ones, Z.shiftr_div_pow2 by lia.
  change (2 ^ 8) with 256. Z.div_mod_to_equations; lia.
Qed.

(** The octets of a big-endian value. *)
Lemma be16_octets b0 b1 v : is_byte b0 -> is_byte b1 -> 256 * b0 + b1 = v -> b0 = v / 256 /\ b1 = v mod 256.
Proof. unfold is_byte, u8_max. intros. Z.div_mod_to_equations; lia. Qed.

Lemma read_bytes_at data a b c off size : data = a ++ b ++ c -> length a = off -> length b = size ->
  read_bytes data off size = Some b.
Proof. intros -> <- <-. apply read_bytes_app. Qed.

Lemma read_bytes_inv data off size b : read_bytes data off size = Some b ->
  exists a c, data = a ++ b ++ c /\ length a = off /\ length b = size.
Proof.
  unfold read_bytes. case_match eqn:E; [|done]. apply Nat.leb_le in E. intros [= <-].
  exists (take off data), (drop size (drop off data)). rewrite !take_drop, !length_take, length_drop. split; [done|]. lia.
Qed.

(** ** Loading programs through aya

    The loaders of the repository are a sequence of calls each of which can
    end the process: with an error returned from [main] by [?], or in the panic
    of an [unwrap]; what it attached is detached at its end. *)
Module Aya.

Inductive ending := Started | Error | Panicked.

#[global] Instance ending_eq_dec : EqDecision ending.
Proof. solve_decision. Defined.

(** What the object file and the kernel answer: whether the object loads, has
    a program or a map of a name, of the type asked for, whether the kernel
    takes the program, attaches it to a target, and whether the logger, when the
    object has its map, can be set up. *)
Record answers := mkAnswers {
  object_loads : bool;
  has_program : bytes -> bool;
  program_type : bytes -> bool;
  loads : bytes -> bool;
  attaches : bytes -> bytes -> bool;
  has_map : bytes -> bool;
  map_type : bytes -> bool;
  logger_starts : bool;
}.

(** A sequence of calls, with what each does when it fails. *)
Abbreviation calls := (list (bool * ending)).
Fixpoint first_failure (l : calls) : ending :=
  match l with
  | [] => Started
  | (true, _) :: l => first_failure l
  | (false, e) :: _ => e
  end.

(** [Bpf::load(..)?]; [program_mut(name).unwrap().try_into()?], [load()?] and
    [attach(target)?]; [try_from(map_mut(name).unwrap())?]; the logger's
    [init(..)?], which needs the map that an object has when its programs log. *)
Definition object (k : answers) : calls := [(object_loads k, Error)].
Definition program (k : answers) (target name : bytes) : calls :=
  [(has_program k name, Panicked); (program_type k name, Error); (loads k name, Error); (attaches k target name, Error)].
Definition map (k : answers) (name : bytes) : calls := [(has_map k name, Panicked); (map_type k name, Error)].
Definition log_map : bytes := lit "AYA_LOGS".
Definition logger (k : answers) : calls := [(has_map k log_map, Error); (logger_starts k, Error)].

(** The program of a name is there and attached. *)
Definition attached (k : answers) (target name : bytes) : Prop :=
  has_program k name = true /\ program_type k name = true /\ loads k name = true /\ attaches k target name = true.
Definition usable (k : answers) (name : bytes) : Prop := has_map k name = true /\ map_type k name = true.

(** No failing call reports a start. *)
Definition honest (l : calls) : Prop := Forall (fun c => c.2 <> Started) l.

Lemma started_app l1 l2 : honest l1 -> first_failure (l1 ++ l2) = Started <-> first_failure l1 = Started /\ first_failure l2 = Started.
Proof.
  induction 1 as [|[[] e] l1 He _ IH]; cbn [app first_failure]; [naive_solver|exact IH|]. cbn in He. naive_solver.
Qed.

Lemma object_started k : first_failure (object k) = Started <-> object_loads k = true.
Proof. cbn. by destruct (object_loads k). Qed.
Lemma program_started k target name : first_failure (program k target name) = Started <-> attached k target name.
Proof. unfold attached. cbn. destruct (has_program _ _), (program_type _ _), (loads _ _), (attaches _ _ _); naive_solver. Qed.
Lemma map_started k name : first_failure (map k name) = Started <-> usable k name.
Proof. unfold usable. cbn. destruct (has_map _ _), (map_type _ _); naive_solver. Qed.
Lemma logger_started k : first_failure (logger k) = Started <-> has_map k log_map = true /\ logger_starts k = true.
Proof. cbn. destruct (has_map _ _), (logger_starts _); naive_solver. Qed.

(** A complete object and a kernel that takes everything. *)
Definition willing : answers := mkAnswers true (fun _ => true) (fun _ => true) (fun _ => true) (fun _ _ => true)
  (fun _ => true) (fun _ => true) true.
End Aya.

Ltac honest := unfold Aya.honest; repeat constructor; done.
