(* ===== verification/IpText.v ===== *)
(** The textual forms of IP addresses in [std::net]: the parser behind
    [Ipv4Addr::from_str], [Ipv6Addr::from_str] and [IpAddr::from_str], and the
    [Display] of an IPv4 address, with the round trip between them. *)
From S2P Require Import Prelude Bytes Net.

(** ** The parser

    A reader consumes a prefix of the input and returns what is left. *)
Definition dec_digit (b : Z) : option Z := if byte_in 48 57 b then Some (b - 48) else None.

Fixpoint read_digits (digit : Z -> option Z) (radix : Z) (mx : nat) (acc : Z) (cnt : nat) (s : bytes)
  : option (Z * nat * bytes) :=
  match s with
  | [] => Some (acc, cnt, [])
  | b :: s' =>
      match digit b with
      | Some d =>
          if (mx <? S cnt)%nat then None
          else read_digits digit radix mx (acc * radix + d) (S cnt) s'
      | None => Some (acc, cnt, s)
      end
  end.

(** [read_number]: 1 to [mx] digits, of value at most [bound]; a leading zero
    only alone unless [zero_prefix]. *)
Definition read_number (digit : Z -> option Z) (radix : Z) (mx : nat) (zero_prefix : bool) (bound : Z)
    (s : bytes) : option (Z * bytes) :=
  match read_digits digit radix mx 0 0 s with
  | Some (v, cnt, rest) =>
      if (cnt =? 0)%nat then None
      else if negb zero_prefix && bool_decide (head s = Some 48) && (1 <? cnt)%nat then None
      else if v <=? bound then Some (v, rest) else None
  | None => None
  end.

(** [read_separator]: the separator before every element but the first. *)
Definition read_sep (c : Z) (first : bool) (s : bytes) : option bytes :=
  if first then Some s
  else match s with b :: s => if b =? c then Some s else None | [] => None end.

Definition read_octet : bytes -> option (Z * bytes) := read_number dec_digit 10 3 false u8_max.

Fixpoint read_ipv4 (n : nat) (first : bool) (s : bytes) : option (list Z * bytes) :=
  match n with
  | O => Some ([], s)
  | S n =>
      match read_sep 46 first s with
      | Some s =>
          match read_octet s with
          | Some (o, s) =>
              match read_ipv4 n false s with
              | Some (os, s) => Some (o :: os, s)
              | None => None
              end
          | None => None
          end
      | None => None
      end
  end.

(** [read_groups] on at most [n] groups; the flag tells that the last two came
    from an embedded IPv4 address. *)
Fixpoint read_groups (n : nat) (first : bool) (s : bytes) : list Z * bool * bytes :=
  match n with
  | O => ([], false, s)
  | S n' =>
      match (if (1 <=? n')%nat
             then match read_sep 58 first s with Some s1 => read_ipv4 4 true s1 | None => None end
             else None) with
      | Some (os, rest) =>
          ([nth 0 os 0 * 256 + nth 1 os 0; nth 2 os 0 * 256 + nth 3 os 0], true, rest)
      | None =>
          match read_sep 58 first s with
          | Some s1 =>
              match read_number hex_digit 16 4 true 65535 s1 with
              | Some (g, rest) =>
                  let '(gs, v4, rest) := read_groups n' false rest in (g :: gs, v4, rest)
              | None => ([], false, s)
              end
          | None => ([], false, s)
          end
      end
  end.

Definition read_ipv6 (s : bytes) : option (list Z * bytes) :=
  let '(front, v4, rest) := read_groups 8 true s in
  if (length front =? 8)%nat then Some (front, rest)
  else if v4 then None
  else
    match rest with
    | 58 :: 58 :: rest =>
        let '(back, _, rest) := read_groups (8 - (length front + 1)) true rest in
        Some (front ++ replicate (8 - length front - length back) 0 ++ back, rest)
    | _ => None
    end.

Definition at_end {A} (r : option (A * bytes)) : option A :=
  match r with Some (a, []) => Some a | _ => None end.

(** [Ipv4Addr::from_str] and [IpAddr::from_str], as octets. *)
Definition ipv4_from_str (s : bytes) : option (list Z) :=
  if (15 <? length s)%nat then None else at_end (read_ipv4 4 true s).
Definition group_octets (gs : list Z) : list Z := concat (map (fun g => [g / 256; g mod 256]) gs).
Definition ip_from_str (s : bytes) : option IpAddr :=
  match read_ipv4 4 true s with
  | Some (os, rest) => at_end (Some (IpV4 os, rest))
  | None => (fun gs => IpV6 (group_octets gs)) <$> at_end (read_ipv6 s)
  end.

(** [Display for Ipv4Addr]. *)
Definition ipv4_display (os : list Z) : bytes :=
  match os with
  | [] => []
  | o :: os => dec o ++ concat (map (fun o => 46 :: dec o) os)
  end.

Example ip_examples :
  ipv4_from_str (lit "192.168.1.15") = Some [192; 168; 1; 15] /\
  ipv4_from_str (lit "192.168.01.15") = None /\ ipv4_from_str (lit "256.1.1.1") = None /\
  ipv4_from_str (lit "1.2.3") = None /\ ipv4_from_str (lit "1.2.3.4 ") = None /\
  ip_from_str (lit "2001:db8::1") = Some (IpV6 [32; 1; 13; 184; 0; 0; 0; 0; 0; 0; 0; 0; 0; 0; 0; 1]) /\
  ip_from_str (lit "::") = Some (IpV6 (replicate 16 0)) /\
  ip_from_str (lit "::ffff:1.2.3.4") = Some (IpV6 (replicate 10 0 ++ [255; 255; 1; 2; 3; 4])) /\
  ip_from_str (lit "1:2:3:4:5:6:7:8") = Some (IpV6 [0; 1; 0; 2; 0; 3; 0; 4; 0; 5; 0; 6; 0; 7; 0; 8]) /\
  ip_from_str (lit "1::2::3") = None /\ ip_from_str (lit "10.0.0.0/24") = None /\
  ipv4_display [10; 0; 0; 255] = lit "10.0.0.255".
Proof. vm_compute. repeat split. Qed.

(** ** Round trip *)

Definition is_ipv4 (os : list Z) : Prop := length os = 4%nat /\ is_bytes os.

(** A decimal octet is read back from in front of anything but a digit. *)
Definition no_digit_first (s : bytes) : Prop :=
  match s with [] => True | b :: _ => dec_digit b = None end.

Lemma dec_byte o : is_byte o ->
  dec o = if o <? 10 then [48 + o]
          else if o <? 100 then [48 + o / 10; 48 + o mod 10]
          else [48 + o / 100; 48 + o / 10 mod 10; 48 + o mod 10].
Proof.
  intros Ho. pose proof (byte_check (fun o => forallb (fun p => p.1 =? p.2)
      (combine (dec o) (if o <? 10 then [48 + o]
          else if o <? 100 then [48 + o / 10; 48 + o mod 10]
          else [48 + o / 100; 48 + o / 10 mod 10; 48 + o mod 10])) &&
      Nat.eqb (length (dec o)) (length (if o <? 10 then [48 + o]
          else if o <? 100 then [48 + o / 10; 48 + o mod 10]
          else [48 + o / 100; 48 + o / 10 mod 10; 48 + o mod 10])))
    ltac:(vm_compute; reflexivity) o Ho) as H.
  cbv beta in H. apply andb_prop in H as [H1 H2]. apply Nat.eqb_eq in H2.
  revert H1 H2. generalize (dec o). intros l.
  generalize (if o <? 10 then [48 + o]
          else if o <? 100 then [48 + o / 10; 48 + o mod 10]
          else [48 + o / 100; 48 + o / 10 mod 10; 48 + o mod 10]).
  induction l as [|x l IH]; intros [|y l'] H1 H2; simpl in *; try done.
  apply andb_prop in H1 as [Hxy H1]. apply Z.eqb_eq in Hxy as ->. f_equal. apply IH; [done|lia].
Qed.

Lemma dec_digit_48 d : 0 <= d <= 9 -> dec_digit (48 + d) = Some d.
Proof. intros H. unfold dec_digit, byte_in. replace (_ && _) with true by lia. f_equal; lia. Qed.

Lemma read_digits_stop acc cnt s : no_digit_first s -> read_digits dec_digit 10 3 acc cnt s = Some (acc, cnt, s).
Proof. destruct s as [|b s]; simpl; [done|]. by intros ->. Qed.

(** One digit step. *)
Lemma read_digits_cons acc cnt d s : 0 <= d <= 9 -> (cnt < 3)%nat ->
  read_digits dec_digit 10 3 acc cnt (48 + d :: s) = read_digits dec_digit 10 3 (acc * 10 + d) (S cnt) s.
Proof.
  intros Hd Hc. cbn [read_digits]. rewrite dec_digit_48 by done.
  by rewrite (proj2 (Nat.ltb_ge 3 (S cnt))) by lia.
Qed.

Lemma read_number_fits s o cnt c r rest : s = c :: r ->
  read_digits dec_digit 10 3 0 0 s = Some (o, cnt, rest) -> (0 < cnt)%nat -> (c <> 48 \/ cnt = 1%nat) ->
  0 <= o <= 255 -> read_octet s = Some (o, rest).
Proof.
  intros -> Hr Hcnt Hc Ho. unfold read_octet, read_number, u8_max. rewrite Hr.
  rewrite (proj2 (Nat.eqb_neq cnt 0)) by lia.
  replace (negb false && bool_decide (head (c :: r) = Some 48) && (1 <? cnt)%nat) with false.
  - by rewrite (proj2 (Z.leb_le o 255)) by lia.
  - symmetry. destruct Hc as [Hc| ->]; [|by rewrite andb_false_r].
    by rewrite bool_decide_false by (intros [= ?]; done).
Qed.

Lemma read_octet_dec o s : is_byte o -> no_digit_first s -> read_octet (dec o ++ s) = Some (o, s).
Proof.
  intros Ho Hs. rewrite dec_byte by done. unfold is_byte, u8_max in Ho.
  destruct (Z.ltb_spec o 10); [|destruct (Z.ltb_spec o 100)]; cbn [app];
    (eapply read_number_fits;
      [reflexivity | | | |lia];
      [rewrite !read_digits_cons by (Z.div_mod_to_equations; lia);
       rewrite read_digits_stop by done; repeat f_equal; Z.div_mod_to_equations; lia
      |lia|]).
  - by right.
  - left. Z.div_mod_to_equations; lia.
  - left. Z.div_mod_to_equations; lia.
Qed.

Lemma read_ipv4_display os s : is_bytes os -> no_digit_first s ->
  read_ipv4 (length os) false (concat (map (fun o => 46 :: dec o) os) ++ s) = Some (os, s).
Proof.
  induction 1 as [|o os Ho Hos IH]; intros Hs; [done|].
  cbn [length map concat read_ipv4 app read_sep]. rewrite Z.eqb_refl, <- app_assoc.
  rewrite read_octet_dec; [|done|].
  - by rewrite IH.
  - destruct os; [done|]. done.
Qed.

Lemma dec_length o : is_byte o -> (length (dec o) <= 3)%nat.
Proof. intros Ho. rewrite dec_byte by done. repeat case_match; simpl; lia. Qed.

Lemma ipv4_round_trip os : is_ipv4 os -> ipv4_from_str (ipv4_display os) = Some os.
Proof.
  intros [Hlen Hb]. destruct os as [|o os]; [done|]. apply Forall_cons in Hb as [Ho Hos].
  unfold ipv4_from_str. replace (15 <? length (ipv4_display (o :: os)))%nat with false.
  - injection Hlen as Hlen. replace (read_ipv4 4 true _) with (Some (o :: os, [] : bytes)); [done|].
    pose proof (read_ipv4_display os [] Hos I) as Hr. rewrite Hlen, app_nil_r in Hr.
    set (t := concat _) in *. unfold ipv4_display. fold t.
    change (read_ipv4 4 true (dec o ++ t)) with
      (match read_octet (dec o ++ t) with
       | Some (o, s) => match read_ipv4 3 false s with Some (os, s) => Some (o :: os, s) | None => None end
       | None => None
       end).
    rewrite read_octet_dec; [by rewrite Hr|done|]. subst t. by destruct os.
  - symmetry. apply Nat.ltb_ge. cbn [ipv4_display]. rewrite length_app.
    pose proof (dec_length o Ho). simpl in Hlen.
    assert (length (concat (map (fun o : Z => (46 :: dec o)%Z) os)) <= 4 * length os)%nat as Hc.
    { clear Hlen. induction Hos as [|o' os Ho' _ IH]; [done|]. cbn [map concat]. rewrite length_app.
      cbn [length]. pose proof (dec_length o' Ho'). lia. }
    lia.
Qed.

Lemma dec_visible o : is_byte o -> is_visible (dec o) /\ (47 ∉ dec o) /\ (35 ∉ dec o) /\ dec o <> [].
Proof.
  intros Ho. rewrite dec_byte by done. unfold is_byte, u8_max in Ho.
  repeat case_match; b2p; repeat split;
    try (repeat constructor; Z.div_mod_to_equations; lia); try done;
    rewrite ?elem_of_cons, ?elem_of_nil; Z.div_mod_to_equations; lia.
Qed.

(** The text of an address is visible ASCII, without a slash or a hash. *)
Lemma ipv4_display_visible os : is_ipv4 os ->
  is_visible (ipv4_display os) /\ (47 ∉ ipv4_display os) /\ (35 ∉ ipv4_display os) /\ ipv4_display os <> [].
Proof.
  intros [Hlen Hb]. destruct Hb as [|o os Ho Hos]; [done|]. cbn [ipv4_display].
  destruct (dec_visible o Ho) as (Hv & Hs & Hh & Hne).
  assert (is_visible (concat (map (fun o : Z => 46 :: dec o) os)) /\
    (47 ∉ concat (map (fun o : Z => 46 :: dec o) os)) /\ (35 ∉ concat (map (fun o : Z => 46 :: dec o) os))) as (Hv' & Hs' & Hh').
  { clear Hlen. induction Hos as [|o' os Ho' _ IH].
    - split; [constructor|]. split; apply not_elem_of_nil.
    - destruct (dec_visible o' Ho') as (? & ? & ? & _). destruct IH as (? & ? & ?). cbn [map concat].
      split; [|split].
      + apply Forall_app. split; [constructor; [lia|done]|done].
      + rewrite elem_of_app, elem_of_cons. intros [[|]|]; done.
      + rewrite elem_of_app, elem_of_cons. intros [[|]|]; done. }
  split; [by apply Forall_app|]. rewrite !elem_of_app. split; [naive_solver|]. split; [naive_solver|].
  intros [? _]%app_nil. done.
Qed.

Lemma ip_from_str_display os : is_ipv4 os -> ip_from_str (ipv4_display os) = Some (IpV4 os).
Proof. intros H. unfold ip_from_str. 
  pose proof (ipv4_round_trip os H) as Hr. unfold ipv4_from_str in Hr.
  destruct (15 <? _)%nat; [done|]. destruct (read_ipv4 4 true _) as [[os' [|]]|]; by simplify_eq/=.
Qed.
