(* ===== verification/XdpFirewall.v ===== *)
(** The XDP firewall: the kernel program of
    [src/xdp_firewall/xdp_firewall_ebpf/src/main.rs] (Module [Kernel]) and the
    loader of [src/xdp_firewall/xdp_firewall/src/main.rs] that keeps its
    [BLOCKED_IPS] trie up to date from a text file (Module [Loader]). *)
From S2P Require Import Prelude Net Bytes Bpf IpText.

(** ** The key both sides share

    [IpKey]: the first u32 is the length of the prefix in bits, the rest
    ([ip_type], then [addr]) is the data the trie matches. *)
Record IpKey := mkIpKey { prefixlen : Z; ip_type : Z; addr : bytes }.

(** The bits of the key that count for the trie. *)
Definition key_bits (k : IpKey) : list bool := take (Z.to_nat (prefixlen k)) (bits (ip_type k :: addr k)).

Module Kernel.

Definition XDP_DROP : Z := 1.
Definition XDP_PASS : Z := 2.
Definition ETH_P_IP : Z := 2048.
Definition ETH_P_IPV6 : Z := 34525.
(** Sizes of [ethhdr], [iphdr] and [ipv6hdr]. *)
Definition sizeof_ethhdr : nat := 14.
Definition sizeof_iphdr : nat := 20.
Definition sizeof_ipv6hdr : nat := 40.

Section kernel.
Context {M : Type} {T : LpmTrie Z M}.

Definition blocked (m : M) (k : IpKey) : bool :=
  match lpm_get m (key_bits k) with Some _ => true | None => false end.

(** The packet is the bytes from [ctx.data()] to [ctx.data_end()]. *)
Definition try_xdp_firewall (m : M) (data : bytes) : result Z unit :=
  if (length data <? sizeof_ethhdr)%nat then Err tt
  else
    let proto := le16 (take 2 (drop 12 data)) in
    if proto =? u16_from_be ETH_P_IP then
      let ip_start := sizeof_ethhdr in
      if (length data <? ip_start + sizeof_iphdr)%nat then Err tt
      else if negb (nth (ip_start + 9) data 0 =? 6) then Ok XDP_PASS
      else
        let src_ip := take 4 (drop (ip_start + 12) data) in
        let key := mkIpKey 40 4 (src_ip ++ replicate 12 0) in
        if blocked m key then Ok XDP_DROP else Ok XDP_PASS
    else if proto =? u16_from_be ETH_P_IPV6 then
      let ip6_start := sizeof_ethhdr in
      if (length data <? ip6_start + sizeof_ipv6hdr)%nat then Err tt
      else if negb (nth (ip6_start + 6) data 0 =? 6) then Ok XDP_PASS
      else
        let src_ip6 := take 16 (drop (ip6_start + 8) data) in
        let key := mkIpKey 136 6 src_ip6 in
        if blocked m key then Ok XDP_DROP else Ok XDP_PASS
    else Ok XDP_PASS.

Definition xdp_firewall (m : M) (data : bytes) : Z :=
  match try_xdp_firewall m data with Ok action => action | Err _ => XDP_PASS end.

End kernel.

End Kernel.

(** ** The [ipnet] crate

    What the loader relies on: a network has a prefix length that fits its
    family and a network address of that family; the constructors build the
    network of one address when given the full length; a string without a
    slash is not a network. *)
Class IpNetCrate := {
  IpNet : Type;
  IpNet_eq_dec :: EqDecision IpNet;
  ipnet_from_str : bytes -> option IpNet;
  Ipv4Net_new : list Z -> Z -> option IpNet;
  Ipv6Net_new : list Z -> Z -> option IpNet;
  network : IpNet -> IpAddr;
  prefix_len : IpNet -> Z;
  network_wf : forall n, match network n with
    | IpV4 o => length o = 4%nat /\ 0 <= prefix_len n <= 32
    | IpV6 o => length o = 16%nat /\ 0 <= prefix_len n <= 128
    end;
  Ipv4Net_new_32 : forall o, length o = 4%nat ->
    exists n, Ipv4Net_new o 32 = Some n /\ network n = IpV4 o /\ prefix_len n = 32;
  Ipv6Net_new_128 : forall o, length o = 16%nat ->
    exists n, Ipv6Net_new o 128 = Some n /\ network n = IpV6 o /\ prefix_len n = 128;
  ipnet_no_slash : forall s, 47 ∉ s -> ipnet_from_str s = None;
}.

Module Loader.

Section loader.
Context {N : IpNetCrate}.

(** [HashSet::insert]. *)
Definition set_insert (n : IpNet) (s : list IpNet) : list IpNet := if decide (n ∈ s) then s else n :: s.

(** [.unwrap()] on the constructors. *)
Definition unwrap {A} (o : option A) : outcome A := match o with Some a => Val a | None => Panic end.

(** The network a line of the file names, if any. *)
Definition parse_line (line : bytes) : outcome (option IpNet) :=
  let entry := trim line in
  if bool_decide (entry = []) || starts_with entry (lit "#") then Val None
  else match ipnet_from_str entry with
  | Some net => Val (Some net)
  | None =>
      match ip_from_str entry with
      | Some (IpV4 v4) => net ← unwrap (Ipv4Net_new v4 32); Val (Some net)
      | Some (IpV6 v6) => net ← unwrap (Ipv6Net_new v6 128); Val (Some net)
      | None => Val None
      end
  end.

Fixpoint collect (ls : list bytes) (current_networks : list IpNet) : outcome (list IpNet) :=
  match ls with
  | [] => Val current_networks
  | line :: ls =>
      net ← parse_line line;
      collect ls (match net with Some n => set_insert n current_networks | None => current_networks end)
  end.

Definition current_networks (contents : bytes) : outcome (list IpNet) := collect (lines contents) [].

(** [prefix_len] is a [u8]; the build decides what an overflow of the
    addition would do. *)
Definition key_of (chk : bool) (net : IpNet) : outcome IpKey :=
  prefix_len ← checked_arith chk u8_max (prefix_len net + 8);
  Val (match network net with
       | IpV4 o => mkIpKey prefix_len 4 (o ++ replicate 12 0)
       | IpV6 o => mkIpKey prefix_len 6 o
       end).

Context {M : Type} {T : LpmTrie Z M}.

(** The loop over the set: a failed insert is ignored. *)
Fixpoint write_rules (chk : bool) (blocked_map : M) (nets : list IpNet) : outcome M :=
  match nets with
  | [] => Val blocked_map
  | net :: nets =>
      key ← key_of chk net;
      write_rules chk (default blocked_map (lpm_insert blocked_map (key_bits key) 1)) nets
  end.

(** What the attempt to read the file gives. *)
Definition read_to_string (file : option bytes) : option bytes :=
  match file with
  | Some contents => if is_str contents then Some contents else None
  | None => None
  end.

(** One turn of the loop.  The set is visited in some order. *)
Inductive round (chk : bool) (m : M) (file : option bytes) : M -> Prop :=
| round_unreadable : read_to_string file = None -> round chk m file m
| round_read contents nets order m' :
    read_to_string file = Some contents -> current_networks contents = Val nets ->
    order ≡ₚ nets -> write_rules chk m order = Val m' -> round chk m file m'.

(** The turns of a run, on the states of the file it finds. *)
Inductive rounds (chk : bool) : M -> list (option bytes) -> M -> Prop :=
| rounds_nil m : rounds chk m [] m
| rounds_cons m file m' files m'' :
    round chk m file m' -> rounds chk m' files m'' -> rounds chk m (file :: files) m''.

(** One turn in the order of the list that represents the set. *)
Definition run_round (chk : bool) (m : M) (file : option bytes) : outcome M :=
  match read_to_string file with
  | Some contents => nets ← current_networks contents; write_rules chk m nets
  | None => Val m
  end.

(** Start-up, and the whole program: [None] while no program is attached, which
    is so when the start-up fails. *)
Definition start (k : Aya.answers) : Aya.ending :=
  Aya.first_failure (Aya.object k ++ Aya.program k (lit "eth0") (lit "xdp_firewall") ++ Aya.map k (lit "BLOCKED_IPS")).

Inductive main (chk : bool) (k : Aya.answers) : list (option bytes) -> option M -> Prop :=
| main_fails files : start k <> Aya.Started -> main chk k files None
| main_runs files m : start k = Aya.Started -> rounds chk (lpm_empty 4096) files m -> main chk k files (Some m).

(** What becomes of a frame on the interface. *)
Definition on_interface (om : option M) (data : bytes) : Z :=
  match om with Some m => Kernel.xdp_firewall m data | None => Kernel.XDP_PASS end.

End loader.

End Loader.

(** ** The network rules as sets of addresses *)

(** A TCP packet and its source address, by the layout of the headers. *)
Inductive tcp_from : IpAddr -> bytes -> Prop :=
| tcp4 macs h src rest :
    length macs = 12%nat -> length h = 12%nat -> nth 9 h 0 = 6 -> length src = 4%nat ->
    (4 <= length rest)%nat -> tcp_from (IpV4 src) (macs ++ [8; 0] ++ h ++ src ++ rest)
| tcp6 macs h src rest :
    length macs = 12%nat -> length h = 8%nat -> nth 6 h 0 = 6 -> length src = 16%nat ->
    (16 <= length rest)%nat -> tcp_from (IpV6 src) (macs ++ [134; 221] ++ h ++ src ++ rest).

(** The key of an address of full length. *)
Definition address_bits (ip : IpAddr) : list bool :=
  match ip with IpV4 o => bits (4 :: o) | IpV6 o => bits (6 :: o) end.

Section kernel_proofs.
Context {M : Type} {T : LpmTrie Z M}.
Implicit Types (m : M).

Definition blocks m ip : Prop := exists p, is_Some (lpm_view m !! p) /\ p `prefix_of` address_bits ip.

Lemma blocked_spec m k : Kernel.blocked m k = true <->
  exists p, is_Some (lpm_view m !! p) /\ p `prefix_of` key_bits k.
Proof.
  rewrite <- lpm_get_is_some. unfold Kernel.blocked.
  destruct (lpm_get m _); split; naive_solver.
Qed.

Lemma key_bits_4 src : length src = 4%nat -> key_bits (mkIpKey 40 4 (src ++ replicate 12 0)) = address_bits (IpV4 src).
Proof.
  intros Hl. unfold key_bits, address_bits. cbn [prefixlen ip_type addr]. change (4 :: src ++ ?t) with ((4 :: src) ++ t).
  rewrite bits_app. apply take_app_length'. rewrite bits_length. cbn [length]. lia.
Qed.

Lemma key_bits_6 src : length src = 16%nat -> key_bits (mkIpKey 136 6 src) = address_bits (IpV6 src).
Proof.
  intros Hl. unfold key_bits, address_bits. cbn [prefixlen ip_type addr]. apply take_ge. rewrite bits_length. cbn [length]. lia.
Qed.

Lemma firewall_drops m ip data : tcp_from ip data -> blocks m ip -> Kernel.xdp_firewall m data = Kernel.XDP_DROP.
Proof.
  intros Ht Hb. unfold Kernel.xdp_firewall, Kernel.try_xdp_firewall.
  destruct Ht as [macs h src rest Hm Hh H6 Hs Hr|macs h src rest Hm Hh H6 Hs Hr].
  - assert (Kernel.blocked m (mkIpKey 40 4 (src ++ replicate 12 0)) = true) as Hbl
      by (apply blocked_spec; by rewrite key_bits_4).
    explode macs; explode h; explode src; explode rest. cbn in H6. subst. cbn in Hbl |- *. by rewrite Hbl.
  - assert (Kernel.blocked m (mkIpKey 136 6 src) = true) as Hbl
      by (apply blocked_spec; by rewrite key_bits_6).
    explode macs; explode h; explode src; explode rest. cbn in H6. subst. cbn in Hbl |- *. by rewrite Hbl.
Qed.

Lemma firewall_drop_inv m data : is_bytes data -> Kernel.xdp_firewall m data = Kernel.XDP_DROP ->
  exists ip, tcp_from ip data /\ blocks m ip.
Proof.
  intros Hb. unfold Kernel.xdp_firewall, Kernel.try_xdp_firewall.
  destruct (Nat.ltb_spec (length data) Kernel.sizeof_ethhdr) as [|H14]; [done|].
  destruct (Z.eqb_spec (le16 (take 2 (drop 12 data))) (u16_from_be Kernel.ETH_P_IP)) as [H4|_].
  - destruct (Nat.ltb_spec (length data) (Kernel.sizeof_ethhdr + Kernel.sizeof_iphdr)) as [|H34]; [done|].
    clear H14. unfold Kernel.sizeof_ethhdr, Kernel.sizeof_iphdr in *. cbn [Nat.add] in H34. explode data. cbn in H4 |- *. repeat (apply Forall_cons in Hb as [? Hb]).
    apply le16_from_be in H4 as [-> ->]; [|done..].
    match goal with |- context [negb (?y =? 6)] => destruct (Z.eqb_spec y 6) as [->|]; [|done] end. cbn [negb].
    match goal with |- context [Kernel.blocked m (mkIpKey 40 4 (?a :: ?b :: ?c :: ?d :: _))] =>
      set (src := [a; b; c; d]); destruct (Kernel.blocked m _) eqn:E; [|done] end.
    intros _. exists (IpV4 src). apply blocked_spec in E.
    change (exists p, is_Some (lpm_view m !! p) /\ p `prefix_of` key_bits (mkIpKey 40 4 (src ++ replicate 12 0))) in E.
    rewrite (key_bits_4 src) in E by done. split; [|done].
    match goal with |- tcp_from _ ?d =>
      refine (tcp4 (take 12 d) (take 12 (drop 14 d)) src (drop 30 d) _ _ _ _ _); cbn; done || lia end.
  - destruct (Z.eqb_spec (le16 (take 2 (drop 12 data))) (u16_from_be Kernel.ETH_P_IPV6)) as [H6|_]; [|done].
    destruct (Nat.ltb_spec (length data) (Kernel.sizeof_ethhdr + Kernel.sizeof_ipv6hdr)) as [|H54]; [done|].
    clear H14. unfold Kernel.sizeof_ethhdr, Kernel.sizeof_ipv6hdr in *. cbn [Nat.add] in H54. explode data. cbn in H6 |- *. repeat (apply Forall_cons in Hb as [? Hb]).
    apply le16_from_be in H6 as [-> ->]; [|done..].
    match goal with |- context [negb (?y =? 6)] => destruct (Z.eqb_spec y 6) as [->|]; [|done] end. cbn [negb].
    match goal with |- context [Kernel.blocked m (mkIpKey 136 6 ?a)] =>
      set (src := a); destruct (Kernel.blocked m _) eqn:E; [|done] end.
    intros _. exists (IpV6 src). apply blocked_spec in E. rewrite (key_bits_6 src) in E by done. split; [|done].
    match goal with |- tcp_from _ ?d =>
      refine (tcp6 (take 12 d) (take 8 (drop 14 d)) src (drop 38 d) _ _ _ _ _); cbn; done || lia end.
Qed.

End kernel_proofs.

(** ** What the loader writes *)
Section loader_proofs.
Context {N : IpNetCrate} {M : Type} {T : LpmTrie Z M}.
Implicit Types (m : M) (n : IpNet).

(** The networks of a file, and the prefix a network is stored under. *)
Definition file_nets (file : option bytes) : list IpNet :=
  match Loader.read_to_string file with
  | Some contents => match Loader.current_networks contents with Val nets => nets | Panic => [] end
  | None => []
  end.
Definition net_prefix n : list bool :=
  take (Z.to_nat (prefix_len n) + 8) (address_bits (network n)).

(** [Contains]: same family, and the first [prefix_len] bits agree. *)
Definition net_contains n ip : Prop :=
  match network n, ip with
  | IpV4 a, IpV4 b | IpV6 a, IpV6 b => take (Z.to_nat (prefix_len n)) (bits a) `prefix_of` bits b
  | _, _ => False
  end.

Lemma prefix_take_self {A} i (a : list A) : take i a `prefix_of` a.
Proof. exists (drop i a). by rewrite take_drop. Qed.

Lemma key_of_prefix chk n : exists k, Loader.key_of chk n = Val k /\ key_bits k = net_prefix n.
Proof.
  unfold Loader.key_of, net_prefix. pose proof (network_wf n) as Hn.
  rewrite checked_arith_fits by (unfold u8_max; destruct (network n); lia).
  eexists. split; [reflexivity|].
  destruct (network n) as [o|o]; destruct Hn as [Hl Hp]; unfold key_bits, address_bits; cbn [prefixlen ip_type addr];
    replace (Z.to_nat (prefix_len n + 8)) with (Z.to_nat (prefix_len n) + 8)%nat by lia; [|done].
  change (4 :: o ++ ?t) with ((4 :: o) ++ t). rewrite bits_app, take_app_le; [done|].
  rewrite bits_length. cbn [length]. lia.
Qed.

Lemma bits_cons b bs : bits (b :: bs) = bits_of_byte b ++ bits bs.
Proof. done. Qed.

(** A stored network matches exactly the addresses it contains. *)
Lemma net_prefix_contains n ip : net_prefix n `prefix_of` address_bits ip <-> net_contains n ip.
Proof.
  unfold net_prefix, net_contains. destruct (network n) as [a|a], ip as [b|b]; unfold address_bits; rewrite !bits_cons;
    rewrite (Nat.add_comm _ 8), take_app_add' by done.
  1, 4: split; [by intros ?%prefix_app_inv|by apply prefix_app].
  all: split; [|done]; intros [t Ht]; cbn in Ht; discriminate Ht.
Qed.

Lemma write_rules_dom (chk : bool) (K : gset (list bool)) (nets : list IpNet) m :
  (dom (lpm_view m) : gset (list bool)) ∪ list_to_set (net_prefix <$> nets) ⊆ K -> (size K <= lpm_cap m)%nat ->
  exists m', Loader.write_rules chk m nets = Val m' /\ lpm_cap m' = lpm_cap m /\
    (dom (lpm_view m') : gset (list bool)) = (dom (lpm_view m) : gset (list bool)) ∪ list_to_set (net_prefix <$> nets).
Proof.
  revert m. induction nets as [|n nets IH]; intros m HK Hc.
  - exists m. cbn. repeat split. set_solver.
  - cbn [Loader.write_rules fmap list_fmap list_to_set] in *.
    destruct (key_of_prefix chk n) as (k & -> & Hk). cbn. rewrite Hk.
    set (m1 := default m _).
    assert (lpm_cap m1 = lpm_cap m /\ (dom (lpm_view m1) : gset (list bool)) = {[net_prefix n]} ∪ dom (lpm_view m)) as [Hc1 Hd1].
    { subst m1. destruct (lpm_insert m (net_prefix n) 1) as [m1|] eqn:Ei; cbn.
      - apply lpm_insert_some in Ei as [-> ->]. by rewrite dom_insert_L.
      - split; [done|]. destruct (decide (net_prefix n ∈ dom (lpm_view m))); [set_solver|].
        destruct (lpm_insert_room m (net_prefix n) 1) as [? ?]; [|congruence].
        rewrite <- size_dom. eapply Nat.lt_le_trans; [|exact Hc]. apply subset_size. set_solver. }
    destruct (IH m1) as (m' & Hw & Hc' & Hd'); [rewrite Hd1; set_solver|by rewrite Hc1|].
    exists m'. split; [done|]. split; [congruence|]. rewrite Hd', Hd1. set_solver.
Qed.

Definition rule_set (nets : list IpNet) : gset (list bool) := list_to_set (net_prefix <$> nets).

Lemma rule_set_perm a b : a ≡ₚ b -> rule_set a = rule_set b.
Proof. unfold rule_set. by intros ->. Qed.

Lemma rule_set_size nets : (size (rule_set nets) <= length nets)%nat.
Proof.
  unfold rule_set. induction nets as [|n nets IH]; [done|]. cbn [fmap list_fmap list_to_set length].
  rewrite size_union_alt, size_singleton. etrans; [|apply le_n_S, IH].
  apply le_n_S, subseteq_size. set_solver.
Qed.

Lemma rule_set_app a b : rule_set (a ++ b) = rule_set a ∪ rule_set b.
Proof. unfold rule_set. by rewrite fmap_app, list_to_set_app_L. Qed.

Lemma round_dom (chk : bool) m (file : option bytes) m' (K : gset (list bool)) :
  Loader.round chk m file m' -> (dom (lpm_view m) : gset (list bool)) ∪ rule_set (file_nets file) ⊆ K -> (size K <= lpm_cap m)%nat ->
  lpm_cap m' = lpm_cap m /\ (dom (lpm_view m') : gset (list bool)) = (dom (lpm_view m) : gset (list bool)) ∪ rule_set (file_nets file).
Proof.
  unfold file_nets. intros [Hf|c nets order m1 Hf Hn Hp Hw] HK Hc; rewrite Hf in *.
  - split; [done|]. unfold rule_set; cbn. set_solver.
  - rewrite Hn in *. rewrite <- (rule_set_perm _ _ Hp) in *.
    destruct (write_rules_dom chk K order m HK Hc) as (m2 & Hw2 & Hc2 & Hd2).
    rewrite Hw2 in Hw. injection Hw as ->. by split.
Qed.

Lemma rounds_dom (chk : bool) m (files : list (option bytes)) m' (K : gset (list bool)) :
  Loader.rounds chk m files m' -> (dom (lpm_view m) : gset (list bool)) ∪ rule_set (files ≫= file_nets) ⊆ K -> (size K <= lpm_cap m)%nat ->
  (dom (lpm_view m') : gset (list bool)) = (dom (lpm_view m) : gset (list bool)) ∪ rule_set (files ≫= file_nets).
Proof.
  induction 1 as [m|m file m1 files m2 Hr _ IH]; intros HK Hc.
  - unfold rule_set; cbn. set_solver.
  - cbn [mbind list_bind] in *. rewrite rule_set_app in *.
    destruct (round_dom _ _ _ _ K Hr) as [Hc1 Hd1]; [set_solver|done|].
    rewrite IH; [|rewrite Hd1; set_solver|by rewrite Hc1]. rewrite Hd1. set_solver.
Qed.

(** An address is blocked by the rules of a list of networks exactly when
    one of them contains it. *)
Lemma blocks_rule_set m nets ip : (dom (lpm_view m) : gset (list bool)) = rule_set nets ->
  blocks m ip <-> exists n, n ∈ nets /\ net_contains n ip.
Proof.
  intros Hd. unfold blocks. setoid_rewrite <- elem_of_dom. rewrite Hd. unfold rule_set.
  setoid_rewrite elem_of_list_to_set. setoid_rewrite list_elem_of_fmap. split.
  - intros (p & (n & -> & Hn) & Hp). exists n. by rewrite <- net_prefix_contains.
  - intros (n & Hn & Hp). exists (net_prefix n). rewrite net_prefix_contains. eauto.
Qed.

End loader_proofs.

(** ** A concrete [ipnet] *)
Definition fit (n : nat) (o : list Z) : list Z := take n (o ++ replicate n 0).
Fixpoint mask_octets (p : nat) (o : list Z) : list Z :=
  match o with
  | [] => []
  | b :: o => (if (8 <=? p)%nat then b else Z.land b (256 - 2 ^ (8 - Z.of_nat p))) :: mask_octets (p - 8) o
  end.

Lemma mask_octets_length p o : length (mask_octets p o) = length o.
Proof. revert p. induction o; intros; simpl; auto. Qed.

Lemma mask_octets_full p o : (8 * length o <= p)%nat -> mask_octets p o = o.
Proof.
  revert p. induction o as [|b o IH]; intros p Hp; [done|]. cbn [length mask_octets] in *.
  rewrite (proj2 (Nat.leb_le 8 p)), IH by lia. done.
Qed.

Lemma fit_length n o : length (fit n o) = n.
Proof. unfold fit. rewrite length_take, length_app, length_replicate. lia. Qed.

Lemma fit_id n o : length o = n -> fit n o = o.
Proof. intros H. unfold fit. rewrite take_app_le, take_ge by lia. done. Qed.

(** A family, an address and a prefix length. *)
Definition ip_net : Type := bool * list Z * nat.
Definition ip_net_network (n : ip_net) : IpAddr :=
  match n with
  | (false, o, p) => IpV4 (mask_octets p (fit 4 o))
  | (true, o, p) => IpV6 (mask_octets p (fit 16 o))
  end.
Definition ip_net_len (n : ip_net) : Z :=
  match n with (v6, _, p) => Z.min (if v6 : bool then 128 else 32) (Z.of_nat p) end.
Definition ip_net_new (v6 : bool) (o : list Z) (p : Z) : option ip_net :=
  if (0 <=? p) && (p <=? if v6 then 128 else 32) then Some (v6, o, Z.to_nat p) else None.
Definition ip_net_from_str (s : bytes) : option ip_net :=
  match split_on 47 s with
  | [a; p] =>
      match ip_from_str a, read_number dec_digit 10 3 true 128 p with
      | Some (IpV4 o), Some (p, []) => ip_net_new false o p
      | Some (IpV6 o), Some (p, []) => ip_net_new true o p
      | _, _ => None
      end
  | _ => None
  end.

#[export] Program Instance ipnet : IpNetCrate := {|
  IpNet := ip_net;
  ipnet_from_str := ip_net_from_str;
  Ipv4Net_new := ip_net_new false;
  Ipv6Net_new := ip_net_new true;
  network := ip_net_network;
  prefix_len := ip_net_len;
|}.
Next Obligation. intros [[[] o] p]; simpl; rewrite mask_octets_length, fit_length; lia. Qed.
Next Obligation.
  intros o Ho. exists (false, o, 32%nat). split; [done|]. split; [|done]. unfold ip_net_network.
  by rewrite fit_id, mask_octets_full by lia.
Qed.
Next Obligation.
  intros o Ho. exists (true, o, 128%nat). split; [done|]. split; [|done]. unfold ip_net_network.
  by rewrite fit_id, mask_octets_full by lia.
Qed.
Next Obligation. intros s Hs. unfold ip_net_from_str. by rewrite split_on_none. Qed.

Example parse_lines :
  Loader.current_networks (lit "# list
10.1.2.3/8

  2001:db8::1  
not an address
192.168.0.300
" ) = Val [(true, [32; 1; 13; 184; 0; 0; 0; 0; 0; 0; 0; 0; 0; 0; 0; 1], 128%nat); (false, [10; 1; 2; 3], 8%nat)]
  /\ ip_net_network (false, [10; 1; 2; 3], 8%nat) = IpV4 [10; 0; 0; 0].
Proof. vm_compute. by split. Qed.

(** ** Properties *)
Section properties.
Context {N : IpNetCrate} {M : Type} {T : LpmTrie Z M}.
Implicit Types (m : M).

(** The decision on every frame: it is dropped exactly when it is a TCP
    packet over IPv4 or IPv6, with a complete IP header, whose source address
    has a prefix in the trie; every other frame, short ones included, is
    passed. *)
Theorem firewall_decision m data : is_bytes data ->
  (Kernel.xdp_firewall m data = Kernel.XDP_DROP <-> exists ip, tcp_from ip data /\ blocks m ip) /\
  (Kernel.xdp_firewall m data <> Kernel.XDP_DROP -> Kernel.xdp_firewall m data = Kernel.XDP_PASS).
Proof.
  intros Hb. split; [split|].
  - by apply firewall_drop_inv.
  - intros (ip & Ht & Hbl). by eapply firewall_drops.
  - unfold Kernel.xdp_firewall, Kernel.try_xdp_firewall. by repeat case_match; simplify_eq/=.
Qed.

Lemma firewall_start_spec k : Loader.start k = Aya.Started <->
  Aya.object_loads k = true /\ Aya.attached k (lit "eth0") (lit "xdp_firewall") /\ Aya.usable k (lit "BLOCKED_IPS").
Proof.
  unfold Loader.start. rewrite !Aya.started_app by honest.
  by rewrite Aya.object_started, Aya.program_started, Aya.map_started.
Qed.

Lemma tcp_from_fun ip ip' data : tcp_from ip data -> tcp_from ip' data -> ip = ip'.
Proof.
  intros [macs h src rest Hm Hh _ Hs _|macs h src rest Hm Hh _ Hs _] H';
    inversion H' as [macs' h' src' rest' Hm' Hh' _ Hs' _ E E2|macs' h' src' rest' Hm' Hh' _ Hs' _ E E2]; subst;
    apply app_inj_1 in E2 as [_ E2]; try congruence; injection E2 as E2;
    apply app_inj_1 in E2 as [_ E2]; try congruence; apply app_inj_1 in E2 as [-> _]; congruence.
Qed.

(** C1. What the program enforces, from its start-up on: a frame on the
    interface is dropped exactly when the program has started and the frame is a
    TCP packet whose source address is contained in a network named in one of the
    files seen so far, the present one or an earlier one, after any number of
    turns on files whose networks have at most 4096 prefixes together (the
    capacity of the trie) and whatever order the sets are visited in; every
    other frame passes.  The program starts exactly when the object is complete
    and the kernel takes it for the interface. *)
Theorem firewall_enforces (chk : bool) (k : Aya.answers) (files : list (option bytes)) (om : option M) data :
  Loader.main chk k files om -> (size (rule_set (files ≫= file_nets)) <= 4096)%nat -> is_bytes data ->
  (Loader.on_interface om data = Kernel.XDP_DROP <->
     Loader.start k = Aya.Started /\ exists ip n, tcp_from ip data /\ n ∈ files ≫= file_nets /\ net_contains n ip) /\
  (Loader.on_interface om data <> Kernel.XDP_DROP -> Loader.on_interface om data = Kernel.XDP_PASS) /\
  (Loader.start k = Aya.Started <->
     Aya.object_loads k = true /\ Aya.attached k (lit "eth0") (lit "xdp_firewall") /\ Aya.usable k (lit "BLOCKED_IPS")).
Proof.
  intros Hmain Hsz Hb. split; [|split; [|apply firewall_start_spec]].
  - destruct Hmain as [files Hs|files m Hs Hr]; cbn [Loader.on_interface]; [split; [done|by intros [? _]]|].
    destruct (lpm_view_empty (V := Z) 4096) as [Hv Hc].
    assert (forall ip, blocks m ip <-> exists n, n ∈ files ≫= file_nets /\ net_contains n ip) as Hbl.
    { intros ip. apply blocks_rule_set. rewrite (rounds_dom chk _ files m (rule_set (files ≫= file_nets)) Hr), Hv.
      - by rewrite dom_empty_L, union_empty_l_L.
      - by rewrite Hv, dom_empty_L, union_empty_l_L.
      - by rewrite Hc. }
    split.
    + intros (ip & Ht & (n & Hn & Hi)%Hbl)%firewall_drop_inv; [|done]. split; [done|]. by exists ip, n.
    + intros (_ & ip & n & Ht & Hn & Hi). eapply firewall_drops; [done|]. apply Hbl. by exists n.
  - destruct om as [m|]; cbn [Loader.on_interface]; [|done].
    unfold Kernel.xdp_firewall, Kernel.try_xdp_firewall. by repeat case_match; simplify_eq/=.
Qed.

Lemma collect_addresses addrs nets : Forall is_ipv4 addrs ->
  (forall n, n ∈ nets -> exists a, network n = IpV4 a /\ prefix_len n = 32) ->
  exists nets', Loader.collect (map ipv4_display addrs) nets = Val nets' /\
    (length nets' <= length addrs + length nets)%nat /\
    (forall n, n ∈ nets' -> exists a, network n = IpV4 a /\ prefix_len n = 32) /\
    (forall a, (exists n, n ∈ nets' /\ network n = IpV4 a) <-> a ∈ addrs \/ exists n, n ∈ nets /\ network n = IpV4 a).
Proof.
  intros Ha. revert nets. induction Ha as [|a addrs Ha _ IH]; intros nets Hn.
  - exists nets. cbn. split; [done|]. split; [lia|]. split; [done|]. intros a. rewrite elem_of_nil. naive_solver.
  - destruct (ipv4_display_visible a Ha) as (Hv & Hslash & Hhash & Hne).
    destruct (Ipv4Net_new_32 a (proj1 Ha)) as (n & Hnew & Hnet & Hlen).
    assert (Loader.parse_line (ipv4_display a) = Val (Some n)) as Hp.
    { unfold Loader.parse_line. rewrite trim_visible, bool_decide_false by done.
      destruct (starts_with (ipv4_display a) (lit "#")) eqn:E.
      - apply starts_with_spec in E as [t E]. destruct Hhash. rewrite E. left.
      - cbn [orb]. by rewrite (ipnet_no_slash _ Hslash), ip_from_str_display, Hnew. }
    cbn [map Loader.collect]. rewrite Hp. cbn [mbind outcome_bind].
    assert (forall n', n' ∈ Loader.set_insert n nets <-> n' = n \/ n' ∈ nets) as Hin.
    { intros n'. unfold Loader.set_insert. case_decide; [naive_solver|]. by rewrite elem_of_cons. }
    destruct (IH (Loader.set_insert n nets)) as (nets' & Hc & Hl & H32 & Heq).
    { intros n' [->|Hn']%Hin; [by exists a|by apply Hn]. }
    exists nets'. split; [done|]. split; [|split; [done|]].
    + clear - Hl. unfold Loader.set_insert in Hl. case_decide; simpl in *; lia.
    + intros b. rewrite Heq, elem_of_cons. setoid_rewrite Hin. split.
      { intros [Hb|(n' & [->|Hn'] & Hb)]; [by auto| |by eauto]. left. left. congruence. }
      intros [[->|Hb]|(n' & Hn' & Hb)].
      * right. exists n. auto.
      * by left.
      * right. exists n'. auto.
Qed.

(** C23. The file to packet round trip: a file that lists IPv4 addresses, one
    per line as [Display] writes them, at most 4096 of them, is read without
    a panic, and after one turn the TCP packets of exactly those sources are
    dropped. *)
Theorem blocklist_of_addresses (chk : bool) (addrs : list (list Z)) : Forall is_ipv4 addrs -> (length addrs <= 4096)%nat ->
  let file := Some (unlines (map ipv4_display addrs)) in
  exists m, Loader.run_round chk (lpm_empty 4096) file = Val m /\ Loader.round chk (lpm_empty 4096) file m /\
    forall src data, is_bytes data -> tcp_from (IpV4 src) data ->
      Kernel.xdp_firewall m data = Kernel.XDP_DROP <-> src ∈ addrs.
Proof.
  intros Ha Hl file. destruct (lpm_view_empty (V := Z) 4096) as [Hv Hc].
  assert (Forall is_visible (map ipv4_display addrs)) as Hvis.
  { apply Forall_map. eapply Forall_impl; [exact Ha|]. intros a H. by apply ipv4_display_visible. }
  destruct (collect_addresses addrs [] Ha) as (nets & Hcol & Hlen & H32 & Heq); [by intros n ?%elem_of_nil|].
  assert (Loader.read_to_string file = Some (unlines (map ipv4_display addrs))) as Hf.
  { cbn. rewrite is_str_ascii; [done|]. apply unlines_ascii. eapply Forall_impl; [exact Hvis|]. apply visible_ascii. }
  assert (Loader.current_networks (unlines (map ipv4_display addrs)) = Val nets) as Hnets.
  { unfold Loader.current_networks. rewrite lines_unlines; [done|]. eapply Forall_impl; [exact Hvis|]. apply visible_line. }
  destruct (write_rules_dom chk (rule_set nets) nets (lpm_empty 4096)) as (m & Hw & _ & Hd).
  { by rewrite Hv, dom_empty_L, union_empty_l_L. }
  { rewrite Hc. etrans; [apply rule_set_size|]. cbn in Hlen. lia. }
  exists m. unfold Loader.run_round. rewrite Hf, Hnets. split; [done|]. split; [by eapply Loader.round_read|].
  intros src data Hb Ht. assert (is_bytes src /\ length src = 4%nat) as [Hbs Hs4].
  { inversion Ht; subst. split; [|done]. unfold is_bytes in *. rewrite !Forall_app in Hb. tauto. }
  transitivity (blocks m (IpV4 src)).
  { split; [|by apply firewall_drops]. intros (ip & Ht' & Hbl)%firewall_drop_inv; [|done].
    by rewrite (tcp_from_fun _ ip data Ht Ht'). }
  rewrite (blocks_rule_set m nets) by (by rewrite Hd, Hv, dom_empty_L, union_empty_l_L).
  assert (forall a, a ∈ addrs <-> exists n, n ∈ nets /\ network n = IpV4 a) as Hin.
  { intros a. rewrite Heq. split; [auto|]. intros [|(n & []%elem_of_nil & _)]; done. }
  rewrite Hin. split; intros (n & Hn & Hnc); exists n; (split; [done|]); destruct (H32 n Hn) as (a & Hna & Hp).
  - unfold net_contains in Hnc. rewrite Hna, Hp in *.
    assert (is_ipv4 a) as [Ha4 Hab] by (eapply Forall_forall; [exact Ha|]; apply Hin; eauto).
    f_equal. apply bits_inj; [done..|]. rewrite take_ge in Hnc by (rewrite bits_length; lia).
    apply prefix_length_eq; [done|]. rewrite !bits_length. lia.
  - unfold net_contains. rewrite Hnc. apply prefix_take_self.
Qed.

End properties.

(** Witnesses: a file with a network and one with an address, read in turn. *)
Definition frame4 (src : list Z) : bytes :=
  replicate 12 2 ++ [8; 0] ++ [69; 0; 0; 40; 0; 0; 64; 0; 64; 6; 0; 0] ++ src ++ [192; 168; 0; 1] ++ replicate 20 0.
Lemma frame4_tcp src : length src = 4%nat -> tcp_from (IpV4 src) (frame4 src).
Proof. intros Hs. apply tcp4; [done..|]. cbn. lia. Qed.
Definition demo_files : list (option bytes) := [Some (lit "10.0.0.0/8
"); None; Some (lit "# nothing left
192.0.2.7")].
Definition demo_map : nat * gmap (list bool) Z :=
  match Loader.run_round true (lpm_empty 4096) (head demo_files ≫= id) with
  | Val m1 => match Loader.run_round true m1 (Some (lit "# nothing left
192.0.2.7")) with Val m2 => m2 | Panic => m1 end
  | Panic => lpm_empty 4096
  end.

Lemma firewall_decision_witness :
  is_bytes (frame4 [10; 1; 2; 3]) /\
  (exists ip, tcp_from ip (frame4 [10; 1; 2; 3]) /\ blocks demo_map ip).
Proof.
  assert (is_bytes (frame4 [10; 1; 2; 3])) as Hb by (repeat constructor; done).
  split; [done|]. apply (firewall_decision demo_map _ Hb). vm_compute. reflexivity.
Defined.

Lemma firewall_enforces_witness :
  Loader.main true Aya.willing demo_files (Some demo_map) /\
  Loader.on_interface (Some demo_map) (frame4 [10; 1; 2; 3]) = Kernel.XDP_DROP /\
  exists ip n, tcp_from ip (frame4 [10; 1; 2; 3]) /\ n ∈ demo_files ≫= file_nets /\ net_contains n ip.
Proof.
  assert (Loader.main true Aya.willing demo_files (Some demo_map)) as Hr.
  { apply Loader.main_runs; [done|].
    eapply Loader.rounds_cons; [eapply Loader.round_read; try reflexivity; vm_compute; reflexivity|].
    eapply Loader.rounds_cons; [by apply Loader.round_unreadable|].
    eapply Loader.rounds_cons; [eapply Loader.round_read; try reflexivity; vm_compute; reflexivity|].
    apply Loader.rounds_nil. }
  split; [done|]. assert (Loader.on_interface (Some demo_map) (frame4 [10; 1; 2; 3]) = Kernel.XDP_DROP) as Hd
    by (vm_compute; reflexivity).
  split; [done|]. destruct (firewall_enforces true Aya.willing demo_files (Some demo_map) (frame4 [10; 1; 2; 3]) Hr) as [He _].
  - apply Nat.leb_le. vm_compute. reflexivity.
  - repeat constructor; done.
  - by apply He in Hd as [_ Hd].
Defined.

Lemma blocklist_of_addresses_witness :
  exists m : nat * gmap (list bool) Z,
    Loader.run_round true (lpm_empty 4096) (Some (unlines (map ipv4_display [[192; 0; 2; 7]; [10; 0; 0; 1]]))) = Val m /\
    (forall src data, is_bytes data -> tcp_from (IpV4 src) data ->
      Kernel.xdp_firewall m data = Kernel.XDP_DROP <-> src ∈ [[192; 0; 2; 7]; [10; 0; 0; 1]]).
Proof.
  destruct (blocklist_of_addresses (M := nat * gmap (list bool) Z) true [[192; 0; 2; 7]; [10; 0; 0; 1]]) as (m & Hr & _ & H).
  - repeat constructor; done.
  - apply Nat.leb_le. vm_compute. reflexivity.
  - exists m. exact (conj Hr H).
Defined.
