(* ===== verification/XdpRouter.v ===== *)
(** The XDP router: the records shared by both sides
    ([src/xdp_router/xdp_router_common/src/lib.rs]), the kernel program
    ([src/xdp_router/xdp_router_ebpf/src/main.rs], Module [Fast]) and the
    user-space side that fills the table of routes from the interfaces and
    follows the neighbour table ([src/xdp_router/xdp_router/src/main.rs],
    Module [Control]). *)
From S2P Require Import Prelude Net Bytes Bpf.

Record RouteKey := mkRouteKey { r_ip_type : Z; ip_v4 : list Z; ip_v6 : list Z; key_vlan_id : Z }.
Record RouteValue := mkRouteValue { src_mac : bytes; dst_mac : bytes; if_index : Z; vlan_id : Z }.

#[export] Instance RouteKey_eq_dec : EqDecision RouteKey.
Proof. solve_decision. Defined.
#[export] Instance RouteKey_countable : Countable RouteKey.
Proof.
  refine (inj_countable' (fun k => (r_ip_type k, ip_v4 k, ip_v6 k, key_vlan_id k))
    (fun p => match p with (t, a, b, v) => mkRouteKey t a b v end) _).
  by intros [].
Defined.

(** The key of an address, as both sides build it. *)
Definition key_of_ip (ip : IpAddr) (vid : Z) : RouteKey :=
  match ip with
  | IpV4 v4 => mkRouteKey 4 v4 (replicate 16 0) vid
  | IpV6 v6 => mkRouteKey 6 (replicate 4 0) v6 vid
  end.

Module Fast.

Definition XDP_PASS : Z := 2.
Definition ETH_P_IP : Z := 2048.
Definition ETH_P_IPV6 : Z := 34525.
Definition ETH_P_8021Q : Z := 33024.
(** [size_of::<EthHdr>()], [size_of::<VlanHdr>()]. *)
Definition sizeof_EthHdr : nat := 14.
Definition sizeof_VlanHdr : nat := 4.

(** What the program leaves behind: the return code, the frame and the
    interface the frame was redirected to. *)
Record verdict := mkVerdict { code : Z; frame : bytes; redirected : option Z }.

Section fast.
Context {M : Type} {H : BpfHash RouteKey RouteValue M}.
(** The return code of the [bpf_redirect] helper. *)
Variable redirect : Z -> Z.

(** A pointer to [size] bytes of the packet: the bytes it points to. *)
Definition ptr_at (data : bytes) (offset size : nat) : result bytes unit :=
  match read_bytes data offset size with Some b => Ok b | None => Err tt end.

(** The VLAN header, when the frame is tagged: VLAN id, ether type and the
    offset of the payload. *)
Definition parse_vlan (data : bytes) (ether_type : Z) : result (Z * Z * nat) unit :=
  let offset := sizeof_EthHdr in
  if ether_type =? ETH_P_8021Q then
    match ptr_at data offset sizeof_VlanHdr with
    | Ok vlan =>
        Ok (Z.land (u16_from_be (le16 (take 2 vlan))) 4095, u16_from_be (le16 (drop 2 vlan)),
            offset + sizeof_VlanHdr)%nat
    | Err e => Err e
    end
  else Ok (0, ether_type, offset).

(** The lookup key, or nothing when the payload is not IP. *)
Definition lookup_key (data : bytes) (vid ether_type : Z) (offset : nat) : result (option RouteKey) unit :=
  if ether_type =? ETH_P_IP then
    match ptr_at data (offset + 16) 4 with
    | Ok dst_ip => Ok (Some (mkRouteKey 4 dst_ip (replicate 16 0) vid))
    | Err e => Err e
    end
  else if ether_type =? ETH_P_IPV6 then
    match ptr_at data (offset + 24) 16 with
    | Ok dst_ip => Ok (Some (mkRouteKey 6 (replicate 4 0) dst_ip vid))
    | Err e => Err e
    end
  else Ok None.

Definition try_xdp_router (routes : M) (data : bytes) : result verdict unit :=
  match ptr_at data 0 sizeof_EthHdr with
  | Err e => Err e
  | Ok eth =>
      match parse_vlan data (u16_from_be (le16 (drop 12 eth))) with
      | Err e => Err e
      | Ok (vid, ether_type, offset) =>
          match lookup_key data vid ether_type offset with
          | Err e => Err e
          | Ok None => Ok (mkVerdict XDP_PASS data None)
          | Ok (Some key) =>
              match bpf_get routes key with
              | Some route =>
                  (* the MAC addresses are overwritten in place *)
                  let data := dst_mac route ++ src_mac route ++ drop 12 data in
                  Ok (mkVerdict (redirect (if_index route)) data (Some (if_index route)))
              | None => Ok (mkVerdict XDP_PASS data None)
              end
          end
      end
  end.

Definition xdp_router (routes : M) (data : bytes) : verdict :=
  match try_xdp_router routes data with
  | Ok v => v
  | Err _ => mkVerdict XDP_PASS data None
  end.

End fast.

End Fast.

Module Control.

(** [NetworkInterface], as far as it is used. *)
Record NetworkInterface := mkInterface { index : Z; mac_addr : option bytes; addr : list IpAddr }.

(** [NeighbourAttribute]; every other attribute is [OtherAttribute]. *)
Inductive NeighbourAttribute : Type :=
| Destination (ip_bytes : bytes)
| LinkLayerAddress (mac : bytes)
| OtherAttribute.

(** [for i in 0..6] over the parts. *)
Definition parse_mac (mac_str : bytes) : bytes :=
  let parts := split_on 58 mac_str in
  if (length parts =? 6)%nat then map (fun p => default 0 (u8_from_hex p)) parts
  else replicate 6 0.

Definition broadcast : bytes := replicate 6 255.

Section control.
Context {M : Type} {H : BpfHash RouteKey RouteValue M}.

(** The routes of one interface; [?] on the insert leaves [main]. *)
Fixpoint add_addresses (routes_map : M) (idx : Z) (mac : bytes) (addrs : list IpAddr) : result M unit :=
  match addrs with
  | [] => Ok routes_map
  | a :: addrs =>
      let key := key_of_ip a 0 in
      let value := mkRouteValue mac broadcast idx 0 in
      match bpf_insert routes_map key value with
      | Some routes_map => add_addresses routes_map idx mac addrs
      | None => Err tt
      end
  end.

Fixpoint add_interfaces (routes_map : M) (ifaces : list NetworkInterface) : result M unit :=
  match ifaces with
  | [] => Ok routes_map
  | iface :: ifaces =>
      match mac_addr iface with
      | Some mac_str =>
          match add_addresses routes_map (index iface) (parse_mac mac_str) (addr iface) with
          | Ok routes_map => add_interfaces routes_map ifaces
          | Err e => Err e
          end
      | None => add_interfaces routes_map ifaces
      end
  end.

Fixpoint ref_ll_addr (nlas : list NeighbourAttribute) : option bytes :=
  match nlas with
  | [] => None
  | LinkLayerAddress mac :: _ => Some mac
  | _ :: nlas => ref_ll_addr nlas
  end.

(** The loop over the attributes. *)
Fixpoint parse_nlas (nlas : list NeighbourAttribute) (destination_ip : option IpAddr) (ll_addr : option bytes)
  : option IpAddr * option bytes :=
  match nlas with
  | [] => (destination_ip, ll_addr)
  | Destination b :: nlas =>
      if (length b =? 4)%nat then parse_nlas nlas (Some (IpV4 b)) ll_addr
      else if (length b =? 16)%nat then parse_nlas nlas (Some (IpV6 b)) ll_addr
      else parse_nlas nlas destination_ip ll_addr
  | LinkLayerAddress mac :: nlas => parse_nlas nlas destination_ip (Some mac)
  | OtherAttribute :: nlas => parse_nlas nlas destination_ip ll_addr
  end.

(** One neighbour message: [insert(..).unwrap()] may panic. *)
Definition handle_neigh (routes_map : M) (nlas : list NeighbourAttribute) : outcome M :=
  match parse_nlas nlas None (ref_ll_addr nlas) with
  | (Some ip, Some mac) =>
      if (length mac =? 6)%nat then
        let key := key_of_ip ip 0 in
        match bpf_get routes_map key with
        | Some current_route =>
            let current_route :=
              mkRouteValue (src_mac current_route) mac (if_index current_route) (vlan_id current_route) in
            match bpf_insert routes_map key current_route with
            | Some routes_map => Val routes_map
            | None => Panic
            end
        | None => Val routes_map
        end
      else Val routes_map
  | _ => Val routes_map
  end.

(** [monitor_arp_updates] on the items of the stream; an error is logged. *)
Fixpoint monitor_arp_updates (routes_map : M) (stream : list (result (list NeighbourAttribute) unit)) : outcome M :=
  match stream with
  | [] => Val routes_map
  | Ok nlas :: stream => m ← handle_neigh routes_map nlas; monitor_arp_updates m stream
  | Err _ :: stream => monitor_arp_updates routes_map stream
  end.

(** [main] up to the point where [stream] has been handled. *)
Definition run (ifaces : list NetworkInterface) (stream : list (result (list NeighbourAttribute) unit))
  : result (outcome M) unit :=
  match add_interfaces (bpf_empty 1024) ifaces with
  | Ok m => Ok (monitor_arp_updates m stream)
  | Err e => Err e
  end.

(** Start-up, and the whole program: what [NetworkInterface::show] gives, and
    whether the netlink connection can be opened and bound, without which the
    failing monitor is only logged; [None] while no program is attached. *)
Definition start (k : Aya.answers) : Aya.ending :=
  Aya.first_failure (Aya.object k ++ Aya.program k (lit "eth0") (lit "xdp_router") ++ Aya.map k (lit "ROUTES")).

Definition main (k : Aya.answers) (show : result (list NetworkInterface) unit) (netlink : bool)
    (stream : list (result (list NeighbourAttribute) unit)) : option (outcome M) :=
  match start k, show with
  | Aya.Started, Ok ifaces =>
      match run ifaces (if netlink then stream else []) with Ok om => Some om | Err _ => None end
  | _, _ => None
  end.

End control.

End Control.

(** ** The forwarding decision *)

(** The VLAN id and the destination of an IP frame, by its layout. *)
Inductive ip_dst : Z -> IpAddr -> bytes -> Prop :=
| dst4 macs h dst rest :
    length macs = 12%nat -> length h = 16%nat -> length dst = 4%nat ->
    ip_dst 0 (IpV4 dst) (macs ++ [8; 0] ++ h ++ dst ++ rest)
| dst6 macs h dst rest :
    length macs = 12%nat -> length h = 24%nat -> length dst = 16%nat ->
    ip_dst 0 (IpV6 dst) (macs ++ [134; 221] ++ h ++ dst ++ rest)
| vlan_dst4 macs t0 t1 h dst rest :
    length macs = 12%nat -> length h = 16%nat -> length dst = 4%nat ->
    ip_dst ((256 * t0 + t1) mod 4096) (IpV4 dst) (macs ++ [129; 0; t0; t1; 8; 0] ++ h ++ dst ++ rest)
| vlan_dst6 macs t0 t1 h dst rest :
    length macs = 12%nat -> length h = 24%nat -> length dst = 16%nat ->
    ip_dst ((256 * t0 + t1) mod 4096) (IpV6 dst) (macs ++ [129; 0; t0; t1; 134; 221] ++ h ++ dst ++ rest).

(** What the program looks up. *)
Definition frame_key (data : bytes) : option RouteKey :=
  match Fast.ptr_at data 0 Fast.sizeof_EthHdr with
  | Ok eth =>
      match Fast.parse_vlan data (u16_from_be (le16 (drop 12 eth))) with
      | Ok (vid, ether_type, offset) =>
          match Fast.lookup_key data vid ether_type offset with Ok k => k | Err _ => None end
      | Err _ => None
      end
  | Err _ => None
  end.

Lemma vid_land b0 b1 : is_byte b0 -> is_byte b1 ->
  Z.land (u16_from_be (le16 [b0; b1])) 4095 = (256 * b0 + b1) mod 4096.
Proof.
  intros. rewrite u16_from_be_le16 by done. change 4095 with (Z.ones 12). by rewrite Z.land_ones.
Qed.

Lemma ptr_at_ok data a b c off size : data = a ++ b ++ c -> length a = off -> length b = size ->
  Fast.ptr_at data off size = Ok b.
Proof. intros. unfold Fast.ptr_at. by erewrite read_bytes_at. Qed.

Lemma ptr_at_inv data off size b : Fast.ptr_at data off size = Ok b ->
  exists a c, data = a ++ b ++ c /\ length a = off /\ length b = size.
Proof. unfold Fast.ptr_at. case_match eqn:E; [|done]. intros [= <-]. by apply read_bytes_inv. Qed.

(** Splits of a frame and their lengths. *)
Ltac layout :=
  unfold Fast.sizeof_EthHdr, Fast.sizeof_VlanHdr in *; rewrite <- ?app_assoc, ?length_app; cbn; done || lia.

Lemma frame_key_untagged macs e0 e1 t key : length macs = 12%nat ->
  u16_from_be (le16 [e0; e1]) <> Fast.ETH_P_8021Q ->
  Fast.lookup_key (macs ++ [e0; e1] ++ t) 0 (u16_from_be (le16 [e0; e1])) 14 = Ok key ->
  frame_key (macs ++ [e0; e1] ++ t) = key.
Proof.
  intros Hm He Hk. unfold frame_key.
  rewrite (ptr_at_ok _ [] (macs ++ [e0; e1]) t) by layout.
  rewrite drop_app_length' by done. unfold Fast.parse_vlan. rewrite (proj2 (Z.eqb_neq _ _)) by done.
  unfold Fast.sizeof_EthHdr. by rewrite Hk.
Qed.

Lemma frame_key_tagged macs t0 t1 e0 e1 t key : length macs = 12%nat -> is_byte t0 -> is_byte t1 ->
  Fast.lookup_key (macs ++ [129; 0; t0; t1; e0; e1] ++ t) ((256 * t0 + t1) mod 4096) (u16_from_be (le16 [e0; e1])) 18 = Ok key ->
  frame_key (macs ++ [129; 0; t0; t1; e0; e1] ++ t) = key.
Proof.
  intros Hm Ht0 Ht1 Hk. unfold frame_key.
  rewrite (ptr_at_ok _ [] (macs ++ [129; 0]) ([t0; t1; e0; e1] ++ t)) by layout.
  rewrite drop_app_length' by done. unfold Fast.parse_vlan.
  change (u16_from_be (le16 [129; 0]) =? Fast.ETH_P_8021Q) with true. cbv iota.
  rewrite (ptr_at_ok _ (macs ++ [129; 0]) [t0; t1; e0; e1] t) by layout.
  change (take 2 [t0; t1; e0; e1]) with [t0; t1]. change (drop 2 [t0; t1; e0; e1]) with [e0; e1].
  rewrite vid_land by done. unfold Fast.sizeof_EthHdr, Fast.sizeof_VlanHdr. cbn [Nat.add]. by rewrite Hk.
Qed.

Lemma lookup_key_4 data vid a dst c off : data = a ++ dst ++ c -> length a = (off + 16)%nat -> length dst = 4%nat ->
  Fast.lookup_key data vid Fast.ETH_P_IP off = Ok (Some (key_of_ip (IpV4 dst) vid)).
Proof. intros. unfold Fast.lookup_key. by erewrite ptr_at_ok. Qed.

Lemma lookup_key_6 data vid a dst c off : data = a ++ dst ++ c -> length a = (off + 24)%nat -> length dst = 16%nat ->
  Fast.lookup_key data vid Fast.ETH_P_IPV6 off = Ok (Some (key_of_ip (IpV6 dst) vid)).
Proof. intros. unfold Fast.lookup_key. cbn. by erewrite ptr_at_ok. Qed.

Lemma frame_key_complete vid ip data : is_bytes data -> ip_dst vid ip data -> frame_key data = Some (key_of_ip ip vid).
Proof.
  intros Hb Hd.
  destruct Hd as [macs h dst rest H1 H2 H3|macs h dst rest H1 H2 H3|macs t0 t1 h dst rest H1 H2 H3|macs t0 t1 h dst rest H1 H2 H3].
  - apply frame_key_untagged; [done..|]. eapply (lookup_key_4 _ _ (macs ++ [8; 0] ++ h));
      layout.
  - apply frame_key_untagged; [done..|]. eapply (lookup_key_6 _ _ (macs ++ [134; 221] ++ h));
      layout.
  - unfold is_bytes in Hb. rewrite Forall_app in Hb. destruct Hb as [_ Hb]. inversion_clear Hb as [|? ? _ Hb1].
    inversion_clear Hb1 as [|? ? _ Hb2]. inversion_clear Hb2 as [|? ? Ht0 Hb3]. inversion_clear Hb3 as [|? ? Ht1 _].
    apply frame_key_tagged; [done..|]. eapply (lookup_key_4 _ _ (macs ++ [129; 0; t0; t1; 8; 0] ++ h));
      layout.
  - unfold is_bytes in Hb. rewrite Forall_app in Hb. destruct Hb as [_ Hb]. inversion_clear Hb as [|? ? _ Hb1].
    inversion_clear Hb1 as [|? ? _ Hb2]. inversion_clear Hb2 as [|? ? Ht0 Hb3]. inversion_clear Hb3 as [|? ? Ht1 _].
    apply frame_key_tagged; [done..|]. eapply (lookup_key_6 _ _ (macs ++ [129; 0; t0; t1; 134; 221] ++ h));
      layout.
Qed.

Lemma lookup_key_inv data vid et off key : Fast.lookup_key data vid et off = Ok (Some key) ->
  exists a dst c, data = a ++ dst ++ c /\
    ((et = Fast.ETH_P_IP /\ length a = (off + 16)%nat /\ length dst = 4%nat /\ key = key_of_ip (IpV4 dst) vid) \/
     (et = Fast.ETH_P_IPV6 /\ length a = (off + 24)%nat /\ length dst = 16%nat /\ key = key_of_ip (IpV6 dst) vid)).
Proof.
  unfold Fast.lookup_key. destruct (Z.eqb_spec et Fast.ETH_P_IP) as [->|]; [|destruct (Z.eqb_spec et Fast.ETH_P_IPV6) as [->|]; [|done]];
    destruct (Fast.ptr_at data _ _) as [dst|] eqn:E; try done; intros [= <-];
    apply ptr_at_inv in E as (a & c & -> & Ha & Hd); exists a, dst, c; split; try done; [by left|by right].
Qed.

(** A list split in two ways: the longer front extends the shorter one. *)
Lemma app_split {A} (a b x y : list A) : a ++ b = x ++ y -> (length a <= length x)%nat ->
  exists m, x = a ++ m /\ b = m ++ y.
Proof.
  intros E Hl. exists (drop (length a) x). assert (take (length a) x = a) as Ht.
  { rewrite <- (take_app_le x y) by done. rewrite <- E. by rewrite take_app_length. }
  split.
  - rewrite <- Ht at 1. by rewrite take_drop.
  - rewrite <- (take_drop (length a) x), Ht, <- app_assoc in E. by apply app_inv_head in E.
Qed.

Lemma length_2 {A} (l : list A) : length l = 2%nat -> exists a b, l = [a; b].
Proof. destruct l as [|a [|b [|]]]; try done. eauto. Qed.

(** From the bytes in front of the payload to the layout. *)
Lemma payload_dst (pre t : bytes) vid et off key : length pre = off ->
  Fast.lookup_key (pre ++ t) vid et off = Ok (Some key) ->
  exists h dst c, t = h ++ dst ++ c /\
    ((et = Fast.ETH_P_IP /\ length h = 16%nat /\ length dst = 4%nat /\ key = key_of_ip (IpV4 dst) vid) \/
     (et = Fast.ETH_P_IPV6 /\ length h = 24%nat /\ length dst = 16%nat /\ key = key_of_ip (IpV6 dst) vid)).
Proof.
  intros Hp (a & dst & c & Hd & Hcase)%lookup_key_inv.
  apply app_split in Hd as (h & Ha & Ht); [|lia]. exists h, dst, c. split; [done|]. subst a.
  rewrite length_app in Hcase. destruct Hcase as [(? & ? & ? & ?)|(? & ? & ? & ?)]; [left|right]; split_and!; done || lia.
Qed.

Lemma frame_key_sound data key : is_bytes data -> frame_key data = Some key ->
  exists vid ip, key = key_of_ip ip vid /\ ip_dst vid ip data.
Proof.
  intros Hb. unfold frame_key, Fast.parse_vlan, Fast.sizeof_EthHdr, Fast.sizeof_VlanHdr.
  destruct (Fast.ptr_at data 0 _) as [eth|] eqn:Eeth; [|done].
  apply ptr_at_inv in Eeth as (a0 & t & Hdata & Ha0 & Heth). destruct a0; [|done]. cbn [app] in Hdata.
  destruct (length_2 (drop 12 eth)) as (e0 & e1 & He).
  { rewrite length_drop, Heth. done. }
  set (macs := take 12 eth). assert (eth = macs ++ [e0; e1]) as Hm by (subst macs; by rewrite <- He, take_drop).
  assert (length macs = 12%nat) as Hlm by (subst macs; rewrite length_take, Heth; done).
  rewrite He. rewrite Hm, <- app_assoc in Hdata. subst data. clearbody macs. unfold is_bytes in Hb.
  rewrite !Forall_app in Hb. destruct Hb as (_ & Hbe & Hbt).
  inversion_clear Hbe as [|? ? Hbe0 Hbe']. inversion_clear Hbe' as [|? ? Hbe1 _].
  rewrite (u16_from_be_le16 e0 e1) by done. rewrite app_assoc.
  destruct (Z.eqb_spec (256 * e0 + e1) Fast.ETH_P_8021Q) as [Hv|_].
  - apply be16_octets in Hv as [-> ->]; [|done..].
    destruct (Fast.ptr_at _ 14 4) as [vl|] eqn:Evl; [|done].
    apply ptr_at_inv in Evl as (a1 & c1 & Hd & Ha1 & Hvl).
    apply app_inj_1 in Hd as [<- ->]; [|rewrite length_app, Ha1, Hlm; done].
    destruct vl as [|t0 [|t1 [|p0 [|p1 [|]]]]]; try done. change (take 2 _) with [t0; t1]. change (drop 2 _) with [p0; p1].
    rewrite Forall_app in Hbt. destruct Hbt as [Hbv _].
    inversion_clear Hbv as [|? ? Ht0 Hb1]. inversion_clear Hb1 as [|? ? Ht1 Hb2].
    inversion_clear Hb2 as [|? ? Hp0 Hb3]. inversion_clear Hb3 as [|? ? Hp1 _].
    rewrite (u16_from_be_le16 p0 p1), vid_land by done. rewrite app_assoc.
    destruct (Fast.lookup_key _ _ _ _) as [[k|]|] eqn:Ek; try done. intros [= <-].
    apply payload_dst in Ek as (h & dst & c & -> & [(Het & Hh & Hdst & ->)|(Het & Hh & Hdst & ->)]);
      [| |rewrite !length_app, Hlm; done];
      apply be16_octets in Het as [-> ->]; try done; do 2 eexists; (split; [done|]); rewrite <- !app_assoc.
    + by apply (vlan_dst4 macs t0 t1 h dst c).
    + by apply (vlan_dst6 macs t0 t1 h dst c).
  - destruct (Fast.lookup_key _ _ _ _) as [[k|]|] eqn:Ek; try done. intros [= <-].
    apply payload_dst in Ek as (h & dst & c & -> & [(Het & Hh & Hdst & ->)|(Het & Hh & Hdst & ->)]);
      [| |rewrite !length_app, Hlm; done];
      apply be16_octets in Het as [-> ->]; try done; do 2 eexists; (split; [done|]); rewrite <- !app_assoc.
    + by apply (dst4 macs h dst c).
    + by apply (dst6 macs h dst c).
Qed.

(** ** The contents of the table *)

Lemma key_of_ip_inj ip vid ip' vid' : key_of_ip ip vid = key_of_ip ip' vid' -> ip = ip' /\ vid = vid'.
Proof. destruct ip, ip'; intros [=]; by subst. Qed.

(** The addresses of the interfaces that have a MAC address, with that MAC
    address and the interface index. *)
Definition local_routes (ifaces : list Control.NetworkInterface) : list (IpAddr * (bytes * Z)) :=
  ifaces ≫= fun i =>
    match Control.mac_addr i with
    | Some mac => (fun a => (a, (Control.parse_mac mac, Control.index i))) <$> Control.addr i
    | None => []
    end.

(** The neighbour a message is about: its last destination of a known length
    and its last link-layer address, when that is a MAC address. *)
Definition destination_of (nla : Control.NeighbourAttribute) : option IpAddr :=
  match nla with
  | Control.Destination b =>
      if (length b =? 4)%nat then Some (IpV4 b) else if (length b =? 16)%nat then Some (IpV6 b) else None
  | _ => None
  end.
Definition link_layer_of (nla : Control.NeighbourAttribute) : option bytes :=
  match nla with Control.LinkLayerAddress mac => Some mac | _ => None end.
Definition neighbour_of (item : result (list Control.NeighbourAttribute) unit) : option (IpAddr * bytes) :=
  match item with
  | Ok nlas =>
      match last (omap destination_of nlas), last (omap link_layer_of nlas) with
      | Some ip, Some mac => if (length mac =? 6)%nat then Some (ip, mac) else None
      | _, _ => None
      end
  | Err _ => None
  end.

Lemma last_cons_default {A} (x : A) l : last (x :: l) = Some (default x (last l)).
Proof. rewrite last_cons. by destruct (last l). Qed.

Lemma parse_nlas_spec nlas d ll :
  Control.parse_nlas nlas d ll =
  (match last (omap destination_of nlas) with Some ip => Some ip | None => d end,
   match last (omap link_layer_of nlas) with Some mac => Some mac | None => ll end).
Proof.
  revert d ll. induction nlas as [|[b|mac|] nlas IH]; intros d ll; cbn [Control.parse_nlas omap list_omap destination_of link_layer_of].
  - done.
  - destruct (length b =? 4)%nat; [|destruct (length b =? 16)%nat]; rewrite IH, ?last_cons_default; [..|done];
      by destruct (last (omap destination_of nlas)).
  - rewrite IH, last_cons_default. by destruct (last (omap link_layer_of nlas)).
  - apply IH.
Qed.

Lemma ref_ll_addr_spec nlas : Control.ref_ll_addr nlas = head (omap link_layer_of nlas).
Proof. by induction nlas as [|[b|mac|] nlas IH]. Qed.

Lemma parse_message nlas :
  Control.parse_nlas nlas None (Control.ref_ll_addr nlas) = (last (omap destination_of nlas), last (omap link_layer_of nlas)).
Proof.
  rewrite parse_nlas_spec, ref_ll_addr_spec. f_equal; [by destruct (last _)|].
  destruct (omap link_layer_of nlas) as [|x l]; [done|]. by rewrite last_cons_default.
Qed.

Section table.
Context {M : Type} {H : BpfHash RouteKey RouteValue M}.
Implicit Types (m : M).

(** [m] holds the routes [cfg], updated by the neighbours [ups]. *)
Definition table m (cfg : list (IpAddr * (bytes * Z))) (ups : list (IpAddr * bytes)) : Prop :=
  (forall ip, bpf_get m (key_of_ip ip 0) =
     (fun p => mkRouteValue p.1 (default Control.broadcast (assoc_last ip ups)) p.2 0) <$> assoc_last ip cfg) /\
  (forall ip vid, vid <> 0 -> bpf_get m (key_of_ip ip vid) = None).

Lemma table_add m cfg a mac idx m' : table m cfg [] ->
  bpf_insert m (key_of_ip a 0) (mkRouteValue mac Control.broadcast idx 0) = Some m' ->
  table m' (cfg ++ [(a, (mac, idx))]) [].
Proof.
  intros [T0 T1] Hi. split.
  - intros ip. rewrite (bpf_insert_some _ _ _ _ _ Hi), assoc_last_snoc. destruct (decide (a = ip)) as [->|Hne].
    + by rewrite decide_True.
    + rewrite decide_False; [apply T0|]. by intros [-> _]%key_of_ip_inj.
  - intros ip vid Hv. rewrite (bpf_insert_some _ _ _ _ _ Hi). rewrite decide_False; [by apply T1|].
    by intros [_ ?]%key_of_ip_inj.
Qed.

Lemma table_addresses idx mac addrs m cfg m' : table m cfg [] ->
  Control.add_addresses m idx mac addrs = Ok m' -> table m' (cfg ++ ((fun a => (a, (mac, idx))) <$> addrs)) [].
Proof.
  revert m cfg. induction addrs as [|a addrs IH]; intros m cfg Ht; cbn [Control.add_addresses fmap list_fmap].
  - intros [= <-]. by rewrite app_nil_r.
  - case_match eqn:Hi; [|done]. intros Hr. rewrite (cons_middle _ cfg), app_assoc. eapply IH; [|done].
    by eapply table_add.
Qed.

Lemma table_interfaces ifaces m cfg m' : table m cfg [] ->
  Control.add_interfaces m ifaces = Ok m' -> table m' (cfg ++ local_routes ifaces) [].
Proof.
  revert m cfg. induction ifaces as [|i ifaces IH]; intros m cfg Ht; cbn [Control.add_interfaces].
  - intros [= <-]. unfold local_routes; cbn. by rewrite app_nil_r.
  - unfold local_routes. cbn [mbind list_bind]. rewrite app_assoc.
    destruct (Control.mac_addr i) as [mac|]; [|rewrite app_nil_r; by apply IH].
    destruct (Control.add_addresses _ _ _ _) eqn:Ea; [|done]. apply IH. by eapply table_addresses.
Qed.

(** A neighbour message never makes the program panic. *)
Lemma table_neigh m cfg ups nlas : table m cfg ups ->
  exists m', Control.handle_neigh m nlas = Val m' /\ table m' cfg (ups ++ option_list (neighbour_of (Ok nlas))).
Proof.
  intros Ht. pose proof Ht as [T0 T1]. unfold Control.handle_neigh. rewrite parse_message. unfold neighbour_of.
  destruct (last (omap destination_of nlas)) as [ip|]; [|exists m; by rewrite app_nil_r].
  destruct (last (omap link_layer_of nlas)) as [mac|]; [|exists m; by rewrite app_nil_r].
  destruct (length mac =? 6)%nat; [|exists m; by rewrite app_nil_r]. change (option_list (Some (ip, mac))) with [(ip, mac)].
  destruct (bpf_get m (key_of_ip ip 0)) as [r|] eqn:Hg.
  - destruct (bpf_insert m _ _) as [m'|] eqn:Hi; [|by rewrite (bpf_insert_none _ _ _ Hi) in Hg].
    exists m'. split; [done|]. split.
    + intros ip'. rewrite (bpf_insert_some _ _ _ _ _ Hi), assoc_last_snoc. destruct (decide (ip = ip')) as [->|Hne].
      * rewrite decide_True by done. rewrite T0 in Hg. destruct (assoc_last ip' cfg); [|done]. by injection Hg as <-.
      * rewrite decide_False; [apply T0|]. by intros [-> _]%key_of_ip_inj.
    + intros ip' vid Hv. rewrite (bpf_insert_some _ _ _ _ _ Hi). rewrite decide_False; [by apply T1|].
      by intros [_ ?]%key_of_ip_inj.
  - exists m. split; [done|]. split; [|done]. intros ip'. rewrite assoc_last_snoc, T0.
    destruct (decide (ip = ip')) as [->|]; [|done]. rewrite T0 in Hg. by destruct (assoc_last ip' cfg).
Qed.

Lemma table_stream stream m cfg ups : table m cfg ups ->
  exists m', Control.monitor_arp_updates m stream = Val m' /\ table m' cfg (ups ++ omap neighbour_of stream).
Proof.
  revert m ups. induction stream as [|[nlas|] stream IH]; intros m ups Ht; cbn [Control.monitor_arp_updates].
  - exists m. cbn. by rewrite app_nil_r.
  - destruct (table_neigh m cfg ups nlas Ht) as (m1 & -> & Ht1). cbn [mbind outcome_bind].
    destruct (IH m1 _ Ht1) as (m' & -> & Ht'). exists m'. split; [done|].
    rewrite <- app_assoc in Ht'. cbn [omap list_omap]. by destruct (neighbour_of (Ok nlas)).
  - by apply IH.
Qed.

End table.

(** The usual text of a MAC address. *)
Definition mac_text (mac : bytes) : bytes :=
  match mac with
  | [] => []
  | b :: mac => hex2 b ++ concat (map (fun o => 58 :: hex2 o) mac)
  end.

Lemma hex2_no_colon b : is_byte b -> 58 ∉ hex2 b.
Proof.
  intros Hb Hin. pose proof (byte_check (fun b => forallb (fun c => negb (c =? 58)) (hex2 b)) ltac:(vm_compute; reflexivity) b Hb) as Hc.
  cbv beta in Hc. rewrite forallb_forall in Hc. apply list_elem_of_In in Hin. by apply Hc in Hin.
Qed.

Lemma split_mac_text b mac : is_byte b -> is_bytes mac -> split_on 58 (mac_text (b :: mac)) = map hex2 (b :: mac).
Proof.
  intros Hb Hm. revert b Hb. induction Hm as [|c mac Hc _ IH]; intros b Hb.
  - cbn [mac_text map concat]. rewrite app_nil_r. apply split_on_none. by apply hex2_no_colon.
  - cbn [mac_text map concat app]. rewrite split_on_cons by by apply hex2_no_colon. f_equal. by apply IH.
Qed.

(** ** Properties *)

(** A MAC address in its usual text is read back exactly, and whatever
    the text, the result is six bytes. *)
Theorem parse_mac_round_trip (mac s : bytes) :
  length (Control.parse_mac s) = 6%nat /\ is_bytes (Control.parse_mac s) /\
  (length mac = 6%nat -> is_bytes mac -> Control.parse_mac (mac_text mac) = mac).
Proof.
  split; [|split].
  - unfold Control.parse_mac. case_match eqn:E; [|done]. rewrite length_map. by apply Nat.eqb_eq.
  - unfold Control.parse_mac. case_match eqn:E; [|by repeat constructor]. apply Forall_map, Forall_true. intros p.
    destruct (u8_from_hex p) as [v|] eqn:Ev; [by apply u8_from_hex_byte in Ev|done].
  - intros Hl Hb. destruct mac as [|b mac]; [done|]. apply Forall_cons in Hb as [Hb Hm]. unfold Control.parse_mac.
    rewrite split_mac_text, length_map, Hl by done. cbn [Nat.eqb]. rewrite map_map.
    rewrite <- (map_id (b :: mac)) at 2. apply map_ext_in. intros x Hx%list_elem_of_In.
    rewrite u8_from_hex2; [done|]. eapply Forall_forall; [|exact Hx]. by constructor.
Qed.

Section properties.
Context {M : Type} {H : BpfHash RouteKey RouteValue M}.
Variable redirect : Z -> Z.
Implicit Types (m : M).

Lemma xdp_router_key m data :
  Fast.xdp_router redirect m data =
  match frame_key data ≫= bpf_get m with
  | Some r => Fast.mkVerdict (redirect (if_index r)) (dst_mac r ++ src_mac r ++ drop 12 data) (Some (if_index r))
  | None => Fast.mkVerdict Fast.XDP_PASS data None
  end.
Proof.
  unfold Fast.xdp_router, Fast.try_xdp_router, frame_key.
  destruct (Fast.ptr_at _ _ _) as [eth|]; [|done].
  destruct (Fast.parse_vlan _ _) as [[[vid et] off]|]; [|done].
  destruct (Fast.lookup_key _ _ _ _) as [[k|]|]; [|done..]. cbn. by destruct (bpf_get m k).
Qed.

(** C21. The forwarding decision on every frame, tagged or not, over IPv4 or
    IPv6, complete or cut short: when the table has a route for the frame's
    destination and VLAN id, the frame leaves on the route's interface with
    both MAC addresses replaced and every other byte kept; in every other
    case it is passed to the stack unchanged. *)
Theorem router_forwarding m data : is_bytes data ->
  (forall vid ip r, ip_dst vid ip data -> bpf_get m (key_of_ip ip vid) = Some r ->
     Fast.xdp_router redirect m data =
     Fast.mkVerdict (redirect (if_index r)) (dst_mac r ++ src_mac r ++ drop 12 data) (Some (if_index r))) /\
  ((forall vid ip, ip_dst vid ip data -> bpf_get m (key_of_ip ip vid) = None) ->
     Fast.xdp_router redirect m data = Fast.mkVerdict Fast.XDP_PASS data None).
Proof.
  intros Hb. rewrite xdp_router_key. split.
  - intros vid ip r Hd Hg. rewrite (frame_key_complete vid ip) by done. cbn. by rewrite Hg.
  - intros Hn. destruct (frame_key data) as [k|] eqn:E; [|done].
    apply frame_key_sound in E as (vid & ip & -> & Hd); [|done]. cbn. by rewrite (Hn vid ip Hd).
Qed.

Lemma run_routes ifaces stream om : Control.run ifaces stream = Ok om ->
  exists m, om = Val m /\ forall data, is_bytes data ->
    (forall ip mac idx, ip_dst 0 ip data -> assoc_last ip (local_routes ifaces) = Some (mac, idx) ->
       Fast.xdp_router redirect m data =
       Fast.mkVerdict (redirect idx)
         (default Control.broadcast (assoc_last ip (omap neighbour_of stream)) ++ mac ++ drop 12 data) (Some idx)) /\
    ((forall ip, ip_dst 0 ip data -> assoc_last ip (local_routes ifaces) = None) ->
       Fast.xdp_router redirect m data = Fast.mkVerdict Fast.XDP_PASS data None).
Proof.
  unfold Control.run. destruct (Control.add_interfaces _ _) as [m0|] eqn:Ei; [|done]. intros [= <-].
  assert (table (bpf_empty 1024) [] []) as He by (split; intros; by rewrite bpf_get_empty).
  destruct (table_stream stream m0 (local_routes ifaces) []) as (m & -> & T0 & T1).
  { by apply (table_interfaces _ _ _ _ He Ei). }
  exists m. split; [done|]. intros data Hb. rewrite xdp_router_key. split.
  - intros ip mac idx Hd Hl. rewrite (frame_key_complete 0 ip) by done. cbn [mbind option_bind]. by rewrite T0, Hl.
  - intros Hn. destruct (frame_key data) as [k|] eqn:E; [|done].
    apply frame_key_sound in E as (vid & ip & -> & Hd); [|done]. cbn [mbind option_bind].
    destruct (decide (vid = 0)) as [->|]; [|by rewrite T1]. by rewrite T0, (Hn ip Hd).
Qed.

Lemma router_start_spec k : Control.start k = Aya.Started <->
  Aya.object_loads k = true /\ Aya.attached k (lit "eth0") (lit "xdp_router") /\ Aya.usable k (lit "ROUTES").
Proof.
  unfold Control.start. rewrite !Aya.started_app by honest.
  by rewrite Aya.object_started, Aya.program_started, Aya.map_started.
Qed.

Lemma router_main_none k show netlink stream : Control.main (M := M) k show netlink stream = None <->
  ~ (Aya.object_loads k = true /\ Aya.attached k (lit "eth0") (lit "xdp_router") /\ Aya.usable k (lit "ROUTES") /\
     exists ifaces m, show = Ok ifaces /\ Control.add_interfaces (bpf_empty 1024 : M) ifaces = Ok m).
Proof.
  pose proof (router_start_spec k) as Hs. unfold Control.main, Control.run.
  destruct (Control.start k); [|naive_solver..]. destruct Hs as [Hs _]. specialize (Hs eq_refl).
  destruct show as [ifaces|]; [|split; [|done]; by intros _ (_ & _ & _ & ? & ? & [=] & _)].
  destruct (Control.add_interfaces _ ifaces) as [m|] eqn:E; split; try done.
  - intros []. destruct Hs as (? & ? & ?). split_and!; [done..|]. by exists ifaces, m.
  - intros _ (_ & _ & _ & ? & ? & [= <-] & E'). congruence.
Qed.

(** What becomes of a frame on the interface. *)
Definition on_interface (om : option M) (data : bytes) : Fast.verdict :=
  match om with Some m => Fast.xdp_router redirect m data | None => Fast.mkVerdict Fast.XDP_PASS data None end.

(** C7. The whole router, from its start-up on.  It runs exactly when the
    object is complete, the kernel takes the program for the interface, the
    interfaces can be listed, and there is room for their addresses; otherwise every
    frame passes.  When it runs, handling any stream of neighbour messages and
    errors (none, when netlink cannot be reached) never panics, and afterwards a
    frame is redirected exactly when it carries VLAN id 0 (or no tag) and its
    destination is an address of one of the machine's own interfaces with a MAC
    address; its new destination MAC address is the last one announced for
    that address, or broadcast.  Every other frame passes, whatever the neighbours
    announced. *)
Theorem router_end_to_end k show netlink stream om : Control.main k show netlink stream = om ->
  (om = None <-> ~ (Aya.object_loads k = true /\ Aya.attached k (lit "eth0") (lit "xdp_router") /\ Aya.usable k (lit "ROUTES") /\
     exists ifaces m, show = Ok ifaces /\ Control.add_interfaces (bpf_empty 1024 : M) ifaces = Ok m)) /\
  exists om', om = Val <$> om' /\ forall data, is_bytes data ->
    (forall ifaces ip mac idx, om' <> None -> show = Ok ifaces -> ip_dst 0 ip data ->
       assoc_last ip (local_routes ifaces) = Some (mac, idx) ->
       on_interface om' data =
       Fast.mkVerdict (redirect idx)
         (default Control.broadcast (assoc_last ip (omap neighbour_of (if netlink then stream else []))) ++ mac ++ drop 12 data)
         (Some idx)) /\
    ((forall ifaces ip, om' <> None -> show = Ok ifaces -> ip_dst 0 ip data -> assoc_last ip (local_routes ifaces) = None) ->
       on_interface om' data = Fast.mkVerdict Fast.XDP_PASS data None).
Proof.
  intros <-. split; [apply router_main_none|]. unfold Control.main.
  destruct (Control.start k); [|by exists None..]. destruct show as [ifaces|]; [|by exists None].
  destruct (Control.run ifaces _) as [om|] eqn:Er; [|by exists None].
  destruct (run_routes ifaces _ om Er) as (m & -> & Hm). exists (Some m). split; [done|]. intros data Hb.
  destruct (Hm data Hb) as [H1 H2]. split.
  - intros ifaces' ip mac idx _ [= <-]. apply H1.
  - intros Hn. apply H2. intros ip. by apply Hn.
Qed.

End properties.

(** Witnesses: one interface, one neighbour message that names it. *)
Definition demo_ifaces : list Control.NetworkInterface :=
  [Control.mkInterface 2 (Some (lit "02:42:ac:11:00:02")) [IpV4 [172; 17; 0; 2]]; Control.mkInterface 1 None [IpV4 [127; 0; 0; 1]]].
Definition demo_stream : list (result (list Control.NeighbourAttribute) unit) :=
  [Ok [Control.Destination [172; 17; 0; 2]; Control.OtherAttribute; Control.LinkLayerAddress [1; 2; 3; 4; 5; 6]]; Err tt;
   Ok [Control.Destination [172; 17; 0; 9]; Control.LinkLayerAddress [9; 9; 9; 9; 9; 9]]].
Definition demo_frame (dst : list Z) : bytes := replicate 12 7 ++ [8; 0] ++ replicate 16 69 ++ dst ++ [1; 2; 3].
Definition demo_routes : nat * gmap RouteKey RouteValue :=
  match Control.run demo_ifaces demo_stream with Ok (Val m) => m | _ => bpf_empty 0 end.

Lemma demo_frame_dst dst : length dst = 4%nat -> ip_dst 0 (IpV4 dst) (demo_frame dst).
Proof. intros Hd. by apply dst4. Qed.

Lemma demo_frame_bytes dst : is_bytes dst -> is_bytes (demo_frame dst).
Proof. intros Hd. unfold demo_frame, is_bytes. rewrite !Forall_app. repeat split; try done; repeat constructor; done. Qed.

Lemma parse_mac_round_trip_witness :
  Control.parse_mac (lit "02:42:ac:11:00:02") = [2; 66; 172; 17; 0; 2].
Proof.
  change (lit "02:42:ac:11:00:02") with (mac_text [2; 66; 172; 17; 0; 2]).
  apply (parse_mac_round_trip [2; 66; 172; 17; 0; 2] []); [reflexivity|repeat constructor; done].
Defined.

Lemma router_forwarding_witness :
  exists r, bpf_get demo_routes (key_of_ip (IpV4 [172; 17; 0; 2]) 0) = Some r /\
    Fast.xdp_router (fun _ => 4) demo_routes (demo_frame [172; 17; 0; 2]) =
      Fast.mkVerdict 4 ([1; 2; 3; 4; 5; 6; 2; 66; 172; 17; 0; 2] ++ drop 12 (demo_frame [172; 17; 0; 2])) (Some 2).
Proof.
  exists (mkRouteValue [2; 66; 172; 17; 0; 2] [1; 2; 3; 4; 5; 6] 2 0).
  assert (bpf_get demo_routes (key_of_ip (IpV4 [172; 17; 0; 2]) 0) =
    Some (mkRouteValue [2; 66; 172; 17; 0; 2] [1; 2; 3; 4; 5; 6] 2 0)) as Hg by (vm_compute; reflexivity).
  split; [exact Hg|]. destruct (router_forwarding (fun _ => 4) demo_routes (demo_frame [172; 17; 0; 2])) as [Hf _].
  - apply demo_frame_bytes. repeat constructor; done.
  - exact (Hf _ _ _ (demo_frame_dst [172; 17; 0; 2] eq_refl) Hg).
Defined.

Lemma router_end_to_end_witness :
  Control.main Aya.willing (Ok demo_ifaces) true demo_stream = Some (Val demo_routes) /\
  on_interface (fun _ => 4) (Some demo_routes) (demo_frame [172; 17; 0; 9]) = Fast.mkVerdict Fast.XDP_PASS (demo_frame [172; 17; 0; 9]) None.
Proof.
  assert (Control.main Aya.willing (Ok demo_ifaces) true demo_stream = Some (Val demo_routes)) as Hr by (vm_compute; reflexivity).
  split; [exact Hr|]. destruct (router_end_to_end (fun _ => 4) _ _ _ _ _ Hr) as (_ & [m|] & Hm & Hd); [|done].
  injection Hm as Hm. rewrite Hm.
  apply Hd; [apply demo_frame_bytes; repeat constructor; done|].
  intros ifaces ip _ [= <-] Hip. pose proof (demo_frame_dst [172; 17; 0; 9] eq_refl) as Hip'.
  assert (is_bytes (demo_frame [172; 17; 0; 9])) as Hb by (apply demo_frame_bytes; repeat constructor; done).
  pose proof (frame_key_complete _ _ _ Hb Hip) as E. rewrite (frame_key_complete _ _ _ Hb Hip') in E.
  assert (key_of_ip (IpV4 [172; 17; 0; 9]) 0 = key_of_ip ip 0) as E' by congruence.
  apply key_of_ip_inj in E' as [<- _]. vm_compute. reflexivity.
Defined.
