(* ===== verification/LsmHooks.v ===== *)
(** The LSM file rules: the records of [src/lsm_hooks/common/src/lib.rs], the
    [file_open] hook of [src/lsm_hooks/bpf/src/main.rs] and the user-space
    loader of [src/lsm_hooks/userspace/src/main.rs]. *)
From S2P Require Import Prelude Bytes Bpf.

Definition MAX_PATH_LEN : nat := 256.
Definition AUTH_OPEN : Z := Z.shiftl 1 0.
Definition AUTH_READ : Z := Z.shiftl 1 1.
Definition AUTH_WRITE : Z := Z.shiftl 1 2.
Definition AUTH_EXEC : Z := Z.shiftl 1 3.

(** [FileRuleKey]: the 256 bytes of a path; [FileRuleValue]. *)
Record FileRuleKey := mkFileRuleKey { rule_path : bytes }.
Record FileRuleValue := mkFileRuleValue { allowed_mask : Z }.

#[export] Instance FileRuleKey_eq_dec : EqDecision FileRuleKey.
Proof. solve_decision. Defined.
#[export] Instance FileRuleKey_countable : Countable FileRuleKey.
Proof. by refine (inj_countable' rule_path mkFileRuleKey _); intros []. Defined.

(** ** The hook *)

Section hook.
Context {M : Type} {B : BpfHash FileRuleKey FileRuleValue M}.
(** Paths of the kernel, and the helper [bpf_d_path]: what it returns for a
    path and a zeroed buffer of some size, and the buffer afterwards. *)
Context {Path : Type} (bpf_d_path : Path -> nat -> Z * bytes).

(** [struct file]. *)
Record file := mkFile { f_path : Path; f_flags : Z }.

Definition is_flag_set (mask flag : Z) : bool := Z.land mask flag =? flag.

(** The operations the flags of the file ask for. *)
Definition requested_mask (f_flags : Z) : Z :=
  let m := 0 in
  let m := if Z.land f_flags 3 =? 0 then Z.lor m AUTH_READ else m in
  let m := if Z.land f_flags 3 =? 1 then Z.lor m AUTH_WRITE else m in
  let m := if Z.land f_flags 3 =? 2 then Z.lor m (Z.lor AUTH_READ AUTH_WRITE) else m in
  let m := if negb (Z.land f_flags 32 =? 0) then Z.lor m AUTH_EXEC else m in
  Z.lor m AUTH_OPEN.

Definition file_open (rules : M) (arg : option file) : Z :=
  match arg with
  | None => 0
  | Some f =>
      let (len, path_buf) := bpf_d_path (f_path f) MAX_PATH_LEN in
      if len <=? 0 then 0
      else match bpf_get rules (mkFileRuleKey path_buf) with
           | Some rule =>
               let requested := requested_mask (f_flags f) in
               if negb (Z.land (allowed_mask rule) requested =? requested) then -13 else 0
           | None => 0
           end
  end.

(** ** The loader *)

(** The four columns after the path. *)
Definition mask_of (open_allowed read_allowed write_allowed exec_allowed : bool) : Z :=
  let mask := 0 in
  let mask := if open_allowed then Z.lor mask AUTH_OPEN else mask in
  let mask := if read_allowed then Z.lor mask AUTH_READ else mask in
  let mask := if write_allowed then Z.lor mask AUTH_WRITE else mask in
  if exec_allowed then Z.lor mask AUTH_EXEC else mask.

(** The zero-padded path, cut to 255 bytes. *)
Definition path_bytes (src_bytes : bytes) : bytes :=
  let len := Nat.min (length src_bytes) (MAX_PATH_LEN - 1) in
  take len src_bytes ++ replicate (MAX_PATH_LEN - len) 0.

(** One line of the file: the entry it writes, if any. *)
Definition parse_rule (line : bytes) : option (FileRuleKey * FileRuleValue) :=
  if bool_decide (trim line = []) || starts_with line (lit "#") then None
  else match split_whitespace line with
  | [file_path; o; r; w; x] =>
      let one := fun p => bool_decide (p = lit "1") in
      Some (mkFileRuleKey (path_bytes file_path), mkFileRuleValue (mask_of (one o) (one r) (one w) (one x)))
  | _ => None
  end.

(** [reader.lines()]: a line that is not UTF-8, or that cannot be read, is an
    error, and the first error ends the function. *)
Definition reader_lines (contents : bytes) : list (result bytes unit) :=
  map (fun l => if is_str l then Ok l else Err tt) (lines contents).

Fixpoint reload_lines (rules_map : M) (ls : list (result bytes unit)) : result unit unit * M :=
  match ls with
  | [] => (Ok tt, rules_map)
  | Err e :: _ => (Err e, rules_map)
  | Ok line :: ls =>
      match parse_rule line with
      | Some (key, value) => reload_lines (default rules_map (bpf_insert rules_map key value)) ls
      | None => reload_lines rules_map ls
      end
  end.

(** [reload_rules] on what opening the file gives. *)
Definition reload_rules (rules_map : M) (opened : option (list (result bytes unit))) : result unit unit * M :=
  match opened with
  | None => (Err tt, rules_map)
  | Some ls => reload_lines rules_map ls
  end.

(** The events of the watcher: [Ok kind], or an error. *)
Inductive EventKind := Modify | Create | OtherKind.

(** The loop of [main]; each event comes with the file as a reload would
    find it. *)
Fixpoint watch (rules_map : M) (rx : list (result EventKind unit * option (list (result bytes unit)))) : M :=
  match rx with
  | [] => rules_map
  | (res, opened) :: rx =>
      let rules_map :=
        match res with
        | Ok Modify | Ok Create => snd (reload_rules rules_map opened)
        | _ => rules_map
        end in
      watch rules_map rx
  end.

(** [main] after the program is attached: a first reload, then the events. *)
Definition run (opened : option (list (result bytes unit)))
    (rx : list (result EventKind unit * option (list (result bytes unit)))) : M :=
  watch (snd (reload_rules (bpf_empty 1024) opened)) rx.

(** Start-up, with whether the kernel's type information is there. *)
Definition start (k : Aya.answers) (btf : bool) : Aya.ending :=
  Aya.first_failure ([(btf, Aya.Error)] ++ Aya.object k ++ Aya.logger k ++ Aya.program k [] (lit "file_open") ++ Aya.map k (lit "RULES")).

(** The whole program, with whether the watcher can be made and watches the
    directory: [None] while no hook of it is attached, as when it has ended. *)
Definition main (k : Aya.answers) (btf watcher watches : bool) (opened : option (list (result bytes unit)))
    (rx : list (result EventKind unit * option (list (result bytes unit)))) : option M :=
  match start k btf with
  | Aya.Started => if watcher && watches then Some (run opened rx) else None
  | Aya.Error | Aya.Panicked => None
  end.

(** What the program answers to an open. *)
Definition hook (om : option M) (f : file) : Z :=
  match om with Some m => file_open m (Some f) | None => 0 end.

End hook.
Arguments file : clear implicits.
Arguments mkFile {Path}.

(** ** What the rules say *)

(** The entries of a file: those of the lines before the first error. *)
Fixpoint entries (ls : list (result bytes unit)) : list (FileRuleKey * FileRuleValue) :=
  match ls with
  | [] | Err _ :: _ => []
  | Ok line :: ls => option_list (parse_rule line) ++ entries ls
  end.
Definition opened_entries (opened : option (list (result bytes unit))) : list (FileRuleKey * FileRuleValue) :=
  default [] (entries <$> opened).
Definition event_entries (e : result EventKind unit * option (list (result bytes unit))) : list (FileRuleKey * FileRuleValue) :=
  match e.1 with Ok Modify | Ok Create => opened_entries e.2 | _ => [] end.

Section loading.
Context {M : Type} {B : BpfHash FileRuleKey FileRuleValue M}.
Implicit Types (m : M).

Lemma reload_lines_fill m ls : snd (reload_lines m ls) = bpf_fill m (entries ls).
Proof.
  revert m. induction ls as [|[line|e] ls IH]; intros m; [done| |done].
  cbn [reload_lines entries]. destruct (parse_rule line) as [[k v]|]; [|by rewrite IH].
  rewrite IH. done.
Qed.

Lemma reload_rules_fill m opened : snd (reload_rules m opened) = bpf_fill m (opened_entries opened).
Proof. destruct opened; [apply reload_lines_fill|done]. Qed.

Lemma watch_fill m rx : watch m rx = bpf_fill m (rx ≫= event_entries).
Proof.
  revert m. induction rx as [|[res opened] rx IH]; intros m; [done|]. cbn [watch mbind list_bind].
  unfold bpf_fill. rewrite foldl_app, IH. unfold event_entries. cbn [fst snd].
  destruct res as [[]|]; by rewrite ?reload_rules_fill.
Qed.

Lemma run_fill opened rx : run opened rx = bpf_fill (bpf_empty 1024 : M) (opened_entries opened ++ (rx ≫= event_entries)).
Proof. unfold run. rewrite watch_fill, reload_rules_fill. unfold bpf_fill. by rewrite foldl_app. Qed.

End loading.

(** ** Rules as a reader of the file sees them *)

(** A path and what is allowed on it: open, read, write, execute. *)
Definition permissions : Type := bool * bool * bool * bool.
Definition rule_of_line (line : bytes) : option (bytes * permissions) :=
  if bool_decide (trim line = []) || starts_with line (lit "#") then None
  else match split_whitespace line with
  | [file_path; o; r; w; x] =>
      Some (file_path, (bool_decide (o = lit "1"), bool_decide (r = lit "1"), bool_decide (w = lit "1"), bool_decide (x = lit "1")))
  | _ => None
  end.

(** The rules of a file, up to its first unreadable line. *)
Fixpoint file_rules (ls : list (result bytes unit)) : list (bytes * permissions) :=
  match ls with
  | [] | Err _ :: _ => []
  | Ok line :: ls => option_list (rule_of_line line) ++ file_rules ls
  end.
Definition all_rules (opened : option (list (result bytes unit)))
    (rx : list (result EventKind unit * option (list (result bytes unit)))) : list (bytes * permissions) :=
  default [] (file_rules <$> opened) ++
  (rx ≫= fun e => match e.1 with Ok Modify | Ok Create => default [] (file_rules <$> e.2) | _ => [] end).

(** The longest path a key can hold. *)
Definition cut (p : bytes) : bytes := take 255 p.

(** Whether an open with these flags is within the permissions. *)
Definition permitted (p : permissions) (f_flags : Z) : bool :=
  match p with
  | (o, r, w, x) =>
      let acc := f_flags mod 4 in
      o && implb ((acc =? 0) || (acc =? 2)) r && implb ((acc =? 1) || (acc =? 2)) w && implb (Z.testbit f_flags 5) x
  end.

Definition path_key (p : bytes) : FileRuleKey := mkFileRuleKey (path_bytes p).
Definition perm_value (p : permissions) : FileRuleValue :=
  match p with (o, r, w, x) => mkFileRuleValue (mask_of o r w x) end.
Definition entry_of (r : bytes * permissions) : FileRuleKey * FileRuleValue := (path_key r.1, perm_value r.2).

Lemma parse_rule_spec line : parse_rule line = entry_of <$> rule_of_line line.
Proof.
  unfold parse_rule, rule_of_line. destruct (_ || _); [done|].
  by destruct (split_whitespace line) as [|p [|o [|r [|w [|x [|]]]]]].
Qed.

Lemma entries_spec ls : entries ls = map entry_of (file_rules ls).
Proof.
  induction ls as [|[line|e] ls IH]; [done| |done]. cbn [entries file_rules].
  rewrite map_app, IH, parse_rule_spec. by destruct (rule_of_line line).
Qed.

Lemma all_entries opened rx :
  opened_entries opened ++ (rx ≫= event_entries) = map entry_of (all_rules opened rx).
Proof.
  unfold all_rules. rewrite map_app. f_equal; [destruct opened; [apply entries_spec|done]|].
  induction rx as [|[res o] rx IH]; [done|]. cbn [mbind list_bind]. rewrite IH, map_app. f_equal.
  unfold event_entries. cbn [fst snd]. destruct res as [[]|], o; try done; apply entries_spec.
Qed.

(** ** The mask arithmetic *)
Lemma mask_permitted o r w x f_flags :
  (Z.land (mask_of o r w x) (requested_mask f_flags) =? requested_mask f_flags) = permitted (o, r, w, x) f_flags.
Proof.
  unfold requested_mask, permitted. change 3 with (Z.ones 2). rewrite Z.land_ones by lia. change (2 ^ 2) with 4.
  assert (negb (Z.land f_flags 32 =? 0) = Z.testbit f_flags 5) as ->.
  { change 32 with (2 ^ 5). destruct (Z.testbit f_flags 5) eqn:E.
    - destruct (Z.eqb_spec (Z.land f_flags (2 ^ 5)) 0) as [Hz|]; [|done].
      apply (f_equal (fun z => Z.testbit z 5)) in Hz. rewrite Z.land_spec, E, Z.bits_0 in Hz. done.
    - apply negb_false_iff, Z.eqb_eq, Z.bits_inj'. intros n Hn. rewrite Z.land_spec, Z.pow2_bits_eqb, Z.bits_0 by lia.
      destruct (Z.eqb_spec 5 n) as [<-|]; [by rewrite E|by rewrite andb_false_r]. }
  pose proof (Z.mod_pos_bound f_flags 4 ltac:(lia)) as Hb. revert Hb. generalize (f_flags mod 4). intros acc Hacc.
  assert (acc = 0 \/ acc = 1 \/ acc = 2 \/ acc = 3) as [ -> |[ -> |[ -> | -> ]]] by lia;
    by destruct o, r, w, x, (Z.testbit f_flags 5).
Qed.

(** ** Keys and paths *)
Lemma path_bytes_length p : length (path_bytes p) = 256%nat.
Proof. unfold path_bytes, MAX_PATH_LEN. rewrite length_app, length_take, length_replicate. lia. Qed.

Lemma path_bytes_cut p : path_bytes p = cut p ++ replicate (256 - length (cut p)) 0.
Proof.
  unfold path_bytes, cut, MAX_PATH_LEN. rewrite length_take.
  change (256 - 1)%nat with 255%nat. rewrite (Nat.min_comm 255). f_equal.
  destruct (Nat.le_gt_cases (length p) 255) as [Hl|Hl].
  - rewrite Nat.min_l by done. by rewrite !take_ge by lia.
  - by rewrite Nat.min_r by lia.
Qed.

Lemma nul_terminated_inj (p q : bytes) t u : 0 ∉ p -> 0 ∉ q -> p ++ 0 :: t = q ++ 0 :: u -> p = q /\ t = u.
Proof.
  revert q. induction p as [|x p IH]; intros [|y q] Hp Hq E; simpl in E; injection E.
  - done.
  - intros _ <-. by destruct Hq; left.
  - intros _ ->. by destruct Hp; left.
  - intros E' ->. apply not_elem_of_cons in Hp as [_ Hp]. apply not_elem_of_cons in Hq as [_ Hq].
    by destruct (IH q Hp Hq E') as [-> ->].
Qed.

Lemma cut_length p : (length (cut p) <= 255)%nat.
Proof. unfold cut. rewrite length_take. lia. Qed.

(** A rule names the file of a NUL-terminated buffer exactly when its path,
    cut, is the one in the buffer and the rest of the buffer is zero. *)
Lemma path_bytes_buffer rp p tail : 0 ∉ rp -> 0 ∉ p -> length (p ++ 0 :: tail) = 256%nat ->
  (path_bytes rp = p ++ 0 :: tail <-> cut rp = p /\ tail = replicate (length tail) 0).
Proof.
  intros Hr Hp Hl. rewrite path_bytes_cut. pose proof (cut_length rp) as Hc.
  assert (0 ∉ cut rp) as Hcr by (intros Hin; apply Hr; by eapply elem_of_take in Hin as (i & Hi%list_elem_of_lookup_2 & _)).
  destruct (256 - length (cut rp))%nat as [|n] eqn:En; [lia|]. cbn [replicate]. split.
  - intros [-> <-]%nul_terminated_inj; [|done..]. by rewrite length_replicate.
  - intros [<- Ht]. rewrite length_app in Hl. cbn [length] in Hl.
    replace n with (length tail) by lia. by rewrite <- Ht.
Qed.

Lemma assoc_last_map {K K' V W} `{EqDecision K, EqDecision K'} (f : K -> K') (h : K -> K) (g : V -> W) k p (l : list (K * V)) :
  Forall (fun r => f r.1 = k <-> h r.1 = p) l ->
  assoc_last k (map (fun r => (f r.1, g r.2)) l) = g <$> assoc_last p (map (fun r => (h r.1, r.2)) l).
Proof.
  induction l as [|[a v] l IH] using rev_ind; intros Hl; [done|]. rewrite !map_app. cbn [map fst snd].
  apply Forall_app in Hl as [Hl Ha]. apply Forall_cons in Ha as [Ha _]. cbn [fst] in Ha. rewrite !assoc_last_snoc, IH by done.
  destruct (decide (f a = k)) as [E|E].
  - by rewrite decide_True by by apply Ha.
  - by rewrite decide_False by by rewrite <- Ha.
Qed.

Lemma lsm_start_spec k btf : start k btf = Aya.Started <->
  btf = true /\ Aya.object_loads k = true /\ (Aya.has_map k Aya.log_map = true /\ Aya.logger_starts k = true) /\
  Aya.attached k [] (lit "file_open") /\ Aya.usable k (lit "RULES").
Proof.
  unfold start. rewrite !Aya.started_app by honest.
  rewrite Aya.object_started, Aya.logger_started, Aya.program_started, Aya.map_started. cbn. destruct btf; naive_solver.
Qed.

(** ** Property *)
Section property.
Context {M : Type} {B : BpfHash FileRuleKey FileRuleValue M}.
Context {Path : Type} (bpf_d_path : Path -> nat -> Z * bytes).

Lemma run_lookup opened rx k :
  (length (remove_dups (map (fun r => path_bytes r.1) (all_rules opened rx))) <= 1024)%nat ->
  bpf_get (run opened rx : M) k =
  assoc_last k (map entry_of (all_rules opened rx)).
Proof.
  intros Hsz. rewrite run_fill, all_entries. destruct (bpf_size_empty (BpfHash := B) 1024) as [_ Hcap].
  set (rs := all_rules opened rx) in *.
  rewrite (bpf_fill_spec _ [] (map mkFileRuleKey (remove_dups (map (fun r => path_bytes r.1) rs)))), bpf_get_empty.
  - by destruct (assoc_last k _).
  - apply bpf_keys_empty.
  - apply list_subseteq_nil.
  - intros x (r & -> & Hin)%list_elem_of_fmap. apply list_elem_of_In, in_map_iff in Hin as (q & <- & Hq).
    apply list_elem_of_In. apply (in_map mkFileRuleKey _ (path_bytes q.1)).
    apply list_elem_of_In, elem_of_remove_dups, list_elem_of_In, in_map_iff. by exists q.
  - by rewrite length_map, Hcap.
Qed.

Lemma run_enforcement opened rx (f : file Path) (len : Z) (p tail : bytes) :
  (length (remove_dups (map (fun r => path_bytes r.1) (all_rules opened rx))) <= 1024)%nat ->
  Forall (fun r => 0 ∉ r.1) (all_rules opened rx) ->
  bpf_d_path (f_path f) MAX_PATH_LEN = (len, p ++ 0 :: tail) -> 0 < len -> 0 ∉ p ->
  length (p ++ 0 :: tail) = MAX_PATH_LEN ->
  file_open bpf_d_path (run opened rx : M) (Some f) =
    (if decide (tail = replicate (length tail) 0) then
       match assoc_last p (map (fun r => (cut r.1, r.2)) (all_rules opened rx)) with
       | Some perm => if permitted perm (f_flags f) then 0 else -13
       | None => 0
       end
     else 0).
Proof.
  intros Hsz Hr Hd Hlen Hp Hbuf. unfold file_open. rewrite Hd, (proj2 (Z.leb_gt len 0)) by done.
  rewrite run_lookup by done. set (rs := all_rules opened rx) in *.
  destruct (decide (tail = replicate (length tail) 0)) as [Ht|Ht].
  - unfold entry_of. rewrite (assoc_last_map path_key cut perm_value _ p).
    + destruct (assoc_last p _) as [[[[o r] w] x]|]; [|done]. cbn [fmap option_fmap option_map perm_value allowed_mask].
      rewrite mask_permitted. by destruct (permitted _ _).
    + eapply Forall_impl; [exact Hr|]. intros r Hr'. cbn beta in *. transitivity (path_bytes r.1 = p ++ 0 :: tail).
      * unfold path_key. split; [by intros [=]|by intros ->].
      * rewrite path_bytes_buffer by done. tauto.
  - rewrite (assoc_last_none _ _); [done|]. intros r Hin%list_elem_of_In%in_map_iff. destruct Hin as (q & <- & Hq).
    cbn [fst]. intros [= E]. apply list_elem_of_In in Hq. eapply Forall_forall in Hr; [|exact Hq].
    apply path_bytes_buffer in E; naive_solver.
Qed.

(** C2. What the program enforces.  Take any first file and any events, with at
    most 1024 different rule keys over the whole run and no NUL byte in a rule
    path, and an open for which the helper delivers the path [p], NUL
    terminated, in a buffer whose other bytes are [tail].  The open is refused
    with -EACCES exactly when the program has started and watches its directory,
    [tail] is all zero, some rule read so far has a path that starts with [p]
    at length 255 or equals it, and the last such rule does not permit what the
    flags ask for; the rules of a file count up to its first unreadable line, and
    a rule that is no longer in the file still counts.  The program starts
    exactly when the type information, the object with its log map, and the
    kernel let it: without a log map it never refuses anything. *)
Theorem lsm_enforcement (k : Aya.answers) (btf watcher watches : bool) opened rx (f : file Path) (len : Z) (p tail : bytes) :
  (length (remove_dups (map (fun r => path_bytes r.1) (all_rules opened rx))) <= 1024)%nat ->
  Forall (fun r => 0 ∉ r.1) (all_rules opened rx) ->
  bpf_d_path (f_path f) MAX_PATH_LEN = (len, p ++ 0 :: tail) -> 0 < len -> 0 ∉ p ->
  length (p ++ 0 :: tail) = MAX_PATH_LEN ->
  hook bpf_d_path (main k btf watcher watches opened rx : option M) f =
    (if decide (start k btf = Aya.Started /\ watcher = true /\ watches = true /\ tail = replicate (length tail) 0) then
       match assoc_last p (map (fun r => (cut r.1, r.2)) (all_rules opened rx)) with
       | Some perm => if permitted perm (f_flags f) then 0 else -13
       | None => 0
       end
     else 0) /\
  (start k btf = Aya.Started <->
     btf = true /\ Aya.object_loads k = true /\ (Aya.has_map k Aya.log_map = true /\ Aya.logger_starts k = true) /\
     Aya.attached k [] (lit "file_open") /\ Aya.usable k (lit "RULES")) /\
  (Aya.has_map k Aya.log_map = false -> hook bpf_d_path (main k btf watcher watches opened rx : option M) f = 0).
Proof.
  intros Hsz Hr Hd Hlen Hp Hbuf. split; [|split; [apply lsm_start_spec|]].
  - unfold main. destruct (start k btf); cbn [hook]; [|rewrite decide_False; [done|by intros [? _]]..].
    destruct watcher, watches; cbn [andb hook]; try (rewrite decide_False; [done|naive_solver]).
    rewrite (run_enforcement opened rx f len p tail Hsz Hr Hd Hlen Hp Hbuf).
    apply decide_ext. naive_solver.
  - intros Hlog. unfold main. destruct (start k btf) eqn:E; [|done..].
    apply lsm_start_spec in E as (_ & _ & [Hm _] & _). by rewrite Hlog in Hm.
Qed.

End property.

(** A helper that leaves [rest] behind the path. *)
Definition d_path_leaving (rest : nat -> bytes) (p : bytes) (size : nat) : Z * bytes :=
  (len p + 1, p ++ 0 :: take (size - length p - 1) (rest size)).
Definition demo_reader : list (result bytes unit) := reader_lines (lit "# path open read write exec
/etc/shadow 1 1 0 0
/etc/passwd 1 1 1
").

Lemma lsm_enforcement_witness :
  let R := (main (M := nat * gmap FileRuleKey FileRuleValue) Aya.willing true true true (Some demo_reader)
    [(Ok Modify, None); (Ok Create, Some [])]) in
  hook (d_path_leaving (fun n => replicate n 0)) R (mkFile (lit "/etc/shadow") 1) = -13 /\
  hook (d_path_leaving (fun n => replicate n 7)) R (mkFile (lit "/etc/shadow") 1) = 0.
Proof.
  assert (Forall (fun r => 0 ∉ r.1) (all_rules (Some demo_reader) [(Ok Modify, None); (Ok Create, Some [])])) as Hr.
  { replace (all_rules _ _) with [(lit "/etc/shadow", (true, true, false, false))] by (vm_compute; reflexivity).
    apply Forall_singleton. cbn [fst]. apply (bool_decide_unpack _). vm_compute. exact I. }
  assert (length (remove_dups (map (fun r => path_bytes r.1) (all_rules (Some demo_reader) [(Ok Modify, None); (Ok Create, Some [])]))) <= 1024)%nat
    as Hs by (apply Nat.leb_le; vm_compute; reflexivity).
  assert (0 ∉ lit "/etc/shadow") as Hp by (apply (bool_decide_unpack _); vm_compute; exact I).
  intros R. split.
  - destruct (lsm_enforcement (M := nat * gmap FileRuleKey FileRuleValue) (d_path_leaving (fun n => replicate n 0)) Aya.willing
      true true true _ _ (mkFile (lit "/etc/shadow") 1) 12 (lit "/etc/shadow") (replicate 244 0) Hs Hr) as [He _];
      [vm_compute; reflexivity|reflexivity|exact Hp|reflexivity|]. etransitivity; [exact He|]. vm_compute. reflexivity.
  - destruct (lsm_enforcement (M := nat * gmap FileRuleKey FileRuleValue) (d_path_leaving (fun n => replicate n 7)) Aya.willing
      true true true _ _ (mkFile (lit "/etc/shadow") 1) 12 (lit "/etc/shadow") (replicate 244 7) Hs Hr) as [He _];
      [vm_compute; reflexivity|reflexivity|exact Hp|reflexivity|]. etransitivity; [exact He|]. vm_compute. reflexivity.
Defined.
