(* ===== verification/DlpAnalyzer.v ===== *)
(** The DLP analysis engine of [src/dlp/dlp_analyzer/src/main.rs]: signature
    and dictionary rules, the score of a document, the Luhn check and the
    parallel analysis. *)
From S2P Require Import Prelude Bytes.

Inductive LeakType := Passport | CreditCard | ConfidentialKeyword | SourceCode.
Inductive Severity := Low | Medium | High | Critical.

#[export] Instance LeakType_eq_dec : EqDecision LeakType.
Proof. solve_decision. Defined.
#[export] Instance Severity_eq_dec : EqDecision Severity.
Proof. solve_decision. Defined.

Record Detection := mkDetection { leak_type : LeakType; matched_text : bytes; score_impact : Z }.
Record AnalysisResult := mkResult {
  is_violation : bool; total_score : Z; severity : Severity; detections : list Detection }.

(** ** The Luhn check *)

(** The ASCII digits of the text, as numbers. *)
Definition digits_of (card_number : bytes) : list Z :=
  omap (fun c => if is_digit c then Some (c - 48) else None) (chars card_number).

(** [rev().enumerate().map(..).sum()]: the sum is at most 9 * 19, far from
    the bounds of [u32]. *)
Definition luhn_digit (idx : nat) (digit : Z) : Z :=
  if Nat.odd idx then let d := digit * 2 in if 9 <? d then d - 9 else d else digit.
Definition luhn_sum (digits : list Z) : Z := foldr Z.add 0 (imap luhn_digit (rev digits)).

Definition validate_luhn (card_number : bytes) : bool :=
  let digits := digits_of card_number in
  if ((length digits <? 13) || (19 <? length digits))%nat then false
  else luhn_sum digits mod 10 =? 0.

(** ** The engine

    A computation may also not end: [None] is the lack of fuel. *)
Definition run (A : Type) : Type := option (outcome A).
#[export] Instance run_ret : MRet run := fun _ a => Some (Val a).
#[export] Instance run_bind : MBind run := fun _ _ f m =>
  match m with Some (Val a) => f a | Some Panic => Some Panic | None => None end.

Section engine.
(** [Regex] and [find_iter] of the regex crate, as the texts of the matches;
    [str::to_lowercase]. *)
Context {Regex : Type} (find_iter : Regex -> bytes -> list bytes) (to_lowercase : bytes -> bytes).

Inductive Rule :=
| Signature (regex : Regex) (lt : LeakType) (score : Z)
| Dictionary (dict : list (bytes * Z)) (lt : LeakType).

(** A dictionary is listed in the order its [HashMap] is visited. *)
Record DlpEngine := mkEngine { rules : list Rule; threshold : Z }.

Definition new (threshold : Z) : DlpEngine := mkEngine [] threshold.
Definition add_rule (e : DlpEngine) (r : Rule) : DlpEngine := mkEngine (rules e ++ [r]) (threshold e).

(** Overflow checks of the build. *)
Variable chk : bool.

(** [detections] and [total_score] while the rules are applied. *)
Definition acc : Type := list Detection * Z.

(** [detections.push(..); total_score += score]. *)
Definition push (a : acc) (lt : LeakType) (text : bytes) (score : Z) : run acc :=
  match add_u32 chk (snd a) score with
  | Val total => Some (Val (fst a ++ [mkDetection lt text score], total))
  | Panic => Some Panic
  end.

Fixpoint signature_matches (mats : list bytes) (lt : LeakType) (score : Z) (a : acc) : run acc :=
  match mats with
  | [] => mret a
  | matched_str :: mats =>
      if bool_decide (lt = CreditCard) && negb (validate_luhn matched_str)
      then signature_matches mats lt score a
      else a ← push a lt matched_str score; signature_matches mats lt score a
  end.

(** The [while let] over one word. *)
Fixpoint scan_word (fuel : nat) (text lower_text word : bytes) (lt : LeakType) (score : Z) (pos : nat) (a : acc)
  : run acc :=
  match fuel with
  | O => None
  | S fuel =>
      rest ← (Some (slice lower_text pos (length lower_text)) : run bytes);
      match find rest (to_lowercase word) with
      | None => mret a
      | Some index =>
          exact_match ← (Some (slice text (pos + index) (pos + index + length word)) : run bytes);
          a ← push a lt exact_match score;
          scan_word fuel text lower_text word lt score (pos + (index + length word)) a
      end
  end.

Fixpoint scan_words (fuel : nat) (text lower_text : bytes) (dict : list (bytes * Z)) (lt : LeakType) (a : acc) : run acc :=
  match dict with
  | [] => mret a
  | (word, score) :: dict =>
      a ← scan_word fuel text lower_text word lt score 0 a;
      scan_words fuel text lower_text dict lt a
  end.

Definition apply_rule (fuel : nat) (text : bytes) (r : Rule) (a : acc) : run acc :=
  match r with
  | Signature regex lt score => signature_matches (find_iter regex text) lt score a
  | Dictionary dict lt => scan_words fuel text (to_lowercase text) dict lt a
  end.

Fixpoint apply_rules (fuel : nat) (text : bytes) (rs : list Rule) (a : acc) : run acc :=
  match rs with
  | [] => mret a
  | r :: rs => a ← apply_rule fuel text r a; apply_rules fuel text rs a
  end.

Definition severity_of (total_score : Z) : Severity :=
  if total_score =? 0 then Low
  else if total_score <=? 10 then Medium
  else if total_score <=? 30 then High
  else Critical.

Definition analyze (fuel : nat) (e : DlpEngine) (text : bytes) : run AnalysisResult :=
  a ← apply_rules fuel text (rules e) ([], 0);
  mret (mkResult (threshold e <=? snd a) (snd a) (severity_of (snd a)) (fst a)).

(** One thread per document; [join().unwrap()] in the order of the
    documents panics on the first thread that did. *)
Fixpoint analyze_parallel (fuel : nat) (e : DlpEngine) (documents : list bytes) : run (list AnalysisResult) :=
  match documents with
  | [] => mret []
  | doc :: documents => r ← analyze fuel e doc; rs ← analyze_parallel fuel e documents; mret (r :: rs)
  end.

End engine.
Arguments Signature {Regex}.
Arguments Dictionary {Regex}.
Arguments Rule : clear implicits.
Arguments DlpEngine : clear implicits.
Arguments mkEngine {Regex}.
Arguments rules {Regex}.
Arguments threshold {Regex}.

(** ** The Luhn check detects errors *)
Definition is_dec (d : Z) : Prop := 0 <= d <= 9.

Lemma dec_check (P : Z -> bool) : forallb P (map Z.of_nat (seq 0 10)) = true -> forall d, is_dec d -> P d = true.
Proof.
  intros H d Hd. rewrite forallb_forall in H. apply H, in_map_iff. unfold is_dec in Hd.
  exists (Z.to_nat d). split; [lia|]. apply in_seq. lia.
Qed.

(** The value of a digit depends on the parity of its place only, and both
    ways permute the digits. *)
Lemma luhn_digit_inj i d d' : is_dec d -> is_dec d' -> (luhn_digit i d - luhn_digit i d') mod 10 = 0 -> d = d'.
Proof.
  intros Hd Hd'. unfold luhn_digit.
  pose proof (dec_check (fun d => forallb (fun d' => forallb (fun o : bool =>
    let v x := if o then let y := x * 2 in if 9 <? y then y - 9 else y else x in
    implb ((v d - v d') mod 10 =? 0) (d =? d')) [true; false]) (map Z.of_nat (seq 0 10)))
    ltac:(vm_compute; reflexivity) d Hd) as H.
  cbv beta in H. apply (dec_check (fun d' => _)) with (d := d') in H; [|done].
  rewrite forallb_forall in H. specialize (H (Nat.odd i) ltac:(destruct (Nat.odd i); simpl; auto)).
  cbv zeta in H |- *. intros E. rewrite (proj2 (Z.eqb_eq _ _) E) in H. by apply Z.eqb_eq in H.
Qed.

Lemma luhn_digit_swap i a b : is_dec a -> is_dec b -> a <> b -> Z.abs (a - b) <> 9 ->
  (luhn_digit i b + luhn_digit (S i) a - (luhn_digit i a + luhn_digit (S i) b)) mod 10 <> 0.
Proof.
  intros Ha Hb Hne H9. unfold luhn_digit. rewrite Nat.odd_succ, <- Nat.negb_odd.
  pose proof (dec_check (fun a => forallb (fun b => forallb (fun o : bool =>
    let v (o : bool) x := if o then let y := x * 2 in if 9 <? y then y - 9 else y else x in
    implb ((v o b + v (negb o) a - (v o a + v (negb o) b)) mod 10 =? 0) ((a =? b) || (Z.abs (a - b) =? 9)))
    [true; false]) (map Z.of_nat (seq 0 10)))
    ltac:(vm_compute; reflexivity) a Ha) as H.
  cbv beta in H. apply (dec_check (fun b => _)) with (d := b) in H; [|done].
  rewrite forallb_forall in H. specialize (H (Nat.odd i) ltac:(destruct (Nat.odd i); simpl; auto)).
  cbv zeta in H |- *. intros E. rewrite (proj2 (Z.eqb_eq _ _) E) in H. cbn [implb] in H.
  rewrite (proj2 (Z.eqb_neq _ _) Hne), (proj2 (Z.eqb_neq _ _) H9) in H. done.
Qed.

Lemma foldr_add_app (l k : list Z) : foldr Z.add 0 (l ++ k) = foldr Z.add 0 l + foldr Z.add 0 k.
Proof. induction l; simpl; lia. Qed.

(** The sum, split around a place. *)
Lemma luhn_sum_app pre mid post : luhn_sum (pre ++ mid ++ post) =
  foldr Z.add 0 (imap luhn_digit (rev post)) +
  foldr Z.add 0 (imap (fun n => luhn_digit (length post + n)) (rev mid)) +
  foldr Z.add 0 (imap (fun n => luhn_digit (length post + length mid + n)) (rev pre)).
Proof.
  unfold luhn_sum. rewrite !rev_app_distr, imap_app, imap_app, !length_app, !length_rev, !foldr_add_app.
  done.
Qed.

Lemma luhn_substitution pre d d' post : is_dec d -> is_dec d' -> d <> d' ->
  luhn_sum (pre ++ [d] ++ post) mod 10 = 0 -> luhn_sum (pre ++ [d'] ++ post) mod 10 <> 0.
Proof.
  intros Hd Hd' Hne H H'. rewrite luhn_sum_app in H, H'. cbn in H, H'.
  apply Hne, (luhn_digit_inj (length post + 0)); [done..|].
  set (A := foldr _ _ _) in *. set (C := foldr Z.add 0 (imap _ (rev pre))) in *.
  set (x := luhn_digit _ d) in *. set (y := luhn_digit _ d') in *. clearbody A C x y. Z.div_mod_to_equations. lia.
Qed.

Lemma luhn_transposition pre a b post : is_dec a -> is_dec b -> a <> b -> Z.abs (a - b) <> 9 ->
  luhn_sum (pre ++ [a; b] ++ post) mod 10 = 0 -> luhn_sum (pre ++ [b; a] ++ post) mod 10 <> 0.
Proof.
  intros Ha Hb Hne H9 H H'. rewrite luhn_sum_app in H, H'. cbn in H, H'.
  apply (luhn_digit_swap (length post) a b); [done..|]. rewrite Nat.add_0_r, Nat.add_1_r in H, H'.
  set (A := foldr _ _ _) in *. set (C := foldr Z.add 0 (imap _ (rev pre))) in *.
  clearbody A C. revert H H'. generalize (luhn_digit (length post) a) (luhn_digit (length post) b)
    (luhn_digit (S (length post)) a) (luhn_digit (S (length post)) b). intros. Z.div_mod_to_equations. lia.
Qed.

Lemma digits_of_ascii s : is_ascii s -> digits_of s = omap (fun c => if is_digit c then Some (c - 48) else None) s.
Proof. intros H. unfold digits_of. by rewrite chars_ascii. Qed.

Lemma digits_of_app s t : is_ascii s -> is_ascii t -> digits_of (s ++ t) = digits_of s ++ digits_of t.
Proof.
  intros Hs Ht. rewrite !digits_of_ascii by (try done; by apply is_ascii_app).
  induction s as [|c s IH]; [done|]. apply Forall_cons in Hs as [_ Hs]. cbn.
  destruct (is_digit c); cbn; by rewrite IH.
Qed.

Lemma digit_char d : is_dec d -> is_ascii [48 + d] /\ digits_of [48 + d] = [d].
Proof.
  unfold is_dec. intros Hd. assert (is_ascii [48 + d]) as Ha by (repeat constructor; lia). split; [done|].
  rewrite digits_of_ascii by done. cbn. unfold is_digit, byte_in.
  rewrite (proj2 (Z.leb_le 48 (48 + d))), (proj2 (Z.leb_le (48 + d) 57)) by lia. cbn [andb]. f_equal. lia.
Qed.

(** C19. What the Luhn check protects against: changing one digit of a number
    that passes makes it fail, whatever separators surround the digits, and so
    does exchanging two different neighbouring digits, except 0 and 9. *)
Theorem luhn_detects_errors (pre post : bytes) (a b : Z) : is_ascii pre -> is_ascii post -> is_dec a -> is_dec b -> a <> b ->
  (validate_luhn (pre ++ [48 + a] ++ post) = true -> validate_luhn (pre ++ [48 + b] ++ post) = false) /\
  (validate_luhn (pre ++ [48 + a; 48 + b] ++ post) = true -> Z.abs (a - b) <> 9 ->
   validate_luhn (pre ++ [48 + b; 48 + a] ++ post) = false).
Proof.
  intros Hpre Hpost Ha Hb Hne. destruct (digit_char a Ha) as [Haa Hda], (digit_char b Hb) as [Hab Hdb].
  assert (forall x y, is_ascii x -> is_ascii y -> is_ascii (x ++ y)) as Happ by (intros; by apply is_ascii_app).
  assert (is_ascii [48 + a; 48 + b] /\ digits_of [48 + a; 48 + b] = [a; b]) as [Haab Hdab].
  { change [48 + a; 48 + b] with ([48 + a] ++ [48 + b]). split; [auto|]. by rewrite digits_of_app, Hda, Hdb. }
  assert (is_ascii [48 + b; 48 + a] /\ digits_of [48 + b; 48 + a] = [b; a]) as [Haba Hdba].
  { change [48 + b; 48 + a] with ([48 + b] ++ [48 + a]). split; [auto|]. by rewrite digits_of_app, Hda, Hdb. }
  unfold validate_luhn. rewrite !digits_of_app, Hda, Hdb, Hdab, Hdba by auto.
  rewrite !length_app. cbn [length]. split.
  - destruct ((_ <? 13) || _)%nat; [done|]. intros E%Z.eqb_eq. apply Z.eqb_neq. by apply (luhn_substitution _ a).
  - destruct ((_ <? 13) || _)%nat; [done|]. intros E%Z.eqb_eq H9. apply Z.eqb_neq. by apply (luhn_transposition _ a b).
Qed.

(** The number the demonstration calls valid does not pass; its last digit
    would have to be 7. *)
Lemma luhn_detects_errors_witness :
  validate_luhn (lit "4000 1234 5678 9017") = true /\ validate_luhn (lit "4000 1234 5678 9010") = false.
Proof.
  assert (validate_luhn (lit "4000 1234 5678 9017") = true) as Hv by (vm_compute; reflexivity).
  split; [exact Hv|].
  destruct (luhn_detects_errors (lit "4000 1234 5678 901") [] 7 0) as [Hs _]; [unfold is_ascii, is_dec; by_evaluation..|].
  exact (Hs Hv).
Defined.

(** ** What an analysis finds *)

(** The word is at place [i], whatever the case of its letters. *)
Definition occurs_at (text word : bytes) (i : nat) : Prop :=
  exists a m b, text = a ++ m ++ b /\ length a = i /\ ascii_lower m = ascii_lower word.

(** The places of the word from [pos] on: each the first one that does not
    overlap the one before, and none left after the last. *)
Inductive occurrences (text word : bytes) : nat -> list nat -> Prop :=
| occ_none pos : (forall i, (pos <= i)%nat -> ~ occurs_at text word i) -> occurrences text word pos []
| occ_some pos i ps :
    (pos <= i)%nat -> occurs_at text word i -> (forall j, (pos <= j < i)%nat -> ~ occurs_at text word j) ->
    occurrences text word (i + length word) ps -> occurrences text word pos (i :: ps).

Lemma occurrences_fun text word pos ps qs : occurrences text word pos ps -> occurrences text word pos qs -> ps = qs.
Proof.
  intros H. revert qs. induction H as [pos Hn|pos i ps Hi Ho Hf _ IH]; intros qs H';
    inversion H' as [pos' Hn'|pos' i' ps' Hi' Ho' Hf' Hr']; subst.
  - done.
  - by destruct (Hn i').
  - by destruct (Hn' i).
  - assert (i = i') as ->; [|f_equal; by apply IH].
    destruct (Nat.lt_trichotomy i i') as [Hlt|[?|Hlt]]; [by destruct (Hf' i)|done|by destruct (Hf i')].
Qed.

Section analysis.
Context {Regex : Type} (find_iter : Regex -> bytes -> list bytes) (to_lowercase : bytes -> bytes).
(** [str::to_lowercase] on ASCII text. *)
Hypothesis to_lowercase_ascii : forall s, is_ascii s -> to_lowercase s = ascii_lower s.
Variable chk : bool.

Definition signature_detections (regex : Regex) (lt : LeakType) (score : Z) (text : bytes) : list Detection :=
  map (fun m => mkDetection lt m score)
    (filter (fun m => lt = CreditCard -> validate_luhn m = true) (find_iter regex text)).

Definition word_detections (text word : bytes) (lt : LeakType) (score : Z) (ps : list nat) : list Detection :=
  map (fun i => mkDetection lt (take (length word) (drop i text)) score) ps.

Definition rule_detections (text : bytes) (r : Rule Regex) (ds : list Detection) : Prop :=
  match r with
  | Signature regex lt score => ds = signature_detections regex lt score text
  | Dictionary dict lt => exists dss, ds = concat dss /\
      Forall2 (fun ws ds => exists ps, occurrences text ws.1 0 ps /\ ds = word_detections text ws.1 lt ws.2 ps) dict dss
  end.

(** Words of dictionaries that are not empty and ASCII; scores are [u32]. *)
Definition rule_ok (r : Rule Regex) : Prop :=
  match r with
  | Signature _ _ score => 0 <= score <= u32_max
  | Dictionary dict _ => Forall (fun ws => is_ascii ws.1 /\ ws.1 <> [] /\ 0 <= ws.2 <= u32_max) dict
  end.

Fixpoint push_all (ds : list Detection) (a : acc) : run acc :=
  match ds with
  | [] => mret a
  | d :: ds => a ← push chk a (leak_type d) (matched_text d) (score_impact d); push_all ds a
  end.

Lemma push_all_app ds es a : push_all (ds ++ es) a = (a ← push_all ds a; push_all es a).
Proof.
  revert a. induction ds as [|d ds IH]; intros a; [done|]. cbn [app push_all].
  destruct (push _ _ _ _ _) as [[b|]|]; cbn; [apply IH|done..].
Qed.

Lemma signature_matches_spec mats lt score a : signature_matches chk mats lt score a =
  push_all (map (fun m => mkDetection lt m score) (filter (fun m => lt = CreditCard -> validate_luhn m = true) mats)) a.
Proof.
  revert a. induction mats as [|m mats IH]; intros a; [done|]. cbn [signature_matches]. rewrite filter_cons.
  destruct (bool_decide (lt = CreditCard) && negb (validate_luhn m)) eqn:E.
  - b2p. rewrite decide_False by (intros Hx; rewrite Hx in *; done). apply IH.
  - rewrite decide_True.
    + cbn [map push_all leak_type matched_text score_impact].
      destruct (push _ _ _ _ _) as [[b|]|]; cbn; [apply IH|done..].
    + intros ->. rewrite bool_decide_true in E by done. by apply negb_false_iff in E.
Qed.

(** The total after some detections. *)
Definition impact (ds : list Detection) : Z := foldr (fun d s => score_impact d + s) 0 ds.

Lemma push_all_spec ds a : Forall (fun d => 0 <= score_impact d <= u32_max) ds -> 0 <= snd a <= u32_max ->
  push_all ds a =
  if chk && (u32_max <? snd a + impact ds) then Some Panic
  else Some (Val (fst a ++ ds, (snd a + impact ds) mod (u32_max + 1))).
Proof.
  intros Hds. revert a. induction Hds as [|d ds Hd Hds IH]; intros a Ha; cbn [push_all impact foldr].
  - rewrite Z.add_0_r, (proj2 (Z.ltb_ge _ _)), andb_false_r, app_nil_r by lia.
    rewrite Z.mod_small by lia. by destruct a.
  - assert (0 <= impact ds) as Hi by (clear - Hds; unfold impact; induction Hds; cbn in *; lia).
    unfold push, add_u32, checked_arith. fold (impact ds). cbn beta in Hd.
    rewrite (proj2 (Z.leb_le 0 (snd a + score_impact d))) by lia. cbn [andb].
    destruct (Z.leb_spec (snd a + score_impact d) u32_max) as [Hle|Hgt].
    + cbn. rewrite IH by (cbn; lia). cbn [fst snd]. rewrite <- app_assoc, <- Z.add_assoc. by destruct d.
    + destruct chk.
      * cbn. rewrite (proj2 (Z.ltb_lt _ _)) by lia. done.
      * cbn. rewrite IH by (cbn; apply (checked_arith_bound false u32_max (snd a + score_impact d)); [done|];
          unfold checked_arith; rewrite (proj2 (Z.leb_gt _ u32_max)) by lia; by rewrite andb_false_r).
        cbn. rewrite <- app_assoc, Zplus_mod_idemp_l, <- Z.add_assoc. by destruct d.
Qed.

Lemma occurs_at_spec text word i : (i <= length text)%nat ->
  occurs_at text word i <-> starts_with (drop i (ascii_lower text)) (ascii_lower word) = true.
Proof.
  intros Hi. unfold ascii_lower. rewrite <- fmap_drop. split.
  - intros (a & m & b & -> & <- & Hm). rewrite drop_app_length. apply starts_with_spec. exists (map lower1 b).
    unfold ascii_lower in Hm. rewrite <- Hm. apply map_app.
  - rewrite starts_with_prefix, length_map. intros Ht. exists (take i text), (take (length word) (drop i text)), (drop (length word) (drop i text)).
    rewrite !take_drop, length_take. split; [done|]. split; [lia|]. unfold ascii_lower. rewrite <- Ht. apply fmap_take.
Qed.

Lemma occurs_at_bound text word i : occurs_at text word i -> (i + length word <= length text)%nat.
Proof.
  intros (a & m & b & -> & <- & Hm). apply (f_equal length) in Hm. unfold ascii_lower in Hm. rewrite !length_map in Hm.
  rewrite !length_app. lia.
Qed.

(** One word: enough fuel is the length of the text. *)
Lemma scan_word_spec text word lt score : is_ascii text -> is_ascii word -> word <> [] ->
  forall fuel pos a, (pos <= length text)%nat -> (length text - pos < fuel)%nat ->
  exists ps, occurrences text word pos ps /\
    scan_word to_lowercase chk fuel text (to_lowercase text) word lt score pos a =
    push_all (word_detections text word lt score ps) a.
Proof.
  intros Ht Hw Hne. rewrite to_lowercase_ascii by done.
  assert (length (ascii_lower text) = length text) as Hl by apply length_map.
  assert (0 < length word)%nat as Hwl by (destruct word; [done|cbn; lia]).
  induction fuel as [|fuel IH]; intros pos a Hpos Hf; [lia|]. cbn [scan_word].
  rewrite slice_ascii by (rewrite ?Hl; try lia; by apply ascii_lower_ascii). cbn [mbind run_bind].
  rewrite take_ge, to_lowercase_ascii by (rewrite ?length_drop; done || lia).
  pose proof (find_spec (drop pos (ascii_lower text)) (ascii_lower word)) as Hfind.
  rewrite length_drop, Hl in Hfind.
  destruct (find _ _) as [index|].
  - destruct Hfind as (Hs & Hi & Hmin). rewrite drop_drop in Hs.
    assert (occurs_at text word (pos + index)) as Ho by (apply occurs_at_spec; [lia|done]).
    pose proof (occurs_at_bound _ _ _ Ho) as Hb.
    rewrite slice_ascii by (done || lia). cbn [mbind run_bind].
    replace (pos + index + length word - (pos + index))%nat with (length word) by lia.
    assert (forall j, (pos <= j < pos + index)%nat -> ~ occurs_at text word j) as Hfirst.
    { intros j Hj Hoj. apply occurs_at_spec in Hoj; [|lia]. specialize (Hmin (j - pos)%nat ltac:(lia)).
      rewrite drop_drop in Hmin. replace (pos + (j - pos))%nat with j in Hmin by lia. congruence. }
    destruct (push chk a lt (take (length word) (drop (pos + index) text)) score) as [[b|]|] eqn:Ep.
    + destruct (IH (pos + (index + length word))%nat b) as (ps & Hps & Hrun); [lia..|].
      exists ((pos + index)%nat :: ps). split; [apply occ_some; [lia|done|done|by rewrite <- Nat.add_assoc]|].
      cbn [word_detections map push_all leak_type matched_text score_impact]. rewrite Ep. cbn [mbind run_bind]. exact Hrun.
    + destruct (IH (pos + (index + length word))%nat a) as (ps & Hps & _); [lia..|].
      exists ((pos + index)%nat :: ps). split; [apply occ_some; [lia|done|done|by rewrite <- Nat.add_assoc]|].
      cbn [word_detections map push_all leak_type matched_text score_impact]. by rewrite Ep.
    + unfold push in Ep. by destruct (add_u32 _ _ _).
  - exists []. split; [|done]. apply occ_none. intros i Hi Ho. pose proof (occurs_at_bound _ _ _ Ho).
    apply occurs_at_spec in Ho; [|lia]. specialize (Hfind (i - pos)%nat ltac:(lia)).
    rewrite drop_drop in Hfind. replace (pos + (i - pos))%nat with i in Hfind by lia. congruence.
Qed.

Lemma scan_words_spec text dict lt a : is_ascii text ->
  Forall (fun ws => is_ascii ws.1 /\ ws.1 <> [] /\ 0 <= ws.2 <= u32_max) dict ->
  exists dss, Forall2 (fun ws ds => exists ps, occurrences text ws.1 0 ps /\ ds = word_detections text ws.1 lt ws.2 ps) dict dss /\
    scan_words to_lowercase chk (S (length text)) text (to_lowercase text) dict lt a = push_all (concat dss) a.
Proof.
  intros Ht Hd. revert a. induction Hd as [|[word score] dict (Hw & Hne & _) _ IH]; intros a; [exists []; done|].
  cbn [scan_words fst] in *.
  destruct (scan_word_spec text word lt score Ht Hw Hne (S (length text)) 0 a) as (ps & Hps & ->); [lia..|].
  destruct (push_all (word_detections text word lt score ps) a) as [[b|]|] eqn:Ep.
  - destruct (IH b) as (dss & HF & Hr). exists (word_detections text word lt score ps :: dss).
    split; [constructor; [by exists ps|done]|]. cbn [concat]. rewrite push_all_app, Ep. exact Hr.
  - destruct (IH a) as (dss & HF & _). exists (word_detections text word lt score ps :: dss).
    split; [constructor; [by exists ps|done]|]. cbn [concat]. by rewrite push_all_app, Ep.
  - destruct (IH a) as (dss & HF & _). exists (word_detections text word lt score ps :: dss).
    split; [constructor; [by exists ps|done]|]. cbn [concat]. by rewrite push_all_app, Ep.
Qed.

Lemma apply_rules_spec text rs a : is_ascii text -> Forall rule_ok rs ->
  exists dss, Forall2 (rule_detections text) rs dss /\
    apply_rules find_iter to_lowercase chk (S (length text)) text rs a = push_all (concat dss) a.
Proof.
  intros Ht Hr. revert a. induction Hr as [|r rs Hr _ IH]; intros a; [exists []; done|]. cbn [apply_rules].
  assert (exists ds, rule_detections text r ds /\
    apply_rule find_iter to_lowercase chk (S (length text)) text r a = push_all ds a) as (ds & Hds & ->).
  { destruct r as [regex lt score|dict lt]; cbn [apply_rule rule_detections].
    - eexists. split; [reflexivity|]. apply signature_matches_spec.
    - destruct (scan_words_spec text dict lt a Ht Hr) as (dss & HF & ->). eauto. }
  destruct (push_all ds a) as [[b|]|] eqn:Ep.
  - destruct (IH b) as (dss & HF & Hrun). exists (ds :: dss). split; [by constructor|]. cbn [concat].
    rewrite push_all_app, Ep. exact Hrun.
  - destruct (IH a) as (dss & HF & _). exists (ds :: dss). split; [by constructor|]. cbn [concat]. by rewrite push_all_app, Ep.
  - destruct (IH a) as (dss & HF & _). exists (ds :: dss). split; [by constructor|]. cbn [concat]. by rewrite push_all_app, Ep.
Qed.

End analysis.

Lemma Forall2_perm {A B} (R : A -> B -> Prop) l l' k : l ≡ₚ l' -> Forall2 R l k -> exists k', Forall2 R l' k' /\ k ≡ₚ k'.
Proof.
  intros Hp. revert k. induction Hp as [|x l l' _ IH|x y l|l l1 l2 _ IH1 _ IH2]; intros k HF.
  - by exists k.
  - inversion HF as [|? z ? k0 Hz H0]; subst. destruct (IH _ H0) as (k' & ? & ?). exists (z :: k'). by split; [constructor|constructor].
  - inversion HF as [|? z ? k0 Hz H0]; subst. inversion H0 as [|? w ? k1 Hw H1]; subst.
    exists (w :: z :: k1). split; [by repeat constructor|constructor].
  - destruct (IH1 _ HF) as (k1 & H1 & ?), (IH2 k1 H1) as (k2 & ? & ?). exists k2. split; [done|]. by etransitivity.
Qed.

Lemma Forall2_fun {A B} (R : A -> B -> Prop) l k k' :
  (forall a b b', R a b -> R a b' -> b = b') -> Forall2 R l k -> Forall2 R l k' -> k = k'.
Proof.
  intros Hf H. revert k'. induction H as [|a b l k Hab _ IH]; intros k' H'; inversion H'; subst; [done|].
  f_equal; [by eapply Hf|by apply IH].
Qed.

Lemma concat_perm {A} (k k' : list (list A)) : k ≡ₚ k' -> concat k ≡ₚ concat k'.
Proof.
  induction 1 as [|x l l' _ IH|x y l|l l1 l2 _ IH1 _ IH2]; cbn; [done| | |by etransitivity].
  - by rewrite IH.
  - rewrite !app_assoc. by rewrite (Permutation_app_comm y x).
Qed.

Lemma impact_perm ds ds' : ds ≡ₚ ds' -> impact ds = impact ds'.
Proof. unfold impact. induction 1; cbn; lia. Qed.

Section properties.
Context {Regex : Type} (find_iter : Regex -> bytes -> list bytes) (to_lowercase : bytes -> bytes).
Hypothesis to_lowercase_ascii : forall s, is_ascii s -> to_lowercase s = ascii_lower s.
Variable chk : bool.

Definition found_by (text : bytes) (e : DlpEngine Regex) (ds : list Detection) : Prop :=
  exists dss, Forall2 (rule_detections find_iter text) (rules e) dss /\ ds = concat dss.

Lemma rule_detections_ok text r ds : rule_ok r -> rule_detections find_iter text r ds ->
  Forall (fun d => 0 <= score_impact d <= u32_max) ds.
Proof.
  destruct r as [regex lt score|dict lt]; cbn.
  - intros Hs ->. apply Forall_map, Forall_forall. done.
  - intros Hd (dss & -> & HF). apply Forall_concat. induction HF as [|ws ds dict dss (ps & _ & ->) _ IH]; [constructor|].
    apply Forall_cons in Hd as [(_ & _ & Hs) Hd]. constructor; [|by apply IH].
    unfold word_detections. apply Forall_map, Forall_forall. done.
Qed.

Lemma found_by_ok text e ds : Forall rule_ok (rules e) -> found_by text e ds ->
  Forall (fun d => 0 <= score_impact d <= u32_max) ds.
Proof.
  intros Hr (dss & HF & ->). apply Forall_concat. induction HF as [|r ds rs dss Hd _ IH]; [constructor|].
  apply Forall_cons in Hr as [Hr Hrs]. constructor; [by eapply rule_detections_ok|by apply IH].
Qed.

Lemma analyze_result text e : is_ascii text -> Forall rule_ok (rules e) ->
  exists ds, found_by text e ds /\
    analyze find_iter to_lowercase chk (S (length text)) e text =
    (if chk && (u32_max <? impact ds) then Some Panic
     else let total := impact ds mod (u32_max + 1) in
          Some (Val (mkResult (threshold e <=? total) total (severity_of total) ds))).
Proof.
  intros Ht Hr. unfold analyze.
  destruct (apply_rules_spec find_iter to_lowercase to_lowercase_ascii chk text (rules e) ([], 0) Ht Hr) as (dss & HF & ->).
  exists (concat dss). split; [by exists dss|].
  rewrite push_all_spec; [|by eapply (found_by_ok text e); [done|by exists dss]|by split].
  cbn [fst snd app]. rewrite Z.add_0_l. by destruct (chk && _).
Qed.

(** C5. The analysis of an ASCII document under rules whose keywords are
    ASCII and not empty always ends, within fuel that is the length of the
    document.  It reports, rule by rule, the matches of the expressions (card
    numbers only when they pass the Luhn check) and the places of each
    keyword, whatever the case, leftmost first and not overlapping; the total
    is the sum of their weights and decides violation and severity.  Only a
    sum above [u32::MAX] makes it panic (or wrap, without overflow checks). *)
Theorem analyze_spec text e : is_ascii text -> Forall rule_ok (rules e) ->
  exists ds, found_by text e ds /\
    (impact ds <= u32_max ->
     exists r, analyze find_iter to_lowercase chk (S (length text)) e text = Some (Val r) /\
       detections r = ds /\ total_score r = impact ds /\
       (is_violation r = true <-> threshold e <= impact ds) /\
       (severity r = Low <-> impact ds = 0) /\ (severity r = Medium <-> 1 <= impact ds <= 10) /\
       (severity r = High <-> 11 <= impact ds <= 30) /\ (severity r = Critical <-> 31 <= impact ds)) /\
    (u32_max < impact ds -> chk = true ->
     analyze find_iter to_lowercase chk (S (length text)) e text = Some Panic).
Proof.
  intros Ht Hr. destruct (analyze_result text e Ht Hr) as (ds & Hf & ->). exists ds. split; [done|]. split.
  - intros Hle. assert (0 <= impact ds) as H0.
    { pose proof (found_by_ok _ _ _ Hr Hf) as Hok. clear - Hok. unfold impact. induction Hok; cbn in *; lia. }
    rewrite (proj2 (Z.ltb_ge _ _)), andb_false_r, Z.mod_small by lia. eexists. split; [reflexivity|].
    cbn. split; [done|]. split; [done|]. split; [apply Z.leb_le|].
    unfold severity_of. destruct (Z.eqb_spec (impact ds) 0), (Z.leb_spec (impact ds) 10), (Z.leb_spec (impact ds) 30);
      repeat split; intros; try done; lia.
  - intros Hgt ->. by rewrite (proj2 (Z.ltb_lt _ _)).
Qed.

(** The same rule, its dictionary visited in another order. *)
Definition rule_perm (r r' : Rule Regex) : Prop :=
  match r, r' with
  | Signature a b c, Signature a' b' c' => a = a' /\ b = b' /\ c = c'
  | Dictionary d lt, Dictionary d' lt' => d ≡ₚ d' /\ lt = lt'
  | _, _ => False
  end.

Lemma found_by_perm text rs rs' dss dss' : Forall2 rule_perm rs rs' ->
  Forall2 (rule_detections find_iter text) rs dss -> Forall2 (rule_detections find_iter text) rs' dss' ->
  concat dss ≡ₚ concat dss'.
Proof.
  intros Hp. revert dss dss'. induction Hp as [|r r' rs rs' Hr _ IH]; intros dss dss' H1 H2;
    inversion H1 as [|? ds ? dss1 Hd HF]; inversion H2 as [|? ds' ? dss1' Hd' HF']; subst; [done|].
  cbn [concat]. rewrite (IH dss1 dss1') by done. apply Permutation_app; [|done].
  destruct r as [a b c|d lt], r' as [a' b' c'|d' lt']; try done; cbn in Hr.
  - destruct Hr as (-> & -> & ->). cbn in Hd, Hd'. by subst.
  - destruct Hr as [Hdd ->]. destruct Hd as (k & -> & HF1), Hd' as (k' & -> & HF2).
    destruct (Forall2_perm _ _ _ _ Hdd HF1) as (k2 & HF3 & Hk). rewrite (concat_perm _ _ Hk).
    replace k' with k2; [done|]. eapply Forall2_fun; [|exact HF3|exact HF2].
    intros ws b b' (ps & Hps & ->) (qs & Hqs & ->). by rewrite (occurrences_fun _ _ _ _ _ Hps Hqs).
Qed.

(** C37. The order in which the hash maps are visited does not matter: with
    the same rules, their dictionaries in any order, a document panics in
    both or gets the same total, verdict and severity with the same
    detections up to their order. *)
Theorem analyze_order_independent text e e' : is_ascii text -> Forall rule_ok (rules e) -> Forall rule_ok (rules e') ->
  Forall2 rule_perm (rules e) (rules e') -> threshold e = threshold e' ->
  match analyze find_iter to_lowercase chk (S (length text)) e text, analyze find_iter to_lowercase chk (S (length text)) e' text with
  | Some (Val r), Some (Val r') =>
      total_score r = total_score r' /\ is_violation r = is_violation r' /\ severity r = severity r' /\
      detections r ≡ₚ detections r'
  | Some Panic, Some Panic => True
  | _, _ => False
  end.
Proof.
  intros Ht Hr Hr' Hp He.
  destruct (analyze_result text e Ht Hr) as (ds & (dss & HF & Hds) & ->).
  destruct (analyze_result text e' Ht Hr') as (ds' & (dss' & HF' & Hds') & ->).
  assert (ds ≡ₚ ds') as Hpd by (subst; by eapply found_by_perm).
  rewrite (impact_perm _ _ Hpd), He. destruct (chk && _); [done|]. by cbn.
Qed.

Lemma scan_empty_word fuel text lt score pos a r : scan_word to_lowercase chk fuel text (to_lowercase text) [] lt score pos a <> Some (Val r).
Proof.
  revert pos a. induction fuel as [|fuel IH]; intros pos a; [done|]. cbn [scan_word].
  destruct (slice _ _ _) as [rest|]; [|done]. cbn [mbind run_bind]. rewrite (to_lowercase_ascii []) by constructor.
  assert (find rest (ascii_lower []) = Some 0%nat) as -> by (by destruct rest).
  destruct (slice text _ _) as [m|]; [|done]. cbn [mbind run_bind].
  destruct (push _ _ _ _ _) as [[b|]|]; [|done..]. cbn [mbind run_bind]. apply IH.
Qed.

(** An empty keyword: as soon as some dictionary has one, no amount of
    fuel makes the analysis of any document return a result. *)
Theorem empty_keyword_never_returns text e dict lt score :
  In (Dictionary dict lt) (rules e) -> In ([], score) dict ->
  forall fuel r, analyze find_iter to_lowercase chk fuel e text <> Some (Val r).
Proof.
  intros He Hd fuel r. unfold analyze.
  assert (forall a b, scan_words to_lowercase chk fuel text (to_lowercase text) dict lt a <> Some (Val b)) as Hw.
  { clear He. induction dict as [|[word s] dict IH]; [done|]. intros a b. cbn [scan_words].
    destruct Hd as [[= -> ->]|Hd].
    - pose proof (scan_empty_word fuel text lt score 0 a) as Hn. destruct (scan_word _ _ _ _ _ _ _ _ _ _) as [[c|]|]; [|done..].
      by destruct (Hn c).
    - destruct (scan_word _ _ _ _ _ _ _ _ _ _) as [[c|]|]; [|done..]. by apply IH. }
  assert (forall a b, apply_rules find_iter to_lowercase chk fuel text (rules e) a <> Some (Val b)) as Hr.
  { induction (rules e) as [|x rs IH]; [done|]. intros a b. cbn [apply_rules]. destruct He as [->|He].
    - cbn [apply_rule]. destruct (scan_words _ _ _ _ _ _ _ _) as [[c|]|] eqn:E; [|done..]. by destruct (Hw a c).
    - destruct (apply_rule _ _ _ _ _ _ _) as [[c|]|]; [|done..]. by apply IH. }
  destruct (apply_rules _ _ _ _ _ _ _) as [[c|]|] eqn:E; [|done..]. by destruct (Hr _ _ E).
Qed.

End properties.

(** Witnesses: the engine of [main] with expressions that are literal texts. *)
Definition literal_find_iter (r text : bytes) : list bytes := match find text r with Some _ => [r] | None => [] end.
Definition demo_engine (keywords : list (bytes * Z)) : DlpEngine bytes :=
  add_rule (add_rule (add_rule (new 20)
    (Signature (lit "4000 1234 5678 9010") CreditCard 15))
    (Signature (lit "4508 123456") Passport 25))
    (Dictionary keywords ConfidentialKeyword).
Definition demo_keywords : list (bytes * Z) := [(lit "trade secret", 10); (lit "NDA", 5); (lit "private key", 15)].
Definition demo_text : bytes := lit "This is a test document containing an NDA and trade secrets".

Lemma demo_engine_ok : Forall rule_ok (rules (demo_engine demo_keywords)).
Proof.
  repeat constructor; unfold is_ascii, u32_max in *; try done; try (by_evaluation).
Qed.

Lemma analyze_spec_witness :
  is_ascii demo_text /\ exists ds, found_by literal_find_iter demo_text (demo_engine demo_keywords) ds /\
    (impact ds <= u32_max -> exists r,
      analyze literal_find_iter ascii_lower true (S (length demo_text)) (demo_engine demo_keywords) demo_text = Some (Val r) /\
      total_score r = 15 /\ severity r = High /\ is_violation r = false).
Proof.
  assert (is_ascii demo_text) as Ht by (unfold is_ascii; by_evaluation). split; [exact Ht|].
  destruct (analyze_spec literal_find_iter ascii_lower (fun _ _ => eq_refl) true demo_text (demo_engine demo_keywords) Ht demo_engine_ok)
    as (ds & Hf & Hr & _). exists ds. split; [exact Hf|]. intros Hle. destruct (Hr Hle) as (r & Hrun & _). exists r.
  split; [exact Hrun|]. vm_compute in Hrun. injection Hrun as <-. vm_compute. auto.
Defined.

Lemma analyze_order_independent_witness :
  match analyze literal_find_iter ascii_lower true (S (length demo_text)) (demo_engine demo_keywords) demo_text,
        analyze literal_find_iter ascii_lower true (S (length demo_text)) (demo_engine (rev demo_keywords)) demo_text with
  | Some (Val r), Some (Val r') => total_score r = total_score r' /\ is_violation r = is_violation r' /\
      severity r = severity r' /\ detections r ≡ₚ detections r'
  | Some Panic, Some Panic => True
  | _, _ => False
  end.
Proof.
  apply (analyze_order_independent literal_find_iter ascii_lower (fun _ _ => eq_refl) true).
  - unfold is_ascii; by_evaluation.
  - apply demo_engine_ok.
  - repeat constructor; unfold is_ascii, u32_max in *; try done; by_evaluation.
  - repeat constructor; apply Permutation_rev.
  - reflexivity.
Defined.

Lemma empty_keyword_never_returns_witness :
  In ([], 1) [(lit "NDA", 5); ([], 1)] /\
  analyze literal_find_iter ascii_lower false 100 (demo_engine [(lit "NDA", 5); ([], 1)]) demo_text
    <> Some (Val (mkResult true 95 Critical [])).
Proof.
  assert (In ([], 1) [(lit "NDA", 5); ([], 1)]) as Hi by (right; by left). split; [exact Hi|].
  apply (empty_keyword_never_returns literal_find_iter ascii_lower (fun _ _ => eq_refl) false demo_text
    (demo_engine [(lit "NDA", 5); ([], 1)]) [(lit "NDA", 5); ([], 1)] ConfidentialKeyword 1);
    [right; right; left; reflexivity|exact Hi].
Defined.
