(* ===== verification/DlpMain.v ===== *)
(** The demonstration in [main] of [src/dlp/dlp_analyzer/src/main.rs]: the
    configured engine on the four documents, and the report it prints. *)
From S2P Require Import Prelude Bytes DlpAnalyzer.

Definition main_threshold : Z := 20.
Definition keywords : list (bytes * Z) := [(lit "trade secret", 10); (lit "NDA", 5); (lit "private key", 15)].
Definition documents : list bytes := [
  lit "Hi! My card number is 4000 1234 5678 9010. Don't show it to anyone";
  lit "This is a test document containing an NDA and trade secrets";
  lit "Passport of a citizen of the Russian Federation: 4508 123456. Urgent";
  lit "The fake card number 1111-1111-1111-1111 will not pass Luhn validation"].

Section demonstration.
Context {Regex : Type} (find_iter : Regex -> bytes -> list bytes).
(** The two compiled patterns. *)
Variables (cc_regex passport_regex : Regex).

(** The documents and keywords are ASCII, on which [to_lowercase] is known.
    The engine, with the dictionary in the order its map is visited. *)
Definition main_engine (keywords : list (bytes * Z)) : DlpEngine Regex :=
  add_rule (add_rule (add_rule (new main_threshold) (Signature cc_regex CreditCard 15)) (Signature passport_regex Passport 25))
    (Dictionary keywords ConfidentialKeyword).

Definition main (chk : bool) (fuel : nat) (keywords : list (bytes * Z)) : run (list AnalysisResult) :=
  analyze_parallel find_iter ascii_lower chk fuel (main_engine keywords) documents.

(** ** The report: the printed lines *)

Definition severity_debug (s : Severity) : bytes :=
  lit match s with Low => "Low" | Medium => "Medium" | High => "High" | Critical => "Critical" end.
Definition leak_type_debug (t : LeakType) : bytes :=
  lit match t with
      | Passport => "Passport" | CreditCard => "CreditCard" | ConfidentialKeyword => "ConfidentialKeyword" | SourceCode => "SourceCode"
      end.

(** The numero sign in UTF-8. *)
Definition numero : bytes := [226; 132; 150].

Definition report_detection (det : Detection) : bytes :=
  lit "    - [" ++ leak_type_debug (leak_type det) ++ lit "] '" ++ matched_text det ++ lit "' (Weight: " ++ dec (score_impact det) ++ lit ")".
Definition report_result (idx : nat) (result : AnalysisResult) : list bytes :=
  [[]; lit "Document " ++ numero ++ dec (Z.of_nat idx + 1) ++ lit ":";
   lit "  Blocking status: " ++ (if is_violation result then lit "BLOCKED" else lit "PERMITTED");
   lit "  Total weight of threats:  " ++ dec (total_score result);
   lit "  Risk level:    " ++ severity_debug (severity result)]
  ++ match detections result with
     | [] => []
     | dets => lit "  Matches found:" :: map report_detection dets
     end.
Definition report (results : list AnalysisResult) : list bytes := concat (imap report_result results).

(** What [main] prints: a panic of an analysis is one of [main] before the
    report. *)
Definition main_output (chk : bool) (fuel : nat) (keywords : list (bytes * Z)) : list bytes :=
  lit "=== Launching content-based DLP analysis ===" ::
  match main chk fuel keywords with Some (Val results) => report results | _ => [] end.

(** What the patterns find in the documents: a card number in the first and
    in the last, a passport number in the third. *)
Hypothesis cards : map (find_iter cc_regex) documents = [[lit "4000 1234 5678 9010"]; []; []; [lit "1111-1111-1111-1111"]].
Hypothesis passports : map (find_iter passport_regex) documents = [[]; []; [lit "4508 123456"]; []].

Lemma documents_ascii : Forall is_ascii documents /\ Forall (fun kv : bytes * Z => is_ascii kv.1) keywords.
Proof. unfold is_ascii. split; by_evaluation. Qed.

(** What the run shows: only the passport blocks its document; neither card
    number passes the Luhn check, the first one included, which the source calls
    valid. *)
Lemma demonstration_results : main true 100 keywords = Some (Val [
  mkResult false 0 Low [];
  mkResult false 15 High [mkDetection ConfidentialKeyword (lit "trade secret") 10; mkDetection ConfidentialKeyword (lit "NDA") 5];
  mkResult true 25 High [mkDetection Passport (lit "4508 123456") 25];
  mkResult false 0 Low []]).
Proof.
  injection cards as C1 C2 C3 C4. injection passports as P1 P2 P3 P4.
  unfold main, documents. cbn [analyze_parallel]. unfold analyze, main_engine, add_rule, new.
  cbn [rules threshold app apply_rules apply_rule]. rewrite C1, C2, C3, C4, P1, P2, P3, P4. by vm_compute.
Qed.

Lemma demonstration_output : main_output true 100 keywords =
  [lit "=== Launching content-based DLP analysis ===";
   []; lit "Document " ++ numero ++ lit "1:"; lit "  Blocking status: PERMITTED"; lit "  Total weight of threats:  0";
   lit "  Risk level:    Low";
   []; lit "Document " ++ numero ++ lit "2:"; lit "  Blocking status: PERMITTED"; lit "  Total weight of threats:  15";
   lit "  Risk level:    High"; lit "  Matches found:"; lit "    - [ConfidentialKeyword] 'trade secret' (Weight: 10)";
   lit "    - [ConfidentialKeyword] 'NDA' (Weight: 5)";
   []; lit "Document " ++ numero ++ lit "3:"; lit "  Blocking status: BLOCKED"; lit "  Total weight of threats:  25";
   lit "  Risk level:    High"; lit "  Matches found:"; lit "    - [Passport] '4508 123456' (Weight: 25)";
   []; lit "Document " ++ numero ++ lit "4:"; lit "  Blocking status: PERMITTED"; lit "  Total weight of threats:  0";
   lit "  Risk level:    Low"].
Proof. unfold main_output. rewrite demonstration_results. by vm_compute. Qed.
End demonstration.
