(* ===== verification/DnsServer.v ===== *)
(** The DNS server with its dynamic-DNS REST endpoint and SQLite cache
    ([src/dns_server/src/main.rs]). *)
From S2P Require Import Prelude Bytes IpText.

(** ** The database

    The two tables of [main], each with a unique [domain]; [INSERT OR REPLACE]
    replaces the row of the domain.  Every statement may fail: its outcome is
    the boolean [ok] of the definitions that run one. *)
Record RecordRow := mkRecordRow { record_type : bytes; ip_address : bytes }.
Record CacheRow := mkCacheRow { c_record_type : bytes; c_ip_address : bytes; expires_at : bytes }.
Record Connection := mkDb { dns_records : gmap bytes RecordRow; dns_cache : gmap bytes CacheRow }.

(** [expires_at < ?] of SQLite: the BINARY collation, byte by byte. *)
Fixpoint text_lt (a b : bytes) : bool :=
  match a, b with
  | _, [] => false
  | [], _ :: _ => true
  | x :: a, y :: b => if x <? y then true else if y <? x then false else text_lt a b
  end.

(** [chrono]: times as nanoseconds; the text of a time is read back, and the
    texts of times from [Utc::now] compare like the times. *)
Class Chrono := {
  to_rfc3339 : Z -> bytes;
  parse_from_rfc3339 : bytes -> option Z;
  in_range : Z -> Prop;
  parse_to_rfc3339 : forall t, in_range t -> parse_from_rfc3339 (to_rfc3339 t) = Some t;
  to_rfc3339_lt : forall t u, in_range t -> in_range u -> text_lt (to_rfc3339 t) (to_rfc3339 u) = (t <? u);
}.

Definition seconds (s : Z) : Z := s * 1000000000.
Definition clean (domain : bytes) : bytes := trim_end_matches 46 domain.

(** DNS data: an address record, or any other data. *)
Inductive RData := RA (ip : list Z) | RDataOther (data : bytes).
Record DnsRecord := mkRecord { r_name : bytes; ttl : Z; data : RData }.
Inductive RecordType := TypeA | TypeOther (code : Z).
Inductive ResponseCode := NoError | NXDomain.
Record DnsHeader := mkHeader { authoritative : bool; rcode : ResponseCode }.
Record Response := mkResponse { header : DnsHeader; answers : list DnsRecord }.

#[export] Instance RecordType_eq_dec : EqDecision RecordType.
Proof. solve_decision. Defined.

Section server.
Context {C : Chrono}.

Definition lookup_local_a_record (ok : bool) (db : Connection) (domain : bytes) : option (list Z) :=
  if ok then
    match dns_records db !! clean domain with
    | Some row => if bool_decide (record_type row = lit "A") then ipv4_from_str (ip_address row) else None
    | None => None
    end
  else None.

Definition lookup_cache_a_record (ok : bool) (now : Z) (db : Connection) (domain : bytes) : option (list Z) :=
  if ok then
    match dns_cache db !! clean domain with
    | Some row =>
        if bool_decide (c_record_type row = lit "A") then
          match parse_from_rfc3339 (expires_at row) with
          | Some expires_at => if now <? expires_at then ipv4_from_str (c_ip_address row) else None
          | None => None
          end
        else None
    | None => None
    end
  else None.

Definition save_to_cache (ok : bool) (now : Z) (db : Connection) (domain ip : bytes) (ttl : Z) : Connection :=
  if ok then
    mkDb (dns_records db)
      (<[clean domain := mkCacheRow (lit "A") ip (to_rfc3339 (now + seconds ttl))]> (dns_cache db))
  else db.

(** [respond_with_a]; [hdr] is what [Header::response_from_request] gives. *)
Definition respond_with_a (hdr : DnsHeader) (name : bytes) (ip : list Z) (ttl : Z) (auth : bool) : Response :=
  mkResponse (mkHeader auth (rcode hdr)) [mkRecord name ttl (RA ip)].

(** The first A record of the forwarded answer. *)
Fixpoint first_a (records : list DnsRecord) : option (list Z * Z) :=
  match records with
  | [] => None
  | r :: records => match data r with RA ip => Some (ip, ttl r) | RDataOther _ => first_a records end
  end.

(** Which statements succeed while a request is handled. *)
Record Faults := mkFaults { ok_local : bool; ok_cache : bool; ok_save : bool }.

(** [handle_request]: [now] is the time of the cache lookup, [later] that of
    the save, [forward] what the forwarder answers. *)
Definition handle_request (f : Faults) (now later : Z) (hdr : DnsHeader) (name : bytes) (record_type : RecordType)
    (forward : result (list DnsRecord) unit) (db : Connection) : Response * Connection :=
  let miss :=
    match forward with
    | Ok records =>
        let db :=
          if bool_decide (record_type = TypeA) then
            match first_a records with
            | Some (ip, ttl) => save_to_cache (ok_save f) later db name (ipv4_display ip) ttl
            | None => db
            end
          else db in
        (mkResponse (mkHeader false (rcode hdr)) records, db)
    | Err _ => (mkResponse (mkHeader (authoritative hdr) NXDomain) [], db)
    end in
  if bool_decide (record_type = TypeA) then
    match lookup_local_a_record (ok_local f) db name with
    | Some local_ip => (respond_with_a hdr name local_ip 60 true, db)
    | None =>
        match lookup_cache_a_record (ok_cache f) now db name with
        | Some cached_ip => (respond_with_a hdr name cached_ip 300 false, db)
        | None => miss
        end
    end
  else miss.

(** [handle_ddns_update]: the answer, a status code and a text, and the
    database afterwards. *)
Definition handle_ddns_update (ok : bool) (db : Connection) (domain ip : bytes) : (Z * bytes) * Connection :=
  match ipv4_from_str ip with
  | None => ((400, lit "Error: invalid IPv4 address format" ++ [10]), db)
  | Some _ =>
      let clean_domain := clean domain in
      if ok then
        ((200, lit "successfully updated: " ++ clean_domain ++ lit " points to " ++ ip ++ [10]),
         mkDb (<[clean_domain := mkRecordRow (lit "A") ip]> (dns_records db)) (dns_cache db))
      else ((500, lit "internal database error" ++ [10]), db)
  end.

(** One turn of the cache clearing. *)
Definition cleanup (ok : bool) (now : Z) (db : Connection) : Connection :=
  if ok then
    mkDb (dns_records db)
      (filter (fun p => text_lt (expires_at p.2) (to_rfc3339 now) = false) (dns_cache db))
  else db.

(** ** The tasks together

    The tasks share the connection behind a mutex; each locks it for one
    statement.  The steps are these critical sections that write. *)
Inductive label :=
| Update (ok : bool) (domain ip : bytes)
| Save (ok : bool) (now : Z) (domain : bytes) (ip : list Z) (ttl : Z)
| Clean (ok : bool) (now : Z).

Definition step (db : Connection) (l : label) : Connection :=
  match l with
  | Update ok domain ip => snd (handle_ddns_update ok db domain ip)
  | Save ok now domain ip ttl => save_to_cache ok now db domain (ipv4_display ip) ttl
  | Clean ok now => cleanup ok now db
  end.

Definition steps (db : Connection) (ls : list label) : Connection := foldl step db ls.

(** ** The service and its file

    The database is a file that outlives the process.  At a start, whether it
    can be opened and the four [IF NOT EXISTS] statements succeed, and whether
    the two ports are free: without the first the task of the endpoint
    panics, alone; without the second, [main] ends before it answers a query. *)
Record launch := mkLaunch { opens : bool; schema : bool; http_port : bool; dns_port : bool }.

Definition allowed (e : launch) (l : label) : bool :=
  match l with Update _ _ _ => http_port e | Save _ _ _ _ _ => dns_port e | Clean _ _ => true end.

(** One life of the process, and its lives one after the other. *)
Definition life (db : Connection) (r : launch * list label) : Connection :=
  if opens r.1 && schema r.1 then steps db (filter (fun l => allowed r.1 l = true) r.2) else db.
Definition lives (db : Connection) (rs : list (launch * list label)) : Connection := foldl life db rs.

End server.

(** ** Properties *)
Section properties.
Context {C : Chrono}.

(** A step that may write the address record of a domain, or its cache row. *)
Definition updates_domain (d : bytes) (l : label) : bool :=
  match l with Update _ domain _ => bool_decide (clean domain = clean d) | _ => false end.
Definition saves_domain (d : bytes) (l : label) : bool :=
  match l with Save _ _ domain _ _ => bool_decide (clean domain = clean d) | _ => false end.

Lemma step_records db l d : updates_domain d l = false ->
  dns_records (step db l) !! clean d = dns_records db !! clean d.
Proof.
  destruct l as [ok domain ip|ok now domain ip ttl|ok now]; cbn; intros Hd.
  - apply bool_decide_eq_false in Hd. unfold handle_ddns_update. destruct (ipv4_from_str ip), ok; cbn; try done.
    by rewrite lookup_insert_ne.
  - by destruct ok.
  - by destruct ok.
Qed.

Lemma steps_records db ls d : Forall (fun l => updates_domain d l = false) ls ->
  dns_records (steps db ls) !! clean d = dns_records db !! clean d.
Proof.
  intros Hls. revert db. induction Hls as [|l ls Hl _ IH]; intros db; [done|]. cbn [steps foldl].
  fold (steps (step db l) ls). by rewrite IH, step_records.
Qed.

(** C20. A dynamic update is visible: once the endpoint has answered 200, and
    whatever the other tasks write short of another update of the same
    domain, every A query for the domain, with or without the final dots, is
    answered with exactly the address given, authoritative, for 60 seconds,
    without asking the forwarder and without touching the database.  An
    invalid address is refused with 400 and a failing statement with 500, and
    neither changes anything. *)
Theorem ddns_update_visible db d ip os ls f now later hdr name forward :
  ipv4_from_str ip = Some os -> Forall (fun l => updates_domain d l = false) ls -> clean name = clean d -> ok_local f = true ->
  let db1 := snd (handle_ddns_update true db d ip) in
  fst (handle_ddns_update true db d ip) =
    (200, lit "successfully updated: " ++ clean d ++ lit " points to " ++ ip ++ [10]) /\
  handle_request f now later hdr name TypeA forward (steps db1 ls) =
    (mkResponse (mkHeader true (rcode hdr)) [mkRecord name 60 (RA os)], steps db1 ls) /\
  (forall ok bad, ipv4_from_str bad = None -> exists text, handle_ddns_update ok db1 d bad = ((400, text), db1)) /\
  (exists text, handle_ddns_update false db1 d ip = ((500, text), db1)).
Proof.
  intros Hip Hls Hn Hok. cbn zeta.
  assert (handle_ddns_update true db d ip =
    ((200, lit "successfully updated: " ++ clean d ++ lit " points to " ++ ip ++ [10]),
     mkDb (<[clean d := mkRecordRow (lit "A") ip]> (dns_records db)) (dns_cache db))) as ->
    by (unfold handle_ddns_update; by rewrite Hip).
  cbn [fst snd]. split; [done|].
  split; [|split; [intros ok bad Hbad|]; eexists; unfold handle_ddns_update; [by rewrite Hbad|by rewrite Hip]].
  unfold handle_request, lookup_local_a_record. rewrite bool_decide_true, Hok, Hn, steps_records by done.
  cbn [dns_records]. rewrite lookup_insert_eq. cbn [record_type ip_address]. by rewrite bool_decide_true, Hip.
Qed.

(** The cache row of a domain through the steps that do not save it. *)
Lemma step_cache db l d row expires : saves_domain d l = false ->
  dns_cache db !! clean d = Some row -> expires_at row = to_rfc3339 expires -> in_range expires ->
  match l with Clean _ n => in_range n /\ n <= expires | _ => True end ->
  dns_cache (step db l) !! clean d = Some row.
Proof.
  intros Hs Hr He Hin Hc. destruct l as [ok domain ip|ok now domain ip ttl|ok now]; cbn in *.
  - unfold handle_ddns_update. by destruct (ipv4_from_str ip), ok.
  - apply bool_decide_eq_false in Hs. destruct ok; [|done]. cbn. by rewrite lookup_insert_ne.
  - destruct ok; [|done]. cbn. apply map_lookup_filter_Some. split; [done|]. cbn [snd]. destruct Hc.
    rewrite He, to_rfc3339_lt by done. apply Z.ltb_ge. lia.
Qed.

(** After the expiry the row is either still there or gone. *)
Lemma step_cache_gone db l d row : saves_domain d l = false ->
  (dns_cache db !! clean d = Some row \/ dns_cache db !! clean d = None) ->
  (dns_cache (step db l) !! clean d = Some row \/ dns_cache (step db l) !! clean d = None).
Proof.
  intros Hs Hr. destruct l as [ok domain ip|ok now domain ip ttl|ok now]; cbn in *.
  - unfold handle_ddns_update. by destruct (ipv4_from_str ip), ok.
  - apply bool_decide_eq_false in Hs. destruct ok; [|done]. cbn. by rewrite lookup_insert_ne.
  - destruct ok; [|done]. cbn. destruct (filter _ (dns_cache db) !! clean d) as [r|] eqn:E; [|by right].
    apply map_lookup_filter_Some in E as [E _]. left. destruct Hr; congruence.
Qed.

Lemma steps_cache db ls d row expires now : dns_cache db !! clean d = Some row -> expires_at row = to_rfc3339 expires ->
  in_range expires -> Forall (fun l => saves_domain d l = false) ls ->
  Forall (fun l => match l with Clean _ n => in_range n /\ n <= now | _ => True end) ls ->
  (now < expires -> dns_cache (steps db ls) !! clean d = Some row) /\
  (dns_cache (steps db ls) !! clean d = Some row \/ dns_cache (steps db ls) !! clean d = None).
Proof.
  intros Hr He Hin Hs Hc. split.
  - intros Hlt. revert db Hr. induction Hs as [|l ls Hl _ IH]; intros db Hr; [done|].
    apply Forall_cons in Hc as [Hcl Hc]. cbn [steps foldl]. apply IH; [done|].
    eapply step_cache; [done..|]. destruct l; try done. lia || (destruct Hcl; split; [done|lia]).
  - assert (dns_cache db !! clean d = Some row \/ dns_cache db !! clean d = None) as Hd by (by left).
    clear Hr Hc. revert db Hd. induction Hs as [|l ls Hl _ IH]; intros db Hd; [done|].
    cbn [steps foldl]. apply IH. by apply step_cache_gone.
Qed.

(** C8. The life of a cached answer: when an A query for a name without a
    record misses the cache, is forwarded, and the answer has an A record, then until that record's
    time-to-live has passed since the save, every A query for the name is
    answered with its address from the cache, not authoritative, for a fixed
    300 seconds whatever is left of the time-to-live; from then on the cache
    is not used and the forwarder is asked.  This holds whatever the other
    tasks write in between, short of records for the name, and whether or not
    the row has been cleared. *)
Theorem cached_answer_lifetime db f now1 later hdr name records ip ttl ls f2 now2 later2 hdr2 name2 forward2 :
  lookup_cache_a_record (ok_cache f) now1 db name = None ->
  first_a records = Some (ip, ttl) -> is_ipv4 ip -> ok_save f = true -> in_range (later + seconds ttl) ->
  dns_records db !! clean name = None ->
  Forall (fun l => updates_domain name l = false) ls -> Forall (fun l => saves_domain name l = false) ls ->
  Forall (fun l => match l with Clean _ n => in_range n /\ n <= now2 | _ => True end) ls ->
  clean name2 = clean name -> ok_cache f2 = true ->
  let first := handle_request f now1 later hdr name TypeA (Ok records) db in
  let second := handle_request f2 now2 later2 hdr2 name2 TypeA forward2 (steps (snd first) ls) in
  fst first = mkResponse (mkHeader false (rcode hdr)) records /\
  (now2 < later + seconds ttl ->
   second = (mkResponse (mkHeader false (rcode hdr2)) [mkRecord name2 300 (RA ip)], steps (snd first) ls)) /\
  (later + seconds ttl <= now2 ->
   fst second = match forward2 with
                | Ok records2 => mkResponse (mkHeader false (rcode hdr2)) records2
                | Err _ => mkResponse (mkHeader (authoritative hdr2) NXDomain) []
                end).
Proof.
  intros Hc Ha Hip Hsave Hin Hno Hu Hs Hcl Hn Hok first second.
  assert (lookup_local_a_record (ok_local f) db name = None) as Hl
    by (unfold lookup_local_a_record; rewrite Hno; by destruct (ok_local f)).
  assert (first = (mkResponse (mkHeader false (rcode hdr)) records,
    mkDb (dns_records db) (<[clean name := mkCacheRow (lit "A") (ipv4_display ip) (to_rfc3339 (later + seconds ttl))]> (dns_cache db)))) as Hfirst.
  { subst first. unfold handle_request. rewrite !bool_decide_true, Hl, Hc, Ha by done. unfold save_to_cache. by rewrite Hsave. }
  subst second. clearbody first. subst first. cbn [fst snd]. split; [done|]. set (db1 := mkDb _ _).
  assert (forall b, lookup_local_a_record b (steps db1 ls) name2 = None) as Hl2.
  { intros b. unfold lookup_local_a_record. destruct b; [|done]. rewrite Hn, steps_records by done. cbn. by rewrite Hno. }
  destruct (steps_cache db1 ls name (mkCacheRow (lit "A") (ipv4_display ip) (to_rfc3339 (later + seconds ttl))) (later + seconds ttl) now2)
    as [Hlive Hdead]; [apply lookup_insert_eq|done..|].
  unfold handle_request. rewrite bool_decide_true, Hl2, Hok by done. unfold lookup_cache_a_record. rewrite Hn. split.
  - intros Hlt. rewrite Hlive by done. cbn. rewrite parse_to_rfc3339 by done.
    rewrite (proj2 (Z.ltb_lt _ _)) by done. by rewrite ipv4_round_trip.
  - intros Hge. destruct Hdead as [-> | ->].
    + cbn. rewrite parse_to_rfc3339, (proj2 (Z.ltb_ge _ _)) by done. by destruct forward2.
    + by destruct forward2.
Qed.

(** What the rows satisfy. *)
Definition db_ok (db : Connection) : Prop :=
  map_Forall (fun d r => clean d = d /\ record_type r = lit "A" /\ is_Some (ipv4_from_str (ip_address r))) (dns_records db) /\
  map_Forall (fun d r => clean d = d /\ c_record_type r = lit "A" /\ is_Some (ipv4_from_str (c_ip_address r)) /\
    is_Some (parse_from_rfc3339 (expires_at r))) (dns_cache db).

(** The labels of the program: saved addresses are addresses. *)
Definition label_ok (l : label) : Prop :=
  match l with Save _ now _ ip ttl => is_ipv4 ip /\ in_range (now + seconds ttl) | _ => True end.

Lemma drop_while_idemp {A} (f : A -> bool) l : drop_while f (drop_while f l) = drop_while f l.
Proof. induction l as [|x l IH]; [done|]. cbn. destruct (f x) eqn:E; [done|]. cbn. by rewrite E. Qed.

Lemma clean_clean d : clean (clean d) = clean d.
Proof. unfold clean, trim_end_matches, drop_while_end. by rewrite rev_involutive, drop_while_idemp. Qed.

Lemma step_ok db l : db_ok db -> label_ok l -> db_ok (step db l).
Proof.
  intros [Hr Hc] Hl. destruct l as [ok domain ip|ok now domain ip ttl|ok now]; cbn in *.
  - unfold handle_ddns_update. destruct (ipv4_from_str ip) eqn:E, ok; cbn; try done.
    split; [|done]. apply map_Forall_insert_2; [|done]. cbn. rewrite clean_clean, E. eauto.
  - destruct ok; [|done]. split; [done|]. apply map_Forall_insert_2; [|done]. cbn. destruct Hl as [Hip Hin].
    rewrite clean_clean, ipv4_round_trip, parse_to_rfc3339 by done. eauto.
  - destruct ok; [|done]. split; [done|]. cbn. intros d r Hd. apply map_lookup_filter_Some in Hd as [Hd _]. by apply Hc.
Qed.

Lemma steps_ok ls db : Forall label_ok ls -> db_ok db -> db_ok (steps db ls).
Proof.
  intros Hls. revert db. induction Hls as [|l ls Hl _ IH]; intros db Hdb; [done|]. cbn [steps foldl]. apply IH. by apply step_ok.
Qed.

Lemma lives_ok rs db : Forall (fun r => Forall label_ok r.2) rs -> db_ok db -> db_ok (lives db rs).
Proof.
  intros Hrs. revert db. induction Hrs as [|[e ls] rs Hr _ IH]; intros db Hdb; [done|]. cbn [lives foldl]. apply IH.
  unfold life. cbn [fst snd]. destruct (opens e && schema e); [|done]. apply steps_ok; [|done].
  apply Forall_forall. intros l [_ Hl]%list_elem_of_filter. by apply (proj1 (Forall_forall _ _) Hr).
Qed.

(** C38. The database stays well formed over any number of lives of the service,
    whatever fails at their starts: every row the program writes sits
    under a name without final dots, is an A row, and holds an address (and a
    time) that reads back, so that a name with a record always has an answer.
    A request writes nothing but, after a forwarded A query, one cache row
    for its own name; requests never touch the address records. *)
Theorem database_invariant runs f now later hdr name rt forward :
  Forall (fun r => Forall label_ok r.2) runs ->
  match forward with Ok records => forall ip ttl, first_a records = Some (ip, ttl) -> is_ipv4 ip /\ in_range (later + seconds ttl)
                   | Err _ => True end ->
  let db := lives (mkDb ∅ ∅) runs in
  let db' := snd (handle_request f now later hdr name rt forward db) in
  db_ok db /\ db_ok db' /\
  (forall d, is_Some (dns_records db !! clean d) <-> is_Some (lookup_local_a_record true db d)) /\
  dns_records db' = dns_records db /\
  (forall d, d <> clean name -> dns_cache db' !! d = dns_cache db !! d) /\
  (rt <> TypeA \/ is_err forward = true -> db' = db).
Proof.
  intros Hls Hfw db db'.
  assert (db_ok db) as Hok by (apply lives_ok; [done|]; split; apply map_Forall_empty).
  assert (db' = db \/ (rt = TypeA /\ exists records ip ttl, forward = Ok records /\ first_a records = Some (ip, ttl) /\
    db' = step db (Save (ok_save f) later name ip ttl))) as Hcase.
  { subst db'. unfold handle_request. destruct (bool_decide (rt = TypeA)) eqn:E.
    - apply bool_decide_eq_true in E as ->. destruct (lookup_local_a_record _ _ _); [by left|].
      destruct (lookup_cache_a_record _ _ _ _); [by left|]. destruct forward as [records|]; [|by left].
      destruct (first_a records) as [[ip ttl]|] eqn:Ef; [|by left]. right. split; [done|]. by exists records, ip, ttl.
    - left. by destruct forward. }
  split; [done|]. split.
  { destruct Hcase as [-> |(-> & records & ip & ttl & -> & Hf & ->)]; [done|]. apply step_ok; [done|]. by apply Hfw. }
  split.
  { intros d. unfold lookup_local_a_record. destruct (dns_records db !! clean d) as [r|] eqn:E; [|done].
    apply (proj1 Hok) in E as (_ & Ht & Hi). rewrite bool_decide_true by done. split; [done|]. by eexists. }
  split; [|split].
  - destruct Hcase as [-> |(-> & records & ip & ttl & -> & Hf & ->)]; [done|]. cbn. by destruct (ok_save f).
  - intros d Hd. destruct Hcase as [-> |(-> & records & ip & ttl & -> & Hf & ->)]; [done|]. cbn.
    destruct (ok_save f); [|done]. cbn. by rewrite lookup_insert_ne.
  - intros Hno. destruct Hcase as [Heq |(-> & records & ip & ttl & -> & _)]; [done|]. by destruct Hno.
Qed.

End properties.

(** ** Witnesses

    Times as 20 decimal digits. *)
Fixpoint digits20 (k : nat) (t : Z) : bytes :=
  match k with O => [] | S k => 48 + t / 10 ^ Z.of_nat k :: digits20 k (t mod 10 ^ Z.of_nat k) end.
Fixpoint undigits (acc : Z) (s : bytes) : Z := match s with [] => acc | d :: s => undigits (acc * 10 + (d - 48)) s end.

Lemma undigits_digits k acc t : 0 <= t < 10 ^ Z.of_nat k -> undigits acc (digits20 k t) = acc * 10 ^ Z.of_nat k + t.
Proof.
  revert acc t. induction k as [|k IH]; intros acc t Ht; cbn [digits20 undigits]; [cbn in *; lia|].
  pose proof (Z.pow_pos_nonneg 10 (Z.of_nat k)) as Hp. rewrite IH by (apply Z.mod_pos_bound; lia).
  rewrite Nat2Z.inj_succ, Z.pow_succ_r by lia. pose proof (Z.div_mod t (10 ^ Z.of_nat k) ltac:(lia)). nia.
Qed.

Lemma digits_lt k t u : 0 <= t < 10 ^ Z.of_nat k -> 0 <= u < 10 ^ Z.of_nat k ->
  text_lt (digits20 k t) (digits20 k u) = (t <? u).
Proof.
  revert t u. induction k as [|k IH]; intros t u Ht Hu; cbn [digits20 text_lt].
  - cbn in *. symmetry. apply Z.ltb_ge. lia.
  - pose proof (Z.pow_pos_nonneg 10 (Z.of_nat k) ltac:(lia) ltac:(lia)) as Hp.
    pose proof (Z.div_mod t (10 ^ Z.of_nat k) ltac:(lia)). pose proof (Z.div_mod u (10 ^ Z.of_nat k) ltac:(lia)).
    pose proof (Z.mod_pos_bound t (10 ^ Z.of_nat k) Hp). pose proof (Z.mod_pos_bound u (10 ^ Z.of_nat k) Hp).
    rewrite IH by done. set (P := 10 ^ Z.of_nat k) in *. clearbody P.
    set (a := t / P) in *. set (b := u / P) in *. set (c := t mod P) in *. set (d := u mod P) in *. clearbody a b c d.
    destruct (Z.ltb_spec (48 + a) (48 + b)); [symmetry; apply Z.ltb_lt; nia|].
    destruct (Z.ltb_spec (48 + b) (48 + a)); [symmetry; apply Z.ltb_ge; nia|].
    assert (a = b) as -> by lia. apply eq_true_iff_eq. rewrite !Z.ltb_lt. lia.
Qed.

Lemma digits_length k t : length (digits20 k t) = k.
Proof. revert t. induction k; intros; cbn [digits20 length]; auto. Qed.

Definition parse20 (s : bytes) : option Z := if (length s =? 20)%nat then Some (undigits 0 s) else None.

Lemma parse20_digits t : 0 <= t < 10 ^ 20 -> parse20 (digits20 20 t) = Some t.
Proof. intros Ht. unfold parse20. rewrite digits_length. cbn [Nat.eqb]. f_equal. by rewrite (undigits_digits 20 0). Qed.

#[export] Instance decimal_chrono : Chrono := {|
  to_rfc3339 := digits20 20;
  parse_from_rfc3339 := parse20;
  in_range t := 0 <= t < 10 ^ 20;
  parse_to_rfc3339 := parse20_digits;
  to_rfc3339_lt := digits_lt 20;
|}.

Definition all_ok : Faults := mkFaults true true true.
Definition plain : DnsHeader := mkHeader false NoError.

Lemma ddns_update_visible_witness :
  handle_request all_ok 0 0 plain (lit "home.example.") TypeA (Err tt)
    (steps (snd (handle_ddns_update true (mkDb ∅ ∅) (lit "home.example") (lit "192.0.2.7")))
       [Clean true (seconds 3); Save true 0 (lit "home.example.") [10; 0; 0; 1] 60]) =
  (mkResponse (mkHeader true NoError) [mkRecord (lit "home.example.") 60 (RA [192; 0; 2; 7])],
   steps (snd (handle_ddns_update true (mkDb ∅ ∅) (lit "home.example") (lit "192.0.2.7")))
       [Clean true (seconds 3); Save true 0 (lit "home.example.") [10; 0; 0; 1] 60]).
Proof.
  apply (ddns_update_visible (mkDb ∅ ∅) (lit "home.example") (lit "192.0.2.7") [192; 0; 2; 7]
    [Clean true (seconds 3); Save true 0 (lit "home.example.") [10; 0; 0; 1] 60] all_ok 0 0 plain (lit "home.example.") (Err tt));
    [vm_compute; reflexivity|repeat constructor|vm_compute; reflexivity|reflexivity].
Defined.

Definition upstream : list DnsRecord :=
  [mkRecord (lit "www.example.") 30 (RDataOther [1]); mkRecord (lit "example.") 30 (RA [198; 51; 100; 4])].

Lemma cached_answer_lifetime_witness :
  let first := handle_request all_ok 0 (seconds 1) plain (lit "www.example.") TypeA (Ok upstream) (mkDb ∅ ∅) in
  let second := handle_request all_ok (seconds 20) 0 plain (lit "www.example") TypeA (Err tt) (steps (snd first) [Clean true (seconds 19)]) in
  fst first = mkResponse plain upstream /\
  fst second = mkResponse plain [mkRecord (lit "www.example") 300 (RA [198; 51; 100; 4])].
Proof.
  intros first second.
  assert (lookup_cache_a_record true 0 (mkDb ∅ ∅) (lit "www.example.") = None) as P1 by (vm_compute; reflexivity).
  assert (is_ipv4 [198; 51; 100; 4]) as P2 by (split; [reflexivity|repeat constructor; done]).
  assert (in_range (seconds 1 + seconds 30)) as P3 by (cbn; unfold seconds; lia).
  assert (Forall (fun l => match l with Clean _ n => in_range n /\ n <= seconds 20 | _ => True end) [Clean true (seconds 19)]) as P4
    by (apply Forall_singleton; unfold seconds; cbn; lia).
  assert (clean (lit "www.example") = clean (lit "www.example.")) as P5 by (vm_compute; reflexivity).
  assert (Forall (fun l => updates_domain (lit "www.example.") l = false) [Clean true (seconds 19)]) as P6 by (by repeat constructor).
  assert (Forall (fun l => saves_domain (lit "www.example.") l = false) [Clean true (seconds 19)]) as P7 by (by repeat constructor).
  destruct (cached_answer_lifetime (mkDb ∅ ∅) all_ok 0 (seconds 1) plain (lit "www.example.") upstream [198; 51; 100; 4] 30
    [Clean true (seconds 19)] all_ok (seconds 20) 0 plain (lit "www.example") (Err tt)
    P1 eq_refl P2 eq_refl P3 (lookup_empty _) P6 P7 P4 P5 eq_refl) as (H1 & H2 & _).
  split; [exact H1|]. unfold second, first. rewrite H2; [reflexivity|]. unfold seconds. lia.
Defined.

(** A life, a second one whose endpoint has no port, and a start that fails. *)
Definition demo_lives : list (launch * list label) :=
  [(mkLaunch true true true true, [Update true (lit "a.example.") (lit "192.0.2.1"); Update true (lit "b") (lit "300.0.0.1")]);
   (mkLaunch true true false true, [Update true (lit "c") (lit "192.0.2.3"); Clean true (seconds 60)]);
   (mkLaunch true false true true, [Update true (lit "d") (lit "192.0.2.4")])].

Lemma database_invariant_witness :
  let db := lives (mkDb ∅ ∅) demo_lives in
  db_ok db /\ map_to_list (dns_records (snd (handle_request all_ok 0 0 plain (lit "www.example.") TypeA (Ok upstream) db))) =
    [(lit "a.example", mkRecordRow (lit "A") (lit "192.0.2.1"))].
Proof.
  intros db. destruct (database_invariant demo_lives
    all_ok 0 0 plain (lit "www.example.") TypeA (Ok upstream)) as (H1 & _ & _ & H2 & _).
  - repeat constructor.
  - intros ip t [= <- <-]. split; [split; [reflexivity|repeat constructor; done]|]. cbn. unfold seconds. lia.
  - split; [exact H1|]. unfold db. rewrite H2. vm_compute. reflexivity.
Defined.
