(* ===== verification/HlWebsocket.v ===== *)
(** The WebSocket cluster node of [src/hl_websocket_server/src/main.rs]: its
    sessions, their reader and writer tasks, the table of connections and the
    broadcast over Redis.  A cluster is several nodes on one channel. *)
From S2P Require Import Prelude Bytes Concurrency.

Inductive ClientMessage :=
| Ping
| Auth (user_id : Z) (token : bytes)
| Broadcast (text : bytes).

Inductive ServerMessage :=
| Pong
| Welcome (session_id : Z)
| Notification (from_user : Z) (text : bytes)
| ErrorMessage (code : Z) (msg : bytes).

#[export] Instance ServerMessage_eq_dec : EqDecision ServerMessage.
Proof. solve_decision. Defined.

(** What is written to a client's socket. *)
Inductive WsMessage := Binary (b : bytes) | WsPing.

(** [postcard]: what is serialized is read back. *)
Class Postcard := {
  to_allocvec : ServerMessage -> option bytes;
  from_bytes : bytes -> option ServerMessage;
  client_from_bytes : bytes -> option ClientMessage;
  from_to : forall m b, to_allocvec m = Some b -> from_bytes b = Some m;
}.

(** How far [handle_connection] has come: before the handshake; entered in
    the table; both tasks running; the reader alone, after the writer gave
    up; returned. *)
Inductive phase := Accepted | Entered | Running | WriterGone | Ended.

#[export] Instance phase_eq_dec : EqDecision phase.
Proof. solve_decision. Defined.

(** A session: its phase, what its channel holds and what its socket got. *)
Record session := mkSession { ph : phase; rx : list ServerMessage; socket : list WsMessage }.

(** A node: the counter of [async_main], the keys of [connections], the
    sessions, and the listener: subscribed or not, with the payloads its
    stream holds. *)
Record node := mkNode {
  session_counter : Z;
  connections : gset Z;
  sessions : gmap Z session;
  subscribed : bool;
  stream : list bytes;
}.
Abbreviation cluster := (gmap nat node).

(** What the read loop of a session sees. *)
Inductive incoming := BinaryFrame (b : bytes) | OtherFrame | CloseFrame | NetworkEnd | TimedOut.

Section node.
Context {P : Postcard}.

(** [sender.send(..)]: the message is kept while the receiver exists, that is
    until [handle_connection] and the writer are gone. *)
Definition receiver_alive (p : phase) : bool :=
  match p with Entered | Running => true | _ => false end.
Definition send (m : ServerMessage) (s : session) : session :=
  if receiver_alive (ph s) then mkSession (ph s) (rx s ++ [m]) (socket s) else s.

Definition update_session (n : node) (i : Z) (f : session -> session) : node :=
  mkNode (session_counter n) (connections n) (alter f i (sessions n)) (subscribed n) (stream n).
Definition set_connections (n : node) (c : gset Z) : node :=
  mkNode (session_counter n) c (sessions n) (subscribed n) (stream n).
Definition set_phase (p : phase) (s : session) : session := mkSession p (rx s) (socket s).
Definition write (m : WsMessage) (s : session) : session := mkSession (ph s) (rx s) (socket s ++ [m]).

(** [listener.accept()] *)
Definition accept (n : node) : node :=
  let id := session_counter n + 1 in
  mkNode id (connections n) (<[id := mkSession Accepted [] []]> (sessions n)) (subscribed n) (stream n).

(** [accept_async(stream).await?] and the insertion. *)
Definition handshake (ok : bool) (i : Z) (n : node) : node :=
  if ok then set_connections (update_session n i (set_phase Entered)) ({[i]} ∪ connections n)
  else update_session n i (set_phase Ended).

(** The welcome: an error of either [?] leaves the function. *)
Definition welcome (ok : bool) (i : Z) (n : node) : node :=
  match to_allocvec (Welcome i) with
  | Some b =>
      if ok then update_session n i (fun s => set_phase Running (write (Binary b) s))
      else update_session n i (set_phase Ended)
  | None => update_session n i (set_phase Ended)
  end.

(** The writer gives up: it closes the socket and removes the entry. *)
Definition writer_stops (i : Z) (n : node) : node :=
  set_connections (update_session n i (set_phase WriterGone)) (connections n ∖ {[i]}).

(** [Some(message) = rx.recv()] *)
Definition writer_recv (ok : bool) (i : Z) (n : node) : node :=
  match sessions n !! i with
  | Some s =>
      match rx s with
      | message :: rest =>
          let n := update_session n i (fun s => mkSession (ph s) rest (socket s)) in
          match to_allocvec message with
          | Some b => if ok then update_session n i (write (Binary b)) else writer_stops i n
          | None => n
          end
      | [] => n
      end
  | None => n
  end.

(** [heartbeat_ticker.tick()] *)
Definition writer_tick (ok : bool) (i : Z) (n : node) : node :=
  if ok then update_session n i (write WsPing) else writer_stops i n.

(** The end of [handle_connection]: the entry is removed, the writer aborted. *)
Definition reader_stops (i : Z) (n : node) : node :=
  set_connections (update_session n i (set_phase Ended)) (connections n ∖ {[i]}).

(** [process_message]: the node afterwards and what is published. *)
Definition process_message (redis_ok : bool) (sender_id : Z) (msg : ClientMessage) (n : node) : node * option bytes :=
  match msg with
  | Ping => if decide (sender_id ∈ connections n) then (update_session n sender_id (send Pong), None) else (n, None)
  | Auth _ _ => (n, None)
  | Broadcast text =>
      match to_allocvec (Notification sender_id text) with
      | Some payload => (n, if redis_ok then Some payload else None)
      | None => (n, None)
      end
  end.

(** One turn of the read loop. *)
Definition read (redis_ok : bool) (i : Z) (inc : incoming) (n : node) : node * option bytes :=
  match inc with
  | BinaryFrame b =>
      match client_from_bytes b with
      | Some client_msg => process_message redis_ok i client_msg n
      | None => (n, None)
      end
  | OtherFrame => (n, None)
  | CloseFrame | NetworkEnd | TimedOut => (reader_stops i n, None)
  end.

(** The listener handles one message of its stream. *)
Definition origin_sender (m : ServerMessage) : Z :=
  match m with Notification from_user _ => from_user | _ => 0 end.
Definition broadcast_local (server_msg : ServerMessage) (n : node) : node :=
  mkNode (session_counter n) (connections n)
    (map_imap (fun i s => Some (if decide (i ∈ connections n /\ i <> origin_sender server_msg) then send server_msg s else s)) (sessions n))
    (subscribed n) (stream n).
Definition listen (n : node) : node :=
  match stream n with
  | payload :: rest =>
      let n := mkNode (session_counter n) (connections n) (sessions n) (subscribed n) rest in
      match from_bytes payload with
      | Some server_msg => broadcast_local server_msg n
      | None => n
      end
  | [] => n
  end.

(** Redis: a published payload reaches the nodes that are subscribed. *)
Definition publish (payload : option bytes) (c : cluster) : cluster :=
  match payload with
  | Some b =>
      (fun n => if subscribed n
                then mkNode (session_counter n) (connections n) (sessions n) true (stream n ++ [b]) else n) <$> c
  | None => c
  end.

(** ** The cluster as a transition system *)
Inductive label :=
| LAccept
| LHandshake (ok : bool) (i : Z)
| LWelcome (ok : bool) (i : Z)
| LWriterRecv (ok : bool) (i : Z)
| LWriterTick (ok : bool) (i : Z)
| LRead (redis_ok : bool) (i : Z) (inc : incoming)
| LListen
| LSubscribe
| LConnectionLost.

Definition phase_of (n : node) (i : Z) : option phase := ph <$> sessions n !! i.

(** Whether the node can take the step. *)
Definition enabled (n : node) (l : label) : bool :=
  match l with
  | LAccept => session_counter n <? u64_max
  | LHandshake _ i => bool_decide (phase_of n i = Some Accepted)
  | LWelcome _ i => bool_decide (phase_of n i = Some Entered)
  | LWriterRecv _ i | LWriterTick _ i => bool_decide (phase_of n i = Some Running)
  | LRead _ i _ => bool_decide (phase_of n i = Some Running \/ phase_of n i = Some WriterGone)
  | LListen => subscribed n
  | LSubscribe => negb (subscribed n)
  | LConnectionLost => subscribed n
  end.

Definition node_step (l : label) (n : node) : node * option bytes :=
  match l with
  | LAccept => (accept n, None)
  | LHandshake ok i => (handshake ok i n, None)
  | LWelcome ok i => (welcome ok i n, None)
  | LWriterRecv ok i => (writer_recv ok i n, None)
  | LWriterTick ok i => (writer_tick ok i n, None)
  | LRead redis_ok i inc => read redis_ok i inc n
  | LListen => (listen n, None)
  | LSubscribe => (mkNode (session_counter n) (connections n) (sessions n) true [], None)
  | LConnectionLost => (mkNode (session_counter n) (connections n) (sessions n) false [], None)
  end.

Definition step (k : nat) (l : label) (c : cluster) : option cluster :=
  n ← c !! k;
  if enabled n l then
    let (n', payload) := node_step l n in Some (publish payload (<[k := n']> c))
  else None.

(** An error of [accept] ends the loop of [async_main] and with it the process:
    its runtime drops the listener and every session's tasks. *)
Inductive event := Task (l : label) | AcceptError.
Definition cluster_step (e : nat * event) (c : cluster) : option cluster :=
  match e with
  | (k, Task l) => step k l c
  | (k, AcceptError) => _ ← c !! k; Some (delete k c)
  end.

Definition run (ls : list (nat * event)) (c : cluster) : option cluster := exec cluster_step ls c.

Definition initial_node : node := mkNode 0 ∅ ∅ false [].

(** The start of a node: whether the runtime, the listener, the Redis manager
    and its pool can be made; any failure ends [main]. *)
Record launch := mkLaunch { runtime : bool; bind : bool; manager : bool; pool : bool }.
Definition async_main (e : launch) : option node :=
  if runtime e && bind e && manager e && pool e then Some initial_node else None.

(** The cluster of the nodes that started. *)
Definition initial (es : list launch) : cluster :=
  list_to_map (omap (fun ke : nat * launch => pair ke.1 <$> async_main ke.2) (zip (seq 0 (length es)) es)).

End node.

(** ** Invariant *)
Section invariant.
Context {P : Postcard}.

(** The first thing a client gets is its welcome. *)
Definition welcomed (i : Z) (s : session) : Prop :=
  exists b, to_allocvec (Welcome i) = Some b /\ head (socket s) = Some (Binary b).

Definition sess_ok (conn : gset Z) (i : Z) (s : session) : Prop :=
  match ph s with
  | Accepted => (i ∉ conn) /\ socket s = []
  | Entered => i ∈ conn /\ socket s = []
  | Running => i ∈ conn /\ welcomed i s
  | WriterGone => (i ∉ conn) /\ welcomed i s
  | Ended => i ∈ conn -> socket s = []
  end.

Definition node_ok (n : node) : Prop :=
  (forall i, is_Some (sessions n !! i) <-> 1 <= i <= session_counter n) /\
  (forall i, i ∈ connections n -> is_Some (sessions n !! i)) /\
  (forall i s, sessions n !! i = Some s -> sess_ok (connections n) i s).

Lemma sess_ok_conn conn conn' i s : (i ∈ conn <-> i ∈ conn') -> sess_ok conn i s -> sess_ok conn' i s.
Proof. unfold sess_ok. intros Hc. destruct (ph s); rewrite Hc; done. Qed.

(** One session and its own entry change. *)
Lemma node_ok_alter n i s f conn : node_ok n -> sessions n !! i = Some s ->
  (forall j, j <> i -> j ∈ conn <-> j ∈ connections n) -> sess_ok conn i (f s) ->
  node_ok (set_connections (update_session n i f) conn).
Proof.
  intros (Hr & Hc & Hs) Hi Hconn Hok. unfold node_ok, set_connections, update_session. cbn. split; [|split].
  - intros j. rewrite <- Hr. rewrite lookup_alter_is_Some. done.
  - intros j Hj. rewrite lookup_alter_is_Some. destruct (decide (j = i)) as [->|Hne]; [by eexists|].
    apply Hc. by apply Hconn.
  - intros j s' Hj. destruct (decide (i = j)) as [->|Hne].
    + rewrite lookup_alter_eq, Hi in Hj. by injection Hj as <-.
    + rewrite lookup_alter_ne in Hj by done. apply Hs in Hj. eapply sess_ok_conn; [|exact Hj]. symmetry. by apply Hconn.
Qed.

Lemma node_ok_update n i s f : node_ok n -> sessions n !! i = Some s -> sess_ok (connections n) i (f s) ->
  node_ok (update_session n i f).
Proof.
  intros Hn Hi Hok. assert (update_session n i f = set_connections (update_session n i f) (connections n)) as -> by done.
  by eapply node_ok_alter.
Qed.

Lemma node_ok_stream n sub st : node_ok n -> node_ok (mkNode (session_counter n) (connections n) (sessions n) sub st).
Proof. done. Qed.

Lemma sess_ok_send conn i m s : sess_ok conn i s -> sess_ok conn i (send m s).
Proof. unfold sess_ok, send, welcomed. by destruct s as [[] r k]. Qed.

Lemma phase_lookup n i p : phase_of n i = Some p -> exists s, sessions n !! i = Some s /\ ph s = p.
Proof. unfold phase_of. destruct (sessions n !! i) as [s|]; [|done]. intros [= <-]. by exists s. Qed.

Lemma welcomed_write i m s : welcomed i s -> welcomed i (write m s).
Proof. intros (b & Hb & Hh). exists b. split; [done|]. cbn. by destruct (socket s). Qed.

Lemma writer_stops_ok n i s : node_ok n -> sessions n !! i = Some s -> welcomed i s -> node_ok (writer_stops i n).
Proof.
  intros Hn Hi Hw. eapply node_ok_alter; [done..| |].
  - intros j Hj. set_solver.
  - cbn. split; [set_solver|done].
Qed.

Lemma reader_stops_ok n i s : node_ok n -> sessions n !! i = Some s -> node_ok (reader_stops i n).
Proof.
  intros Hn Hi. eapply node_ok_alter; [done..| |].
  - intros j Hj. set_solver.
  - cbn. intros Hin. set_solver.
Qed.

Lemma accept_ok n : node_ok n -> 0 <= session_counter n -> node_ok (accept n).
Proof.
  intros (Hr & Hc & Hs) H0. unfold node_ok, accept. cbn.
  assert (sessions n !! (session_counter n + 1) = None) as Hnew.
  { destruct (sessions n !! (session_counter n + 1)) eqn:E; [|done].
    assert (1 <= session_counter n + 1 <= session_counter n) by (apply Hr; by eexists). lia. }
  split; [|split].
  - intros j. rewrite lookup_insert_is_Some, Hr. lia.
  - intros j Hj. apply lookup_insert_is_Some'. right. by apply Hc.
  - intros j s Hj. destruct (decide (j = session_counter n + 1)) as [->|Hne].
    + rewrite lookup_insert_eq in Hj. injection Hj as <-. cbn. split; [|done]. intros Hin.
      apply Hc in Hin. rewrite Hnew in Hin. by destruct Hin.
    + rewrite lookup_insert_ne in Hj by done. by apply Hs.
Qed.

Lemma broadcast_local_lookup m n i : sessions (broadcast_local m n) !! i =
  (fun s => if decide (i ∈ connections n /\ i <> origin_sender m) then send m s else s) <$> sessions n !! i.
Proof. unfold broadcast_local. cbn. rewrite map_lookup_imap. by destruct (sessions n !! i). Qed.

Lemma broadcast_local_ok m n : node_ok n -> node_ok (broadcast_local m n).
Proof.
  intros (Hr & Hc & Hs). unfold node_ok. change (connections (broadcast_local m n)) with (connections n).
  change (session_counter (broadcast_local m n)) with (session_counter n). split; [|split].
  - intros i. by rewrite broadcast_local_lookup, fmap_is_Some.
  - intros i Hi. rewrite broadcast_local_lookup, fmap_is_Some. by apply Hc.
  - intros i s. rewrite broadcast_local_lookup. destruct (sessions n !! i) as [s0|] eqn:E; [|done].
    intros [= <-]. apply Hs in E. case_decide; [by apply sess_ok_send|done].
Qed.

Lemma hl_node_step_ok l n : node_ok n -> 0 <= session_counter n -> enabled n l = true ->
  node_ok (fst (node_step l n)) /\ 0 <= session_counter (fst (node_step l n)).
Proof.
  intros Hn H0 He.
  destruct l as [|ok i|ok i|ok i|ok i|rok i inc| | |]; cbn [enabled node_step fst] in *; try (apply bool_decide_eq_true in He).
  - split; [by apply accept_ok|cbn; lia].
  - apply phase_lookup in He as (s & Hi & Hp). pose proof (proj2 (proj2 Hn) i s Hi) as Hso. unfold sess_ok in Hso. rewrite Hp in Hso.
    unfold handshake. destruct ok; (split; [|done]).
    + eapply node_ok_alter; [done..|set_solver|]. cbn. set_solver.
    + eapply node_ok_update; [done..|]. cbn. tauto.
  - apply phase_lookup in He as (s & Hi & Hp). pose proof (proj2 (proj2 Hn) i s Hi) as Hso. unfold sess_ok in Hso. rewrite Hp in Hso.
    unfold welcome. destruct (to_allocvec (Welcome i)) as [b|] eqn:Eb; [destruct ok|]; (split; [|done]);
      (eapply node_ok_update; [done..|]); cbn; try tauto.
    split; [tauto|]. exists b. split; [done|]. cbn. by rewrite (proj2 Hso).
  - apply phase_lookup in He as (s & Hi & Hp). pose proof (proj2 (proj2 Hn) i s Hi) as Hso. unfold sess_ok in Hso. rewrite Hp in Hso.
    destruct Hso as [Hin Hw]. unfold writer_recv. rewrite Hi. destruct (rx s) as [|m rest]; [done|].
    set (n1 := update_session n i _). assert (node_ok n1) as Hn1.
    { eapply node_ok_update; [done..|]. unfold sess_ok. cbn. by rewrite Hp. }
    assert (sessions n1 !! i = Some (mkSession (ph s) rest (socket s))) as Hi1 by (unfold n1; cbn; by rewrite lookup_alter_eq, Hi).
    destruct (to_allocvec m) as [b|]; [destruct ok|done]; (split; [|done]).
    + eapply node_ok_update; [done..|]. unfold sess_ok. cbn. rewrite Hp. split; [done|]. by apply (welcomed_write i (Binary b) (mkSession (ph s) rest (socket s))).
    + by eapply writer_stops_ok.
  - apply phase_lookup in He as (s & Hi & Hp). pose proof (proj2 (proj2 Hn) i s Hi) as Hso. unfold sess_ok in Hso. rewrite Hp in Hso.
    destruct Hso as [Hin Hw]. unfold writer_tick. destruct ok; (split; [|done]).
    + eapply node_ok_update; [done..|]. unfold sess_ok. cbn. rewrite Hp. split; [done|]. by apply (welcomed_write i WsPing).
    + by eapply writer_stops_ok.
  - assert (exists s, sessions n !! i = Some s) as (s & Hi) by (destruct He as [He|He]; apply phase_lookup in He as (s & ? & _); eauto).
    unfold read. destruct inc as [b| | | |]; try (split; [by eapply reader_stops_ok|done]); [|done].
    destruct (client_from_bytes b) as [[|u t|text]|]; cbn; try done.
    + case_decide; [|done]. split; [|done]. eapply node_ok_update; [done..|]. apply sess_ok_send. by apply Hn.
    + by destruct (to_allocvec _).
  - unfold listen. destruct (stream n) as [|b rest]; [done|]. destruct (from_bytes b) as [m|]; [|done].
    split; [|done]. apply broadcast_local_ok. by apply node_ok_stream.
  - done.
  - done.
Qed.

Definition cluster_ok (c : cluster) : Prop := forall k n, c !! k = Some n -> node_ok n /\ 0 <= session_counter n.

Lemma hl_step_ok k l c c' : cluster_ok c -> step k l c = Some c' -> cluster_ok c'.
Proof.
  intros Hc. unfold step. destruct (c !! k) as [n|] eqn:Hk; [|done]. cbn. destruct (enabled n l) eqn:He; [|done].
  destruct (Hc k n Hk) as [Hn H0]. pose proof (hl_node_step_ok l n Hn H0 He) as Hn'.
  destruct (node_step l n) as [n' payload]. intros [= <-]. cbn in Hn'.
  assert (cluster_ok (<[k := n']> c)) as Hc'.
  { intros j m Hj. destruct (decide (j = k)) as [->|Hne].
    - rewrite lookup_insert_eq in Hj. by injection Hj as <-.
    - rewrite lookup_insert_ne in Hj by done. by eapply Hc. }
  destruct payload as [b|]; [|done]. cbn. intros j m Hj. rewrite lookup_fmap in Hj.
  destruct (<[k := n']> c !! j) as [m0|] eqn:Ej; [|done]. injection Hj as <-. apply Hc' in Ej. by destruct (subscribed m0).
Qed.

Lemma cluster_step_ok e c c' : cluster_ok c -> cluster_step e c = Some c' -> cluster_ok c'.
Proof.
  destruct e as [k [l|]]; [apply hl_step_ok|]. intros Hc. cbn. destruct (c !! k) as [m|]; [|done]. intros [= <-] j n.
  intros [_ Hj]%lookup_delete_Some. by apply (Hc j).
Qed.

Lemma run_ok ls c c' : cluster_ok c -> run ls c = Some c' -> cluster_ok c'.
Proof. apply exec_invariant. apply cluster_step_ok. Qed.

Lemma initial_ok es : cluster_ok (initial es).
Proof.
  intros k n Hk. unfold initial in Hk. apply elem_of_list_to_map_2, list_elem_of_omap in Hk as ([j e] & _ & Hn).
  cbn in Hn. unfold async_main in Hn. destruct (_ && _); [|done]. injection Hn as _ <-.
  split; [|done]. unfold node_ok, initial_node. cbn. split; [|split].
  - intros i. rewrite lookup_empty. split; [by intros []|lia].
  - set_solver.
  - intros i s. by rewrite lookup_empty.
Qed.

End invariant.

(** ** Properties *)
Section properties.
Context {P : Postcard}.

(** A session that has returned with its entry still in the table. *)
Definition leaked (n : node) (i : Z) : Prop := phase_of n i = Some Ended /\ i ∈ connections n.

Lemma leaked_alter n i j f conn : leaked n i -> j <> i -> i ∈ conn -> leaked (set_connections (update_session n j f) conn) i.
Proof. intros [Hp Hc] Hj Hin. split; [|done]. unfold phase_of in *. cbn. by rewrite lookup_alter_ne. Qed.

Lemma leaked_update n i j f : leaked n i -> j <> i -> leaked (update_session n j f) i.
Proof. intros Hl Hj. apply (leaked_alter n i j f (connections n)); [done..|]. apply Hl. Qed.

Lemma leaked_node_step l n i : node_ok n -> enabled n l = true -> leaked n i -> leaked (fst (node_step l n)) i.
Proof.
  intros Hn He Hl. pose proof Hl as [Hp Hc].
  assert (forall j p, phase_of n j = Some p -> p <> Ended -> j <> i) as Hne by (intros j p Hj Hpe ->; congruence).
  destruct l as [|ok j|ok j|ok j|ok j|rok j inc| | |]; cbn [enabled node_step fst] in *; try (apply bool_decide_eq_true in He); try done.
  - split; [|done]. unfold phase_of, accept. cbn. rewrite lookup_insert_ne; [done|]. intros Heq.
    assert (1 <= i <= session_counter n) by (apply Hn; unfold phase_of in Hp; destruct (sessions n !! i); [by eexists|done]). lia.
  - apply Hne in He; [|done]. unfold handshake. destruct ok; [apply leaked_alter; [done..|set_solver]|by apply leaked_update].
  - apply Hne in He; [|done]. unfold welcome. destruct (to_allocvec _); [destruct ok|]; by apply leaked_update.
  - apply Hne in He; [|done]. unfold writer_recv. destruct (sessions n !! j) as [s|]; [|done]. destruct (rx s); [done|].
    assert (forall f, leaked (update_session n j f) i) as Hu by (intros; by apply leaked_update).
    destruct (to_allocvec _); [destruct ok; [by apply leaked_update|]|done].
    apply leaked_alter; [done..|]. cbn. set_solver.
  - apply Hne in He; [|done]. unfold writer_tick. destruct ok; [by apply leaked_update|]. apply leaked_alter; [done..|set_solver].
  - assert (j <> i) as Hj by (destruct He as [He|He]; by eapply Hne). unfold read.
    assert (leaked (reader_stops j n) i) as Hstop by (apply leaked_alter; [done..|set_solver]).
    destruct inc as [b| | | |]; [|exact Hl|exact Hstop..].
    destruct (client_from_bytes b) as [[|u t|text]|]; [|exact Hl| |exact Hl]; cbn.
    + destruct (decide _); [by apply leaked_update|exact Hl].
    + by destruct (to_allocvec _).
  - unfold listen. destruct (stream n) as [|b st]; [done|]. destruct (from_bytes b) as [m|]; [|done]. split; [|done].
    unfold phase_of in *. rewrite broadcast_local_lookup. cbn. destruct (sessions n !! i) as [s|]; [|done]. cbn.
    injection Hp as Hp. case_decide; [|by rewrite Hp]. unfold send. by rewrite Hp; cbn; rewrite Hp.
Qed.

(** On the node [j] while it is up. *)
Definition leaked_on (j : nat) (i : Z) (c : cluster) : Prop := forall n, c !! j = Some n -> leaked n i.

Lemma leaked_step e c c' j i : cluster_ok c -> leaked_on j i c -> cluster_step e c = Some c' -> leaked_on j i c'.
Proof.
  intros Hok Hl. destruct e as [k [l|]]; cbn.
  2:{ destruct (c !! k) as [m|]; [|done]. intros [= <-] n [_ Hn]%lookup_delete_Some. auto. }
  unfold step. destruct (c !! k) as [m|] eqn:Hk; [|done]. cbn. destruct (enabled m l) eqn:He; [|done].
  destruct (Hok k m Hk) as [Hm _]. pose proof (leaked_node_step l m i Hm He) as Hstep.
  destruct (node_step l m) as [m' payload]. intros [= <-]. cbn in Hstep.
  assert (leaked_on j i (<[k := m']> c)) as Hl'.
  { intros n Hn. destruct (decide (j = k)) as [->|Hne].
    - rewrite lookup_insert_eq in Hn. injection Hn as <-. auto.
    - rewrite lookup_insert_ne in Hn by done. auto. }
  destruct payload as [b|]; [|done]. cbn. intros n Hn. rewrite lookup_fmap in Hn.
  destruct (<[k := m']> c !! j) as [m0|] eqn:Ej; [|done]. injection Hn as <-. apply Hl' in Ej. by destruct (subscribed m0).
Qed.

Lemma leaked_run ls c c' j i : cluster_ok c -> leaked_on j i c -> run ls c = Some c' -> leaked_on j i c'.
Proof.
  intros Hc Hl. unfold run. intros Hr.
  apply (exec_invariant cluster_step (fun c => cluster_ok c /\ leaked_on j i c)) with ls c; [|done|done].
  intros e c1 c2 [Hc1 Hl1] He. split; [by eapply cluster_step_ok|by eapply leaked_step].
Qed.

(** A welcome that cannot be made or sent leaves the entry in the table. *)
Lemma failed_welcome_leaks c k n i ok c' n' : cluster_ok c -> c !! k = Some n -> (ok = false \/ to_allocvec (Welcome i) = None) ->
  step k (LWelcome ok i) c = Some c' -> c' !! k = Some n' -> leaked n' i.
Proof.
  intros Hc Hk Hf Hstep Hk'. unfold step in Hstep. rewrite Hk in Hstep. cbn in Hstep.
  case_bool_decide as He; [|done]. injection Hstep as <-. rewrite lookup_insert_eq in Hk'. injection Hk' as <-.
  apply phase_lookup in He as (s & Hi & Hp). destruct (Hc k n Hk) as [(_ & _ & Hs) _].
  pose proof (Hs i s Hi) as Hok. unfold sess_ok in Hok. rewrite Hp in Hok.
  assert (welcome ok i n = update_session n i (set_phase Ended)) as ->.
  { unfold welcome. destruct Hf as [->| ->]; [by destruct (to_allocvec _)|done]. }
  split; [|apply Hok]. unfold phase_of. cbn. by rewrite lookup_alter_eq, Hi.
Qed.

(** C9. The table of connections, on every node that started, after any run of the
    cluster: sessions are numbered from 1 without gaps; a session whose tasks
    run has its entry and got its welcome before anything else; a session
    whose writer gave up, or that has not finished the handshake, has none;
    no entry is without a session.  An entry outlives its session only when
    the session returned before anything was written to its client; every
    welcome that cannot be made or sent does leave its session's entry behind,
    and such an entry is never removed while the node is up. *)
Theorem connections_invariant launches ls c k n : run ls (initial launches) = Some c -> c !! k = Some n ->
  (forall i, is_Some (sessions n !! i) <-> 1 <= i <= session_counter n) /\
  (forall i, i ∈ connections n -> is_Some (sessions n !! i)) /\
  (forall i s, sessions n !! i = Some s ->
     match ph s with
     | Accepted => i ∉ connections n
     | Entered => i ∈ connections n
     | Running => i ∈ connections n /\ welcomed i s
     | WriterGone => (i ∉ connections n) /\ welcomed i s
     | Ended => i ∈ connections n -> socket s = []
     end) /\
  (forall i ok c' n', ok = false \/ to_allocvec (Welcome i) = None ->
     cluster_step (k, Task (LWelcome ok i)) c = Some c' -> c' !! k = Some n' -> leaked n' i) /\
  (forall i, leaked n i -> forall ls' c' n', run ls' c = Some c' -> c' !! k = Some n' -> i ∈ connections n').
Proof.
  intros Hrun Hk. pose proof (run_ok _ _ _ (initial_ok launches) Hrun) as Hc. destruct (Hc k n Hk) as [(Hr & Hcon & Hs) _].
  split; [done|]. split; [done|]. split; [|split].
  - intros i s Hi. pose proof (Hs i s Hi) as Hok. unfold sess_ok in Hok. destruct (ph s); tauto.
  - intros i ok c' n' Hf Hstep Hk'. by apply (failed_welcome_leaks c k n i ok c' n').
  - intros i Hl ls' c' n' Hrun' Hk'.
    apply (leaked_run ls' c c' k i Hc); [|done..]. intros m Hm. congruence.
Qed.

(** C39. Who gets a broadcast: in any reachable cluster, when a session's
    broadcast frame is read on one node and another (or the same) subscribed
    node with nothing else waiting handles it, every session there whose
    tasks run has exactly that notification appended to its channel, except
    the session with the sender's number: on the sender's node that is the
    sender, on any other node it is an unrelated client that is skipped. *)
Theorem broadcast_delivery launches ls c k j i b text payload c1 c2 nj nj2 :
  run ls (initial launches) = Some c ->
  client_from_bytes b = Some (Broadcast text) -> to_allocvec (Notification i text) = Some payload ->
  step k (LRead true i (BinaryFrame b)) c = Some c1 ->
  c !! j = Some nj -> subscribed nj = true -> stream nj = [] ->
  step j LListen c1 = Some c2 -> c2 !! j = Some nj2 ->
  stream nj2 = [] /\ connections nj2 = connections nj /\
  forall t s, sessions nj !! t = Some s ->
    sessions nj2 !! t = Some (if decide ((ph s = Entered \/ ph s = Running) /\ t <> i)
                              then mkSession (ph s) (rx s ++ [Notification i text]) (socket s) else s).
Proof.
  intros Hrun Hb Hp Hs1 Hj Hsub Hst Hs2 Hj2. pose proof (run_ok _ _ _ (initial_ok launches) Hrun) as Hc.
  destruct (Hc j nj Hj) as [(_ & _ & Hok) _].
  assert (c1 !! j = Some (mkNode (session_counter nj) (connections nj) (sessions nj) true [payload])) as Hj1.
  { unfold step in Hs1. destruct (c !! k) as [m|] eqn:Hk; [|done]. cbn in Hs1. destruct (bool_decide _); [|done].
    rewrite Hb in Hs1. cbn in Hs1. rewrite Hp in Hs1. injection Hs1 as <-. rewrite lookup_fmap.
    rewrite insert_id by done. rewrite Hj. cbn. by rewrite Hsub, Hst. }
  unfold step in Hs2. rewrite Hj1 in Hs2. cbn in Hs2. injection Hs2 as <-. rewrite lookup_insert_eq in Hj2. injection Hj2 as <-.
  rewrite (from_to _ _ Hp). split; [done|]. split; [done|]. intros t s Ht. rewrite broadcast_local_lookup. cbn. rewrite Ht. cbn. f_equal.
  pose proof (Hok t s Ht) as Hso. unfold sess_ok in Hso. unfold send.
  destruct (ph s) eqn:E; cbn; repeat case_decide; try done; naive_solver.
Qed.

End properties.

(** ** Witnesses *)

(** A tag, then the fields. *)
Definition tag_encode (m : ServerMessage) : option bytes :=
  Some match m with
       | Pong => [0] | Welcome i => [1; i] | Notification i t => 2 :: i :: t | ErrorMessage c t => 3 :: c :: t
       end.
Definition tag_decode (b : bytes) : option ServerMessage :=
  match b with
  | [0] => Some Pong | [1; i] => Some (Welcome i) | 2 :: i :: t => Some (Notification i t)
  | 3 :: c :: t => Some (ErrorMessage c t) | _ => None
  end.
Definition tag_decode_client (b : bytes) : option ClientMessage :=
  match b with
  | [0] => Some Ping | 1 :: u :: t => Some (Auth u t) | 2 :: t => Some (Broadcast t) | _ => None
  end.

Lemma tag_round_trip m b : tag_encode m = Some b -> tag_decode b = Some m.
Proof. intros [= <-]. by destruct m. Qed.

#[export] Instance tagged_postcard : Postcard := {|
  to_allocvec := tag_encode; from_bytes := tag_decode; client_from_bytes := tag_decode_client; from_to := tag_round_trip;
|}.

(** A session whose welcome fails. *)
Definition failed_welcome : list (nat * event) := [(0%nat, Task LAccept); (0%nat, Task (LHandshake true 1)); (0%nat, Task (LWelcome false 1))].
Definition up (size : nat) : list launch := replicate size (mkLaunch true true true true).
Definition after (size : nat) (ls : list (nat * event)) : cluster := default ∅ (run ls (initial (up size))).

Lemma connections_invariant_witness :
  run failed_welcome (initial (up 1)) = Some (after 1 failed_welcome) /\
  exists n n', after 1 failed_welcome !! 0%nat = Some n /\ leaked n 1 /\
    run [(0%nat, Task LAccept); (0%nat, Task (LHandshake true 2))] (after 1 failed_welcome) = Some (<[0%nat := n']> ∅) /\
    1 ∈ connections n'.
Proof.
  assert (run failed_welcome (initial (up 1)) = Some (after 1 failed_welcome)) as Hr by (vm_compute; reflexivity).
  split; [exact Hr|].
  exists (mkNode 1 {[1]} {[1 := mkSession Ended [] []]} false []).
  exists (mkNode 2 {[2; 1]} {[1 := mkSession Ended [] []; 2 := mkSession Entered [] []]} false []).
  assert (after 1 failed_welcome !! 0%nat = Some (mkNode 1 {[1]} {[1 := mkSession Ended [] []]} false [])) as Hk
    by (vm_compute; reflexivity).
  assert (leaked (mkNode 1 {[1]} {[1 := mkSession Ended [] []]} false []) 1) as Hl.
  { split; [reflexivity|]. by_evaluation. }
  split; [exact Hk|]. split; [exact Hl|].
  assert (run [(0%nat, Task LAccept); (0%nat, Task (LHandshake true 2))] (after 1 failed_welcome) =
    Some (<[0%nat := mkNode 2 {[2; 1]} {[1 := mkSession Ended [] []; 2 := mkSession Entered [] []]} false []]> ∅)) as Hr2
    by (vm_compute; reflexivity).
  split; [exact Hr2|].
  destruct (connections_invariant (up 1) failed_welcome _ 0 _ Hr Hk) as (_ & _ & _ & _ & Hleak).
  exact (Hleak 1 Hl _ _ _ Hr2 (lookup_insert_eq _ _ _)).
Defined.

(** Two nodes with a session each, both numbered 1: the second client never
    gets the first one's broadcast; a session 2 there does. *)
Definition two_nodes : list (nat * event) :=
  [(1%nat, Task LSubscribe); (0%nat, Task LAccept); (0%nat, Task (LHandshake true 1)); (0%nat, Task (LWelcome true 1));
   (1%nat, Task LAccept); (1%nat, Task (LHandshake true 1)); (1%nat, Task (LWelcome true 1));
   (1%nat, Task LAccept); (1%nat, Task (LHandshake true 2)); (1%nat, Task (LWelcome true 2))].

Lemma broadcast_delivery_witness :
  let c1 := after 2 (two_nodes ++ [(0%nat, Task (LRead true 1 (BinaryFrame (2 :: lit "hi"))))]) in
  let c2 := default ∅ (step 1 LListen c1) in
  exists n2, c2 !! 1%nat = Some n2 /\
    sessions n2 !! 1 = Some (mkSession Running [] [Binary [1; 1]]) /\
    sessions n2 !! 2 = Some (mkSession Running [Notification 1 (lit "hi")] [Binary [1; 2]]).
Proof.
  intros c1 c2.
  set (n2 := mkNode 2 {[2; 1]} {[1 := mkSession Running [] [Binary [1; 1]];
    2 := mkSession Running [Notification 1 (lit "hi")] [Binary [1; 2]]]} true []).
  set (n1 := mkNode 2 {[2; 1]} {[1 := mkSession Running [] [Binary [1; 1]];
    2 := mkSession Running [] [Binary [1; 2]]]} true []).
  assert (c2 !! 1%nat = Some n2) as Hn2 by (vm_compute; reflexivity).
  assert (run two_nodes (initial (up 2)) = Some (after 2 two_nodes)) as Hr by (vm_compute; reflexivity).
  assert (step 0 (LRead true 1 (BinaryFrame (2 :: lit "hi"))) (after 2 two_nodes) = Some c1) as Hs1 by (vm_compute; reflexivity).
  assert (after 2 two_nodes !! 1%nat = Some n1) as Hn1 by (vm_compute; reflexivity).
  assert (step 1 LListen c1 = Some c2) as Hs2 by (vm_compute; reflexivity).
  exists n2. split; [exact Hn2|].
  destruct (broadcast_delivery (up 2) two_nodes (after 2 two_nodes) 0 1 1 (2 :: lit "hi") (lit "hi") (2 :: 1 :: lit "hi")
    c1 c2 n1 n2 Hr eq_refl eq_refl Hs1 Hn1 eq_refl eq_refl Hs2 Hn2) as (_ & _ & Hd).
  split.
  - rewrite (Hd 1 (mkSession Running [] [Binary [1; 1]]) eq_refl). vm_compute. reflexivity.
  - rewrite (Hd 2 (mkSession Running [] [Binary [1; 2]]) eq_refl). vm_compute. reflexivity.
Defined.
