(* ===== verification/DnsTelemetry.v ===== *)
(** The DNS telemetry collector of [src/dns_telemetry/src/main.rs]: capture
    thread, packet loop and ClickHouse worker as a transition system. *)
From S2P Require Import Prelude Bytes Concurrency.

Record DnsRecord := mkDnsRecord {
  timestamp : Z; tx_id : Z; msg_type : bytes; query_type : bytes; domain : bytes; answers : list bytes }.

(** A parsed DNS message of the hickory crate, as far as it is used; names,
    types and data as the crate prints them. *)
Inductive MessageType := MQuery | MResponse.
Record Query := mkQuery { q_name : bytes; q_type : bytes }.
Record Message := mkMessage {
  m_id : Z; message_type : MessageType; queries : list Query; m_answers : list (option bytes) }.

(** [parse_dns_to_record]; the time is that of [Utc::now]. *)
Definition parse_dns_to_record (now : Z) (msg : Message) : option DnsRecord :=
  match queries msg with
  | [] => None
  | query :: _ =>
      let '(msg_type, answers) :=
        match message_type msg with
        | MQuery => (lit "Query", [])
        | MResponse => (lit "Response", omap id (m_answers msg))
        end in
      Some (mkDnsRecord now (m_id msg) msg_type (q_type query) (q_name query) answers)
  end.

(** What one insert session answers; a failing [end] leaves open whether the
    server has the rows. *)
Inductive end_result := EndOk | EndErr (committed : bool).
Record Session := mkSession { ses_insert : bool; ses_write : DnsRecord -> bool; ses_end : end_result }.

(** [flush_to_clickhouse]: whether the rows are committed, and the batch
    afterwards. *)
Definition flush_to_clickhouse (ses : Session) (batch : list DnsRecord) : bool * list DnsRecord :=
  if ses_insert ses then
    if forallb (ses_write ses) batch then
      (match ses_end ses with EndOk => true | EndErr c => c end, [])
    else (false, batch)
  else (false, []).

(** Capacities of the two channels, and the size of a full batch. *)
Definition PACKET_QUEUE : nat := Z.to_nat 10000.
Definition LOG_QUEUE : nat := Z.to_nat 50000.
Definition BATCH_SIZE : nat := Z.to_nat 1000.
Definition flush_interval : Z := 3000000000.

Section collector.
(** [SlicedPacket::from_ethernet]: the payload of a UDP packet; and
    [Message::from_bytes]. *)
Context (udp_payload : bytes -> option bytes) (from_bytes : bytes -> option Message).
Context {CP CL : Type} {QP : Mpsc bytes CP} {QL : Mpsc DnsRecord CL}.

(** The record a packet gives when it is handled at a time. *)
Definition record_of (p : bytes * Z) : option DnsRecord :=
  match udp_payload p.1 with
  | Some [] | None => None
  | Some payload => match from_bytes payload with Some msg => parse_dns_to_record p.2 msg | None => None end
  end.

(** [accepted], [handled], [logged], [lost_packets], [lost_records] and
    [flushed] are histories the properties speak about; no step reads them. *)
Record state := mkState {
  packets : CP; logs : CL;
  batch : list DnsRecord; last_flush : Z; now : Z; rows : list DnsRecord;
  accepted : list bytes; handled : list (bytes * Z); logged : list DnsRecord;
  lost_packets : list bytes; lost_records : list DnsRecord;
  flushed : list (list DnsRecord * bool);
}.

Definition initial : state :=
  mkState (ch_new PACKET_QUEUE) (ch_new LOG_QUEUE) [] 0 0 [] [] [] [] [] [] [].

(** [run_pcap_sniffer]: one captured packet. *)
Definition capture (p : bytes) (s : state) : state :=
  match ch_send (packets s) p with
  | Some c => mkState c (logs s) (batch s) (last_flush s) (now s) (rows s) (accepted s ++ [p]) (handled s) (logged s)
                (lost_packets s) (lost_records s) (flushed s)
  | None => mkState (packets s) (logs s) (batch s) (last_flush s) (now s) (rows s) (accepted s) (handled s) (logged s)
              (lost_packets s ++ [p]) (lost_records s) (flushed s)
  end.

(** One turn of the packet loop. *)
Definition handle_packet (s : state) : option state :=
  match ch_recv (packets s) with
  | Some (p, c) =>
      let h := handled s ++ [(p, now s)] in
      match record_of (p, now s) with
      | Some record =>
          match ch_send (logs s) record with
          | Some l => Some (mkState c l (batch s) (last_flush s) (now s) (rows s) (accepted s) h (logged s ++ [record])
                        (lost_packets s) (lost_records s) (flushed s))
          | None => Some (mkState c (logs s) (batch s) (last_flush s) (now s) (rows s) (accepted s) h (logged s)
                        (lost_packets s) (lost_records s ++ [record]) (flushed s))
          end
      | None => Some (mkState c (logs s) (batch s) (last_flush s) (now s) (rows s) (accepted s) h (logged s)
                  (lost_packets s) (lost_records s) (flushed s))
      end
  | None => None
  end.

(** The batch [b] goes through [flush_to_clickhouse]. *)
Definition flush (ses : Session) (l : CL) (b : list DnsRecord) (s : state) : state :=
  let '(committed, b') := flush_to_clickhouse ses b in
  mkState (packets s) l b' (now s) (now s) (if committed then rows s ++ b else rows s) (accepted s) (handled s) (logged s)
    (lost_packets s) (lost_records s)
    (match b' with [] => flushed s ++ [(b, committed)] | _ => flushed s end).

(** The branch [Some(record)] of the worker. *)
Definition worker_recv (ses : Session) (s : state) : option state :=
  match ch_recv (logs s) with
  | Some (record, l) =>
      let b := batch s ++ [record] in
      if (BATCH_SIZE <=? length b)%nat then Some (flush ses l b s)
      else Some (mkState (packets s) l b (last_flush s) (now s) (rows s) (accepted s) (handled s) (logged s)
             (lost_packets s) (lost_records s) (flushed s))
  | None => None
  end.

(** The timer branch. *)
Definition worker_timer (ses : Session) (s : state) : option state :=
  if last_flush s + flush_interval <=? now s then
    match batch s with
    | [] => Some (mkState (packets s) (logs s) [] (now s) (now s) (rows s) (accepted s) (handled s) (logged s)
               (lost_packets s) (lost_records s) (flushed s))
    | b => Some (flush ses (logs s) b s)
    end
  else None.

Inductive label :=
| Capture (p : bytes)
| HandlePacket
| WorkerRecv (ses : Session)
| WorkerTimer (ses : Session)
| Wait (d : Z).

Definition step (s : state) (l : label) : option state :=
  match l with
  | Capture p => Some (capture p s)
  | HandlePacket => handle_packet s
  | WorkerRecv ses => worker_recv ses s
  | WorkerTimer ses => worker_timer ses s
  | Wait d =>
      if 0 <=? d then
        Some (mkState (packets s) (logs s) (batch s) (last_flush s) (now s + d) (rows s) (accepted s) (handled s) (logged s)
          (lost_packets s) (lost_records s) (flushed s))
      else None
  end.

(** The process: the capture thread ends at the first error of [next_packet],
    which drops the sender; [main] returns when the packets are then handled,
    and with it the worker ends. *)
Record process := mkProcess { collector : state; sniffing : bool; exited : bool }.
Definition start : process := mkProcess initial true false.

Inductive event := Task (l : label) | CaptureError | MainReturns.
Definition can_run (p : process) (l : label) : bool :=
  match l with Capture _ => sniffing p | _ => true end.

Definition process_step (e : event) (p : process) : option process :=
  if exited p then None
  else
    match e with
    | Task l => if can_run p l then s ← step (collector p) l; Some (mkProcess s (sniffing p) false) else None
    | CaptureError => if sniffing p then Some (mkProcess (collector p) false false) else None
    | MainReturns =>
        match sniffing p, ch_recv (packets (collector p)) with
        | false, None => Some (mkProcess (collector p) false true)
        | _, _ => None
        end
    end.

Definition run (ls : list event) (p : process) : option process := exec process_step ls p.

(** ** Conservation *)

Definition inv (s : state) : Prop :=
  accepted s = (handled s).*1 ++ ch_view (packets s) /\
  omap record_of (handled s) ≡ₚ logged s ++ lost_records s /\
  logged s = concat (flushed s).*1 ++ batch s ++ ch_view (logs s) /\
  rows s = concat (map (fun f : list DnsRecord * bool => if f.2 then f.1 else []) (flushed s)) /\
  ch_cap (packets s) = PACKET_QUEUE /\ ch_cap (logs s) = LOG_QUEUE.

Lemma initial_inv : inv initial.
Proof.
  unfold inv, initial. cbn [packets logs batch rows accepted handled logged lost_records flushed].
  destruct (ch_new_view (C := CP) PACKET_QUEUE) as [-> ->], (ch_new_view (C := CL) LOG_QUEUE) as [-> ->].
  repeat split; reflexivity.
Qed.

(** A batch leaves the worker, or stays for the next attempt. *)
Lemma flush_cases ses b committed b' : flush_to_clickhouse ses b = (committed, b') ->
  b' = [] \/ (b' = b /\ committed = false /\ ses_insert ses = true /\ forallb (ses_write ses) b = false).
Proof.
  unfold flush_to_clickhouse. destruct (ses_insert ses); [|intros [= <- <-]; by left].
  destruct (forallb _ b) eqn:E; intros [= <- <-]; [by left|by right].
Qed.

Lemma flush_inv ses l b s : b <> [] ->
  inv (mkState (packets s) l b (last_flush s) (now s) (rows s) (accepted s) (handled s) (logged s)
         (lost_packets s) (lost_records s) (flushed s)) -> inv (flush ses l b s).
Proof.
  intros Hb (H1 & H2 & H3 & H4 & H5 & H6). unfold flush. destruct (flush_to_clickhouse ses b) as [committed b'] eqn:E. cbn in *.
  apply flush_cases in E as [-> |(-> & -> & _)].
  - unfold inv. cbn. split; [done|]. split; [done|]. split; [|split; [|done]].
    + rewrite H3, fmap_app, concat_app. cbn. by rewrite app_nil_r, <- app_assoc.
    + rewrite map_app, concat_app, H4. cbn. rewrite app_nil_r. destruct committed; [done|by rewrite app_nil_r].
  - destruct b; [done|]. done.
Qed.

Lemma tel_step_inv s l s' : inv s -> step s l = Some s' -> inv s'.
Proof.
  intros Hi. pose proof Hi as (H1 & H2 & H3 & H4 & H5 & H6). destruct l as [p| |ses|ses|d]; cbn [step].
  - intros [= <-]. unfold capture. destruct (ch_send (packets s) p) as [c|] eqn:E; [|done].
    apply ch_send_some in E as (_ & Hv & Hc). unfold inv. cbn. rewrite Hv, Hc, H1, app_assoc. done.
  - unfold handle_packet. destruct (ch_recv (packets s)) as [[p c]|] eqn:E; [|done].
    apply ch_recv_some in E as [Hv Hc].
    assert (accepted s = (handled s ++ [(p, now s)]).*1 ++ ch_view c) as Ha
      by (rewrite H1, Hv, fmap_app, <- app_assoc; done).
    destruct (record_of (p, now s)) as [r|] eqn:Er; [destruct (ch_send (logs s) r) as [l|] eqn:El|];
      intros [= <-]; unfold inv; cbn; rewrite Hc, omap_app; cbn [omap list_omap]; rewrite Er.
    + apply ch_send_some in El as (_ & Hlv & Hlc). rewrite Hlv, Hlc. split; [done|]. split; [|split; [|done]].
      * rewrite H2, <- !app_assoc. apply Permutation_app_head. apply Permutation_app_comm.
      * by rewrite H3, <- !app_assoc.
    + split; [done|]. split; [by rewrite H2, <- app_assoc|done].
    + split; [done|]. split; [by rewrite app_nil_r|done].
  - unfold worker_recv. destruct (ch_recv (logs s)) as [[r l]|] eqn:E; [|done].
    apply ch_recv_some in E as [Hv Hc].
    assert (inv (mkState (packets s) l (batch s ++ [r]) (last_flush s) (now s) (rows s) (accepted s) (handled s) (logged s)
         (lost_packets s) (lost_records s) (flushed s))) as Hi'.
    { unfold inv. cbn. rewrite Hc. split; [done|]. split; [done|]. split; [|done]. by rewrite H3, Hv, <- !app_assoc. }
    destruct (_ <=? _)%nat; intros [= <-]; [|done]. apply flush_inv; [by destruct (batch s)|done].
  - unfold worker_timer. destruct (_ <=? _); [|done]. destruct (batch s) as [|r b] eqn:Eb; intros [= <-].
    + done.
    + apply flush_inv; done.
  - destruct (0 <=? d); [|done]. intros [= <-]. done.
Qed.

(** A step of the process is one of the collector's tasks, or leaves the
    collector as it is. *)
Lemma process_step_cases e p p' : process_step e p = Some p' ->
  match e with
  | Task l => step (collector p) l = Some (collector p')
  | _ => collector p' = collector p
  end.
Proof.
  unfold process_step. destruct (exited p); [done|]. destruct e as [l| |].
  - destruct (can_run p l); [|done]. cbn. destruct (step (collector p) l); [|done]. by intros [= <-].
  - destruct (sniffing p); [|done]. by intros [= <-].
  - destruct (sniffing p); [done|]. destruct (ch_recv _); [done|]. by intros [= <-].
Qed.

(** [main] has returned only after the capture ended and the packets were
    handled. *)
Definition process_inv (p : process) : Prop :=
  inv (collector p) /\ (exited p = true -> sniffing p = false /\ ch_view (packets (collector p)) = []).

Lemma process_step_inv e p p' : process_inv p -> process_step e p = Some p' -> process_inv p'.
Proof.
  intros [Hi _] Hs. pose proof (process_step_cases _ _ _ Hs) as Hc. split.
  - destruct e as [l| |]; [by eapply tel_step_inv|by rewrite Hc..].
  - unfold process_step in Hs. destruct (exited p); [done|]. destruct e as [l| |].
    + destruct (can_run p l); [|done]. cbn in Hs. destruct (step _ _); [|done]. by injection Hs as <-.
    + destruct (sniffing p); [|done]. by injection Hs as <-.
    + destruct (sniffing p); [done|]. destruct (ch_recv _) as [|] eqn:E; [done|]. injection Hs as <-. intros _. cbn.
      split; [done|]. by apply ch_recv_none in E.
Qed.

Lemma tel_run_inv ls p p' : process_inv p -> run ls p = Some p' -> process_inv p'.
Proof. apply exec_invariant. apply process_step_inv. Qed.

(** Sessions that accept everything. *)
Definition good (ses : Session) : Prop := ses_insert ses = true /\ (forall r, ses_write ses r = true) /\ ses_end ses = EndOk.
Definition good_label (l : label) : Prop := match l with WorkerRecv ses | WorkerTimer ses => good ses | _ => True end.
Definition good_event (e : event) : Prop := match e with Task l => good_label l | _ => True end.

Lemma flush_good ses b : good ses -> flush_to_clickhouse ses b = (true, []).
Proof.
  intros (Hi & Hw & He). unfold flush_to_clickhouse. rewrite Hi, He.
  assert (forallb (ses_write ses) b = true) as -> by (apply forallb_forall; auto). done.
Qed.

Definition all_committed (s : state) : Prop := Forall (fun f => f.2 = true) (flushed s) /\ (length (batch s) < BATCH_SIZE)%nat.

Lemma step_good s l s' : good_label l -> all_committed s -> step s l = Some s' -> all_committed s'.
Proof.
  intros Hg [Hf Hb]. destruct l as [p| |ses|ses|d]; cbn [step].
  - intros [= <-]. unfold capture. by destruct (ch_send _ _).
  - unfold handle_packet. repeat case_match; intros; by simplify_eq.
  - unfold worker_recv. destruct (ch_recv (logs s)) as [[r l]|]; [|done].
    destruct (Nat.leb_spec BATCH_SIZE (length (batch s ++ [r]))) as [|Hlt]; intros [= <-].
    + unfold flush. rewrite flush_good by done. split; cbn; [|unfold BATCH_SIZE; lia].
      apply Forall_app. split; [done|by constructor].
    + split; done.
  - unfold worker_timer. destruct (_ <=? _); [|done]. destruct (batch s) as [|r b]; intros [= <-].
    + split; cbn; [done|unfold BATCH_SIZE; lia].
    + unfold flush. rewrite flush_good by done. split; cbn; [|unfold BATCH_SIZE; lia].
      apply Forall_app. split; [done|by constructor].
  - destruct (0 <=? d); [|done]. intros [= <-]. done.
Qed.

Lemma run_good ls p p' : Forall good_event ls -> all_committed (collector p) -> run ls p = Some p' -> all_committed (collector p').
Proof.
  intros Hg Hs. revert Hg. apply (exec_invariant_for process_step good_event (fun p => all_committed (collector p))); [|done].
  intros e p1 p2 H1 He H2. apply process_step_cases in H2. destruct e; [by eapply step_good|by rewrite H2..].
Qed.

Definition captured (es : list event) : list bytes := omap (fun e => match e with Task (Capture p) => Some p | _ => None end) es.

Lemma flush_history ses l b s : accepted (flush ses l b s) = accepted s /\ lost_packets (flush ses l b s) = lost_packets s.
Proof. unfold flush. by destruct (flush_to_clickhouse ses b). Qed.

Lemma step_captured s l s' : step s l = Some s' ->
  accepted s' ++ lost_packets s' ≡ₚ accepted s ++ lost_packets s ++ captured [Task l].
Proof.
  intros E. destruct l as [p| |ses|ses|d]; cbn [step captured omap list_omap] in *; rewrite ?app_nil_r.
  - injection E as <-. unfold capture. destruct (ch_send (packets s) p); cbn [accepted lost_packets].
    + rewrite <- app_assoc. apply Permutation_app_head. cbn. apply Permutation_cons_append.
    + done.
  - unfold handle_packet in E. destruct (ch_recv (packets s)) as [[p c]|]; [|done].
    destruct (record_of (p, now s)) as [r|]; [destruct (ch_send (logs s) r)|]; by injection E as <-.
  - unfold worker_recv in E. destruct (ch_recv (logs s)) as [[r l]|]; [|done].
    destruct (_ <=? _)%nat; injection E as <-; [|done]. by destruct (flush_history ses l (batch s ++ [r]) s) as [-> ->].
  - unfold worker_timer in E. destruct (_ <=? _); [|done]. destruct (batch s) as [|r b] eqn:Eb; injection E as <-; [done|].
    by destruct (flush_history ses (logs s) (r :: b) s) as [-> ->].
  - destruct (0 <=? d); [|done]. by injection E as <-.
Qed.

Lemma run_captured es p p' : run es p = Some p' ->
  accepted (collector p') ++ lost_packets (collector p') ≡ₚ accepted (collector p) ++ lost_packets (collector p) ++ captured es.
Proof.
  revert p. induction es as [|e es IH]; intros p; unfold run; cbn [exec]; [intros [= <-]; by rewrite app_nil_r|].
  destruct (process_step e p) as [p1|] eqn:E; [|done]. intros Hr. rewrite (IH _ Hr). clear IH Hr.
  apply process_step_cases in E. change (captured (e :: es)) with (captured ([e] ++ es)).
  unfold captured. rewrite omap_app. fold (captured [e]) (captured es). destruct e as [l| |].
  - apply step_captured in E. rewrite (app_assoc (lost_packets _)), (app_assoc (accepted (collector p))), <- E. by rewrite <- app_assoc.
  - by rewrite E.
  - by rewrite E.
Qed.

(** The end: after an error of the capture the packets are handled, and [main]
    returns without another flush. *)
Lemma handle_packet_some s p c : ch_recv (packets s) = Some (p, c) ->
  exists s', handle_packet s = Some s' /\ packets s' = c /\ rows s' = rows s.
Proof.
  intros Hr. unfold handle_packet. rewrite Hr. destruct (record_of _) as [r|]; [destruct (ch_send _ _)|]; by eexists.
Qed.

Lemma drains n : forall p, exited p = false -> sniffing p = false -> length (ch_view (packets (collector p))) = n ->
  exists p', run (replicate n (Task HandlePacket) ++ [MainReturns]) p = Some p' /\ exited p' = true /\
    rows (collector p') = rows (collector p).
Proof.
  induction n as [|n IH]; intros p He Hs Hn; destruct (ch_recv (packets (collector p))) as [[b c]|] eqn:Er.
  - apply ch_recv_some in Er as [Hv _]. by rewrite Hv in Hn.
  - eexists. unfold run. cbn. unfold process_step. rewrite He, Hs, Er. by split_and!.
  - destruct (handle_packet_some _ _ _ Er) as (s' & Hh & Hp & Hw). apply ch_recv_some in Er as [Hv _].
    destruct (IH (mkProcess s' false false)) as (p' & Hrun & Hex & Hrows); [done..| |].
    { cbn. rewrite Hp. rewrite Hv in Hn. by injection Hn. }
    exists p'. split_and!; [|done|by rewrite Hrows]. unfold run in *. cbn. unfold process_step at 1. rewrite He. cbn.
    rewrite Hh. cbn. by rewrite Hs.
  - apply ch_recv_none in Er. by rewrite Er in Hn.
Qed.

(** A quiet network ends the service: the capture is opened with a timeout,
    and a timeout is an error of [next_packet], after which the process can
    always come to its end without writing another row, whatever the batch and
    the log channel hold. *)
Theorem capture_error_ends_service p : exited p = false -> sniffing p = true ->
  exists es p', run (CaptureError :: es) p = Some p' /\ exited p' = true /\ rows (collector p') = rows (collector p).
Proof.
  intros He Hs. destruct (drains (length (ch_view (packets (collector p)))) (mkProcess (collector p) false false)) as (p' & Hr & Hx & Hw);
    [done..|].
  eexists _, p'. split; [|split; [exact Hx|exact Hw]]. unfold run in *. cbn [exec]. unfold process_step at 1. rewrite He, Hs. exact Hr.
Qed.

Lemma record_lost s s' : inv s -> handle_packet s = Some s' -> lost_records s' <> lost_records s ->
  (LOG_QUEUE <= length (ch_view (logs s)))%nat.
Proof.
  intros (_ & _ & _ & _ & _ & Hc). unfold handle_packet. destruct (ch_recv (packets s)) as [[p c]|]; [|done].
  destruct (record_of _) as [r|]; [destruct (ch_send (logs s) r) eqn:E|]; intros [= <-] Hn; try done.
  apply ch_send_none in E. by rewrite Hc in E.
Qed.

(** C11. Every frame and every record is accounted for, whatever ClickHouse
    answers and however the tasks interleave: every captured frame was accepted
    by the first channel, or found 10000 waiting and is lost; the accepted ones
    were handled in order or wait; every record parsed from a handled frame
    entered the second channel, or found 50000 waiting and is lost; and the
    entered ones are, in order, in a batch that left the worker (and the table
    has exactly the committed ones), in the batch being filled, or wait.
    When ClickHouse accepts everything, the records of the handled frames are
    those in the table, those in the batch (fewer than 1000) and the channel,
    and those that found it full.  The process ends only after the capture did
    and every accepted frame was handled, and nothing happens after its end, so
    that the records which are then in the batch and the channel are lost; a
    capture error can end it in every state, without another row. *)
Theorem telemetry_conservation es p : run es start = Some p ->
  let s := collector p in
  accepted s ++ lost_packets s ≡ₚ captured es /\
  accepted s = (handled s).*1 ++ ch_view (packets s) /\
  omap record_of (handled s) ≡ₚ logged s ++ lost_records s /\
  logged s = concat (flushed s).*1 ++ batch s ++ ch_view (logs s) /\
  rows s = concat (map (fun f : list DnsRecord * bool => if f.2 then f.1 else []) (flushed s)) /\
  (forall b, lost_packets (capture b s) <> lost_packets s -> (Z.to_nat 10000 <= length (ch_view (packets s)))%nat) /\
  (forall s', handle_packet s = Some s' -> lost_records s' <> lost_records s -> (Z.to_nat 50000 <= length (ch_view (logs s)))%nat) /\
  (exited p = true -> sniffing p = false /\ accepted s = (handled s).*1 /\ forall e, process_step e p = None) /\
  (exited p = false -> sniffing p = true ->
     exists es' p', run (CaptureError :: es') p = Some p' /\ exited p' = true /\ rows (collector p') = rows s) /\
  (Forall good_event es ->
     logged s = rows s ++ batch s ++ ch_view (logs s) /\
     omap record_of (handled s) ≡ₚ rows s ++ (batch s ++ ch_view (logs s) ++ lost_records s) /\
     (length (batch s) < Z.to_nat 1000)%nat).
Proof.
  intros Hr s. assert (process_inv start) as H0 by (split; [apply initial_inv|done]).
  destruct (tel_run_inv _ _ _ H0 Hr) as [Hi Hx]. pose proof Hi as (H1 & H2 & H3 & H4 & H5 & H6).
  fold s in H1, H2, H3, H4, H5, H6, Hx.
  split; [unfold s; by rewrite (run_captured _ _ _ Hr)|]. do 4 (split; [done|]). split; [|split; [|split; [|split]]].
  - intros b. unfold capture. destruct (ch_send (packets s) b) eqn:E; [done|]. intros _.
    apply ch_send_none in E. by rewrite H5 in E.
  - intros s'. by apply record_lost.
  - intros He. destruct (Hx He) as [Hs Hv]. split; [done|]. split; [by rewrite H1, Hv, app_nil_r|].
    intros e. unfold process_step. by rewrite He.
  - apply capture_error_ends_service.
  - intros Hg. destruct (run_good es start p Hg) as [Hf Hb]; [|done|].
    { split; [constructor|]. apply Nat.ltb_lt. vm_compute. reflexivity. }
    assert (logged s = rows s ++ batch s ++ ch_view (logs s)) as Hl.
    { rewrite H3, H4. f_equal. fold s in Hf. clear - Hf. induction Hf as [|[b c] fl Hc _ IH]; [done|]. cbn in *. by rewrite Hc, IH. }
    split; [done|]. split; [|exact Hb]. by rewrite H2, Hl, <- !app_assoc.
Qed.

End collector.

(** A witness: frames are their DNS payload, one byte each. *)
Definition demo_message (b : bytes) : option Message :=
  match b with [i] => Some (mkMessage i MQuery [mkQuery (lit "a.") (lit "A")] []) | _ => None end.
Definition good_session : Session := mkSession true (fun _ => true) EndOk.
Definition demo_run : list event :=
  [Task (Capture [7]); Task (Capture []); Task HandlePacket; Task HandlePacket; Task (WorkerRecv good_session);
   Task (Wait flush_interval); Task (WorkerTimer good_session)].

Lemma telemetry_conservation_witness :
  exists p, run (CP := nat * list bytes) (CL := nat * list DnsRecord) Some demo_message demo_run start = Some p /\
    let s := collector p in
    rows s = [mkDnsRecord 0 7 (lit "Query") (lit "A") (lit "a.") []] /\ logged s = rows s ++ batch s ++ ch_view (logs s).
Proof.
  assert ((fun p => rows (collector p)) <$> run (CP := nat * list bytes) (CL := nat * list DnsRecord) Some demo_message demo_run start =
    Some [mkDnsRecord 0 7 (lit "Query") (lit "A") (lit "a.") []]) as Hrows by (vm_compute; reflexivity).
  destruct (run (CP := nat * list bytes) (CL := nat * list DnsRecord) Some demo_message demo_run start) as [p|] eqn:E; [|discriminate Hrows].
  exists p. split; [reflexivity|]. destruct (telemetry_conservation _ _ _ _ E) as (_ & _ & _ & _ & _ & _ & _ & _ & _ & Hgood).
  destruct Hgood as [Hl _]; [|split; [|exact Hl]].
  - apply Forall_forall. intros l Hl. repeat (apply elem_of_cons in Hl as [->|Hl]; [done|]). by apply elem_of_nil in Hl.
  - cbn in Hrows. by injection Hrows.
Defined.
