(* ===== verification/Fanotify.v ===== *)
(** The fanotify monitor of [src/dlp/dlp_fanotify_hooks/src/main.rs]: the loop
    over the events of one read, the decision on a file, and the run of the
    monitor with the engine that takes its events from a bounded channel.  A
    descriptor is closed behind its event and its number used again, and files
    change, so what the descriptors stand for is given at each event anew. *)
From S2P Require Import Prelude Bytes Concurrency.

Definition FAN_ALLOW : Z := 1.
Definition FAN_DENY : Z := 2.

Definition to_i32 (v : Z) : Z := if v <? 2147483648 then v else v - 4294967296.

(** [FanotifyEventMetadata]: event_len at 0, vers at 4, reserved at 5,
    metadata_len at 6, mask at 8, fd at 16, pid at 20; 24 bytes. *)
Record FanotifyEventMetadata := mkMetadata { event_len : Z; fd : Z; pid : Z }.
Definition sizeof_metadata : nat := 24.
Definition metadata_at (buffer : bytes) (offset : nat) : FanotifyEventMetadata :=
  mkMetadata (field buffer offset 4) (to_i32 (field buffer (offset + 16) 4)) (to_i32 (field buffer (offset + 20) 4)).

(** What the monitor does for an event: the response written to the kernel,
    the descriptor closed, the line about a denied open, the event sent to the
    engine. *)
Inductive action :=
| Response (fd response : Z)
| Close (fd : Z)
| Prevented (path : bytes) (pid : Z)
| FileAccess (pid : Z) (path : bytes) (fd : Z).

(** What the kernel answers about the open descriptors at one moment:
    [pread(fd, buf, n, 0)] the bytes read, or an error; and the text of the
    link in /proc/self/fd. *)
Record kernel := mkKernel { sys_pread : Z -> nat -> result bytes unit; sys_readlink : Z -> result bytes unit }.

Definition get_path_from_fd (read_link : Z -> result bytes unit) (fd : Z) : result bytes unit :=
  match read_link fd with Ok p => Ok (from_utf8_lossy p) | Err e => Err e end.

(** [matches_pattern] is [DlpConfig::matches_pattern]. *)
Definition evaluate_file_safety (pread : Z -> nat -> result bytes unit) (matches_pattern : bytes -> bool) (fd : Z) : Z :=
  match pread fd 1024%nat with
  | Ok ((_ :: _) as content) => if is_str content && matches_pattern content then FAN_DENY else FAN_ALLOW
  | _ => FAN_ALLOW
  end.

(** The body of the inner loop for an event that [k] is the kernel of. *)
Definition handle_event (matches_pattern : bytes -> bool) (k : kernel) (metadata : FanotifyEventMetadata) : list action :=
  if 0 <=? fd metadata then
    let path := match get_path_from_fd (sys_readlink k) (fd metadata) with Ok p => p | Err _ => lit "Unknown" end in
    let decision := evaluate_file_safety (sys_pread k) matches_pattern (fd metadata) in
    [Response (fd metadata) decision; Close (fd metadata)] ++
    (if decision =? FAN_DENY then [Prevented path (pid metadata)] else []) ++
    [FileAccess (pid metadata) path (fd metadata)]
  else [].

(** ** The kernel's side of the buffer *)

(** An event as the kernel writes it; [extra] are information records behind
    the metadata, which [event_len] covers. *)
Record kernel_event := mkEvent { k_middle : bytes; k_mask : bytes; k_fd : Z; k_pid : Z; k_extra : bytes }.
Definition i32_encode (v : Z) : bytes := le_encode 4 (v mod 4294967296).
Definition encode_event (e : kernel_event) : bytes :=
  le_encode 4 (24 + len (k_extra e)) ++ k_middle e ++ k_mask e ++ i32_encode (k_fd e) ++ i32_encode (k_pid e) ++ k_extra e.
Definition is_i32 (v : Z) : Prop := -2147483648 <= v <= 2147483647.
Definition event_ok (e : kernel_event) : Prop :=
  length (k_middle e) = 4%nat /\ length (k_mask e) = 8%nat /\ is_i32 (k_fd e) /\ is_i32 (k_pid e) /\
  24 + len (k_extra e) <= u32_max.

Lemma i32_round_trip v : is_i32 v -> to_i32 (le (i32_encode v)) = v.
Proof.
  unfold is_i32. intros Hv. unfold i32_encode. rewrite le_encode_4 by (unfold u32_max; pose proof (Z.mod_pos_bound v 4294967296 ltac:(lia)); lia).
  unfold to_i32. destruct (Z.ltb_spec (v mod 4294967296) 2147483648); Z.div_mod_to_equations; lia.
Qed.

Lemma encode_event_length e : event_ok e -> length (encode_event e) = (24 + length (k_extra e))%nat.
Proof. intros (Hm & Hk & _). unfold encode_event. rewrite !length_app, Hm, Hk. cbn. lia. Qed.

Lemma metadata_of_event pre e post : event_ok e ->
  metadata_at (pre ++ encode_event e ++ post) (length pre) = mkMetadata (24 + len (k_extra e)) (k_fd e) (k_pid e).
Proof.
  intros (Hm & Hk & Hf & Hp & Hl). unfold metadata_at, encode_event. f_equal.
  - rewrite (field_at _ pre (le_encode 4 (24 + len (k_extra e))) (k_middle e ++ k_mask e ++ i32_encode (k_fd e) ++ i32_encode (k_pid e) ++ k_extra e ++ post)).
    + apply le_encode_4. unfold len in *. lia.
    + by rewrite <- !app_assoc.
    + done.
    + done.
  - rewrite (field_at _ (pre ++ le_encode 4 (24 + len (k_extra e)) ++ k_middle e ++ k_mask e) (i32_encode (k_fd e)) (i32_encode (k_pid e) ++ k_extra e ++ post)).
    + by apply i32_round_trip.
    + by rewrite <- !app_assoc.
    + rewrite !length_app, Hm, Hk. cbn. lia.
    + done.
  - rewrite (field_at _ (pre ++ le_encode 4 (24 + len (k_extra e)) ++ k_middle e ++ k_mask e ++ i32_encode (k_fd e)) (i32_encode (k_pid e)) (k_extra e ++ post)).
    + by apply i32_round_trip.
    + by rewrite <- !app_assoc.
    + rewrite !length_app, Hm, Hk. cbn. lia.
    + done.
Qed.

(** ** The running monitor *)

(** Set-up: what [fanotify_init] and [fanotify_mark] answer. *)
Definition start (init_ok mark_ok : bool) : result unit bytes :=
  if init_ok then
    if mark_ok then Ok tt else Err (lit "Failed to set up the fanotify interception point")
  else Err (lit "Failed to initialize fanotify. Root privileges are required ..").

(** The monitor with the engine at the other end of [tx]: where the monitor is
    (at the read, or at the head of the inner loop with a buffer and an offset
    in it), the effects of the event in hand that are still to come, those that
    happened, the channel, whether the engine holds its receiver, and what it
    got. *)
Record system (C : Type) := mkSystem {
  place : option (bytes * nat); todo : list action; happened : list action;
  chan : C; rx_open : bool; received : list (Z * bytes * Z) }.
Arguments mkSystem {C}. Arguments place {C}. Arguments todo {C}. Arguments happened {C}.
Arguments chan {C}. Arguments rx_open {C}. Arguments received {C}.

(** The read of a buffer; the next event of the buffer taken in hand, its file
    examined in the kernel as it is then; the end of the inner loop; the next
    effect; the engine takes an event, or goes. *)
Inductive label :=
| Read (r : option bytes)
| Handle (k : kernel)
| LoopEnd
| Act
| EngineRecv
| EngineGone.
Definition of_monitor (l : label) : bool := match l with Handle _ | LoopEnd | Act => true | _ => false end.

Definition access (a : action) : option (Z * bytes * Z) :=
  match a with FileAccess p path f => Some (p, path, f) | _ => None end.
(** The kernel's response to an event. *)
Definition response (a : action) : option (Z * Z) :=
  match a with Response f r => Some (f, r) | _ => None end.
Definition responses (acts : list action) : list (Z * Z) := omap response acts.

(** The condition of the inner loop. *)
Definition more (buffer : bytes) (offset : nat) : bool := (offset + sizeof_metadata <=? length buffer)%nat.

Section running.
Context (matches_pattern : bytes -> bool) {C : Type} `{MP : Mpsc (Z * bytes * Z) C}.
Implicit Types (s : system C).

(** A read of no bytes, or an error, is retried.  [send] waits while the
    channel is full; its error, when the engine has gone, is ignored. *)
Definition step (l : label) (s : system C) : option (system C) :=
  match l, place s, todo s with
  | Read (Some ((_ :: _) as buffer)), None, [] =>
      Some (mkSystem (Some (buffer, 0%nat)) [] (happened s) (chan s) (rx_open s) (received s))
  | Read _, None, [] => Some s
  | Handle k, Some (buffer, offset), [] =>
      if more buffer offset then
        let metadata := metadata_at buffer offset in
        Some (mkSystem (Some (buffer, (offset + Z.to_nat (event_len metadata))%nat))
                       (handle_event matches_pattern k metadata) (happened s) (chan s) (rx_open s) (received s))
      else None
  | LoopEnd, Some (buffer, offset), [] =>
      if more buffer offset then None
      else Some (mkSystem None [] (happened s) (chan s) (rx_open s) (received s))
  | Act, p, a :: rest =>
      match access a with
      | Some e =>
          if rx_open s then c ← ch_send (chan s) e; Some (mkSystem p rest (happened s ++ [a]) c true (received s))
          else Some (mkSystem p rest (happened s ++ [a]) (chan s) false (received s))
      | None => Some (mkSystem p rest (happened s ++ [a]) (chan s) (rx_open s) (received s))
      end
  | EngineRecv, p, t =>
      if rx_open s then '(e, c) ← ch_recv (chan s); Some (mkSystem p t (happened s) c true (received s ++ [e])) else None
  | EngineGone, p, t => Some (mkSystem p t (happened s) (chan s) false (received s))
  | _, _, _ => None
  end.

Definition initial (capacity : nat) : system C := mkSystem None [] [] (ch_new capacity) true [].

(** [run_fanotify_monitor]: it returns only with an error of the set-up. *)
Definition run_fanotify_monitor (init_ok mark_ok : bool) (capacity : nat) (ls : list label) : result (option (system C)) bytes :=
  match start init_ok mark_ok with
  | Ok _ => Ok (exec step ls (initial capacity))
  | Err e => Err e
  end.

(** The buffers read in a run, the kernels its events were examined in, and
    the events that the kernel delivered; a read of no bytes or an error is
    [None]. *)
Definition reads (ls : list label) : list (option bytes) :=
  omap (fun l => match l with Read r => Some r | _ => None end) ls.
Definition kernels (ls : list label) : list kernel :=
  omap (fun l => match l with Handle k => Some k | _ => None end) ls.
Definition kernel_reads (ess : list (option (list kernel_event))) : list (option bytes) :=
  map (fmap (fun es => concat (map encode_event es))) ess.
Definition delivered (ess : list (option (list kernel_event))) : list kernel_event := concat (omap id ess).

(** What an event is answered with, and its decision when it has a descriptor,
    in the kernel that it is examined in. *)
Definition event_actions (ek : kernel_event * kernel) : list action :=
  handle_event matches_pattern ek.2 (mkMetadata 0 (k_fd ek.1) (k_pid ek.1)).
Definition event_decision (ek : kernel_event * kernel) : option (Z * Z) :=
  if 0 <=? k_fd ek.1
  then Some (k_fd ek.1, evaluate_file_safety (sys_pread ek.2) matches_pattern (k_fd ek.1))
  else None.

Lemma responses_of eks : responses (concat (map event_actions eks)) = omap event_decision eks.
Proof.
  unfold responses. induction eks as [|[e k] eks IH]; [done|]. cbn [map concat omap list_omap]. rewrite omap_app, IH.
  unfold event_actions, event_decision, handle_event. cbn [fd pid fst snd].
  destruct (0 <=? k_fd e); [|done]. by destruct (_ =? FAN_DENY).
Qed.

(** The engine has got, or will find in the channel, what was sent to it. *)
Definition engine_ok s : Prop :=
  rx_open s = true -> received s ++ ch_view (chan s) = omap access (happened s).

(** The one step that takes an effect. *)
Lemma act_effects s s' : step Act s = Some s' ->
  exists a, todo s = a :: todo s' /\ happened s' = happened s ++ [a] /\ place s' = place s.
Proof.
  cbn. destruct (place s) as [[b o]|], (todo s) as [|a rest]; try done; intros H; exists a;
    (destruct (access a); [destruct (rx_open s); [destruct (ch_send _ _); [|done]|]|]); cbn in H; by injection H as <-.
Qed.

Lemma step_engine_ok l s s' : engine_ok s -> step l s = Some s' -> engine_ok s'.
Proof.
  unfold engine_ok. intros Hs. destruct s as [place todo hap c rx rec]. cbn in *. destruct l as [r|k| | | |]; cbn.
  - destruct r as [[|b buf]|], place, todo; try done; by intros [= <-].
  - destruct place as [[b o]|], todo; try done. destruct (more b o); [|done]. by intros [= <-].
  - destruct place as [[b o]|], todo; try done. destruct (more b o); [done|]. by intros [= <-].
  - assert (forall a rest p, match access a with
        | Some e => if rx then c0 ← ch_send c e; Some (mkSystem p rest (hap ++ [a]) c0 true rec)
                    else Some (mkSystem p rest (hap ++ [a]) c false rec)
        | None => Some (mkSystem p rest (hap ++ [a]) c rx rec) end = Some s' ->
        rx_open s' = true -> received s' ++ ch_view (chan s') = omap access (happened s')) as HA.
    { intros a rest p. destruct (access a) as [e|] eqn:Ea; [destruct rx|].
      - destruct (ch_send c e) as [c'|] eqn:Ec; [|done]. intros [= <-] _. cbn. apply ch_send_some in Ec as (_ & -> & _).
        rewrite omap_app. cbn. by rewrite Ea, app_assoc, Hs.
      - by intros [= <-].
      - intros [= <-]. cbn. intros Hrx. rewrite omap_app. cbn. by rewrite Ea, app_nil_r, Hs. }
    destruct place as [[b o]|], todo as [|a rest]; try done; apply HA.
  - assert (forall p t, (if rx then '(e, c0) ← ch_recv c; Some (mkSystem p t hap c0 true (rec ++ [e])) else None) = Some s' ->
        rx_open s' = true -> received s' ++ ch_view (chan s') = omap access (happened s')) as HA.
    { intros p t. destruct rx; [|done]. destruct (ch_recv c) as [[e c']|] eqn:Ec; [|done]. intros [= <-] _. cbn.
      apply ch_recv_some in Ec as [Ec _]. rewrite <- Hs, Ec by done. by rewrite <- app_assoc. }
    destruct place as [[b o]|], todo as [|a rest]; apply HA.
  - destruct place as [[b o]|], todo; by intros [= <-].
Qed.

(** Where the monitor is after a run in which the kernel wrote [es] into its
    buffers and its events were examined in [ks]. *)
Definition progress s (es : list kernel_event) (ks : list kernel) : Prop :=
  happened s ++ todo s = concat (map event_actions (combine es ks)) /\
  match place s with
  | None => todo s = [] /\ length es = length ks
  | Some (buffer, offset) => exists pre es1 es2, es = es1 ++ es2 /\ length es1 = length ks /\ Forall event_ok es2 /\
      buffer = pre ++ concat (map encode_event es2) /\ offset = length pre
  end.

Lemma progress_none s es ks : progress s es ks -> place s = None -> todo s = [] /\ length es = length ks.
Proof. intros [_ H] Hp. by rewrite Hp in H. Qed.

Lemma more_events pre es : Forall event_ok es -> more (pre ++ concat (map encode_event es)) (length pre) = bool_decide (es <> []).
Proof.
  unfold more, sizeof_metadata. destruct 1 as [|e es He _]; cbn [map concat]; rewrite !length_app.
  - cbn. apply Nat.leb_gt. lia.
  - rewrite encode_event_length by done. rewrite bool_decide_eq_true_2 by done. apply Nat.leb_le. lia.
Qed.

Lemma progress_read buf s es es0 ks s' : Forall event_ok es -> progress s es0 ks ->
  buf = concat (map encode_event es) -> step (Read (Some buf)) s = Some s' -> progress s' (es0 ++ es) ks.
Proof.
  intros Hes [Hh Hp] -> E. cbn in E. destruct (place s) as [[b o]|] eqn:Ep.
  { by destruct (concat (map encode_event es)), (todo s). }
  destruct Hp as [Ht Hl]. rewrite Ht in E, Hh.
  assert (concat (map event_actions (combine (es0 ++ es) ks)) = concat (map event_actions (combine es0 ks))) as Hc.
  { clear -Hl. revert ks Hl. induction es0 as [|e es0 IH]; intros [|k ks]; try done; [by destruct es|].
    intros [= Hl]. cbn. by rewrite IH. }
  unfold progress. rewrite Hc. destruct (concat (map encode_event es)) as [|b buf] eqn:Eb; injection E as <-.
  - split; [by rewrite Ht|]. rewrite Ep. split; [done|]. destruct Hes as [|e es He _]; [by rewrite app_nil_r|].
    apply (f_equal length) in Eb. cbn [map concat length] in Eb. rewrite length_app, encode_event_length in Eb by done. lia.
  - split; [done|]. cbn [place]. exists [], es0, es. by rewrite Eb.
Qed.

Lemma progress_handle k s es ks s' : progress s es ks -> step (Handle k) s = Some s' -> progress s' es (ks ++ [k]).
Proof.
  intros [Hh Hp] E. cbn [step] in E. destruct (place s) as [[b o]|], (todo s) eqn:Et; try done.
  destruct Hp as (pre & es1 & es2 & -> & Hl & Hok & -> & ->). rewrite more_events in E by done.
  destruct Hok as [|e es2 He Hok]; [done|]. cbv zeta in E. cbn [map concat] in E |- *. rewrite bool_decide_eq_true_2 in E by done.
  rewrite metadata_of_event in E by done. apply (inj Some) in E. subst s'. unfold progress. cbn [happened todo place]. split.
  - rewrite app_nil_r in Hh. rewrite Hh.
    assert (combine (es1 ++ e :: es2) (ks ++ [k]) = combine (es1 ++ e :: es2) ks ++ [(e, k)]) as ->.
    { clear -Hl. revert ks Hl. induction es1 as [|x es1 IH]; intros [|y ks]; try done; [cbn; by rewrite combine_nil|].
      intros [= Hl]. cbn. by rewrite IH. }
    rewrite map_app, concat_app. cbn. by rewrite app_nil_r.
  - exists (pre ++ encode_event e), (es1 ++ [e]), es2. rewrite <- !app_assoc, !length_app, (encode_event_length e) by done.
    cbn [length app event_len]. unfold len. repeat split; try done; lia.
Qed.

Lemma progress_keeps l s es ks s' : progress s es ks -> step l s = Some s' ->
  match l with Read (Some _) | Handle _ => False | _ => True end -> progress s' es ks.
Proof.
  intros HP E Hl. destruct l as [[r|]|k| | | |]; try done.
  - cbn in E. destruct (place s) as [[b o]|], (todo s); try done. by injection E as <-.
  - destruct HP as [Hh Hp]. cbn in E. destruct (place s) as [[b o]|], (todo s) eqn:Et; try done.
    destruct Hp as (pre & es1 & es2 & -> & Hlen & Hok & -> & ->). rewrite more_events in E by done.
    destruct es2; [|done]. injection E as <-. split; [done|]. cbn. by rewrite app_nil_r.
  - destruct HP as [Hh Hp]. apply act_effects in E as (a & Ht & Hh' & Hpl).
    split; [rewrite Hh', <- app_assoc; cbn; by rewrite <- Ht|]. rewrite Hpl. destruct (place s) as [[b o]|]; [done|].
    destruct Hp as [Hp _]. by rewrite Ht in Hp.
  - assert (place s' = place s /\ todo s' = todo s /\ happened s' = happened s) as (H1 & H2 & H3).
    { cbn in E. destruct (place s) as [[b o]|], (todo s), (rx_open s); try done;
        (destruct (ch_recv (chan s)) as [[e c]|]; [|done]); cbn in E; by injection E as <-. }
    unfold progress. by rewrite H1, H2, H3.
  - cbn in E. assert (place s' = place s /\ todo s' = todo s /\ happened s' = happened s) as (H1 & H2 & H3).
    { destruct (place s) as [[b o]|], (todo s); by injection E as <-. }
    unfold progress. by rewrite H1, H2, H3.
Qed.

Lemma run_progress capacity ls : forall ess s, Forall (Forall event_ok) (omap id ess) -> reads ls = kernel_reads ess ->
  exec step ls (initial capacity) = Some s -> progress s (delivered ess) (kernels ls).
Proof.
  induction ls as [|l ls IH] using rev_ind; intros ess s Hok Hr He.
  - destruct ess; [|done]. by injection He as <-.
  - destruct (exec_snoc step ls l (initial capacity) s He) as (s0 & He0 & E).
    unfold reads, kernels in *. rewrite omap_app in Hr. rewrite omap_app.
    destruct l as [[r|]|k| | | |]; cbn in Hr |- *; rewrite ?app_nil_r in *;
      try by eapply progress_keeps; [apply IH|exact E|].
    + symmetry in Hr. apply map_eq_app in Hr as (ess0 & ess1 & -> & Hr0 & Hr1).
      destruct ess1 as [|[es|] [|]]; try done. injection Hr1 as Hr1. rewrite omap_app in Hok. cbn in Hok.
      apply Forall_app in Hok as [Hok Hes]. apply Forall_cons in Hes as [Hes _].
      unfold delivered. rewrite omap_app, concat_app. cbn. rewrite app_nil_r.
      eapply progress_read; [done|by apply IH| |exact E]. done.
    + symmetry in Hr. apply map_eq_app in Hr as (ess0 & ess1 & -> & Hr0 & Hr1).
      destruct ess1 as [|[es|] [|]]; try done. rewrite omap_app in Hok. cbn in Hok. rewrite app_nil_r in Hok.
      unfold delivered. rewrite omap_app. cbn. rewrite app_nil_r.
      eapply progress_keeps; [by apply IH|exact E|done].
    + eapply progress_handle; [by apply IH|exact E].
Qed.

(** The monitor goes on unless the channel is full and its receiver there. *)
Lemma monitor_blocked s : place s <> None \/ todo s <> [] ->
  (forall l, of_monitor l = true -> step l s = None) ->
  rx_open s = true /\ (ch_cap (chan s) <= length (ch_view (chan s)))%nat /\ forall l, l <> EngineRecv -> l <> EngineGone -> step l s = None.
Proof.
  intros Hw Hn. pose proof (Hn LoopEnd eq_refl) as HE. pose proof (Hn Act eq_refl) as HA.
  pose proof (Hn (Handle (mkKernel (fun _ _ => Err tt) (fun _ => Err tt))) eq_refl) as HH. cbn in HE, HH, HA.
  destruct (todo s) as [|a rest] eqn:Et.
  - destruct (place s) as [[b o]|]; [by destruct (more b o)|by destruct Hw].
  - assert (rx_open s = true /\ exists e, ch_send (chan s) e = None) as [Hrx [e He]].
    { destruct (place s) as [[b o]|], (access a) as [e|], (rx_open s); try done;
        (split; [done|]; exists e; by destruct (ch_send (chan s) e)). }
    split; [done|]. split; [by eapply ch_send_none|]. intros l H1 H2.
    destruct l as [[[|]|]|k| | | |]; try done; try (by apply Hn); cbn; rewrite Et; by destruct (place s) as [[]|].
Qed.
End running.

(** ** Properties *)
Section properties.
Context (matches_pattern : bytes -> bool) {C : Type} `{MP : Mpsc (Z * bytes * Z) C}.

(** C12. Every opener is answered: once the monitor is set up, for reads
    filled as the kernel fills them (any number of events of any lengths back to
    back) or failing, the events taken in hand are those delivered, in their
    order and each once, with their fields read correctly, and each decision is
    made on the file that its descriptor stands for when its turn comes, behind
    the report of the event before it (a descriptor's number is used again for
    other files, and files change).  What happened so far with what is
    still to come is, event by event, one response with the decision, the close
    of the descriptor, the line about a denied open, and the report to the
    engine; so the responses written so far are a beginning of the decisions,
    and when the monitor is back at its read every event delivered has been
    examined and answered.  The engine has got, or will find in its channel,
    every report so far, as long as it holds its receiver; and before the
    monitor is back at its read the only thing that holds it up is a channel
    that the engine does not empty: then nothing is answered until it takes an
    event or goes. *)
Theorem every_event_answered capacity ls ess s : Forall (Forall event_ok) (omap id ess) -> reads ls = kernel_reads ess ->
  run_fanotify_monitor matches_pattern true true capacity ls = Ok (Some s) ->
  let handled := combine (delivered ess) (kernels ls) in
  let decisions := omap (event_decision matches_pattern) handled in
  (length (kernels ls) <= length (delivered ess))%nat /\
  happened s ++ todo s = concat (map (event_actions matches_pattern) handled) /\
  responses (happened s) `prefix_of` decisions /\
  (place s = None -> todo s = [] /\ length (kernels ls) = length (delivered ess) /\ responses (happened s) = decisions) /\
  (rx_open s = true -> received s ++ ch_view (chan s) = omap access (happened s)) /\
  (place s <> None \/ todo s <> [] -> (forall l, of_monitor l = true -> step matches_pattern l s = None) ->
     rx_open s = true /\ (ch_cap (chan s) <= length (ch_view (chan s)))%nat /\
     forall l, l <> EngineRecv -> l <> EngineGone -> step matches_pattern l s = None).
Proof.
  intros Hok Hr Hrun handled decisions. injection Hrun as Hrun.
  pose proof (run_progress matches_pattern capacity ls ess s Hok Hr Hrun) as HP. pose proof HP as [Ha Hp].
  assert (responses (happened s ++ todo s) = decisions) as Hd by (rewrite Ha; apply responses_of).
  unfold responses in Hd. rewrite omap_app in Hd. split; [|split; [done|]; split; [|split; [|split]]].
  - destruct (place s) as [[b o]|]; [destruct Hp as (pre & es1 & es2 & -> & <- & _); rewrite length_app; lia|].
    destruct Hp as [_ ->]. lia.
  - rewrite <- Hd. by eexists.
  - intros Hn. apply progress_none in HP as [Ht Hl]; [|done]. rewrite Ht in Hd. by rewrite app_nil_r in Hd.
  - eapply (exec_invariant _ (engine_ok (C := C))); [intros ???; by apply step_engine_ok| |exact Hrun].
    intros _. cbn. apply ch_new_view.
  - apply monitor_blocked.
Qed.

Lemma is_str_ascii_app s t : is_ascii s -> is_str (s ++ t) = is_str t.
Proof.
  unfold is_str, from_utf8. induction 1 as [|b s Hb _ IH]; [done|]. cbn [app length from_utf8_fuel decode1].
  replace (byte_in 0 127 b) with true by (unfold byte_in; lia). cbn [drop]. rewrite drop_0.
  destruct (from_utf8_fuel (length (s ++ t)) (s ++ t)) eqn:E; cbn; exact IH.
Qed.

(** C40. What the decision depends on: an open is denied exactly when the
    first 1024 bytes of the file are UTF-8 and match, so text beyond them is
    never looked at; and any ASCII text shorter than 1024 bytes can be put in
    a well-formed UTF-8 file that begins with it and that no configuration
    ever denies, because a character straddles the end of the buffer. *)
Theorem decision_prefix (pread : Z -> nat -> result bytes unit) (content : Z -> bytes) (f : Z) (secret : bytes) :
  (forall g, pread g 1024%nat = Ok (take 1024 (content g))) ->
  (evaluate_file_safety pread matches_pattern f = FAN_DENY <->
     content f <> [] /\ is_str (take 1024 (content f)) = true /\ matches_pattern (take 1024 (content f)) = true) /\
  (is_ascii secret -> (length secret <= 1023)%nat ->
   let carrier := secret ++ replicate (1023 - length secret) 32 ++ [208; 159] in
   is_str carrier = true /\
   (content f = carrier -> evaluate_file_safety pread matches_pattern f = FAN_ALLOW)).
Proof.
  intros Hp. unfold evaluate_file_safety. rewrite Hp. split.
  - destruct (content f) as [|b c]; [split; [done|by intros []]|]. rewrite firstn_cons.
    destruct (is_str _), (matches_pattern _); cbn; naive_solver.
  - intros Ha Hl. set (pad := replicate (1023 - length secret) 32). set (carrier := secret ++ pad ++ [208; 159]).
    assert (is_ascii (secret ++ pad)) as Hsp by (apply is_ascii_app; split; [done|]; apply Forall_replicate; lia).
    assert (length (secret ++ pad) = 1023%nat) as Hlen by (unfold pad; rewrite length_app, length_replicate; lia).
    split.
    + unfold carrier. rewrite app_assoc, is_str_ascii_app by done. reflexivity.
    + intros ->. unfold carrier. rewrite app_assoc.
      replace (take 1024 ((secret ++ pad) ++ [208; 159])) with ((secret ++ pad) ++ [208]).
      * rewrite is_str_ascii_app by done. destruct (secret ++ pad); [discriminate Hlen|done].
      * rewrite take_app, Hlen, take_ge by lia. done.
Qed.

End properties.

(** Witnesses: descriptor 5 holds a secret at first; once it is closed its
    number stands for another file. *)
Definition demo_content (f : Z) : bytes := if f =? 5 then lit "a secret" else lit "nothing".
Definition demo_pread (f : Z) (n : nat) : result bytes unit := Ok (take n (demo_content f)).
Definition demo_kernel : kernel := mkKernel demo_pread (fun _ => Err tt).
Definition demo_later : kernel := mkKernel (fun f n => Ok (take n (lit "nothing"))) (fun _ => Ok (lit "/tmp/x")).
Definition demo_matches (s : bytes) : bool := match find s (lit "secret") with Some _ => true | None => false end.
Definition demo_events : list kernel_event :=
  [mkEvent [3; 0; 24; 0] (replicate 8 0) 5 100 []; mkEvent [3; 0; 24; 0] (replicate 8 0) (-1) 101 [1; 2; 3; 4];
   mkEvent [3; 0; 24; 0] (replicate 8 0) 5 102 []].

(** A channel of one place: the second report waits until the engine takes the
    first. *)
Definition demo_run : list label :=
  [Read None; Read (Some (concat (map encode_event demo_events))); Handle demo_kernel; Act; Act; Act; Act;
   Handle demo_kernel; Handle demo_later; Act; Act; EngineRecv; Act; LoopEnd].

Lemma every_event_answered_witness :
  exists s, run_fanotify_monitor demo_matches true true 1 demo_run = Ok (Some s) /\
    responses (happened s) = [(5, FAN_DENY); (5, FAN_ALLOW)] /\ received s = [(100, lit "Unknown", 5)].
Proof.
  destruct (run_fanotify_monitor demo_matches true true 1 demo_run) as [[s|]|] eqn:E; [|by vm_compute in E..].
  destruct (every_event_answered demo_matches 1 demo_run [None; Some demo_events] s)
    as (_ & _ & _ & Hr & _); [|reflexivity|exact E|].
  - repeat constructor; unfold event_ok, is_i32; by_evaluation.
  - exists s. split; [done|]. vm_compute in E. injection E as <-. destruct Hr as (_ & _ & ->); [reflexivity|].
    split; vm_compute; reflexivity.
Defined.

Lemma decision_prefix_witness : evaluate_file_safety demo_pread demo_matches 5 = FAN_DENY.
Proof.
  apply (decision_prefix demo_matches demo_pread demo_content 5 [] (fun g => eq_refl)). by_evaluation.
Defined.
