(* ===== verification/S3Server.v ===== *)
(** The in-memory S3 server of [src/s3_server/src/main.rs]: its three
    operations on a store behind one mutex, as steps of concurrent requests,
    and the node of [main], whose worker threads run the requests and can all
    be blocked by that mutex. *)
From S2P Require Import Prelude Bytes Concurrency.

(** [Mutex<HashMap<String, HashMap<String, Bytes>>>], what it protects. *)
Abbreviation store := (gmap bytes (gmap bytes bytes)).

Inductive S3Error := BucketAlreadyExists | NoSuchBucket | NoSuchKey | InvalidRequestBody | InternalError.

#[export] Instance S3Error_eq_dec : EqDecision S3Error.
Proof. solve_decision. Defined.

(** [GetObjectOutput], its two fields that are set. *)
Record GetObjectOutput := mkGetOutput { body : bytes; content_length : Z }.

Definition create_bucket (buckets : store) (bucket : bytes) : result unit S3Error * store :=
  match buckets !! bucket with
  | Some _ => (Err BucketAlreadyExists, buckets)
  | None => (Ok tt, <[bucket := ∅]> buckets)
  end.

(** [put_object] up to the await on the body: the bucket is looked up and the
    body taken, the mutex stays locked. *)
Definition put_begin (buckets : store) (bucket : bytes) (has_body : bool) : result unit S3Error :=
  match buckets !! bucket with
  | None => Err NoSuchBucket
  | Some _ => if has_body then Ok tt else Err InvalidRequestBody
  end.

(** [put_object] from there: the body has come, or failed. *)
Definition put_end (buckets : store) (bucket key : bytes) (collected : result bytes unit) : result unit S3Error * store :=
  match collected with
  | Err _ => (Err InternalError, buckets)
  | Ok data =>
      match buckets !! bucket with
      | Some objects => (Ok tt, <[bucket := <[key := data]> objects]> buckets)
      | None => (Err InternalError, buckets)
      end
  end.

(** [data.len() as i64] *)
Definition len_as_i64 (data : bytes) : Z := (len data + 2 ^ 63) mod 2 ^ 64 - 2 ^ 63.

Definition get_object (buckets : store) (bucket key : bytes) : result GetObjectOutput S3Error :=
  match buckets !! bucket with
  | None => Err NoSuchBucket
  | Some objects =>
      match objects !! key with
      | None => Err NoSuchKey
      | Some data => Ok (mkGetOutput data (len_as_i64 data))
      end
  end.

(** ** Concurrent requests

    [holder] is the put that holds the mutex while it awaits its body. *)
Record server := mkServer { buckets : store; holder : option (nat * bytes * bytes) }.

Inductive label :=
| Create (bucket : bytes)
| PutBegin (id : nat) (bucket key : bytes) (has_body : bool)
| PutBody (id : nat) (collected : result bytes unit)
| PutDropped (id : nat)
| Get (bucket key : bytes).

Inductive answer :=
| Created (r : result unit S3Error)
| PutWaits
| NoAnswer
| PutDone (r : result unit S3Error)
| Got (r : result GetObjectOutput S3Error).

(** A request takes its step when it gets the mutex.  A put whose connection
    is gone is dropped by the server library where it waits, and its guard
    with it. *)
Definition step (s : server) (l : label) : option (answer * server) :=
  match l, holder s with
  | Create bucket, None =>
      let '(r, b) := create_bucket (buckets s) bucket in Some (Created r, mkServer b None)
  | PutBegin id bucket key has_body, None =>
      match put_begin (buckets s) bucket has_body with
      | Ok _ => Some (PutWaits, mkServer (buckets s) (Some (id, bucket, key)))
      | Err e => Some (PutDone (Err e), s)
      end
  | PutBody id collected, Some (id', bucket, key) =>
      if decide (id = id') then
        let '(r, b) := put_end (buckets s) bucket key collected in Some (PutDone r, mkServer b None)
      else None
  | PutDropped id, Some (id', _, _) => if decide (id = id') then Some (NoAnswer, mkServer (buckets s) None) else None
  | Get bucket key, None => Some (Got (get_object (buckets s) bucket key), s)
  | _, _ => None
  end.

Fixpoint run (s : server) (ls : list label) : option (list answer * server) :=
  match ls with
  | [] => Some ([], s)
  | l :: ls => '(a, s) ← step s l; '(as_, s) ← run s ls; Some (a :: as_, s)
  end.

Definition initial : server := mkServer ∅ None.

(** ** What a client may rely on *)

(** The value a run of steps leaves under a key: that of the last completed
    put, from [v] on.  [p] is the put that waits. *)
Fixpoint last_put (bucket key : bytes) (p : option (bytes * bytes)) (v : option bytes) (ls : list label) (ans : list answer)
  : option bytes :=
  match ls, ans with
  | PutBegin _ b k _ :: ls, PutWaits :: ans => last_put bucket key (Some (b, k)) v ls ans
  | PutBody _ (Ok data) :: ls, PutDone (Ok _) :: ans =>
      last_put bucket key None (if decide (p = Some (bucket, key)) then Some data else v) ls ans
  | PutBody _ _ :: ls, _ :: ans | PutDropped _ :: ls, _ :: ans => last_put bucket key None v ls ans
  | _ :: ls, _ :: ans => last_put bucket key p v ls ans
  | _, _ => v
  end.

(** A bucket exists from the create that succeeded on. *)
Definition created (bucket : bytes) (history : list (label * answer)) : Prop :=
  (Create bucket, Created (Ok tt)) ∈ history.

#[export] Instance label_eq_dec : EqDecision label.
Proof. solve_decision. Defined.
#[export] Instance GetObjectOutput_eq_dec : EqDecision GetObjectOutput.
Proof. solve_decision. Defined.
#[export] Instance answer_eq_dec : EqDecision answer.
Proof. solve_decision. Defined.
#[export] Instance created_dec bucket history : Decision (created bucket history).
Proof. unfold created. apply _. Defined.

(** The answer that a request must get after a history. *)
Definition promised (history : list (label * answer)) (l : label) : answer :=
  match l with
  | Create bucket => Created (if decide (created bucket history) then Err BucketAlreadyExists else Ok tt)
  | PutBegin _ bucket _ has_body =>
      if decide (created bucket history) then if has_body then PutWaits else PutDone (Err InvalidRequestBody)
      else PutDone (Err NoSuchBucket)
  | PutBody _ (Ok _) => PutDone (Ok tt)
  | PutBody _ (Err _) => PutDone (Err InternalError)
  | PutDropped _ => NoAnswer
  | Get bucket key =>
      Got match last_put bucket key None None history.*1 history.*2 with
      | Some data => Ok (mkGetOutput data (len_as_i64 data))
      | None => Err (if decide (created bucket history) then NoSuchKey else NoSuchBucket)
      end
  end.

(** The waiting put's bucket exists. *)
Definition server_ok (s : server) : Prop :=
  match holder s with Some (_, bucket, _) => is_Some (buckets s !! bucket) | None => True end.

Definition waiting (s : server) : option (bytes * bytes) := (fun h => (h.1.2, h.2)) <$> holder s.
Definition lookup_object (s : store) (bucket key : bytes) : option bytes := s !! bucket ≫= lookup key.

(** The steps, case by case. *)
Ltac s3_cases l s :=
  let b := fresh "b" in let i := fresh "i" in let k := fresh "k" in let hb := fresh "hb" in let c := fresh "c" in
  let bs := fresh "bs" in let i' := fresh "i'" in let b' := fresh "b'" in let k' := fresh "k'" in
  destruct l as [b|i b k hb|i c|i|b k], s as [bs [[[i' b'] k']|]]; cbn in *; try done.

Lemma step_server_ok s l a s' : server_ok s -> step s l = Some (a, s') -> server_ok s'.
Proof.
  unfold server_ok. intros Hs. s3_cases l s.
  - unfold create_bucket. destruct (bs !! b); intros [= <- <-]; done.
  - unfold put_begin. destruct (bs !! b) eqn:E; [destruct hb|]; intros [= <- <-]; cbn; try done; by rewrite E.
  - case_decide; [|done]. destruct (put_end bs b' k' c) as [r bs'] eqn:E. by intros [= <- <-].
  - case_decide; [|done]. by intros [= <- <-].
  - by intros [= <- <-].
Qed.

Lemma initial_server_ok : server_ok initial.
Proof. done. Qed.

Lemma run_server_ok ls : forall s ans s', server_ok s -> run s ls = Some (ans, s') -> server_ok s'.
Proof.
  induction ls as [|l ls IH]; intros s ans s' Hs; cbn [run]; [by intros [= _ <-]|].
  destruct (step s l) as [[a s1]|] eqn:E; [|done]. cbn. destruct (run s1 ls) as [[? ?]|] eqn:Er; [|done]. cbn.
  intros [= _ <-]. eapply IH; [|done]. by eapply step_server_ok.
Qed.

Lemma run_snoc s ls ans s1 l a s2 : run s ls = Some (ans, s1) -> step s1 l = Some (a, s2) ->
  run s (ls ++ [l]) = Some (ans ++ [a], s2).
Proof.
  revert s ans. induction ls as [|l0 ls IH]; intros s ans; cbn [run app].
  - intros [= <- <-] ->. done.
  - destruct (step s l0) as [[a0 s0]|]; [|done]. cbn. destruct (run s0 ls) as [[ans0 s0']|] eqn:E; [|done]. cbn.
    intros [= <- <-] Hs. by rewrite (IH _ _ E Hs).
Qed.

Lemma run_prefix s ls1 ls2 ans s' : run s (ls1 ++ ls2) = Some (ans, s') ->
  exists s1, run s ls1 = Some (take (length ls1) ans, s1) /\ run s1 ls2 = Some (drop (length ls1) ans, s').
Proof.
  revert s ans. induction ls1 as [|l ls1 IH]; intros s ans; cbn [run app length]; [by exists s|].
  destruct (step s l) as [[a s0]|]; [|done]. cbn. destruct (run s0 _) as [[ans0 s0']|] eqn:E; [|done]. cbn.
  intros [= <- <-]. destruct (IH _ _ E) as (s1 & -> & H). by exists s1.
Qed.

Lemma run_last_put bucket key ls : forall s ans s', server_ok s -> run s ls = Some (ans, s') ->
  lookup_object (buckets s') bucket key = last_put bucket key (waiting s) (lookup_object (buckets s) bucket key) ls ans.
Proof.
  induction ls as [|l ls IH]; intros s ans s' Hs; cbn [run]; [by intros [= <- <-]|].
  destruct (step s l) as [[a s1]|] eqn:E; [|done]. cbn. destruct (run s1 ls) as [[ans1 s2]|] eqn:Er; [|done]. cbn.
  intros [= <- <-]. rewrite (IH s1 ans1 s2) by (done || by eapply step_server_ok). clear IH Er.
  s3_cases l s.
  - unfold create_bucket in E. destruct (bs !! b) eqn:Eb; injection E as <- <-; [done|]. cbn. f_equal.
    unfold lookup_object. destruct (decide (bucket = b)) as [->|]; [by rewrite lookup_insert_eq, Eb|by rewrite lookup_insert_ne].
  - unfold put_begin in E. destruct (bs !! b) eqn:Eb; [destruct hb|]; injection E as <- <-; done.
  - case_decide; [|done]. subst i'. unfold server_ok in Hs. cbn in Hs. destruct Hs as [objects Ho].
    unfold put_end in E. destruct c as [data|]; [|by injection E as <- <-].
    rewrite Ho in E. injection E as <- <-. cbn. f_equal. unfold lookup_object.
    destruct (decide (bucket = b')) as [->|Hb].
    + rewrite lookup_insert_eq, Ho. cbn. destruct (decide (key = k')) as [->|Hk].
      * by rewrite lookup_insert_eq, decide_True.
      * rewrite lookup_insert_ne by done. rewrite decide_False; [done|]. by intros [= ->].
    + rewrite lookup_insert_ne by done. rewrite decide_False; [done|]. by intros [= ->].
  - case_decide; [|done]. by injection E as <- <-.
  - by injection E as <- <-.
Qed.

(** A step changes which buckets exist only by a create that succeeds. *)
Lemma step_buckets s l a s' bucket : server_ok s -> step s l = Some (a, s') ->
  is_Some (buckets s' !! bucket) <-> is_Some (buckets s !! bucket) \/ (l, a) = (Create bucket, Created (Ok tt)).
Proof.
  unfold server_ok. intros Hs. s3_cases l s.
  - unfold create_bucket. destruct (bs !! b) eqn:E; intros [= <- <-]; cbn.
    + split; [by left|]. by intros [|[=]].
    + destruct (decide (bucket = b)) as [->|]; [rewrite lookup_insert_eq; by split; [right|eexists]|].
      rewrite lookup_insert_ne by done. split; [by left|]. intros [|[=]]; done.
  - unfold put_begin. destruct (bs !! b) eqn:E; [destruct hb|]; intros [= <- <-]; cbn; naive_solver.
  - case_decide; [|done]. destruct Hs as [objects Ho]. unfold put_end. rewrite Ho.
    destruct c; intros [= <- <-]; cbn; [|naive_solver].
    destruct (decide (bucket = b')) as [->|]; [rewrite lookup_insert_eq, Ho; naive_solver|].
    rewrite lookup_insert_ne by done. naive_solver.
  - case_decide; [|done]. intros [= <- <-]. cbn. naive_solver.
  - intros [= <- <-]. naive_solver.
Qed.

Lemma run_created bucket ls : forall s ans s', server_ok s -> run s ls = Some (ans, s') ->
  is_Some (buckets s' !! bucket) <-> is_Some (buckets s !! bucket) \/ created bucket (zip ls ans).
Proof.
  unfold created. induction ls as [|l ls IH]; intros s ans s' Hs; cbn [run].
  - intros [= <- <-]. cbn. rewrite elem_of_nil. naive_solver.
  - destruct (step s l) as [[a s1]|] eqn:E; [|done]. cbn. destruct (run s1 ls) as [[ans1 s2]|] eqn:Er; [|done]. cbn.
    intros [= <- <-]. rewrite (IH s1 ans1 s2), elem_of_cons, (step_buckets s l a s1) by (done || by eapply step_server_ok).
    split; intuition congruence.
Qed.

(** ** The node

    [main] binds the listener and accepts connections, a task each, until an
    accept fails; the service library decodes their requests, refuses those of
    a wrong signature, and polls the operation of every other on one of the
    runtime's worker threads.  The mutex is one of the standard library, so a
    poll that finds it locked blocks its thread ([blocked]: the requests in
    whose polls threads wait).  [served] is the history of steps with their
    answers. *)
Record node := mkNode { srv : server; blocked : list label; served : list (label * answer); ended : bool }.

Inductive node_label :=
| Accept (ok : bool)
| Poll (l : label)
| Wake (i : nat).

(** The first poll of a request begins with [lock()]; the later ones are those
    of a put that holds the lock already. *)
Definition first_poll (l : label) : bool :=
  match l with PutBody _ _ | PutDropped _ => false | Create _ | PutBegin _ _ _ _ | Get _ _ => true end.

Definition serve_request (n : node) (l : label) (rest : list label) : option node :=
  '(a, s) ← step (srv n) l; Some (mkNode s rest (served n ++ [(l, a)]) false).

Section node.
Context (worker_threads : nat).

Definition pool_step (l : node_label) (n : node) : option node :=
  if ended n then None else
  match l with
  | Accept true => Some n
  | Accept false => Some (mkNode (srv n) (blocked n) (served n) true)
  | Poll l =>
      if (length (blocked n) <? worker_threads)%nat then
        if first_poll l && bool_decide (is_Some (holder (srv n)))
        then Some (mkNode (srv n) (blocked n ++ [l]) (served n) false)
        else serve_request n l (blocked n)
      else None
  | Wake i => l ← blocked n !! i; serve_request n l (delete i (blocked n))
  end.

Definition initial_node : node := mkNode initial [] [] false.

(** [main], with whether the port is free; [None] when it is not. *)
Definition main (bind : bool) (ls : list node_label) : option node :=
  if bind then exec pool_step ls initial_node else None.

Record node_ok (n : node) : Prop := {
  n_run : run initial (served n).*1 = Some ((served n).*2, srv n);
  n_srv : server_ok (srv n);
  n_first : Forall (fun l => first_poll l = true) (blocked n);
  n_threads : (length (blocked n) <= worker_threads)%nat;
}.

Lemma serve_request_keeps n l rest n' : node_ok n -> serve_request n l rest = Some n' ->
  Forall (fun l => first_poll l = true) rest -> (length rest <= worker_threads)%nat -> node_ok n'.
Proof.
  intros [Hr Hs _ _]. unfold serve_request. destruct (step (srv n) l) as [[a s]|] eqn:E; [|done]. cbn. intros [= <-] Hf Hl.
  split; cbn; [|by eapply step_server_ok|done..]. rewrite !fmap_app. by eapply run_snoc.
Qed.

Lemma pool_step_keeps l n n' : node_ok n -> pool_step l n = Some n' -> node_ok n'.
Proof.
  intros Hn. pose proof Hn as [Hr Hs Hf Hl]. unfold pool_step. destruct (ended n); [done|]. destruct l as [[]|l|i].
  - by intros [= <-].
  - intros [= <-]. by split.
  - destruct (Nat.ltb_spec (length (blocked n)) worker_threads); [|done]. destruct (first_poll l) eqn:Ef; cbn.
    + case_bool_decide.
      * intros [= <-]. split; cbn; [done|done| |rewrite length_app; cbn; lia]. apply Forall_app. split; [done|by constructor].
      * intros Hv. by eapply serve_request_keeps.
    + intros Hv. by eapply serve_request_keeps.
  - destruct (blocked n !! i) as [l|] eqn:Ei; [|done]. cbn. intros Hv. eapply serve_request_keeps; [done..| |].
    + by apply Forall_delete.
    + rewrite length_delete by done. lia.
Qed.

Lemma node_reach_ok n : reach pool_step initial_node n -> node_ok n.
Proof.
  apply reach_invariant; [intros l s s'; apply pool_step_keeps|]. split; [done|done|constructor|cbn; lia].
Qed.

(** The history explains every answer in it. *)
Lemma history_answers n pre l a post : node_ok n -> served n = pre ++ (l, a) :: post ->
  exists s s', server_ok s /\ step s l = Some (a, s') /\
    (forall bucket, is_Some (buckets s !! bucket) <-> created bucket pre) /\
    forall bucket key, lookup_object (buckets s) bucket key = last_put bucket key None None pre.*1 pre.*2.
Proof.
  intros [Hr _ _ _] E. rewrite E, !fmap_app in Hr. apply run_prefix in Hr as (s & Hpre & Hpost).
  assert (take (length pre.*1) (pre.*2 ++ ((l, a) :: post).*2) = pre.*2) as Ht.
  { rewrite length_fmap, <- (length_fmap snd pre). apply take_app_length. }
  assert (drop (length pre.*1) (pre.*2 ++ ((l, a) :: post).*2) = a :: post.*2) as Hd.
  { rewrite length_fmap, <- (length_fmap snd pre). apply drop_app_length. }
  rewrite Ht in Hpre. rewrite Hd in Hpost.
  pose proof (run_server_ok _ _ _ _ initial_server_ok Hpre) as Hs.
  change (((l, a) :: post).*1) with (l :: post.*1) in Hpost. cbn [run] in Hpost.
  destruct (step s l) as [[a0 s1]|] eqn:Es; [|done]. cbn in Hpost. destruct (run s1 _) as [[? ?]|]; [|done]. cbn in Hpost.
  injection Hpost as -> _ _. exists s, s1. split; [done|]. split; [done|split].
  - intros bucket. rewrite (run_created bucket _ _ _ _ initial_server_ok Hpre). rewrite zip_fst_snd. cbn. rewrite lookup_empty.
    split; [|by right]. intros [[? [=]]|]; done.
  - intros bucket key. by rewrite (run_last_put bucket key _ _ _ _ initial_server_ok Hpre).
Qed.

(** Nothing is answered any more while all threads are blocked. *)
Lemma blocked_step l n n' : is_Some (holder (srv n)) -> node_ok n -> length (blocked n) = worker_threads ->
  pool_step l n = Some n' -> srv n' = srv n /\ blocked n' = blocked n /\ served n' = served n.
Proof.
  intros Hh [_ _ Hf _] Hb. unfold pool_step. destruct (ended n); [done|]. destruct l as [[]|l|i].
  - by intros [= <-].
  - by intros [= <-].
  - by rewrite (proj2 (Nat.ltb_ge _ _)) by lia.
  - destruct (blocked n !! i) as [l|] eqn:Ei; [|done]. cbn. pose proof (Forall_lookup_1 _ _ _ _ Hf Ei) as Hl. cbn in Hl.
    unfold serve_request. destruct Hh as [h Hh]. destruct (srv n) as [bs h0]. cbn in Hh. subst h0. by destruct l.
Qed.

(** ** Serving what waits

    The steps that serve what is there already: a blocked request gets the
    lock, the body of the put that holds it arrives or fails, or that put is
    dropped. *)
Definition settling (l : node_label) : bool :=
  match l with Wake _ | Poll (PutBody _ _) | Poll (PutDropped _) => true | _ => false end.
Definition can_settle (n : node) : Prop := holder (srv n) = None \/ (length (blocked n) < worker_threads)%nat.
Definition to_settle (n : node) : nat := (2 * length (blocked n) + match holder (srv n) with Some _ => 1 | None => 0 end)%nat.

(** [n'] is further than [n]: its new answers are those of requests that
    waited, and what waited is answered or waits. *)
Definition settles (n n' : node) : Prop :=
  ended n' = false /\ can_settle n' /\
  exists more, served n' = served n ++ more /\ forall l, l ∈ blocked n -> l ∈ more.*1 \/ l ∈ blocked n'.

Lemma settles_trans n1 n2 n3 : settles n1 n2 -> settles n2 n3 -> settles n1 n3.
Proof.
  intros (_ & _ & m1 & H1 & Hb1) (He & Hc & m2 & H2 & Hb2). split; [done|]. split; [done|].
  exists (m1 ++ m2). split; [by rewrite H2, H1, app_assoc|]. intros l Hl. rewrite fmap_app. set_solver.
Qed.

Lemma settling_step l n n' : node_ok n -> can_settle n -> settling l = true -> pool_step l n = Some n' ->
  settles n n' /\ (to_settle n' < to_settle n)%nat.
Proof.
  intros Hn Hc Hl. unfold pool_step, settles, can_settle, to_settle in *. destruct (ended n); [done|].
  destruct l as [|l|i]; [done| |].
  - destruct (_ <? _)%nat; [|done]. assert (first_poll l = false) as -> by by destruct l. cbn [andb].
    unfold serve_request. destruct (step (srv n) l) as [[a s]|] eqn:E; [|done]. cbn. intros [= <-]. cbn.
    assert (holder s = None /\ is_Some (holder (srv n))) as [-> [h ->]].
    { destruct (srv n) as [bs [[[id b] k]|]], l; try done; cbn in E; (case_decide; [|done]);
        [destruct (put_end _ _ _ _)|]; injection E as <- <-; by eauto. }
    split; [|lia]. split; [done|]. split; [by left|]. exists [(l, a)]. split; [done|by right].
  - destruct (blocked n !! i) as [l|] eqn:Ei; [|done]. cbn. pose proof (Forall_lookup_1 _ _ _ _ (n_first _ Hn) Ei) as Hf. cbn in Hf.
    unfold serve_request. destruct (step (srv n) l) as [[a s]|] eqn:E; [|done]. cbn. intros [= <-]. cbn.
    assert (holder (srv n) = None) as Hh by (destruct (srv n) as [bs [h|]]; [|done]; by destruct l).
    rewrite Hh. pose proof (lookup_lt_Some _ _ _ Ei) as Hlt. pose proof (n_threads _ Hn) as Ht. rewrite length_delete by done.
    split; [|destruct (holder s); lia]. split; [done|]. split; [right; lia|]. exists [(l, a)]. split; [done|].
    intros l' (j & Hj)%list_elem_of_lookup. destruct (decide (j = i)) as [->|Hne].
    + left. cbn. rewrite Ei in Hj. injection Hj as ->. set_solver.
    + right. rewrite delete_take_drop. apply elem_of_app.
      destruct (decide (j < i)%nat); [left|right].
      * apply list_elem_of_lookup_2 with j. by rewrite lookup_take_lt.
      * apply list_elem_of_lookup_2 with (j - S i)%nat. rewrite lookup_drop. by replace (S i + (j - S i))%nat with j by lia.
Qed.

Lemma settling_run ls : forall n n', node_ok n -> ended n = false -> can_settle n -> Forall (fun l => settling l = true) ls ->
  exec pool_step ls n = Some n' -> settles n n' /\ node_ok n' /\ (length ls + to_settle n' <= to_settle n)%nat.
Proof.
  induction ls as [|l ls IH]; intros n n' Hn He Hc Hf; cbn [exec length].
  - intros [= <-]. split; [|split; [done|lia]]. split; [done|]. split; [done|]. exists []. rewrite app_nil_r. split; [done|by right].
  - apply Forall_cons in Hf as [Hl Hf]. destruct (pool_step l n) as [n1|] eqn:E; [|done]. intros Hr.
    destruct (settling_step l n n1 Hn Hc Hl E) as [Hs Hm].
    destruct (IH n1 n') as (Hs' & Hn' & Hm'); [by eapply pool_step_keeps|apply Hs|apply Hs|done|done|].
    split; [by eapply settles_trans|]. split; [done|lia].
Qed.

(** Something can be served until nothing waits: the first blocked request, or
    the body of the put that holds the lock, whatever it brings. *)
Lemma settling_progress n : node_ok n -> ended n = false -> can_settle n ->
  (holder (srv n) = None /\ blocked n = []) \/ is_Some (pool_step (Wake 0) n) \/
  exists id, forall collected, is_Some (pool_step (Poll (PutBody id collected)) n).
Proof.
  intros Hn He Hc. destruct (holder (srv n)) as [[[id b] key]|] eqn:Hh.
  - right. right. exists id. intros c. unfold pool_step. rewrite He. destruct Hc as [Hc|Hc]; [by rewrite Hc in Hh|].
    rewrite (proj2 (Nat.ltb_lt _ _) Hc). cbn [first_poll andb]. unfold serve_request, step. rewrite Hh, decide_True by done.
    destruct (put_end _ _ _ _). by eexists.
  - destruct (blocked n) as [|l rest] eqn:Hb; [by left|]. right. left. unfold pool_step. rewrite He, Hb. cbn.
    pose proof (n_first _ Hn) as Hf. rewrite Hb in Hf. apply Forall_cons in Hf as [Hf _].
    unfold serve_request. destruct (srv n) as [bs h]. cbn in Hh. subst h. destruct l as [b|id b key hb|id c|id|b key]; try discriminate Hf; cbn.
    + destruct (create_bucket bs b). by eexists.
    + destruct (put_begin bs b hb); by eexists.
    + by eexists.
Qed.
End node.

Lemma stuck_forever w ls : forall n n', is_Some (holder (srv n)) -> node_ok w n -> length (blocked n) = w ->
  exec (pool_step w) ls n = Some n' -> served n' = served n.
Proof.
  induction ls as [|l ls IH]; intros n n' Hh Hn Hb; cbn [exec]; [by intros [= <-]|].
  destruct (pool_step w l n) as [n1|] eqn:E; [|done]. intros Hr.
  destruct (blocked_step w l n n1 Hh Hn Hb E) as (Hs & Hbl & <-).
  apply IH; [by rewrite Hs|by eapply pool_step_keeps|by rewrite Hbl|done].
Qed.

Lemma gets_block w bucket key k : forall n, ended n = false -> is_Some (holder (srv n)) ->
  (length (blocked n) + k <= w)%nat ->
  exists n', exec (pool_step w) (replicate k (Poll (Get bucket key))) n = Some n' /\
    length (blocked n') = (length (blocked n) + k)%nat /\ srv n' = srv n /\ served n' = served n /\ ended n' = false.
Proof.
  induction k as [|k IH]; intros n He Hh Hk; cbn [replicate exec]; [exists n; by rewrite Nat.add_0_r|].
  unfold pool_step at 1. rewrite He, (proj2 (Nat.ltb_lt _ _)) by lia. cbn [first_poll andb]. rewrite bool_decide_true by done.
  destruct (IH (mkNode (srv n) (blocked n ++ [Get bucket key]) (served n) false)) as (n' & Hr & Hb & H);
    [done|done|cbn [blocked]; rewrite length_app; cbn; lia|].
  exists n'. split; [exact Hr|]. cbn [blocked] in Hb. rewrite length_app in Hb. cbn in Hb. split; [lia|exact H].
Qed.

(** ** Properties *)

(** C10. The store is linearizable: over any interleaving of the requests of
    any connections, blocked or not, with bodies that arrive, fail, or are dropped
    with their connection, every answer of the node is the one that the history
    of the answers before it promises: a get returns the bytes of the last put of
    its key that completed, and their length; NoSuchKey when there was none in a
    bucket that was created, NoSuchBucket when it was not; a second creation and
    a put without a bucket or a body are refused, and change nothing. *)
Theorem get_returns_last_put worker_threads ls n pre l a post :
  main worker_threads true ls = Some n -> served n = pre ++ (l, a) :: post ->
  a = promised pre l /\ (forall data, len data < 2 ^ 63 -> len_as_i64 data = len data).
Proof.
  intros Hr E. split.
  - assert (node_ok worker_threads n) as Hn by (apply node_reach_ok; by exists ls).
    destruct (history_answers _ n pre l a post Hn E) as (s & s' & Hs & Hstep & Hc & Hl). unfold server_ok in Hs. s3_cases l s.
    + unfold create_bucket in Hstep. rewrite <- (decide_ext _ _ _ _ (Hc b)).
      destruct (bs !! b); injection Hstep as <- <-; [by rewrite decide_True by eauto|rewrite decide_False; [done|by intros []]].
    + unfold put_begin in Hstep. rewrite <- (decide_ext _ _ _ _ (Hc b)).
      destruct (bs !! b); [rewrite decide_True by eauto; destruct hb|rewrite decide_False by (by intros [])]; by injection Hstep as <- <-.
    + case_decide; [|done]. destruct Hs as [objects Ho]. unfold put_end in Hstep. rewrite Ho in Hstep.
      destruct c; by injection Hstep as <- <-.
    + case_decide; [|done]. by injection Hstep as <- <-.
    + injection Hstep as <- <-. f_equal. rewrite <- Hl, <- (decide_ext _ _ _ _ (Hc b)). unfold get_object, lookup_object.
      destruct (bs !! b) as [objects|]; cbn; [|by rewrite decide_False by (by intros [])].
      destruct (objects !! k); [done|]. by rewrite decide_True by eauto.
  - intros data Hd. unfold len_as_i64. rewrite Z.mod_small; [lia|]. unfold len in *. lia.
Qed.

(** C22. A put that waits for its body can stop the whole node.  While a
    worker thread is free, or no put waits, serving what waits cannot fail if no
    further request comes: in whatever order the blocked requests get the lock,
    whatever the bodies bring and whichever puts are dropped, there are at most
    two steps for each blocked request and one for the put that waits, in every
    state on the way there is a next one (the first blocked request, or the body
    of the put that holds the lock when it arrives or fails), and when there is
    none every request that was blocked has its answer and the lock is free.
    But a put that waits lets further requests in, and as many as there are free
    threads, gets for instance, can block all of them: from there nothing
    is ever answered again, since the body of the put that holds the lock has
    no thread left to be read on. *)
Theorem slow_upload_can_stop_the_node worker_threads ls n :
  main worker_threads true ls = Some n -> ended n = false ->
  (holder (srv n) = None \/ (length (blocked n) < worker_threads)%nat ->
     forall ls' n', Forall (fun l => settling l = true) ls' -> exec (pool_step worker_threads) ls' n = Some n' ->
     (length ls' <= 2 * length (blocked n) + 1)%nat /\
     ((holder (srv n') = None /\ blocked n' = [] /\ exists more, served n' = served n ++ more /\ blocked n ⊆ more.*1) \/
      is_Some (pool_step worker_threads (Wake 0) n') \/
      exists id, forall collected, is_Some (pool_step worker_threads (Poll (PutBody id collected)) n'))) /\
  (is_Some (holder (srv n)) -> forall bucket key,
     exists n', exec (pool_step worker_threads) (replicate (worker_threads - length (blocked n)) (Poll (Get bucket key))) n = Some n' /\
       served n' = served n /\
       forall ls' n'', exec (pool_step worker_threads) ls' n' = Some n'' -> served n'' = served n).
Proof.
  intros Hr He. assert (node_ok worker_threads n) as Hn by (apply node_reach_ok; by exists ls). split.
  - intros Hfree ls' n' Hls Hr'. destruct (settling_run worker_threads ls' n n' Hn He Hfree Hls Hr') as ((He' & Hc' & more & Hm & Hb) & Hn' & Hlen).
    split; [unfold to_settle in Hlen; destruct (holder (srv n)); lia|].
    destruct (settling_progress worker_threads n' Hn' He' Hc') as [[Hh Hbl]|H]; [left|by right].
    split; [done|]. split; [done|]. exists more. split; [done|]. intros l Hl. destruct (Hb l Hl) as [|H]; [done|]. rewrite Hbl in H. by apply elem_of_nil in H.
  - intros Hh bucket key. pose proof (n_threads _ _ Hn) as Ht.
    destruct (gets_block worker_threads bucket key (worker_threads - length (blocked n)) n He Hh ltac:(lia))
      as (n' & Hr' & Hb & Hs & Hv & _).
    exists n'. split; [done|]. split; [done|]. intros ls' n'' Hr''. rewrite <- Hv.
    eapply (stuck_forever worker_threads ls' n' n''); [by rewrite Hs| |lia|exact Hr''].
    eapply exec_invariant; [intros ???; apply pool_step_keeps|exact Hn|exact Hr'].
Qed.

(** A put holds the lock while its body arrives: in any state where a
    put waits, nothing else can take a step, creation, reads and other puts
    included, until the body of that very put is there or has failed, or the put
    is dropped; and its end always frees the lock. *)
Theorem waiting_put_blocks_everyone s id bucket key : holder s = Some (id, bucket, key) ->
  (forall l a s', step s l = Some (a, s') -> ((exists c, l = PutBody id c) \/ l = PutDropped id) /\ holder s' = None) /\
  (forall collected, is_Some (step s (PutBody id collected))).
Proof.
  intros Hh. destruct s as [bs h]. cbn in Hh. subst h. split.
  - intros l a s'. destruct l as [b|id' b k hb|id' c|id'|b k]; cbn; try done; case_decide as Hid; try done; subst id'.
    + destruct (put_end bs bucket key c). intros [= <- <-]. eauto.
    + intros [= <- <-]. eauto.
  - intros c. cbn. rewrite decide_True by done. destruct (put_end bs bucket key c). by eexists.
Qed.

Definition demo : list node_label :=
  [Accept true; Poll (Create (lit "b")); Poll (PutBegin 1 (lit "b") (lit "k") true); Poll (Get (lit "b") (lit "k"));
   Poll (PutBody 1 (Ok (lit "one"))); Poll (PutBegin 2 (lit "b") (lit "k") true); Poll (PutDropped 2); Wake 0].

Lemma get_returns_last_put_witness :
  exists n pre, main 2 true demo = Some n /\
    served n = pre ++ [(Get (lit "b") (lit "k"), Got (Ok (mkGetOutput (lit "one") 3)))].
Proof.
  destruct (main 2 true demo) as [n|] eqn:E; [|by vm_compute in E].
  assert (served n = take 5 (served n) ++ drop 5 (served n)) as Hsplit by (by rewrite take_drop).
  assert (drop 5 (served n) = [(Get (lit "b") (lit "k"), snd (default (Get [] [], NoAnswer) (last (served n))))]) as Hd
    by (vm_compute in E; injection E as <-; reflexivity).
  rewrite Hd in Hsplit.
  destruct (get_returns_last_put 2 demo n _ _ _ _ E Hsplit) as [Ha _].
  exists n, (take 5 (served n)). split; [done|]. rewrite Hsplit at 1. rewrite Ha. vm_compute in E. injection E as <-. reflexivity.
Defined.

Lemma slow_upload_can_stop_the_node_witness :
  exists n', main 1 true (take 3 demo ++ [Poll (Get (lit "b") (lit "k"))]) = Some n' /\
    forall l ls n'', exec (pool_step 1) (l :: ls) n' = Some n'' -> length (served n'') = 2%nat.
Proof.
  destruct (main 1 true (take 3 demo)) as [n|] eqn:E; [|by vm_compute in E].
  assert (ended n = false) as He by (vm_compute in E; by injection E as <-).
  destruct (slow_upload_can_stop_the_node 1 (take 3 demo) n E He) as [_ Hstop].
  destruct (Hstop ltac:(vm_compute in E; injection E as <-; by eexists) (lit "b") (lit "k")) as (n' & Hr & _ & Hs).
  exists n'. split.
  - change (main 1 true (take 3 demo ++ [Poll (Get (lit "b") (lit "k"))]))
      with (exec (pool_step 1) (take 3 demo ++ [Poll (Get (lit "b") (lit "k"))]) initial_node).
    rewrite (exec_from _ _ _ _ _ E). rewrite <- Hr. vm_compute in E. injection E as <-. reflexivity.
  - intros l ls n'' H. rewrite (Hs _ _ H). vm_compute in E. by injection E as <-.
Defined.

Lemma waiting_put_blocks_everyone_witness :
  let s := mkServer {[lit "b" := ∅]} (Some (1%nat, lit "b", lit "k")) in
  step s (Get (lit "b") (lit "k")) = None.
Proof.
  intros s. destruct (step s (Get (lit "b") (lit "k"))) as [[a s']|] eqn:E; [|reflexivity].
  destruct (waiting_put_blocks_everyone s 1 (lit "b") (lit "k") eq_refl) as [Hb _].
  destruct (Hb _ _ _ E) as [[[c [=]]|[=]] _].
Defined.
