(* ===== verification/EbpfProtect.v ===== *)
(** The daemon of [src/ebpf_protect/src/main.rs] that scans the kernel for
    eBPF programs outside a whitelist. *)
From S2P Require Import Prelude Bytes Bpf.

Definition BPF_OBJ_NAME_LEN : nat := 16.
Definition WHITELIST_MAP_PIN_PATH : bytes := lit "/sys/fs/bpf/fw_whitelist_map".

Record WhitelistKey := mkWhitelistKey { prog_type : Z; name : bytes }.

#[export] Instance WhitelistKey_eq_dec : EqDecision WhitelistKey.
Proof. solve_decision. Defined.
#[export] Instance WhitelistKey_countable : Countable WhitelistKey.
Proof.
  by refine (inj_countable' (fun k => (prog_type k, name k)) (fun p => mkWhitelistKey p.1 p.2) _); intros [].
Defined.

(** What [bpf_obj_get_info_by_fd] tells about a program. *)
Record prog_info := mkInfo { info_name : bytes; info_type : Z }.

(** An entry of the walk over the bpf file system: its path, whether it is a
    file, the descriptor [bpf_obj_get] gives, the id in the information of the
    object (program, map or link), and whether it can be removed. *)
Record entry := mkEntry {
  path : bytes; is_file : bool; obj_get : option Z; obj_id : option Z; removable : bool }.

(** What the daemon does, in order. *)
Inductive action :=
| OpenFd (fd : Z)
| CloseFd (fd : Z)
| Alert (id : Z) (prog_name : bytes) (type_ : Z)
| Detach (fd : Z)
| RemoveFile (path : bytes) (ok : bool)
| Purged (id : Z).

Fixpoint take_until_nul (s : bytes) : bytes :=
  match s with [] => [] | b :: s => if b =? 0 then [] else b :: take_until_nul s end.
(** [CStr::from_ptr(..).to_string_lossy()] *)
Definition prog_name (i : prog_info) : bytes := from_utf8_lossy (take_until_nul (info_name i)).

(** [CString::new] refuses an inner NUL. *)
Definition cstring_ok (p : bytes) : bool := negb (bool_decide (0 ∈ p)).

Definition remove_pin (prog_id : Z) (e : entry) : list action :=
  if negb (is_file e) then []
  else if bool_decide (from_utf8_lossy (path e) = WHITELIST_MAP_PIN_PATH) then []
  else if negb (cstring_ok (path e)) then []
  else match obj_get e with
  | None => []
  | Some fd =>
      [OpenFd fd] ++
      (if bool_decide (obj_id e = Some prog_id) then [RemoveFile (path e) (removable e)] else []) ++
      [CloseFd fd]
  end.
Definition remove_bpf_pins_by_id (prog_id : Z) (walk : list entry) : list action :=
  concat (map (remove_pin prog_id) walk).

Section daemon.
Context {M : Type} {B : BpfHash WhitelistKey Z M}.

Definition key_of (prog_name : bytes) (prog_type : Z) : WhitelistKey :=
  let len := Nat.min (length prog_name) (BPF_OBJ_NAME_LEN - 1) in
  mkWhitelistKey prog_type (take len prog_name ++ replicate (BPF_OBJ_NAME_LEN - len) 0).

Definition is_prog_allowed (map : M) (prog_name : bytes) (prog_type : Z) : bool :=
  match bpf_get map (key_of prog_name prog_type) with Some _ => true | None => false end.

Definition force_unload_bpf_program (fd id : Z) (walk : list entry) : list action :=
  [Detach fd] ++ remove_bpf_pins_by_id id walk ++ [CloseFd fd].

(** The kernel as one turn of the scan sees it: the content of the whitelist
    map, the id after an id, the descriptor of an id, the information behind a
    descriptor, and the walk; all of them may differ from turn to turn, since
    other processes and the daemon itself change them. *)
Record kernel := mkKernel {
  whitelist : M;
  next_id : Z -> option Z;
  fd_by_id : Z -> option Z;
  info_by_fd : Z -> option prog_info;
  walk_dir : list entry;
}.

(** The body of the loop for the program [id]. *)
Definition check_program (k : kernel) (id : Z) : list action :=
  match fd_by_id k id with
  | None => []
  | Some fd =>
      [OpenFd fd] ++
      match info_by_fd k fd with
      | None => [CloseFd fd]
      | Some i =>
          if is_prog_allowed (whitelist k) (prog_name i) (info_type i) then [CloseFd fd]
          else [Alert id (prog_name i) (info_type i)] ++ force_unload_bpf_program fd id (walk_dir k) ++ [Purged id]
      end
  end.

(** [check_and_enforce] from the id [id], in its [n]-th turn. *)
Fixpoint check_and_enforce (fuel : nat) (ks : nat -> kernel) (n : nat) (id : Z) : option (list action) :=
  match fuel with
  | O => None
  | S fuel =>
      match next_id (ks n) id with
      | None => Some []
      | Some id =>
          rest ← check_and_enforce fuel ks (S n) id;
          Some (check_program (ks n) id ++ rest)
      end
  end.

(** [setup_whitelist_map]: the pinned map when there is one, or a new empty
    one that is then pinned; the daemon panics when that fails. *)
Definition setup_whitelist_map (pinned : option M) (create_ok pin_ok : bool) : outcome M :=
  match pinned with
  | Some m => Val m
  | None => if create_ok && pin_ok then Val (bpf_empty 1024) else Panic
  end.

(** [main]: the syslog, the whitelist map, then a scan every second, each on
    the kernel that it finds. *)
Definition daemon (fuel : nat) (syslog : bool) (pinned : option M) (create_ok pin_ok : bool) (scans : list (nat -> kernel))
  : outcome (option (list action)) :=
  if syslog then
    match setup_whitelist_map pinned create_ok pin_ok with
    | Val _ => Val (@concat action <$> mapM (fun ks => check_and_enforce fuel ks 0 0) scans)
    | Panic => Panic
    end
  else Panic.

(** ** What a pass does *)

(** The descriptors that an action list opens and closes. *)
Definition opened (acts : list action) : list Z := omap (fun a => match a with OpenFd f => Some f | _ => None end) acts.
Definition closed (acts : list action) : list Z := omap (fun a => match a with CloseFd f => Some f | _ => None end) acts.
Definition alerts (acts : list action) : list (Z * bytes * Z) :=
  omap (fun a => match a with Alert i n t => Some (i, n, t) | _ => None end) acts.
Definition removed (acts : list action) : list bytes :=
  omap (fun a => match a with RemoveFile p true => Some p | _ => None end) acts.

Lemma opened_app a b : opened (a ++ b) = opened a ++ opened b.
Proof. apply omap_app. Qed.
Lemma closed_app a b : closed (a ++ b) = closed a ++ closed b.
Proof. apply omap_app. Qed.
Lemma alerts_app a b : alerts (a ++ b) = alerts a ++ alerts b.
Proof. apply omap_app. Qed.
Lemma removed_app a b : removed (a ++ b) = removed a ++ removed b.
Proof. apply omap_app. Qed.

(** The pins of an object id that the daemon removes. *)
Definition pin_removed (id : Z) (e : entry) : bool :=
  is_file e && negb (bool_decide (from_utf8_lossy (path e) = WHITELIST_MAP_PIN_PATH)) && cstring_ok (path e) &&
  match obj_get e with Some _ => true | None => false end && bool_decide (obj_id e = Some id) && removable e.

Lemma remove_pin_spec id e : opened (remove_pin id e) = closed (remove_pin id e) /\ alerts (remove_pin id e) = [] /\
  removed (remove_pin id e) = if pin_removed id e then [path e] else [].
Proof.
  unfold remove_pin, pin_removed. destruct (is_file e); [|done]. case_bool_decide; [done|].
  destruct (cstring_ok (path e)); [|done]. destruct (obj_get e); [|done].
  case_bool_decide; [|done]. by destruct (removable e).
Qed.

Lemma remove_pins_spec id walk : opened (remove_bpf_pins_by_id id walk) = closed (remove_bpf_pins_by_id id walk) /\
  alerts (remove_bpf_pins_by_id id walk) = [] /\
  removed (remove_bpf_pins_by_id id walk) = path <$> filter (pin_removed id) walk.
Proof.
  unfold remove_bpf_pins_by_id. induction walk as [|e walk (IHo & IHa & IHr)]; [done|]. cbn [map concat].
  destruct (remove_pin_spec id e) as (Ho & Ha & Hr).
  rewrite opened_app, closed_app, alerts_app, removed_app, IHo, IHa, IHr, Ho, Ha, Hr, filter_cons.
  split; [done|]. split; [done|]. by destruct (pin_removed id e).
Qed.

(** Whether the daemon acts against the program. *)
Definition unauthorized (k : kernel) (id : Z) : option prog_info :=
  fd ← fd_by_id k id; i ← info_by_fd k fd;
  if is_prog_allowed (whitelist k) (prog_name i) (info_type i) then None else Some i.

Lemma check_program_spec k id :
  opened (check_program k id) ≡ₚ closed (check_program k id) /\
  alerts (check_program k id) = match unauthorized k id with Some i => [(id, prog_name i, info_type i)] | None => [] end /\
  removed (check_program k id) =
    match unauthorized k id with Some _ => path <$> filter (pin_removed id) (walk_dir k) | None => [] end.
Proof.
  unfold check_program, unauthorized. destruct (fd_by_id k id) as [fd|]; [|done]. cbn.
  destruct (info_by_fd k fd) as [i|]; [|done]. cbn. destruct (is_prog_allowed _ _ _); [done|].
  unfold force_unload_bpf_program. destruct (remove_pins_spec id (walk_dir k)) as (Ho & Ha & Hr).
  rewrite <- !app_assoc. cbn. fold opened closed alerts removed.
  rewrite !opened_app, !closed_app, !alerts_app, !removed_app, Ho, Ha, Hr. cbn. rewrite !app_nil_r. split; [|done].
  apply Permutation_cons_append.
Qed.

(** The actions of a pass that checks the programs [visited] from turn [n]. *)
Definition pass_actions (ks : nat -> kernel) (n : nat) (visited : list Z) : list action :=
  concat (imap (fun i id => check_program (ks (n + i)%nat) id) visited).

Lemma pass_actions_cons ks n id visited :
  pass_actions ks n (id :: visited) = check_program (ks n) id ++ pass_actions ks (S n) visited.
Proof.
  unfold pass_actions. rewrite imap_cons. cbn [concat]. rewrite Nat.add_0_r. f_equal. f_equal.
  apply imap_ext. intros i x _. cbn. by rewrite <- plus_n_Sm.
Qed.

(** What [bpf_prog_get_next_id] documents: the least loaded id above the
    given one, or an error when there is none. *)
Definition lists_programs (k : kernel) (progs : list Z) : Prop :=
  forall id, match next_id k id with
  | Some p => p ∈ progs /\ id < p /\ forall q, q ∈ progs -> id < q -> p <= q
  | None => forall q, q ∈ progs -> q <= id
  end.

Section pass.
Variables (ks : nat -> kernel) (progs : nat -> list Z).
Hypothesis Hids : forall n p, p ∈ progs n -> 0 < p <= 2 ^ 32 - 1.
Hypothesis Hnext : forall n, lists_programs (ks n) (progs n).

Lemma pass_visits fuel n id : (Z.to_nat (2 ^ 32 - 1 - id) < fuel)%nat ->
  exists visited, check_and_enforce fuel ks n id = Some (pass_actions ks n visited) /\
    StronglySorted Z.lt visited /\ Forall (fun p => id < p) visited /\
    (forall i p, visited !! i = Some p -> p ∈ progs (n + i)%nat) /\
    (forall p, id < p -> (forall m, p ∈ progs m) -> p ∈ visited).
Proof.
  revert n id. induction fuel as [|fuel IH]; intros n id Hf; [lia|]. cbn [check_and_enforce].
  pose proof (Hnext n id) as Hn. destruct (next_id (ks n) id) as [p|].
  - destruct Hn as (Hp & Hlt & Hleast). pose proof (Hids n p Hp).
    destruct (IH (S n) p) as (visited & Hc & Hs & Hall & Hin & Hstay); [lia|].
    exists (p :: visited). rewrite Hc, pass_actions_cons. cbn. split; [done|]. split_and!.
    + by constructor.
    + constructor; [done|]. eapply Forall_impl; [exact Hall|]. cbn. lia.
    + intros [|i] q Hq; cbn in Hq; [rewrite Nat.add_0_r; by simplify_eq|].
      rewrite <- plus_n_Sm. by apply (Hin i).
    + intros q Hq Hall'. apply elem_of_cons. destruct (decide (q = p)) as [|Hne]; [by left|right].
      apply Hstay; [|done]. pose proof (Hleast q (Hall' n) Hq). lia.
  - exists []. split; [done|]. split; [constructor|]. split; [constructor|]. split; [done|].
    intros q Hq Hall. pose proof (Hn q (Hall n)). lia.
Qed.

End pass.

(** What a whole pass does is what its turns do. *)
Lemma pass_descriptors ks n visited : opened (pass_actions ks n visited) ≡ₚ closed (pass_actions ks n visited).
Proof.
  revert n. induction visited as [|id visited IH]; intros n; [done|].
  rewrite pass_actions_cons, opened_app, closed_app, (IH (S n)). by destruct (check_program_spec (ks n) id) as (-> & _).
Qed.

Lemma elem_of_pass {A} (f : list action -> list A) ks n visited x :
  (forall a b, f (a ++ b) = f a ++ f b) -> f [] = [] ->
  x ∈ f (pass_actions ks n visited) <->
  exists i id, visited !! i = Some id /\ x ∈ f (check_program (ks (n + i)%nat) id).
Proof.
  intros Happ Hnil. revert n. induction visited as [|id visited IH]; intros n.
  - unfold pass_actions. cbn. rewrite Hnil. split; [by intros []%elem_of_nil|by intros (? & ? & ? & _)].
  - rewrite pass_actions_cons, Happ, elem_of_app, IH. split.
    + intros [Hx|(i & id' & Hi & Hx)].
      * exists 0%nat, id. by rewrite Nat.add_0_r.
      * exists (S i), id'. by rewrite <- plus_n_Sm.
    + intros ([|i] & id' & Hi & Hx); cbn in Hi.
      * left. rewrite Nat.add_0_r in Hx. by simplify_eq.
      * right. exists i, id'. by rewrite <- plus_n_Sm in Hx.
Qed.

Lemma unauthorized_spec k id i : unauthorized k id = Some i <->
  exists fd, fd_by_id k id = Some fd /\ info_by_fd k fd = Some i /\
    bpf_get (whitelist k) (key_of (prog_name i) (info_type i)) = None.
Proof.
  unfold unauthorized, is_prog_allowed. destruct (fd_by_id k id) as [fd|]; cbn; [|naive_solver].
  destruct (info_by_fd k fd) as [i'|] eqn:Hi; cbn; [|naive_solver].
  destruct (bpf_get _ _) eqn:Hg; split.
  - done.
  - intros (fd' & [= <-] & Hi' & Hg'). congruence.
  - intros [= <-]. by exists fd.
  - intros (fd' & [= <-] & Hi' & Hg'). congruence.
Qed.

End daemon.

(** ** The enforcement *)

Section enforcement.
Context {M : Type} {B : BpfHash WhitelistKey Z M}.

(** Without a pinned whitelist the daemon starts with one that allows no
    program at all. *)
Lemma fresh_whitelist_allows_nothing (create_ok pin_ok : bool) m nm t :
  setup_whitelist_map None create_ok pin_ok = Val m -> is_prog_allowed m nm t = false.
Proof.
  unfold setup_whitelist_map, is_prog_allowed. case_match; [|done]. intros [= <-]. by rewrite bpf_get_empty.
Qed.

(** C13. A pass of the daemon ends whatever other processes load and unload in
    the meantime: it checks loaded programs in the increasing order of their
    ids, and every program that stays loaded is checked. An alert is raised
    for exactly the checked programs whose name, cut to fifteen bytes, and type
    are not a key of the whitelist at that moment; the files removed are exactly
    the removable pins of objects with the id number of such a program, of
    whatever kind the object is, and never the pin of the whitelist; every
    descriptor opened is closed. *)
Theorem enforcement_pass (ks : nat -> kernel (M := M)) (progs : nat -> list Z) (fuel : nat) :
  (forall n p, p ∈ progs n -> 0 < p <= 2 ^ 32 - 1) ->
  (forall n, lists_programs (ks n) (progs n)) ->
  (Z.to_nat (2 ^ 32 - 1) < fuel)%nat ->
  exists visited acts, check_and_enforce fuel ks 0 0 = Some acts /\
    StronglySorted Z.lt visited /\
    (forall i p, visited !! i = Some p -> p ∈ progs i) /\
    (forall p, (forall n, p ∈ progs n) -> p ∈ visited) /\
    opened acts ≡ₚ closed acts /\
    (forall id nm t, (id, nm, t) ∈ alerts acts <->
      exists i fd inf, visited !! i = Some id /\ fd_by_id (ks i) id = Some fd /\ info_by_fd (ks i) fd = Some inf /\
        nm = prog_name inf /\ t = info_type inf /\ bpf_get (whitelist (ks i)) (key_of nm t) = None) /\
    (forall p, p ∈ removed acts <->
      exists i id e, visited !! i = Some id /\ is_Some (unauthorized (ks i) id) /\
        e ∈ walk_dir (ks i) /\ pin_removed id e = true /\ path e = p) /\
    (WHITELIST_MAP_PIN_PATH ∉ removed acts).
Proof.
  intros Hids Hnext Hf.
  destruct (pass_visits ks progs Hids Hnext fuel 0 0) as (visited & Hc & Hs & _ & Hin & Hstay); [by rewrite Z.sub_0_r|].
  assert (Hrem : forall p, p ∈ removed (pass_actions ks 0 visited) <->
      exists i id e, visited !! i = Some id /\ is_Some (unauthorized (ks i) id) /\
        e ∈ walk_dir (ks i) /\ pin_removed id e = true /\ path e = p).
  { intros p. rewrite (elem_of_pass removed) by (done || apply removed_app). cbn.
    apply exist_proper; intros i; apply exist_proper; intros id. destruct (check_program_spec (ks i) id) as (_ & _ & ->).
    split.
    - intros (Hi & Hp). destruct (unauthorized (ks i) id) as [inf|]; [|by apply elem_of_nil in Hp].
      apply list_elem_of_fmap in Hp as (e & -> & He). apply list_elem_of_filter in He as (Hr & He).
      exists e. split_and!; try done. by apply Is_true_true.
    - intros (e & Hi & [inf ->] & He & Hr & <-). split; [done|]. apply list_elem_of_fmap. exists e.
      split; [done|]. apply list_elem_of_filter. split; [by apply Is_true_true|done]. }
  exists visited, (pass_actions ks 0 visited). split; [done|]. split; [done|]. split; [exact Hin|].
  split; [|split; [apply pass_descriptors|split; [|split; [exact Hrem|]]]].
  - intros p Hp. apply Hstay; [|done]. pose proof (Hids 0%nat p (Hp 0%nat)). lia.
  - intros id nm t. rewrite (elem_of_pass alerts) by (done || apply alerts_app). cbn.
    split.
    + intros (i & id' & Hi & Ha). destruct (check_program_spec (ks i) id') as (_ & He & _). rewrite He in Ha.
      destruct (unauthorized (ks i) id') as [inf|] eqn:Hu; [|by apply elem_of_nil in Ha].
      apply list_elem_of_singleton in Ha as [= -> -> ->]. apply unauthorized_spec in Hu as (fd & Hfd & Hinf & Hg).
      by exists i, fd, inf.
    + intros (i & fd & inf & Hi & Hfd & Hinf & -> & -> & Hg). exists i, id. split; [done|].
      destruct (check_program_spec (ks i) id) as (_ & -> & _).
      assert (unauthorized (ks i) id = Some inf) as -> by (apply unauthorized_spec; by exists fd).
      by apply list_elem_of_singleton.
  - intros Hw. apply Hrem in Hw as (i & id & e & _ & _ & _ & Hr & Hp).
    unfold pin_removed in Hr. rewrite Hp in Hr.
    replace (bool_decide (from_utf8_lossy WHITELIST_MAP_PIN_PATH = WHITELIST_MAP_PIN_PATH)) with true in Hr.
    + by rewrite andb_false_r in Hr.
    + by vm_compute.
Qed.

(** However many scans the daemon makes, each ends, no descriptor stays open
    and what is done is the scans' actions one after the other; it panics only
    at the start, without a syslog or a whitelist map. *)
Theorem daemon_scans (fuel : nat) (syslog : bool) (pinned : option M) (create_ok pin_ok : bool)
    (scans : list (nat -> kernel (M := M))) (progs : (nat -> kernel) -> nat -> list Z) :
  (forall ks n p, ks ∈ scans -> p ∈ progs ks n -> 0 < p <= 2 ^ 32 - 1) ->
  (forall ks n, ks ∈ scans -> lists_programs (ks n) (progs ks n)) ->
  (Z.to_nat (2 ^ 32 - 1) < fuel)%nat ->
  match daemon fuel syslog pinned create_ok pin_ok scans with
  | Val o => exists per_scan, o = Some (concat per_scan) /\ opened (concat per_scan) ≡ₚ closed (concat per_scan) /\
      Forall2 (fun ks acts => check_and_enforce fuel ks 0 0 = Some acts) scans per_scan
  | Panic => syslog = false \/ (pinned = None /\ create_ok && pin_ok = false)
  end.
Proof.
  intros Hids Hnext Hf. unfold daemon. destruct syslog; [|by left].
  assert (exists per_scan, mapM (fun ks => check_and_enforce fuel ks 0 0) scans = Some per_scan /\
    opened (concat per_scan) ≡ₚ closed (concat per_scan)) as (per_scan & Hm & Hb).
  { clear pinned create_ok pin_ok. induction scans as [|ks scans IH]; [by exists []|].
    destruct IH as (l & Hl & Hb); [intros k n p ?; apply Hids; by right|intros k n ?; apply Hnext; by right|].
    destruct (pass_visits ks (progs ks)) with fuel 0%nat 0 as (visited & Hc & _).
    { intros n p. apply Hids. left. } { intros n. apply Hnext. left. } { by rewrite Z.sub_0_r. }
    exists (pass_actions ks 0 visited :: l). cbn. rewrite Hc, Hl. split; [done|].
    rewrite opened_app, closed_app, Hb. by rewrite pass_descriptors. }
  unfold setup_whitelist_map. destruct pinned as [m|]; [|destruct (create_ok && pin_ok); [|by right]].
  all: exists per_scan; rewrite Hm; split; [done|]; split; [done|]; by apply mapM_Some_1.
Qed.

End enforcement.

(** A kernel that loses program 3 after the first turn, with program 7 outside
    the whitelist, a pin of it and a pin of the whitelist. *)
Definition ex_program (id : Z) : bytes := if id =? 3 then lit "good" ++ [0] else lit "evil" ++ [0].
Definition ex_kernel (n : nat) : kernel (M := nat * gmap WhitelistKey Z) := {|
  whitelist := (1024%nat, {[ key_of (lit "good") 6 := 1 ]});
  next_id := fun id => if (n =? 0)%nat && (id <? 3) then Some 3 else if id <? 7 then Some 7 else None;
  fd_by_id := fun id => Some (id + 10);
  info_by_fd := fun fd => Some (mkInfo (ex_program (fd - 10)) 6);
  walk_dir := [mkEntry (lit "/sys/fs/bpf") false None None false;
               mkEntry (lit "/sys/fs/bpf/evil") true (Some 30) (Some 7) true;
               mkEntry (lit "/sys/fs/bpf/good") true (Some 31) (Some 3) true;
               mkEntry WHITELIST_MAP_PIN_PATH true (Some 32) (Some 7) true] |}.
Definition ex_progs (n : nat) : list Z := if (n =? 0)%nat then [3; 7] else [7].

Lemma ex_lists n : lists_programs (ex_kernel n) (ex_progs n).
Proof.
  intros id. unfold ex_kernel, ex_progs. cbn [next_id].
  assert (H37 : forall q, q ∈ [3; 7] <-> q = 3 \/ q = 7) by (intros q; rewrite elem_of_cons, list_elem_of_singleton; done).
  assert (H7 : forall q, q ∈ [7] <-> q = 7) by (intros q; apply list_elem_of_singleton).
  destruct (n =? 0)%nat; cbn [andb].
  - destruct (Z.ltb_spec id 3); [|destruct (Z.ltb_spec id 7)].
    + split; [by apply H37; left|]. split; [done|]. intros q Hq%H37. lia.
    + split; [by apply H37; right|]. split; [done|]. intros q Hq%H37. lia.
    + intros q Hq%H37. lia.
  - destruct (Z.ltb_spec id 7).
    + split; [by apply H7|]. split; [done|]. intros q Hq%H7. lia.
    + intros q Hq%H7. lia.
Qed.

Lemma enforcement_pass_witness : exists acts, check_and_enforce 10 ex_kernel 0 0 = Some acts /\
  alerts acts = [(7, lit "evil", 6)] /\ removed acts = [lit "/sys/fs/bpf/evil"] /\
  exists (visited : list Z) acts', check_and_enforce (S (Z.to_nat (2 ^ 32 - 1))) ex_kernel 0 0 = Some acts' /\ 7 ∈ visited /\
    opened acts' ≡ₚ closed acts'.
Proof.
  eexists. split; [vm_compute; reflexivity|]. split; [vm_compute; reflexivity|]. split; [vm_compute; reflexivity|].
  destruct (enforcement_pass ex_kernel ex_progs (S (Z.to_nat (2 ^ 32 - 1))))
    as (visited & acts & Hc & _ & _ & Hstay & Ho & _).
  - intros n p. unfold ex_progs. case_match; intros Hp; repeat (apply elem_of_cons in Hp as [->|Hp]; [lia|]); by apply elem_of_nil in Hp.
  - apply ex_lists.
  - lia.
  - exists visited, acts. split; [exact Hc|]. split; [|exact Ho]. apply Hstay. intros n. unfold ex_progs.
    case_match; rewrite !elem_of_cons; auto.
Defined.
