(* ===== verification/RsNgrok.v ===== *)
(** The tunnel of [src/rs_ngrok/src/main.rs]: the server and one client as
    labelled steps on their connections, and the bytes that a tunnel carries. *)
From S2P Require Import Prelude Bytes Concurrency.

(** [main]: the mode and its arguments, with the defaults. *)
Inductive command :=
| PrintUsage
| RunServer (control_port public_port : bytes)
| RunClient (server_addr local_addr : bytes).
Definition dispatch (args : list bytes) : command :=
  match args with
  | _ :: mode :: rest =>
      if bool_decide (mode = lit "server") then
        RunServer (default (lit "8001") (rest !! 0%nat)) (default (lit "8080") (rest !! 1%nat))
      else if bool_decide (mode = lit "client") then
        RunClient (default (lit "127.0.0.1:8001") (rest !! 0%nat)) (default (lit "127.0.0.1:3000") (rest !! 1%nat))
      else PrintUsage
  | _ => PrintUsage
  end.

(** Who opened a connection to the control port. *)
Inductive origin := ClientControl | TaskData (k : nat) | Stranger (id : nat).
#[export] Instance origin_eq_dec : EqDecision origin.
Proof. solve_decision. Defined.

(** Where [run_server] awaits. *)
Inductive server_phase :=
| AcceptingClient
| AcceptingPublic
| AcceptingData (public_stream : nat)
| ServerDone.

(** A spawned [copy_bidirectional] of the server; [linked] while it runs. *)
Record tunnel := mkTunnel { public_stream : nat; data_stream : origin; linked : bool }.

Inductive client_phase := NotStarted | Reading | ClientDone.

(** A task that [run_client] spawned for a trigger. *)
Inductive task_phase := ConnectingServer | ConnectingLocal | Copying | Returned.
#[export] Instance task_phase_eq_dec : EqDecision task_phase.
Proof. solve_decision. Defined.

(** The connections that wait to be accepted on the two ports, the bytes on
    the way to the client on its control connection, and the two programs. *)
Record state := mkState {
  control_backlog : list origin;
  public_backlog : list nat;
  control_stream : option origin;
  server : server_phase;
  tunnels : list tunnel;
  to_client : list Z;
  client : client_phase;
  tasks : list task_phase;
}.

Definition initial : state := mkState [] [] None AcceptingClient [] [] NotStarted [].

Definition set_server (ph : server_phase) (s : state) : state :=
  mkState (control_backlog s) (public_backlog s) (control_stream s) ph (tunnels s) (to_client s) (client s) (tasks s).
Definition set_control_backlog (q : list origin) (s : state) : state :=
  mkState q (public_backlog s) (control_stream s) (server s) (tunnels s) (to_client s) (client s) (tasks s).
Definition set_public_backlog (q : list nat) (s : state) : state :=
  mkState (control_backlog s) q (control_stream s) (server s) (tunnels s) (to_client s) (client s) (tasks s).
Definition set_tunnels (ts : list tunnel) (s : state) : state :=
  mkState (control_backlog s) (public_backlog s) (control_stream s) (server s) ts (to_client s) (client s) (tasks s).
Definition set_to_client (q : list Z) (s : state) : state :=
  mkState (control_backlog s) (public_backlog s) (control_stream s) (server s) (tunnels s) q (client s) (tasks s).
Definition set_client (ph : client_phase) (ts : list task_phase) (s : state) : state :=
  mkState (control_backlog s) (public_backlog s) (control_stream s) (server s) (tunnels s) (to_client s) ph ts.

Definition unlink (t : tunnel) : tunnel := mkTunnel (public_stream t) (data_stream t) false.

(** The end of [run_server]: [main] returns, and the runtime drops every
    spawned copy. *)
Definition end_server (s : state) : state := set_server ServerDone (set_tunnels (map unlink (tunnels s)) s).
(** The end of [run_client], likewise. *)
Definition end_client (s : state) : state := set_client ClientDone (replicate (length (tasks s)) Returned) s.

(** Bytes written to a connection arrive at the client's control reader when
    the connection is its control connection. *)
Definition deliver (c : origin) (bs : list Z) (s : state) : state :=
  if bool_decide (c = ClientControl) then set_to_client (to_client s ++ bs) s else s.

Inductive label :=
| ClientConnects                    (* run_client reaches the control port *)
| StrangerConnects (id : nat)       (* anybody else does *)
| VisitorConnects (v : nat)         (* somebody reaches the public port *)
| ServerAcceptsClient
| ServerAcceptsPublic (write_ok : bool)
| ServerAcceptsData
| ServerError                       (* an accept fails *)
| CopyEnds (i : nat)                (* a copy of the server ends *)
| Relay (i : nat) (b : Z)           (* a copy moves a byte to its data stream *)
| ClientReads
| ClientStops                       (* the read fails or gives 0 bytes *)
| TaskConnectsServer (k : nat) (ok : bool)
| TaskConnectsLocal (k : nat) (ok : bool)
| TaskEnds (k : nat).

Definition set_task (k : nat) (ph : task_phase) (s : state) : state :=
  set_client (client s) (<[k := ph]> (tasks s)) s.

Definition step (l : label) (s : state) : option state :=
  match l with
  | ClientConnects =>
      match client s with
      | NotStarted => Some (set_client Reading [] (set_control_backlog (control_backlog s ++ [ClientControl]) s))
      | _ => None
      end
  | StrangerConnects id => Some (set_control_backlog (control_backlog s ++ [Stranger id]) s)
  | VisitorConnects v => Some (set_public_backlog (public_backlog s ++ [v]) s)
  | ServerAcceptsClient =>
      match server s, control_backlog s with
      | AcceptingClient, c :: q =>
          Some (mkState q (public_backlog s) (Some c) AcceptingPublic (tunnels s) (to_client s) (client s) (tasks s))
      | _, _ => None
      end
  | ServerAcceptsPublic write_ok =>
      match server s, public_backlog s, control_stream s with
      | AcceptingPublic, v :: q, Some c =>
          let s := set_public_backlog q s in
          Some (if write_ok then set_server (AcceptingData v) (deliver c [1] s) else end_server s)
      | _, _, _ => None
      end
  | ServerAcceptsData =>
      match server s, control_backlog s with
      | AcceptingData v, c :: q =>
          Some (set_server AcceptingPublic (set_tunnels (tunnels s ++ [mkTunnel v c true]) (set_control_backlog q s)))
      | _, _ => None
      end
  | ServerError =>
      match server s with ServerDone => None | _ => Some (end_server s) end
  | CopyEnds i =>
      match tunnels s !! i with
      | Some t => if linked t then Some (set_tunnels (<[i := unlink t]> (tunnels s)) s) else None
      | None => None
      end
  | Relay i b =>
      match tunnels s !! i with
      | Some t => if linked t then Some (deliver (data_stream t) [b] s) else None
      | None => None
      end
  | ClientReads =>
      match client s, to_client s with
      | Reading, b :: q =>
          let s := set_to_client q s in
          Some (if b =? 1 then set_client Reading (tasks s ++ [ConnectingServer]) s else s)
      | _, _ => None
      end
  | ClientStops => match client s with Reading => Some (end_client s) | _ => None end
  | TaskConnectsServer k ok =>
      match tasks s !! k with
      | Some ConnectingServer =>
          Some (if ok then set_task k ConnectingLocal (set_control_backlog (control_backlog s ++ [TaskData k]) s)
                else set_task k Returned s)
      | _ => None
      end
  | TaskConnectsLocal k ok =>
      match tasks s !! k with
      | Some ConnectingLocal => Some (set_task k (if ok then Copying else Returned) s)
      | _ => None
      end
  | TaskEnds k =>
      match tasks s !! k with
      | Some Copying => Some (set_task k Returned s)
      | _ => None
      end
  end.

Definition run (ls : list label) (s : state) : option state := exec step ls s.

(** ** The order of arrival *)

(** Who arrives on the two ports in a run. *)
Definition visitors (ls : list label) : list nat := omap (fun l => match l with VisitorConnects v => Some v | _ => None end) ls.
Definition callers (ls : list label) : list origin :=
  omap (fun l => match l with
    | ClientConnects => Some ClientControl
    | StrangerConnects id => Some (Stranger id)
    | TaskConnectsServer k true => Some (TaskData k)
    | _ => None end) ls.
Definition no_stranger (l : label) : Prop := match l with StrangerConnects _ => False | _ => True end.

Definition awaited (s : state) : list nat := match server s with AcceptingData v => [v] | _ => [] end.
Definition control_of (s : state) : list origin := match control_stream s with Some c => [c] | None => [] end.

Lemma visitors_cons l ls : visitors (l :: ls) = visitors [l] ++ visitors ls.
Proof. apply (omap_app _ [l] ls). Qed.
Lemma callers_cons l ls : callers (l :: ls) = callers [l] ++ callers ls.
Proof. apply (omap_app _ [l] ls). Qed.

Lemma unlink_streams ts : map public_stream (map unlink ts) = map public_stream ts /\
  map data_stream (map unlink ts) = map data_stream ts.
Proof. induction ts as [|t ts [IH1 IH2]]; [done|]. cbn. by rewrite IH1, IH2. Qed.

Lemma insert_streams ts i t : ts !! i = Some t ->
  map public_stream (<[i := unlink t]> ts) = map public_stream ts /\
  map data_stream (<[i := unlink t]> ts) = map data_stream ts.
Proof.
  intros Hi. split; (etransitivity; [apply list_fmap_insert|]); apply list_insert_id;
    etransitivity; [apply list_lookup_fmap|by rewrite Hi|apply list_lookup_fmap|by rewrite Hi].
Qed.

Lemma deliver_frame c bs s : control_backlog (deliver c bs s) = control_backlog s /\
  public_backlog (deliver c bs s) = public_backlog s /\ control_stream (deliver c bs s) = control_stream s /\
  server (deliver c bs s) = server s /\ tunnels (deliver c bs s) = tunnels s /\
  client (deliver c bs s) = client s /\ tasks (deliver c bs s) = tasks s.
Proof. unfold deliver. by case_bool_decide. Qed.

(** What is accepted is accepted in the order of arrival; [lost] is the visitor
    that the end of the server drops. *)
Record in_order (cs : list origin) (vs : list nat) (s : state) : Prop := {
  io_control : control_of s ++ map data_stream (tunnels s) ++ control_backlog s = cs;
  io_start : (control_stream s = None -> tunnels s = []) /\ (server s = AcceptingClient -> control_stream s = None) /\
    (server s <> AcceptingClient -> server s <> ServerDone -> is_Some (control_stream s));
  io_public : exists lost : list nat, map public_stream (tunnels s) ++ lost ++ public_backlog s = vs /\
    (server s <> ServerDone -> lost = awaited s) /\ (length lost <= 1)%nat;
}.

(** What a state shows of the order. *)
Definition same_order (s s' : state) : Prop :=
  control_backlog s' = control_backlog s /\ public_backlog s' = public_backlog s /\
  control_stream s' = control_stream s /\ server s' = server s /\
  map public_stream (tunnels s') = map public_stream (tunnels s) /\
  map data_stream (tunnels s') = map data_stream (tunnels s).

Lemma in_order_frame cs vs s s' : in_order cs vs s -> same_order s s' -> in_order cs vs s'.
Proof.
  intros [Hc (Hs1 & Hs2 & Hs3) (lost & Hp & Hl & Hlen)] (E1 & E2 & E3 & E4 & E5 & E6).
  constructor; unfold control_of, awaited in *; rewrite ?E1, ?E2, ?E3, ?E4, ?E5, ?E6; [done| |by exists lost].
  split; [|done]. intros Hn. specialize (Hs1 Hn). rewrite Hs1 in E5. by destruct (tunnels s').
Qed.

Lemma deliver_same_order c bs s : same_order s (deliver c bs s).
Proof. unfold deliver. by case_bool_decide. Qed.

Lemma in_order_end cs vs s : in_order cs vs s -> in_order cs vs (end_server s).
Proof.
  intros [Hc (Hs1 & Hs2 & Hs3) (lost & Hp & Hl & Hlen)]. destruct (unlink_streams (tunnels s)) as [E1 E2].
  constructor; unfold control_of in *; cbn; rewrite ?E1, ?E2; [done| |by exists lost].
  split; [|done]. intros Hn. by rewrite (Hs1 Hn).
Qed.

Lemma in_order_step l s s' cs vs : in_order cs vs s -> step l s = Some s' ->
  in_order (cs ++ callers [l]) (vs ++ visitors [l]) s'.
Proof.
  intros Hio Hstep. pose proof Hio as [Hc (Hs1 & Hs2 & Hs3) (lost & Hp & Hl & Hlen)].
  assert (Hframe : forall s', same_order s s' -> in_order (cs ++ []) (vs ++ []) s')
    by (intros; rewrite !app_nil_r; by eapply in_order_frame).
  assert (Hback : forall o s', s' = set_client (client s') (tasks s') (set_control_backlog (control_backlog s ++ [o]) s) ->
    in_order (cs ++ [o]) (vs ++ []) s').
  { intros o s1 ->. rewrite app_nil_r. constructor; cbn; [|done|by exists lost]. subst cs. by rewrite <- !app_assoc. }
  destruct l as [|id|v|  |ok|  |  |i|i b|  |  |k ok|k ok|k]; cbn [step] in Hstep; cbn [callers visitors omap list_omap].
  - destruct (client s); [|done..]. injection Hstep as <-. by apply Hback.
  - injection Hstep as <-. by apply Hback.
  - injection Hstep as <-. rewrite app_nil_r. constructor; cbn; [done..|]. exists lost. subst vs. by rewrite <- !app_assoc.
  - destruct (server s) eqn:Es; [|done..]. destruct (control_backlog s) as [|c q] eqn:Eb; [done|]. injection Hstep as <-.
    rewrite !app_nil_r. unfold control_of, awaited in *. rewrite Es in Hl. specialize (Hs2 eq_refl). rewrite Hs2 in *.
    rewrite (Hs1 eq_refl) in *. constructor; cbn; [by subst cs| |]; [split; [done|]; by split; [|eexists]|].
    exists lost. split; [done|]. split; [intros _; by apply Hl|done].
  - destruct (server s) eqn:Es; [done| |done..]. destruct (public_backlog s) as [|v q] eqn:Eb; [done|].
    destruct (control_stream s) as [c|] eqn:Ec; [|done]. injection Hstep as <-. rewrite !app_nil_r.
    assert (in_order cs vs (set_server (AcceptingData v) (set_public_backlog q s))) as Hok.
    { unfold awaited in Hl. rewrite Es in Hl. rewrite (Hl ltac:(done)) in Hp. cbn in Hp.
      constructor; unfold control_of; cbn; [done| |by exists [v]]. by rewrite Ec. }
    destruct ok; [|exact (in_order_end _ _ _ Hok)]. eapply in_order_frame; [exact Hok|].
    destruct (deliver_same_order c [1] (set_public_backlog q s)) as (? & ? & ? & _ & ? & ?). by split_and!.
  - destruct (server s) as [| |v|] eqn:Es; [done..| |done]. destruct (control_backlog s) as [|c q] eqn:Eb; [done|].
    injection Hstep as <-. rewrite !app_nil_r. unfold awaited in Hl. rewrite Es in Hl. rewrite (Hl ltac:(done)) in Hp.
    destruct (Hs3 ltac:(done) ltac:(done)) as [o Ho].
    constructor; unfold control_of in *; cbn.
    + subst cs. rewrite map_app. by rewrite <- !app_assoc.
    + rewrite Ho. split; [done|]. by split; [|eexists].
    + exists []. rewrite map_app. subst vs. rewrite <- !app_assoc. split; [done|]. split; [done|cbn; lia].
  - rewrite !app_nil_r. destruct (server s); try done; injection Hstep as <-; by apply in_order_end.
  - destruct (tunnels s !! i) as [t|] eqn:Et; [|done]. destruct (linked t); [|done]. injection Hstep as <-. apply Hframe.
    destruct (insert_streams _ _ _ Et). by split_and!.
  - destruct (tunnels s !! i) as [t|] eqn:Et; [|done]. destruct (linked t); [|done]. injection Hstep as <-.
    apply Hframe, deliver_same_order.
  - destruct (client s); [done| |done]. destruct (to_client s) as [|b q]; [done|]. injection Hstep as <-. apply Hframe.
    by case_match.
  - destruct (client s); [done| |done]. injection Hstep as <-. by apply Hframe.
  - destruct (tasks s !! k) as [[]|]; try done. destruct ok; injection Hstep as <-; [by apply Hback|by apply Hframe].
  - destruct (tasks s !! k) as [[]|]; try done. injection Hstep as <-. by apply Hframe.
  - destruct (tasks s !! k) as [[]|]; try done. injection Hstep as <-. by apply Hframe.
Qed.

Lemma in_order_initial : in_order [] [] initial.
Proof. constructor; [done|done|]. exists []. split; [done|]. split; [done|cbn; lia]. Qed.

Lemma in_order_run ls s s' cs vs : in_order cs vs s -> run ls s = Some s' ->
  in_order (cs ++ callers ls) (vs ++ visitors ls) s'.
Proof.
  revert s cs vs. induction ls as [|l ls IH]; intros s cs vs Hs; unfold run; cbn [exec].
  - intros [= <-]. by rewrite !app_nil_r.
  - rewrite (callers_cons l ls), (visitors_cons l ls), !app_assoc.
    destruct (step l s) as [s1|] eqn:E; [|done]. apply IH. by eapply in_order_step.
Qed.

(** ** Pairing *)

(** Without strangers the connection taken for a visitor is that of the task
    which the visitor's trigger spawned. *)
Definition connecting (s : state) (k : nat) : Prop := tasks s !! k = Some ConnectingServer.
Definition stage (s : state) : Prop :=
  let n := length (tunnels s) in
  match server s with
  | ServerDone => True
  | AcceptingClient => tunnels s = [] /\ to_client s = [] /\ tasks s = [] /\
      control_backlog s = match client s with NotStarted => [] | _ => [ClientControl] end
  | AcceptingPublic => client s <> NotStarted /\ control_stream s = Some ClientControl /\ to_client s = [] /\
      control_backlog s = [] /\ length (tasks s) = n /\ forall k, ~ connecting s k
  | AcceptingData _ => client s <> NotStarted /\ control_stream s = Some ClientControl /\
      (to_client s = [1] /\ control_backlog s = [] /\ length (tasks s) = n /\ (forall k, ~ connecting s k) \/
       to_client s = [] /\ control_backlog s = [] /\ length (tasks s) = S n /\ (forall k, connecting s k -> k = n) \/
       to_client s = [] /\ control_backlog s = [TaskData n] /\ length (tasks s) = S n /\ forall k, ~ connecting s k)
  end.
Definition paired (s : state) : Prop := map data_stream (tunnels s) = TaskData <$> seq 0 (length (tunnels s)) /\ stage s.

Lemma paired_initial : paired initial.
Proof. done. Qed.

Lemma paired_no_control s i t : paired s -> tunnels s !! i = Some t -> data_stream t <> ClientControl.
Proof.
  intros [Hm _] Hi Hc. assert (data_stream <$> tunnels s !! i = Some ClientControl) as Hl by by rewrite Hi; cbn; rewrite Hc.
  rewrite <- list_lookup_fmap in Hl. change (fmap data_stream (tunnels s)) with (map data_stream (tunnels s)) in Hl.
  rewrite Hm, list_lookup_fmap in Hl. by destruct (seq 0 (length (tunnels s)) !! i).
Qed.

Lemma connecting_set_task s k k' ph : ph <> ConnectingServer -> connecting (set_task k ph s) k' -> connecting s k' /\ k' <> k.
Proof.
  unfold connecting. cbn. intros Hph Hk. destruct (decide (k' = k)) as [->|Hne].
  - apply list_lookup_insert_Some in Hk as [(_ & ? & _)|[? _]]; by subst.
  - by rewrite list_lookup_insert_ne in Hk.
Qed.

(** A task that leaves the connecting phase without a connection, or was past
    it, keeps the stage. *)
Lemma stage_set_task s k ph : ph <> ConnectingServer -> stage s -> stage (set_task k ph s).
Proof.
  intros Hph Hst. unfold stage in *. cbn. destruct (server s) as [| |v|]; [| | |done].
  - destruct Hst as (-> & -> & -> & ->). split_and!; try done.
  - destruct Hst as (? & ? & ? & ? & ? & Hn). rewrite length_insert. split_and!; try done.
    intros k' Hk. apply connecting_set_task in Hk as [Hk _]; [by apply (Hn k')|done].
  - destruct Hst as (? & ? & Hst). rewrite length_insert. split; [done|]. split; [done|].
    destruct Hst as [(? & ? & ? & Hn)|[(? & ? & ? & Hn)|(? & ? & ? & Hn)]]; [left|right; left|right; right];
      (split_and!; [done..|]); intros k' Hk; apply connecting_set_task in Hk as [Hk _]; try done; by apply (Hn k').
Qed.

Lemma paired_end_server s : paired s -> paired (end_server s).
Proof.
  intros [Hm _]. destruct (unlink_streams (tunnels s)) as [_ E]. split; [|done]. cbn. by rewrite E, length_map.
Qed.

Lemma not_connecting_replicate n k : replicate n Returned !! k <> Some ConnectingServer.
Proof. intros H. by apply lookup_replicate in H as [? _]. Qed.

Lemma paired_end_client s : client s = Reading -> paired s -> paired (end_client s).
Proof.
  intros Hr [Hm Hst]. split; [done|]. unfold stage, connecting in *. cbn. rewrite length_replicate.
  assert (Hn : forall k, replicate (length (tasks s)) Returned !! k <> Some ConnectingServer)
    by (intros; apply not_connecting_replicate).
  destruct (server s) as [| |v|]; [| | |done].
  - destruct Hst as (-> & -> & Ht & ->). by rewrite Ht, Hr.
  - destruct Hst as (? & ? & ? & ? & ? & _). by split_and!.
  - destruct Hst as (? & ? & Hst). split; [done|]. split; [done|].
    destruct Hst as [(? & ? & ? & _)|[(? & ? & ? & _)|(? & ? & ? & _)]]; [left|right; left|right; right];
      (split_and!; [done..|]); intros k Hk; by destruct (Hn k).
Qed.

(** The accepts of the server. *)
Lemma paired_accept l s s' : l = ServerAcceptsClient \/ (exists ok, l = ServerAcceptsPublic ok) \/ l = ServerAcceptsData ->
  paired s -> step l s = Some s' -> paired s'.
Proof.
  intros Hl Hpd Hstep. pose proof Hpd as [Hm Hst]. unfold stage in Hst. destruct Hl as [->|[[ok ->]| ->]]; cbn [step] in Hstep.
  - destruct (server s); [|done..]. destruct Hst as (Ht & Hto & Htk & Hb). rewrite Hb in Hstep.
    destruct (client s) eqn:Ec; [done|..]; injection Hstep as <-; (split; [done|]); unfold stage, connecting; cbn;
      rewrite Ht, Hto, Htk; by split_and!.
  - destruct (server s); [done| |done..]. destruct Hst as (Hc & Hs & Hto & Hb & Hlen & Hn).
    destruct (public_backlog s) as [|v q]; [done|]. rewrite Hs in Hstep. injection Hstep as <-.
    assert (Hp : paired (set_server ServerDone (set_public_backlog q s))) by done.
    destruct ok; [|exact (paired_end_server _ Hp)].
    change (deliver ClientControl [1]) with (fun s : state => set_to_client (to_client s ++ [1]) s).
    split; [done|]. split; [done|]. split; [done|]. left. cbn. by rewrite Hto.
  - destruct (server s) as [| |v|]; [done..| |done]. destruct Hst as (Hc & Hs & Hst).
    destruct Hst as [(_ & Hb & _)|[(_ & Hb & _)|(Hto & Hb & Hlen & Hn)]]; rewrite Hb in Hstep; [done..|]. injection Hstep as <-.
    split; [|unfold stage; cbn; rewrite length_app; cbn; split_and!; try done; lia].
    cbn. rewrite map_app, Hm, length_app, Nat.add_comm. cbn [length Nat.add]. by rewrite seq_S, fmap_app.
Qed.

(** The client takes a trigger, and a task reaches the control port. *)
Lemma paired_read s s' : paired s -> step ClientReads s = Some s' -> paired s'.
Proof.
  intros [Hm Hst] Hstep. cbn [step] in Hstep. destruct (client s) eqn:Ec; [done| |done].
  destruct (to_client s) as [|b q] eqn:Eto; [done|]. injection Hstep as <-. split; [by case_match|].
  unfold stage in *. rewrite Eto in Hst. destruct (server s) as [| |v|] eqn:Es.
  - by destruct Hst as (_ & ? & _).
  - by destruct Hst as (_ & _ & ? & _).
  - destruct Hst as (Hc & Hs & [(Heq & Hb & Hlen & Hn)|[(? & _)|(? & _)]]); [|done..]. injection Heq as -> ->.
    unfold connecting in *. cbn. rewrite Es. split; [done|]. split; [done|]. right; left.
    rewrite length_app, Hlen. split_and!; try done; [cbn; lia|].
    intros k Hk. apply lookup_snoc_Some in Hk as [[_ Hk]|[-> _]]; [by destruct (Hn k)|done].
  - destruct (b =? 1); cbn; by rewrite Es.
Qed.

Lemma paired_connect k ok s s' : paired s -> step (TaskConnectsServer k ok) s = Some s' -> paired s'.
Proof.
  intros [Hm Hst] Hstep. cbn [step] in Hstep. destruct (tasks s !! k) as [ph|] eqn:Ek; [|done]. destruct ph; try done.
  destruct ok; injection Hstep as <-; [|split; [done|]; by apply stage_set_task]. split; [done|].
  unfold stage in *. cbn. destruct (server s) as [| |v|]; [| | |done].
  - destruct Hst as (_ & _ & Ht & _). by rewrite Ht in Ek.
  - destruct Hst as (_ & _ & _ & _ & _ & Hn). by destruct (Hn k).
  - destruct Hst as (Hc & Hs & Hst). split; [done|]. split; [done|].
    destruct Hst as [(_ & _ & _ & Hn)|[(Hto & Hb & Hlen & Hn)|(_ & _ & _ & Hn)]]; [by destruct (Hn k)| |by destruct (Hn k)].
    right; right. rewrite length_insert, Hb. cbn. pose proof (Hn k Ek) as Hk. subst k. split_and!; [done..|].
    intros k' Hk. apply (connecting_set_task s) in Hk as [Hk Hne]; [|done]. by apply Hne, Hn.
Qed.

Lemma paired_step l s s' : no_stranger l -> paired s -> step l s = Some s' -> paired s'.
Proof.
  intros Hl Hpd Hstep. pose proof Hpd as [Hm Hst].
  destruct l as [|id|v|  |ok|  |  |i|i b|  |  |k ok|k ok|k];
    try (eapply paired_accept; [|exact Hpd|exact Hstep]; by eauto); try (by eapply paired_read); try (by eapply paired_connect);
    cbn [step] in Hstep; try done.
  - destruct (client s) eqn:Ec; [|done..]. injection Hstep as <-. split; [done|]. unfold stage, connecting in *. cbn.
    destruct (server s); [|by destruct Hst..|done]. destruct Hst as (? & ? & ? & Hb). rewrite Hb, Ec. done.
  - by injection Hstep as <-.
  - destruct (server s); try done; injection Hstep as <-; by apply paired_end_server.
  - destruct (tunnels s !! i) as [t|] eqn:Et; [|done]. destruct (linked t); [|done]. injection Hstep as <-.
    destruct (insert_streams _ _ _ Et) as [_ E]. split; cbn; [by rewrite E, length_insert|].
    unfold stage in *. cbn. rewrite length_insert. destruct (server s); try done. by destruct Hst as (Ht & ?); rewrite Ht in Et.
  - destruct (tunnels s !! i) as [t|] eqn:Et; [|done]. destruct (linked t); [|done]. injection Hstep as <-.
    unfold deliver. rewrite bool_decide_eq_false_2; [done|]. by eapply paired_no_control.
  - destruct (client s) eqn:Ec; [done| |done]. injection Hstep as <-. by apply paired_end_client.
  - destruct (tasks s !! k) as [[]|]; try done. injection Hstep as <-. split; [done|]. apply stage_set_task; [by destruct ok|done].
  - destruct (tasks s !! k) as [[]|]; try done. injection Hstep as <-. split; [done|]. by apply stage_set_task.
Qed.

Lemma paired_run ls s s' : Forall no_stranger ls -> paired s -> run ls s = Some s' -> paired s'.
Proof. intros Hls Hs. revert Hls. apply exec_invariant_for; [|done]. intros l s1 s2 H1 Hl H2. by eapply paired_step. Qed.

(** C14. Both ports are served in the order of arrival: in any run, the
    control connection followed by the data streams of the tunnels, followed by
    what still waits, is the sequence of connections to the control port,
    whoever made them; the visitors of the tunnels, followed by the one being
    served and those that wait, are the visitors in their order, one being lost
    when the server ends.  When only the client knows the control port, the
    k-th visitor is linked with the stream of the k-th task. *)
Theorem tunnel_pairing ls s : run ls initial = Some s ->
  control_of s ++ map data_stream (tunnels s) ++ control_backlog s = callers ls /\
  (exists lost : list nat, map public_stream (tunnels s) ++ lost ++ public_backlog s = visitors ls /\
    (server s <> ServerDone -> lost = awaited s) /\ (length lost <= 1)%nat) /\
  (Forall no_stranger ls -> map data_stream (tunnels s) = TaskData <$> seq 0 (length (tunnels s))).
Proof.
  intros Hrun.
  destruct (in_order_run _ _ _ _ _ in_order_initial Hrun) as [Hc _ Hp]. split; [done|]. split; [done|].
  intros Hns. by destruct (paired_run _ _ _ Hns paired_initial Hrun).
Qed.

(** ** What a tunnel carries

    [tokio]'s [copy_bidirectional] copies both ways until both readers have
    ended, or one way fails: then the other is dropped after some of its polls. *)
Section data.
Context {W : Type} `{!Copy W}.

Inductive cut := NotCut | ForwardCut (polls : nat) | BackwardCut (polls : nat).

(** The bytes written to [b] and to [a], and whether both ways ended. *)
Definition copy_bidirectional (w_a w_b : W) (c : cut) (a b : reader) : list Z * list Z * bool :=
  let (forth, r) := copy a w_b in
  let (back, r') := copy b w_a in
  match c with
  | NotCut => (forth, back, negb (is_err r) && negb (is_err r'))
  | ForwardCut k => (copy_dropped a w_b k, back, false)
  | BackwardCut k => (forth, copy_dropped b w_a k, false)
  end.

Lemma copy_bidirectional_spec w_a w_b c a b forth back ok : copy_bidirectional w_a w_b c a b = (forth, back, ok) ->
  forth `prefix_of` readable a /\ back `prefix_of` readable b /\ (ok = true -> forth = readable a /\ back = readable b).
Proof.
  unfold copy_bidirectional. pose proof (copy_prefix a w_b) as Ha. pose proof (copy_prefix b w_a) as Hb.
  destruct (copy a w_b) as [f [n|]] eqn:Ea, (copy b w_a) as [g [m|]] eqn:Eb; destruct c; cbn in *; intros [= <- <- <-];
    (split; [done || apply copy_dropped_prefix|]; split; [done || apply copy_dropped_prefix|done || intros _]).
  apply copy_ok in Ea as (_ & -> & _). by apply copy_ok in Eb as (_ & -> & _).
Qed.

(** A linked visitor and the local service, when the network delivers on the
    data connection what the two programs write: the service gets a beginning
    of what the visitor sent and the visitor a beginning of the service's answer,
    whatever fails; all of it, both ways, when both programs' copies end well. *)
Theorem tunnel_carries (ws wd wd' wl : W) (cs cc : cut) (visitor local at_server at_client : reader) :
  let '(to_data, to_visitor, ok_s) := copy_bidirectional ws wd cs visitor at_server in
  let '(to_local, to_data', ok_c) := copy_bidirectional wd' wl cc at_client local in
  readable at_client = to_data -> readable at_server = to_data' ->
  to_local `prefix_of` readable visitor /\ to_visitor `prefix_of` readable local /\
  (ok_s = true -> ok_c = true -> to_local = readable visitor /\ to_visitor = readable local).
Proof.
  destruct (copy_bidirectional ws wd cs visitor at_server) as [[to_data to_visitor] ok_s] eqn:Es.
  destruct (copy_bidirectional wd' wl cc at_client local) as [[to_local to_data'] ok_c] eqn:Ec. intros Hc Hs.
  apply copy_bidirectional_spec in Es as (Hs1 & Hs2 & Hs3), Ec as (Hc1 & Hc2 & Hc3).
  rewrite Hc in Hc1, Hc3. rewrite Hs in Hs2, Hs3. split; [by transitivity to_data|]. split; [by transitivity to_data'|].
  intros H1 H2. destruct (Hs3 H1) as [-> ->], (Hc3 H2) as [-> ->]. done.
Qed.
End data.

Lemma tunnel_carries_witness :
  let visitor := [Ok (lit "GET /")] in let local := [Ok (lit "200 "); Ok (lit "OK")] in
  let '(to_data, to_visitor, ok_s) := copy_bidirectional (W := option nat) None None NotCut visitor local in
  to_visitor = lit "200 OK" /\ to_data = lit "GET /".
Proof.
  intros visitor local.
  pose proof (tunnel_carries (W := option nat) None None None None NotCut NotCut visitor local local visitor) as Ht.
  destruct (Ht eq_refl eq_refl) as (_ & _ & H). destruct (H eq_refl eq_refl) as [H1 H2]. split; [exact H2|exact H1].
Defined.

(** A visitor, a data stream that the client opens for it, a stranger on the
    control port, and a second visitor. *)
Definition ex_visit (v k : nat) : list label := [VisitorConnects v; ServerAcceptsPublic true; ClientReads;
  TaskConnectsServer k true; ServerAcceptsData; TaskConnectsLocal k true].
Definition ex_run : list label := [ClientConnects; ServerAcceptsClient] ++ ex_visit 70 0 ++ ex_visit 71 1.
Definition ex_stranger : list label := [ClientConnects; ServerAcceptsClient; VisitorConnects 70;
  StrangerConnects 5; ServerAcceptsPublic true; ServerAcceptsData].

Lemma tunnel_pairing_witness : exists s s', run ex_run initial = Some s /\
  map data_stream (tunnels s) = [TaskData 0; TaskData 1] /\ map public_stream (tunnels s) = [70%nat; 71%nat] /\
  run ex_stranger initial = Some s' /\ tunnels s' = [mkTunnel 70 (Stranger 5) true] /\
  map data_stream (tunnels s') ++ control_backlog s' = [Stranger 5].
Proof.
  destruct (run ex_run initial) as [s|] eqn:E; [|by vm_compute in E].
  destruct (run ex_stranger initial) as [s'|] eqn:E'; [|by vm_compute in E'].
  destruct (tunnel_pairing _ _ E) as (_ & _ & Hp). destruct (tunnel_pairing _ _ E') as (Hc & _).
  exists s, s'. vm_compute in E, E'. injection E as <-. injection E' as <-.
  split; [done|]. split; [apply Hp; unfold ex_run; repeat constructor|]. split; [done|]. split; [done|]. split; [done|].
  exact (f_equal tail Hc).
Defined.

(** ** The visitor that waits *)

(** Nobody is left who could open the data connection. *)
Definition abandoned (s : state) : bool :=
  bool_decide (control_backlog s = []) && bool_decide (ConnectingServer ∉ tasks s) &&
  match client s with ClientDone => true | _ => bool_decide (to_client s = []) end.

Definition stuck (v : nat) (ts : list tunnel) (s : state) : Prop :=
  server s = AcceptingData v /\ control_backlog s = [] /\ (forall k, ~ connecting s k) /\ client s <> NotStarted /\
  (client s = ClientDone \/ to_client s = []) /\ (ClientControl ∉ map data_stream (tunnels s)) /\
  map public_stream (tunnels s) = map public_stream ts /\ map data_stream (tunnels s) = map data_stream ts.

(** What can change that: a stranger, or the end of the server. *)
Definition no_help (l : label) : Prop := match l with StrangerConnects _ | ServerError => False | _ => True end.

Lemma stuck_set_task v ts s k ph : ph <> ConnectingServer -> stuck v ts s -> stuck v ts (set_task k ph s).
Proof.
  intros Hph (? & ? & Hn & ? & ? & ? & ? & ?). split_and!; try done.
  intros k' Hk. apply connecting_set_task in Hk as [Hk _]; [by destruct (Hn k')|done].
Qed.

Lemma stuck_step v ts l s s' : no_help l -> stuck v ts s -> step l s = Some s' -> stuck v ts s'.
Proof.
  intros Hl Hst Hstep. pose proof Hst as (Hs & Hb & Hn & Hc & Hto & Hctl & Hts1 & Hts2).
  destruct l as [|id|w|  |ok|  |  |i|i b|  |  |k ok|k ok|k]; cbn [step] in Hstep; try done; rewrite ?Hs in Hstep; try done.
  - by destruct (client s).
  - by injection Hstep as <-.
  - by rewrite Hb in Hstep.
  - destruct (tunnels s !! i) as [t|] eqn:Et; [|done]. destruct (linked t); [|done]. injection Hstep as <-.
    destruct (insert_streams _ _ _ Et) as [E1 E2]. unfold stuck. cbn. rewrite E1, E2. by split_and!.
  - destruct (tunnels s !! i) as [t|] eqn:Et; [|done]. destruct (linked t); [|done]. injection Hstep as <-.
    unfold deliver. case_bool_decide as Ht; [|done]. destruct Hctl. rewrite <- Ht. apply list_elem_of_fmap.
    exists t. split; [done|]. by eapply list_elem_of_lookup_2.
  - destruct (client s); [done| |done]. destruct (to_client s); [done|]. by destruct Hto.
  - destruct (client s); [done| |done]. injection Hstep as <-. unfold stuck, connecting. cbn. split_and!; try done; try by left.
    intros k Hk. by apply not_connecting_replicate in Hk.
  - destruct (tasks s !! k) as [ph|] eqn:Ek; [|done]. destruct ph; try done. by destruct (Hn k).
  - destruct (tasks s !! k) as [[]|]; try done. injection Hstep as <-. apply stuck_set_task; [by destruct ok|done].
  - destruct (tasks s !! k) as [[]|]; try done. injection Hstep as <-. by apply stuck_set_task.
Qed.

Lemma stuck_run v ts ls s s' : Forall no_help ls -> stuck v ts s -> run ls s = Some s' -> stuck v ts s'.
Proof. intros Hls Hs. revert Hls. apply exec_invariant_for; [|done]. intros l s1 s2 H1 Hl H2. by eapply stuck_step. Qed.

Lemma connecting_elem s : ConnectingServer ∈ tasks s <-> exists k, connecting s k.
Proof. apply list_elem_of_lookup. Qed.

(** The last two steps of serving a visitor. *)
Lemma run_accept s v o : server s = AcceptingData v -> control_backlog s = [o] -> exists s',
  run [ServerAcceptsData] s = Some s' /\ server s' = AcceptingPublic /\ tunnels s' = tunnels s ++ [mkTunnel v o true].
Proof. intros Hs Hb. cbn. rewrite Hs, Hb. cbn. eexists. by split_and!. Qed.

Lemma run_connect_accept s v k : server s = AcceptingData v -> control_backlog s = [] -> connecting s k -> exists s',
  run [TaskConnectsServer k true; ServerAcceptsData] s = Some s' /\ server s' = AcceptingPublic /\
  tunnels s' = tunnels s ++ [mkTunnel v (TaskData k) true].
Proof. intros Hs Hb Hk. unfold connecting in Hk. cbn. rewrite Hk. cbn. rewrite Hs, Hb. cbn. eexists. by split_and!. Qed.

Lemma waiting_served s v : paired s -> server s = AcceptingData v -> abandoned s = false -> exists ls' s',
  Forall no_stranger ls' /\ (length ls' <= 3)%nat /\ run ls' s = Some s' /\ server s' = AcceptingPublic /\
  tunnels s' = tunnels s ++ [mkTunnel v (TaskData (length (tunnels s))) true].
Proof.
  intros [_ Hst] Hs Ha. unfold stage in Hst. rewrite Hs in Hst. destruct Hst as (Hc & _ & Hst). unfold abandoned in Ha.
  destruct Hst as [(Hto & Hb & Hlen & Hn)|[(Hto & Hb & Hlen & Hn)|(Hto & Hb & Hlen & Hn)]].
  - destruct (client s) eqn:Ec; [done| |]; cycle 1.
    { rewrite bool_decide_eq_true_2, bool_decide_eq_true_2 in Ha; [done| |done]. rewrite connecting_elem. by intros [k ?%Hn]. }
    destruct (run_connect_accept (set_client Reading (tasks s ++ [ConnectingServer]) (set_to_client [] s)) v (length (tunnels s)))
      as (s' & Hrun & Hs'); [done|done| |].
    { unfold connecting. cbn. rewrite <- Hlen. by apply list_lookup_middle. }
    exists [ClientReads; TaskConnectsServer (length (tunnels s)) true; ServerAcceptsData], s'.
    split; [by repeat constructor|]. split; [done|]. split; [|done].
    assert (step ClientReads s = Some (set_client Reading (tasks s ++ [ConnectingServer]) (set_to_client [] s))) as Hstep
      by (cbn; by rewrite Ec, Hto).
    rewrite <- Hrun. unfold run; cbn [exec]. by rewrite Hstep.
  - assert (connecting s (length (tunnels s))) as Hk.
    { destruct (decide (ConnectingServer ∈ tasks s)) as [Hin|Hnin].
      - apply connecting_elem in Hin as [k Hk]. by rewrite <- (Hn k Hk).
      - rewrite Hb, Hto, (bool_decide_eq_true_2 _ Hnin) in Ha. by destruct (client s). }
    destruct (run_connect_accept s v _ Hs Hb Hk) as (s' & Hrun & Hs').
    eexists _, s'. split; [|split; [|split; [exact Hrun|done]]]; [by repeat constructor|cbn; lia].
  - destruct (run_accept s v _ Hs Hb) as (s' & Hrun & Hs').
    eexists _, s'. split; [|split; [|split; [exact Hrun|done]]]; [by repeat constructor|cbn; lia].
Qed.

Lemma abandoned_stuck s v : paired s -> server s = AcceptingData v -> abandoned s = true -> stuck v (tunnels s) s.
Proof.
  intros Hpd Hs Ha. pose proof Hpd as [_ Hst]. unfold stage in Hst. rewrite Hs in Hst. destruct Hst as (Hc & _ & _).
  unfold abandoned in Ha. apply andb_prop in Ha as [[Hb Hn]%andb_prop Ha].
  apply bool_decide_eq_true in Hb, Hn. rewrite connecting_elem in Hn.
  split_and!; try done.
  - intros k Hk. by destruct Hn; exists k.
  - destruct (client s); [done| |by left]. right. by apply bool_decide_eq_true in Ha.
  - intros (t & Ht & [i Hi]%list_elem_of_lookup)%list_elem_of_fmap. by apply (paired_no_control s i t).
Qed.

(** Who is linked with whom; it only grows. *)
Definition streams (s : state) : list (nat * origin) := map (fun t => (public_stream t, data_stream t)) (tunnels s).

Lemma streams_unlink ts : map (fun t => (public_stream t, data_stream t)) (map unlink ts) = map (fun t => (public_stream t, data_stream t)) ts.
Proof. rewrite map_map. by apply map_ext. Qed.

Lemma streams_insert ts i t : ts !! i = Some t ->
  map (fun t => (public_stream t, data_stream t)) (<[i := unlink t]> ts) = map (fun t => (public_stream t, data_stream t)) ts.
Proof.
  intros Hi. etransitivity; [apply list_fmap_insert|]. apply list_insert_id. etransitivity; [apply list_lookup_fmap|by rewrite Hi].
Qed.

Lemma streams_step l s s' : step l s = Some s' -> streams s `prefix_of` streams s'.
Proof.
  intros E. unfold streams. destruct l as [|id|w|  |ok|  |  |i|i b|  |  |k ok|k ok|k]; cbn [step] in E.
  - destruct (client s); [|done..]. by injection E as <-.
  - by injection E as <-.
  - by injection E as <-.
  - destruct (server s), (control_backlog s); try done. by injection E as <-.
  - destruct (server s), (public_backlog s), (control_stream s) as [c|]; try done. injection E as <-.
    destruct ok; cbn; [|by rewrite streams_unlink]. by destruct (deliver_frame c [1] (set_public_backlog l s)) as (_ & _ & _ & _ & -> & _).
  - destruct (server s), (control_backlog s); try done. injection E as <-. cbn. rewrite map_app. by apply prefix_app_r.
  - destruct (server s); try done; injection E as <-; cbn; by rewrite streams_unlink.
  - destruct (tunnels s !! i) as [t|] eqn:Et; [|done]. destruct (linked t); [|done]. injection E as <-. cbn.
    by rewrite streams_insert.
  - destruct (tunnels s !! i) as [t|]; [|done]. destruct (linked t); [|done]. injection E as <-.
    by destruct (deliver_frame (data_stream t) [b] s) as (_ & _ & _ & _ & -> & _).
  - destruct (client s), (to_client s); try done. injection E as <-. by case_match.
  - destruct (client s); try done. by injection E as <-.
  - destruct (tasks s !! k) as [[]|]; try done. by injection E as <-; destruct ok.
  - destruct (tasks s !! k) as [[]|]; try done. by injection E as <-.
  - destruct (tasks s !! k) as [[]|]; try done. by injection E as <-.
Qed.

(** Nothing fails and no stranger comes; and the steps that serve the visitor,
    with how many of them are left. *)
Definition smooth (l : label) : Prop :=
  match l with StrangerConnects _ | ServerError | ClientStops | TaskConnectsServer _ false => False | _ => True end.
Definition helps (l : label) : bool :=
  match l with ClientReads | TaskConnectsServer _ _ | ServerAcceptsData => true | _ => false end.
Definition distance (s : state) : nat :=
  match control_backlog s with
  | _ :: _ => 1
  | [] => if bool_decide (ConnectingServer ∈ tasks s) then 2 else 3
  end.

Lemma smooth_no_stranger l : smooth l -> no_stranger l.
Proof. by destruct l. Qed.

Lemma connecting_set_task_iff s k ph : ph <> ConnectingServer -> tasks s !! k <> Some ConnectingServer ->
  ConnectingServer ∈ tasks (set_task k ph s) <-> ConnectingServer ∈ tasks s.
Proof.
  intros Hph Hk. rewrite !connecting_elem. split; intros [k' Hk'].
  - apply connecting_set_task in Hk' as [H _]; [by exists k'|done].
  - exists k'. unfold connecting in *. cbn. rewrite list_lookup_insert_ne; [done|]. by intros ->.
Qed.

Lemma waiting_step l s s' v : paired s -> server s = AcceptingData v -> abandoned s = false -> smooth l -> step l s = Some s' ->
  (exists o, streams s' = streams s ++ [(v, o)]) \/
  (server s' = AcceptingData v /\ abandoned s' = false /\ streams s' = streams s /\
   (distance s' + (if helps l then 1 else 0) <= distance s)%nat).
Proof.
  intros Hpd Hs Ha Hl E. pose proof Hpd as [_ Hst]. unfold stage in Hst. rewrite Hs in Hst. destruct Hst as (Hc & _ & Hst).
  unfold abandoned, distance, streams in *.
  assert (Hset : forall k ph, ph <> ConnectingServer -> tasks s !! k <> Some ConnectingServer ->
    bool_decide (ConnectingServer ∈ tasks (set_task k ph s)) = bool_decide (ConnectingServer ∈ tasks s)).
  { intros k ph Hph Hk. apply bool_decide_ext. by apply connecting_set_task_iff. }
  destruct l as [|id|w|  |ok|  |  |i|i b|  |  |k ok|k ok|k]; cbn [step] in E; rewrite ?Hs in E; try done; cbn [helps]; rewrite ?Nat.add_0_r.
  - by destruct (client s).
  - right. injection E as <-. by rewrite ?Hs.
  - left. destruct (control_backlog s) as [|c q]; [done|]. injection E as <-. exists c. cbn. by rewrite map_app.
  - right. destruct (tunnels s !! i) as [t|] eqn:Et; [|done]. destruct (linked t); [|done]. injection E as <-. cbn.
    by rewrite ?Hs, streams_insert.
  - right. destruct (tunnels s !! i) as [t|] eqn:Et; [|done]. destruct (linked t); [|done]. injection E as <-.
    unfold deliver. rewrite bool_decide_eq_false_2 by (by eapply paired_no_control). by rewrite ?Hs.
  - right. destruct (client s); [done| |done]. destruct (to_client s) as [|b q] eqn:Hto; [done|].
    destruct Hst as [(Heq & Hb & _ & Hn)|[(? & _)|(? & _)]]; [|done..]. injection Heq as -> ->. injection E as <-. cbn.
    rewrite Hb, ?Hs. assert (ConnectingServer ∉ tasks s) as Hno by (rewrite connecting_elem; by intros [k ?%Hn]).
    rewrite (bool_decide_eq_true_2 (ConnectingServer ∈ _)), (bool_decide_eq_false_2 _ Hno) by set_solver.
    rewrite (bool_decide_eq_false_2 (ConnectingServer ∉ _)) by set_solver. split_and!; try done; lia.
  - right. destruct ok; [|done]. destruct (tasks s !! k) as [ph|] eqn:Ek; [|done]. destruct ph; try done. injection E as <-. cbn.
    destruct Hst as [(_ & _ & _ & Hn)|[(_ & Hb & _)|(_ & _ & _ & Hn)]]; [by destruct (Hn k)| |by destruct (Hn k)].
    rewrite Hb, ?Hs. cbn. rewrite (bool_decide_eq_true_2 (ConnectingServer ∈ tasks s)) by (rewrite connecting_elem; by exists k).
    split_and!; try done; lia.
  - right. destruct (tasks s !! k) as [ph|] eqn:Ek; [|done]. destruct ph; try done. injection E as <-.
    pose proof (Hset k (if ok then Copying else Returned) ltac:(by destruct ok) ltac:(by rewrite Ek)) as Hx.
    rewrite !bool_decide_not, Hx. rewrite !bool_decide_not in Ha. cbn. by rewrite ?Hs.
  - right. destruct (tasks s !! k) as [ph|] eqn:Ek; [|done]. destruct ph; try done. injection E as <-.
    pose proof (Hset k Returned ltac:(done) ltac:(by rewrite Ek)) as Hx.
    rewrite !bool_decide_not, Hx. rewrite !bool_decide_not in Ha. cbn. by rewrite ?Hs.
Qed.

Lemma waiting_run v ls : forall s s', paired s -> server s = AcceptingData v -> abandoned s = false -> Forall smooth ls ->
  run ls s = Some s' ->
  (exists o, streams s ++ [(v, o)] `prefix_of` streams s') \/
  (server s' = AcceptingData v /\ abandoned s' = false /\ streams s' = streams s /\
   (distance s' + length (filter (fun l => helps l = true) ls) <= distance s)%nat).
Proof.
  induction ls as [|l ls IH]; intros s s' Hpd Hs Ha Hf; unfold run; cbn [exec].
  - intros [= <-]. right. cbn. by rewrite Nat.add_0_r.
  - apply Forall_cons in Hf as [Hl Hf]. destruct (step l s) as [s1|] eqn:E; [|done]. intros Hr.
    assert (paired s1) as Hpd1 by (eapply paired_step; [by apply smooth_no_stranger|done|exact E]).
    destruct (waiting_step l s s1 v Hpd Hs Ha Hl E) as [[o Ho]|(Hs1 & Ha1 & Ht1 & Hd1)].
    + left. exists o. rewrite <- Ho. revert Hr. apply (exec_invariant step (fun s' => streams s1 `prefix_of` streams s')); [|done].
      intros l' s2 s3 H2 H3. etrans; [done|]. by eapply streams_step.
    + destruct (IH s1 s' Hpd1 Hs1 Ha1 Hf Hr) as [Ho|(Hs2 & Ha2 & Ht2 & Hd2)]; [left; by rewrite Ht1 in Ho|right].
      split_and!; [done|done|by rewrite Ht2|]. rewrite filter_cons.
      destruct (helps l); case_decide; try done; cbn; lia.
Qed.

Lemma waiting_progress s v : paired s -> server s = AcceptingData v -> abandoned s = false ->
  exists l, smooth l /\ helps l = true /\ is_Some (step l s).
Proof.
  intros [_ Hst] Hs Ha. unfold stage in Hst. rewrite Hs in Hst. destruct Hst as (Hc & _ & _). unfold abandoned in Ha.
  destruct (control_backlog s) as [|c q] eqn:Hb.
  - destruct (decide (ConnectingServer ∈ tasks s)) as [Hin|Hin].
    + apply connecting_elem in Hin as [k Hk]. exists (TaskConnectsServer k true). split; [done|]. split; [done|].
      unfold connecting in Hk. cbn. rewrite Hk. by eexists.
    + rewrite (bool_decide_eq_true_2 _ Hin) in Ha. exists ClientReads. split; [done|]. split; [done|]. cbn.
      destruct (client s); [done| |done]. destruct (to_client s); [done|]. by eexists.
  - exists ServerAcceptsData. split; [done|]. split; [done|]. cbn. rewrite Hs, Hb. by eexists.
Qed.

(** C24. A visitor that the server waits to link, while only the client knows
    the control port.  Unless the client ended, or its task failed, before the
    data connection was opened, the visitor can be linked with its own task's
    stream by at most three more steps of the two programs; and it will be, if
    nothing fails: in every run without a stranger, a failing accept, a task that
    cannot connect, or an end of the client, either the visitor has been linked,
    with its own task's stream, or the server waits for it still, at most two of
    the three steps are done, and one that leads on can be taken.  Otherwise no
    later event but a stranger's connection or a failing accept ever makes the
    server go on: it keeps waiting, links nobody, and the later visitors pile
    up. *)
Theorem visitor_served_or_stalled ls s v : run ls initial = Some s -> Forall no_stranger ls -> server s = AcceptingData v ->
  if abandoned s
  then forall ls' s', Forall no_help ls' -> run ls' s = Some s' ->
    server s' = AcceptingData v /\ map data_stream (tunnels s') = map data_stream (tunnels s) /\
    public_backlog s' = public_backlog s ++ visitors ls'
  else
    (exists ls' s', Forall no_stranger ls' /\ (length ls' <= 3)%nat /\ run ls' s = Some s' /\ server s' = AcceptingPublic /\
      tunnels s' = tunnels s ++ [mkTunnel v (TaskData (length (tunnels s))) true]) /\
    (forall ls' s', Forall smooth ls' -> run ls' s = Some s' ->
      streams s ++ [(v, TaskData (length (tunnels s)))] `prefix_of` streams s' \/
      (server s' = AcceptingData v /\ (length (filter (fun l => helps l = true) ls') <= 2)%nat /\
       exists l, smooth l /\ helps l = true /\ is_Some (step l s'))).
Proof.
  intros Hrun Hns Hs. pose proof (paired_run _ _ _ Hns paired_initial Hrun) as Hpd.
  destruct (abandoned s) eqn:Ha.
  { intros ls' s' Hnh Hrun'. pose proof (stuck_run _ _ _ _ _ Hnh (abandoned_stuck _ _ Hpd Hs Ha) Hrun') as Hst.
    destruct Hst as (Hs' & _ & _ & _ & _ & _ & Hp & Hd). split; [done|]. split; [done|].
    pose proof (in_order_run _ _ _ _ _ in_order_initial Hrun) as Ho. pose proof (in_order_run _ _ _ _ _ Ho Hrun') as Ho'.
    destruct Ho as [_ _ (lost & Hv & Hl & _)]. destruct Ho' as [_ _ (lost' & Hv' & Hl' & _)]. cbn [app] in Hv, Hv'.
    unfold awaited in *. rewrite Hs in Hl. rewrite Hs' in Hl'. rewrite Hl in Hv by done. rewrite Hl' in Hv' by done.
    rewrite <- Hv, Hp, <- !app_assoc in Hv'. by apply app_inv_head, app_inv_head in Hv'. }
  split; [by apply waiting_served|]. intros ls' s' Hsm Hrun'.
  assert (paired s') as Hpd' by (eapply paired_run; [|exact Hpd|exact Hrun']; eapply Forall_impl; [exact Hsm|apply smooth_no_stranger]).
  destruct (waiting_run v ls' s s' Hpd Hs Ha Hsm Hrun') as [[o Ho]|(Hs' & Ha' & _ & Hd)].
  - left. enough (o = TaskData (length (tunnels s))) as <- by done. destruct Ho as [rest Ho]. destruct Hpd' as [Hm _].
    assert (map data_stream (tunnels s') = map snd (streams s')) as Hds by (unfold streams; rewrite map_map; by apply map_ext).
    assert (map snd (streams s') !! length (tunnels s) = Some o) as Hlk.
    { rewrite Ho, !map_app, <- app_assoc. rewrite lookup_app_r; unfold streams; rewrite ?length_map; [|lia]. by rewrite Nat.sub_diag. }
    rewrite <- Hds, Hm, list_lookup_fmap in Hlk. destruct (seq 0 _ !! length (tunnels s)) as [j|] eqn:Ej; [|done].
    apply lookup_seq in Ej as [-> _]. by injection Hlk as <-.
  - right. split; [done|]. split; [|by apply (waiting_progress s' v)].
    assert (1 <= distance s' /\ distance s <= 3)%nat by (unfold distance; split; repeat case_match; lia). lia.
Qed.

(** The task cannot reach the server; a second visitor comes in vain. *)
Definition ex_failed : list label := [ClientConnects; ServerAcceptsClient; VisitorConnects 70; ServerAcceptsPublic true;
  ClientReads; TaskConnectsServer 0 false].
Definition ex_waiting : list label := [ClientConnects; ServerAcceptsClient; VisitorConnects 70; ServerAcceptsPublic true].

Lemma visitor_served_or_stalled_witness : exists s s2 s3,
  run ex_failed initial = Some s /\ run [VisitorConnects 71] s = Some s2 /\ server s2 = AcceptingData 70 /\
  run ex_waiting initial = Some s3 /\
  exists ls' s', run ls' s3 = Some s' /\ tunnels s' = [mkTunnel 70 (TaskData 0) true].
Proof.
  destruct (run ex_failed initial) as [s|] eqn:E; [|by vm_compute in E].
  destruct (run ex_waiting initial) as [s3|] eqn:E3; [|by vm_compute in E3].
  pose proof (visitor_served_or_stalled _ s 70 E) as H. pose proof (visitor_served_or_stalled _ s3 70 E3) as H3.
  vm_compute in E, E3. injection E as <-. injection E3 as <-.
  eexists _, _, _. split; [done|]. split; [reflexivity|]. split; [|split; [done|]].
  - by eapply (H ltac:(unfold ex_failed; repeat constructor) eq_refl [VisitorConnects 71]); [repeat constructor|reflexivity].
  - destruct (H3 ltac:(unfold ex_waiting; repeat constructor) eq_refl) as [(ls' & s' & _ & _ & Hr & _ & Ht) _]. by exists ls', s'.
Defined.
