(* ===== verification/Tracers.v ===== *)
(** The two tracers: Module ProcControl for [src/proc-control] and Module
    SyscallTracer for [src/syscall_tracer].  In each an eBPF program on a
    tracepoint fills a structure, and a user-space loop prints it. *)
From S2P Require Import Prelude Bytes Bpf Concurrency.

(** The target of an attachment: a category and a tracepoint. *)
Definition tracepoint (category name : bytes) : bytes := category ++ lit "/" ++ name.

(** [bpf_get_current_pid_tgid() >> 32] and [bpf_get_current_pid_tgid() as u32]. *)
Definition high32 (v : Z) : Z := Z.shiftr v 32 mod 2 ^ 32.
Definition low32 (v : Z) : Z := v mod 2 ^ 32.

(** What runs when a tracepoint fires, as far as the helpers show it: the
    thread, the read of a field of the tracepoint's record at an offset
    (with its size), and what the two helpers that fill a buffer make of its
    old content: the name of the process, the string at a user address. *)
Record context := mkContext {
  pid_tgid : Z;
  read_at : nat -> nat -> option Z;
  get_current_comm : bytes -> bytes;
  probe_read_user_str : Z -> bytes -> bytes;
}.

(** The record that the kernel documents for a system call: eight bytes common
    to all tracepoints, the number of the call, padding, and the arguments. *)
Definition enter_record (common pad : bytes) (nr : Z) (args : list Z) : bytes :=
  common ++ le_encode 4 nr ++ pad ++ concat (map (le_encode 8) args).

Definition reads (ctx : context) (r : bytes) : Prop :=
  forall off size, (off + size <= length r)%nat -> read_at ctx off size = Some (field r off size).

Module ProcControl.

Definition EVENT_EXEC : Z := 1.
Definition EVENT_OPEN : Z := 2.
Definition EVENT_MEMFD : Z := 3.

Record ProcessEvent := mkProcessEvent {
  pid : Z; tgid : Z; event_type : Z; comm : bytes; filename : bytes }.

(** ** The eBPF programs *)

(** [entry] is what the reserved part of the ring buffer holds, [None] when
    the ring buffer is full. *)
Definition init_event (ctx : context) (entry : option ProcessEvent) (ty : Z) : option ProcessEvent :=
  match entry with
  | None => None
  | Some e =>
      Some (mkProcessEvent (high32 (pid_tgid ctx)) (low32 (pid_tgid ctx)) ty
        (get_current_comm ctx (comm e)) (filename e))
  end.

Definition fill_filename (ctx : context) (ptr : Z) (e : ProcessEvent) : ProcessEvent :=
  if ptr =? 0 then e
  else mkProcessEvent (pid e) (tgid e) (event_type e) (comm e) (probe_read_user_str ctx ptr (filename e)).

Definition sys_enter_execve (ctx : context) (entry : option ProcessEvent) : option ProcessEvent :=
  match init_event ctx entry EVENT_EXEC with
  | Some e => let filename_ptr := default 0 (read_at ctx 8 8) in Some (fill_filename ctx filename_ptr e)
  | None => None
  end.
Definition sys_enter_openat (ctx : context) (entry : option ProcessEvent) : option ProcessEvent :=
  match init_event ctx entry EVENT_OPEN with
  | Some e => let filename_ptr := default 0 (read_at ctx 16 8) in Some (fill_filename ctx filename_ptr e)
  | None => None
  end.
Definition sys_enter_memfd_create (ctx : context) (entry : option ProcessEvent) : option ProcessEvent :=
  match init_event ctx entry EVENT_MEMFD with
  | Some e => let name_ptr := default 0 (read_at ctx 8 8) in Some (fill_filename ctx name_ptr e)
  | None => None
  end.

(** ** The user-space loop *)

Definition sizeof_ProcessEvent : nat := 92.
(** The bytes of the structure in the ring buffer, and the structure at the
    start of an item. *)
Definition event_bytes (e : ProcessEvent) : bytes :=
  le_encode 4 (pid e) ++ le_encode 4 (tgid e) ++ le_encode 4 (event_type e) ++ comm e ++ filename e.
Definition event_at (item : bytes) : ProcessEvent :=
  mkProcessEvent (field item 0 4) (field item 4 4) (field item 8 4) (take 16 (drop 12 item)) (take 64 (drop 28 item)).

Definition text (b : bytes) : bytes := trim_matches 0 (from_utf8_lossy b).

Definition event_line (event : ProcessEvent) : option bytes :=
  let comm := text (comm event) in
  let filename := text (filename event) in
  if event_type event =? EVENT_EXEC then
    Some (lit "[EXEC] PID: " ++ dec (pid event) ++ lit " | Process: " ++ comm ++ lit " launched a command: " ++ filename)
  else if event_type event =? EVENT_OPEN then
    Some (lit "[OPEN] PID: " ++ dec (pid event) ++ lit " | Process: " ++ comm ++ lit " opened file: " ++ filename)
  else if event_type event =? EVENT_MEMFD then
    Some (lit "[MEMFD] PID: " ++ dec (pid event) ++ lit " | Process: " ++ comm
          ++ lit " is attempting to create a RAM file: " ++ filename)
  else None.

(** One turn of the loop, with what [ring_buf.next()] gives. *)
Definition turn (next : option bytes) : option bytes :=
  match next with
  | Some item => if (sizeof_ProcessEvent <=? length item)%nat then event_line (event_at item) else None
  | None => None
  end.
Definition monitor (polls : list (option bytes)) : list bytes := omap turn polls.

(** ** Start-up *)

(** [program_mut(name).unwrap().try_into()?], [load()?], [attach(category, name)?]. *)
Definition attach_program (k : Aya.answers) (name : bytes) : Aya.calls := Aya.program k (tracepoint (lit "sys_calls") name) name.

(** A logger that cannot be set up is only warned about. *)
Definition start (k : Aya.answers) : Aya.ending :=
  Aya.first_failure (Aya.object k ++ attach_program k (lit "sys_enter_execve") ++ attach_program k (lit "sys_enter_openat")
    ++ attach_program k (lit "sys_enter_memfd_create") ++ Aya.map k (lit "EVENTS")).

(** The printed lines: the loop runs only after all of it. *)
Definition main (k : Aya.answers) (polls : list (option bytes)) : list bytes :=
  match start k with Aya.Started => monitor polls | Aya.Error | Aya.Panicked => [] end.

(** ** Round trip *)

Definition event_ok (e : ProcessEvent) : Prop :=
  0 <= pid e <= u32_max /\ 0 <= tgid e <= u32_max /\ 0 <= event_type e <= u32_max /\
  length (comm e) = 16%nat /\ length (filename e) = 64%nat.

Lemma event_bytes_length e : event_ok e -> length (event_bytes e) = sizeof_ProcessEvent.
Proof. intros (_ & _ & _ & Hc & Hf). unfold event_bytes. by rewrite !length_app, !le_encode_length, Hc, Hf. Qed.

Lemma event_round_trip e : event_ok e -> event_at (event_bytes e) = e.
Proof.
  intros (Hp & Ht & Hty & Hc & Hf). destruct e as [p t ty c f]. cbn [pid tgid event_type comm filename] in *.
  unfold event_at, event_bytes. cbn [pid tgid event_type comm filename].
  set (p' := le_encode 4 p). set (t' := le_encode 4 t). set (ty' := le_encode 4 ty).
  rewrite (field_at _ [] p' (t' ++ ty' ++ c ++ f)) by done.
  rewrite (field_at _ p' t' (ty' ++ c ++ f)) by done.
  rewrite (field_at _ (p' ++ t') ty' (c ++ f)) by (by rewrite <- ?app_assoc).
  rewrite (slice_at _ (p' ++ t' ++ ty') c f) by (by rewrite <- ?app_assoc).
  rewrite (slice_at _ (p' ++ t' ++ ty' ++ c) f []) by (rewrite <- ?app_assoc, ?app_nil_r, ?length_app, ?Hc; done).
  subst p' t' ty'. by rewrite !le_encode_4.
Qed.

(** ** What is reported *)

Inductive call := Exec | Open | Memfd.
Definition handler (c : call) : context -> option ProcessEvent -> option ProcessEvent :=
  match c with Exec => sys_enter_execve | Open => sys_enter_openat | Memfd => sys_enter_memfd_create end.
Definition pointer_offset (c : call) : nat := match c with Open => 16 | _ => 8 end.
Definition tag (c : call) : bytes :=
  match c with Exec => lit "[EXEC] PID: " | Open => lit "[OPEN] PID: " | Memfd => lit "[MEMFD] PID: " end.
Definition verb (c : call) : bytes :=
  match c with
  | Exec => lit " launched a command: "
  | Open => lit " opened file: "
  | Memfd => lit " is attempting to create a RAM file: "
  end.
(** The name that the helpers leave in the entry. *)
Definition name_bytes (c : call) (ctx : context) (old : bytes) : bytes :=
  let ptr := default 0 (read_at ctx (pointer_offset c) 8) in
  if ptr =? 0 then old else probe_read_user_str ctx ptr old.
Definition report (x : call * context * option ProcessEvent) : option bytes :=
  let '(c, ctx, entry) := x in
  e ← entry;
  Some (tag c ++ dec (high32 (pid_tgid ctx)) ++ lit " | Process: " ++ text (get_current_comm ctx (comm e)) ++ verb c
    ++ text (name_bytes c ctx (filename e))).
Definition submitted (x : call * context * option ProcessEvent) : option ProcessEvent :=
  let '(c, ctx, entry) := x in handler c ctx entry.

(** The helpers write within the buffer that they are given, and entries of
    the ring buffer have the size of the structure. *)
Definition call_ok (x : call * context * option ProcessEvent) : Prop :=
  let '(c, ctx, entry) := x in
  match entry with
  | Some e => length (get_current_comm ctx (comm e)) = 16%nat /\
      (forall p, length (probe_read_user_str ctx p (filename e)) = 64%nat) /\ length (filename e) = 64%nat
  | None => True
  end.

Lemma mod32_bound v : 0 <= v mod 2 ^ 32 <= u32_max.
Proof. unfold u32_max. pose proof (Z.mod_pos_bound v (2 ^ 32) ltac:(lia)). lia. Qed.

Lemma submitted_spec c ctx e : submitted (c, ctx, Some e) =
  Some (mkProcessEvent (high32 (pid_tgid ctx)) (low32 (pid_tgid ctx))
    match c with Exec => EVENT_EXEC | Open => EVENT_OPEN | Memfd => EVENT_MEMFD end
    (get_current_comm ctx (comm e)) (name_bytes c ctx (filename e))).
Proof.
  unfold submitted, name_bytes. destruct c; cbn [handler pointer_offset]; unfold sys_enter_execve, sys_enter_openat,
    sys_enter_memfd_create, fill_filename; cbn; by case_match.
Qed.

Lemma submitted_turn x : call_ok x -> submitted x ≫= (fun e => turn (Some (event_bytes e))) = report x.
Proof.
  destruct x as [[c ctx] [e|]]; [|by destruct c]. intros (Hcomm & Hprobe & Hf). rewrite submitted_spec. cbn [mbind option_bind].
  set (e' := mkProcessEvent _ _ _ _ _).
  assert (event_ok e') as Hok.
  { split_and!; try apply mod32_bound; cbn.
    - by destruct c.
    - by destruct c.
    - done.
    - unfold name_bytes. by case_match. }
  unfold turn. rewrite (event_bytes_length _ Hok), (event_round_trip _ Hok). by destruct c.
Qed.

Definition program (c : call) : bytes :=
  lit match c with Exec => "sys_enter_execve" | Open => "sys_enter_openat" | Memfd => "sys_enter_memfd_create" end.

Definition attached (k : Aya.answers) (c : call) : Prop := Aya.attached k (tracepoint (lit "sys_calls") (program c)) (program c).

Lemma tracer_start_spec k : start k = Aya.Started <->
  Aya.object_loads k = true /\ (forall c, attached k c) /\ Aya.usable k (lit "EVENTS").
Proof.
  unfold start, attach_program. rewrite !Aya.started_app by honest.
  rewrite Aya.object_started, !Aya.program_started, Aya.map_started. unfold attached. split.
  - intros (H0 & H1 & H2 & H3 & H4). split_and!; [exact H0|intros []; assumption|apply H4..].
  - intros (H0 & H & H4). exact (conj H0 (conj (H Exec) (conj (H Open) (conj (H Memfd) H4)))).
Qed.

Lemma no_category k polls : (forall t name, Aya.attaches k (tracepoint (lit "sys_calls") t) name = false) -> main k polls = [].
Proof.
  intros Hno. unfold main. destruct (start k) eqn:E; [|done..]. apply tracer_start_spec in E as (_ & H & _).
  destruct (H Exec) as (_ & _ & _ & Ha). by rewrite Hno in Ha.
Qed.

(** C16. When the program starts and its loop polls the ring buffer until it
    has got every submitted event, it prints one line for each system call for which the ring buffer
    had room, in their order: the kind, the upper half of the
    thread-and-group id, the text of the name buffer and that of the file name
    buffer as the helpers left them, old content behind the strings included.
    It starts exactly when the object is complete and the kernel takes every
    program and attaches it to a tracepoint of the category "sys_calls": where
    there is no such category, nothing is ever printed. *)
Theorem calls_reported (k : Aya.answers) (calls : list (call * context * option ProcessEvent)) (polls : list (option bytes)) :
  Forall call_ok calls -> omap id polls = map event_bytes (omap submitted calls) ->
  (start k = Aya.Started -> main k polls = omap report calls) /\
  (start k = Aya.Started <-> Aya.object_loads k = true /\ (forall c, attached k c) /\ Aya.usable k (lit "EVENTS")) /\
  ((forall t name, Aya.attaches k (tracepoint (lit "sys_calls") t) name = false) -> main k polls = []).
Proof.
  intros Hok Hpolls. split; [|split; [apply tracer_start_spec|apply no_category]].
  intros Hs. unfold main. rewrite Hs. clear Hs. assert (monitor polls = omap (fun i => turn (Some i)) (omap id polls)) as ->.
  { clear Hpolls. unfold monitor. induction polls as [|[i|] polls IH]; [done| |exact IH]. cbn [omap list_omap id]. by rewrite IH. }
  rewrite Hpolls. clear Hpolls. induction Hok as [|x calls Hx _ IH]; [done|]. cbn [omap list_omap].
  rewrite <- (submitted_turn x Hx). destruct (submitted x) as [e|]; cbn [mbind option_bind map omap list_omap]; [|done].
  by rewrite IH.
Qed.

(** A name buffer that holds a string and then zeros. *)
Lemma text_of_string s n : is_ascii s -> (0 ∉ s) -> text (s ++ replicate n 0) = s.
Proof.
  intros Ha Hn. unfold text. rewrite from_utf8_lossy_valid; [by apply trim_matches_pad|].
  apply is_str_ascii, is_ascii_app. split; [done|]. apply Forall_replicate. lia.
Qed.

(** ** Which argument is read *)

Lemma record_nr common pad nr args : length common = 8%nat -> length pad = 4%nat ->
  field (enter_record common pad nr args) 8 8 = le (le_encode 4 nr ++ pad).
Proof.
  intros Hc Hp. apply (field_at _ common (le_encode 4 nr ++ pad) (concat (map (le_encode 8) args))).
  - unfold enter_record. by rewrite <- !app_assoc.
  - done.
  - by rewrite length_app, le_encode_length, Hp.
Qed.

Lemma record_arg common pad nr a args : length common = 8%nat -> length pad = 4%nat -> 0 <= a < 2 ^ 64 ->
  field (enter_record common pad nr (a :: args)) 16 8 = a.
Proof.
  intros Hc Hp Ha.
  rewrite (field_at _ (common ++ le_encode 4 nr ++ pad) (le_encode 8 a) (concat (map (le_encode 8) args))).
  - apply le_encode_round_trip. lia.
  - unfold enter_record. cbn [map concat]. by rewrite <- !app_assoc.
  - by rewrite !length_app, le_encode_length, Hc, Hp.
  - apply le_encode_length.
Qed.

Lemma record_length common pad nr args : length common = 8%nat -> length pad = 4%nat ->
  length (enter_record common pad nr args) = (16 + 8 * length args)%nat.
Proof.
  intros Hc Hp. unfold enter_record. rewrite !length_app, le_encode_length, Hc, Hp.
  enough (length (concat (map (le_encode 8) args)) = (8 * length args)%nat) by lia.
  clear. induction args as [|a args IH]; [done|]. cbn [map concat length]. rewrite length_app, IH, le_encode_length. lia.
Qed.

(** On the record that the kernel documents for a system call, with the
    first argument behind the 16 bytes of common fields, number and padding, the
    pointer that the execve and memfd_create programs follow is the number of
    the system call with the padding above it, whatever the arguments are; the
    one that the openat program follows is the first argument, the directory
    descriptor, and not the path. *)
Theorem pointers_followed (common pad : bytes) (nr a : Z) (args : list Z) (ctx : context) (old : bytes) :
  length common = 8%nat -> length pad = 4%nat -> is_bytes pad -> 0 < nr <= u32_max -> 0 < a < 2 ^ 64 ->
  reads ctx (enter_record common pad nr (a :: args)) ->
  name_bytes Exec ctx old = probe_read_user_str ctx (nr + 2 ^ 32 * le pad) old /\
  name_bytes Memfd ctx old = probe_read_user_str ctx (nr + 2 ^ 32 * le pad) old /\
  name_bytes Open ctx old = probe_read_user_str ctx a old.
Proof.
  intros Hc Hp Hpb Hnr Ha Hr. pose proof (record_length common pad nr (a :: args) Hc Hp) as Hlen. cbn [length] in Hlen.
  pose proof (le_nonneg _ Hpb) as Hpos.
  assert (E : read_at ctx 8 8 = Some (nr + 2 ^ 32 * le pad)).
  { rewrite Hr, (record_nr _ _ _ _ Hc Hp), le_app, le_encode_length, le_encode_4 by lia. done. }
  unfold name_bytes. cbn [pointer_offset]. rewrite E, (Hr 16%nat 8%nat), (record_arg _ _ _ _ _ Hc Hp) by lia.
  cbn [default from_option id]. by rewrite !(proj2 (Z.eqb_neq _ _)) by lia.
Qed.

(** Two system calls on a process "sh", with an unreadable address in the
    first case, and what the loop prints for them. *)
Definition ex_comm (old : bytes) : bytes := take (length old) (lit "sh" ++ replicate 14 0).
Definition ex_probe (p : Z) (old : bytes) : bytes :=
  if p =? 4096 then take (length old) (lit "/bin/ls" ++ [0] ++ drop 8 old) else replicate (length old) 0.
Definition ex_record (a : Z) : bytes := enter_record (replicate 8 7) (replicate 4 0) 59 [a; 8192].
Definition ex_context (a : Z) : context := mkContext (77 * 2 ^ 32 + 78)
  (fun off size => Some (field (ex_record a) off size)) ex_comm ex_probe.
Definition ex_entry : ProcessEvent := mkProcessEvent 0 0 0 (replicate 16 0) (replicate 64 120).
Definition ex_calls : list (call * context * option ProcessEvent) :=
  [(Exec, ex_context 4096, Some ex_entry); (Open, ex_context 4096, Some ex_entry); (Memfd, ex_context 1, None)].

Lemma calls_reported_witness :
  main Aya.willing [None; map event_bytes (omap submitted ex_calls) !! 0%nat; None; map event_bytes (omap submitted ex_calls) !! 1%nat] =
  [lit "[EXEC] PID: 77 | Process: sh launched a command: ";
   lit "[OPEN] PID: 77 | Process: sh opened file: /bin/ls" ++ [0] ++ replicate 56 120].
Proof.
  destruct (calls_reported Aya.willing ex_calls
    [None; map event_bytes (omap submitted ex_calls) !! 0%nat; None; map event_bytes (omap submitted ex_calls) !! 1%nat])
    as [Hm _]; [| |rewrite Hm by reflexivity; by vm_compute].
  - repeat constructor; intros p; unfold ex_context; cbn [probe_read_user_str]; unfold ex_probe; by case_match.
  - by vm_compute.
Defined.

Lemma pointers_followed_witness :
  name_bytes Exec (ex_context 4096) (replicate 64 120) = replicate 64 0 /\
  name_bytes Open (ex_context 4096) (replicate 64 120) = lit "/bin/ls" ++ [0] ++ replicate 56 120.
Proof.
  destruct (pointers_followed (replicate 8 7) (replicate 4 0) 59 4096 [8192] (ex_context 4096) (replicate 64 120))
    as (He & _ & Ho); [done|done|by repeat constructor|unfold u32_max; lia|lia|by intros off size _|].
  rewrite He, Ho. split; by vm_compute.
Defined.
End ProcControl.

Module SyscallTracer.

Record Event := mkEvent { pid : Z; syscall_id : Z; comm : bytes }.

(** The eBPF program: the sample it outputs. *)
Definition sys_enter_syscall (ctx : context) : Event :=
  mkEvent (high32 (pid_tgid ctx)) (default 0 (read_at ctx 0 4)) (get_current_comm ctx (replicate 16 0)).

Definition event_bytes (e : Event) : bytes := le_encode 4 (pid e) ++ le_encode 4 (syscall_id e) ++ comm e.
Definition event_at (buffer : bytes) : Event := mkEvent (field buffer 0 4) (field buffer 4 4) (take 16 (drop 8 buffer)).

Definition event_line (event : Event) : bytes :=
  let comm := trim_matches 0 (if is_str (comm event) then comm event else lit "unknown") in
  lit "PID: " ++ dec (pid event) ++ lit ", Process: " ++ comm ++ lit ", Syscall ID: " ++ dec (syscall_id event).

Lemma sample_round_trip e post : 0 <= pid e <= u32_max -> 0 <= syscall_id e <= u32_max -> length (comm e) = 16%nat ->
  event_at (event_bytes e ++ post) = e.
Proof.
  intros Hp Hs Hc. destruct e as [p i c]. cbn [pid syscall_id comm] in *. unfold event_at, event_bytes. cbn [pid syscall_id comm].
  set (p' := le_encode 4 p). set (i' := le_encode 4 i).
  rewrite (field_at _ [] p' (i' ++ c ++ post)) by (by rewrite <- ?app_assoc).
  rewrite (field_at _ p' i' (c ++ post)) by (by rewrite <- ?app_assoc).
  rewrite (slice_at _ (p' ++ i') c post) by (by rewrite <- ?app_assoc). subst p' i'. by rewrite !le_encode_4.
Qed.

(** The record that the kernel documents for the tracepoint, and a firing of
    it: the record's parts, the name of the process, and what follows the
    sample in its buffer. *)
Definition raw_record (common : bytes) (id : Z) (args : list Z) : bytes :=
  common ++ le_encode 8 id ++ concat (map (le_encode 8) args).
Record firing := mkFiring {
  f_ctx : context; f_common : bytes; f_id : Z; f_args : list Z; f_name : bytes; f_pad : bytes }.
Definition firing_ok (f : firing) : Prop :=
  length (f_common f) = 8%nat /\ is_bytes (f_common f) /\ reads (f_ctx f) (raw_record (f_common f) (f_id f) (f_args f)) /\
  (length (f_name f) <= 15)%nat /\ (0 ∉ f_name f) /\
  get_current_comm (f_ctx f) (replicate 16 0) = f_name f ++ replicate (16 - length (f_name f)) 0.
Definition sample (f : firing) : bytes := event_bytes (sys_enter_syscall (f_ctx f)) ++ f_pad f.

(** What is printed for a firing. *)
Definition firing_line (f : firing) : bytes :=
  lit "PID: " ++ dec (high32 (pid_tgid (f_ctx f))) ++ lit ", Process: "
  ++ (if is_str (f_name f ++ replicate (16 - length (f_name f)) 0) then f_name f else lit "unknown")
  ++ lit ", Syscall ID: " ++ dec (le (take 4 (f_common f))).

Lemma le_bound b : is_bytes b -> 0 <= le b < 256 ^ Z.of_nat (length b).
Proof.
  unfold is_bytes, is_byte, u8_max, le. induction 1 as [|x b Hx _ IH]; cbn [foldr length]; [lia|].
  rewrite Nat2Z.inj_succ, Z.pow_succ_r by lia. lia.
Qed.

Lemma sample_line f : firing_ok f -> event_line (event_at (sample f)) = firing_line f.
Proof.
  intros (Hc & Hb & Hr & Hn & H0 & Hcomm).
  assert (E : read_at (f_ctx f) 0 4 = Some (le (take 4 (f_common f)))).
  { rewrite Hr by (unfold raw_record; rewrite length_app, Hc; lia). unfold field, raw_record.
    rewrite drop_0, take_app_le by (rewrite Hc; lia). done. }
  assert (Hle : 0 <= le (take 4 (f_common f)) <= u32_max).
  { pose proof (le_bound (take 4 (f_common f)) (Forall_take _ _ _ Hb)) as H.
    rewrite length_take, Hc in H. change (256 ^ Z.of_nat (4 `min` 8)) with 4294967296 in H. unfold u32_max. lia. }
  unfold sample, firing_line. rewrite sample_round_trip; unfold sys_enter_syscall; cbn [pid syscall_id comm]; rewrite ?E, ?Hcomm.
  - unfold event_line. cbn [pid syscall_id comm]. cbn [default from_option id]. by case_match; [rewrite trim_matches_pad|].
  - apply ProcControl.mod32_bound.
  - done.
  - rewrite length_app, length_replicate. lia.
Qed.

(** ** The user-space program *)

(** Start-up; the logger's map is there only when the eBPF program logs. *)
Definition start (k : Aya.answers) : Aya.ending :=
  Aya.first_failure (Aya.object k ++ Aya.logger k
    ++ Aya.program k (tracepoint (lit "raw_syscalls") (lit "sys_enter")) (lit "sys_enter_syscall") ++ Aya.map k (lit "EVENTS")).

(** [main] from there: the CPUs whose buffers are still to be opened; the
    task of each opened one, in this order, with the lines of its batch that
    are still to be printed, [None] once it has panicked; the printed lines, each
    with its task; and whether the process has ended. *)
Record tracer := mkTracer {
  unopened : list Z; tasks : list (option (list bytes)); printed : list (nat * bytes); ended : bool }.

(** [CpuRead]: what [read_events] gives, the filled buffers or an error. *)
Inductive label (A : Type) :=
| OpenNext
| CpuRead (i : nat) (r : option (list A))
| CpuLine (i : nat)
| CtrlC.
Arguments OpenNext {A}. Arguments CpuRead {A}. Arguments CpuLine {A}. Arguments CtrlC {A}.

Section tracer.
Context (open_buffer : Z -> bool).

Definition step (l : label bytes) (s : tracer) : option tracer :=
  if ended s then None else
  match l with
  | OpenNext =>
      match unopened s with
      | cpu_id :: rest =>
          Some (if open_buffer cpu_id then mkTracer rest (tasks s ++ [Some []]) (printed s) false
                else mkTracer rest (tasks s) (printed s) true)
      | [] => None
      end
  | CpuRead i r =>
      match tasks s !! i with
      | Some (Some []) =>
          Some (mkTracer (unopened s) (<[i := map (fun b => event_line (event_at b)) <$> r]> (tasks s)) (printed s) false)
      | _ => None
      end
  | CpuLine i =>
      match tasks s !! i with
      | Some (Some (line :: rest)) => Some (mkTracer (unopened s) (<[i := Some rest]> (tasks s)) (printed s ++ [(i, line)]) false)
      | _ => None
      end
  | CtrlC => match unopened s with [] => Some (mkTracer [] (tasks s) (printed s) true) | _ => None end
  end.

Definition initial (cpus : list Z) : tracer := mkTracer cpus [] [] false.

(** [online_cpus] is [None] when it fails; no state where the start-up does. *)
Definition main (k : Aya.answers) (online_cpus : option (list Z)) (ls : list (label bytes)) : option tracer :=
  match start k, online_cpus with Aya.Started, Some cpus => exec step ls (initial cpus) | _, _ => None end.

(** The lines of a task: printed, and still to be printed. *)
Definition lines_of (i : nat) (p : list (nat * bytes)) : list bytes := (filter (fun x => x.1 = i) p).*2.
Definition pending (i : nat) (s : tracer) : list bytes :=
  match tasks s !! i with Some (Some p) => p | _ => [] end.

(** A run told by the firings in the batches. *)
Definition label_map (l : label firing) : label bytes :=
  match l with
  | OpenNext => OpenNext | CpuRead i r => CpuRead i (map sample <$> r) | CpuLine i => CpuLine i | CtrlC => CtrlC
  end.
Definition firings (i : nat) (ls : list (label firing)) : list firing :=
  concat (omap (fun l => match l with CpuRead j (Some fs) => if decide (j = i) then Some fs else None | _ => None end) ls).
Definition label_ok (l : label firing) : Prop :=
  match l with CpuRead _ (Some fs) => Forall firing_ok fs | _ => True end.

Lemma lines_of_app i p q : lines_of i (p ++ q) = lines_of i p ++ lines_of i q.
Proof. unfold lines_of. by rewrite filter_app, fmap_app. Qed.

Lemma step_lines i l s s' : label_ok l -> step (label_map l) s = Some s' ->
  lines_of i (printed s') ++ pending i s' = (lines_of i (printed s) ++ pending i s) ++ map firing_line (firings i [l]).
Proof.
  intros Hok. unfold step. destruct (ended s); [done|]. destruct l as [|j r|j|]; cbn [label_map].
  - destruct (unopened s) as [|c rest]; [done|]. intros [= <-]. unfold firings. cbn. rewrite app_nil_r.
    destruct (open_buffer c); [|done]. cbn. unfold pending. cbn. f_equal.
    destruct (Nat.lt_ge_cases i (length (tasks s))) as [Hi|Hi].
    + by rewrite lookup_app_l.
    + rewrite lookup_app_r by done. rewrite (lookup_ge_None_2 (tasks s)) by done. by destruct (i - length (tasks s))%nat.
  - destruct (tasks s !! j) as [[[|]|]|] eqn:Ej; try done. intros [= <-]. cbn [printed].
    assert (j < length (tasks s))%nat as Hj by (by eapply lookup_lt_Some).
    unfold pending, firings. cbn [tasks]. destruct (decide (j = i)) as [->|Hne].
    + rewrite list_lookup_insert_eq, Ej, app_nil_r by done.
      destruct r as [fs|]; cbn [fmap option_fmap option_map omap list_omap concat map]; [|done].
      rewrite decide_True by done. cbn [concat]. rewrite app_nil_r, map_map. f_equal. apply map_ext_Forall.
      eapply Forall_impl; [exact Hok|]. intros f. apply sample_line.
    + rewrite list_lookup_insert_ne by done. destruct r; cbn; rewrite ?decide_False by done; by rewrite app_nil_r.
  - destruct (tasks s !! j) as [[[|line rest]|]|] eqn:Ej; try done. intros [= <-]. cbn [printed].
    assert (j < length (tasks s))%nat as Hj by (by eapply lookup_lt_Some).
    unfold pending, firings. cbn [tasks omap list_omap concat map]. rewrite app_nil_r, lines_of_app.
    unfold lines_of at 2. rewrite filter_cons. cbn [fst]. destruct (decide (j = i)) as [->|Hne].
    + rewrite list_lookup_insert_eq, Ej by done. cbn. by rewrite <- app_assoc.
    + rewrite list_lookup_insert_ne by done. cbn. by rewrite app_nil_r.
  - destruct (unopened s) as [|c rest]; [|done]. intros [= <-]. unfold firings. cbn. by rewrite app_nil_r.
Qed.

Lemma firings_cons i l ls : firings i (l :: ls) = firings i [l] ++ firings i ls.
Proof.
  unfold firings. cbn [omap list_omap]. destruct l as [|j [fs|]|j|]; try done. case_decide; [|done]. cbn [concat]. by rewrite app_nil_r.
Qed.

Lemma exec_lines i ls : forall s s', Forall label_ok ls -> exec step (map label_map ls) s = Some s' ->
  lines_of i (printed s') ++ pending i s' = (lines_of i (printed s) ++ pending i s) ++ map firing_line (firings i ls).
Proof.
  induction ls as [|l ls IH]; intros s s' Hok; cbn [map exec]; [intros [= <-]; by rewrite app_nil_r|].
  apply Forall_cons in Hok as [Hl Hok]. destruct (step (label_map l) s) as [s1|] eqn:E; [|done]. intros Hr.
  rewrite (IH s1 s' Hok Hr), (step_lines i l s s1 Hl E), (firings_cons i l ls), map_app. by rewrite <- app_assoc.
Qed.

Lemma raw_start_spec k : start k = Aya.Started <->
  Aya.object_loads k = true /\ (Aya.has_map k Aya.log_map = true /\ Aya.logger_starts k = true) /\
  Aya.attached k (tracepoint (lit "raw_syscalls") (lit "sys_enter")) (lit "sys_enter_syscall") /\ Aya.usable k (lit "EVENTS").
Proof.
  unfold start. rewrite !Aya.started_app by honest.
  by rewrite Aya.object_started, Aya.logger_started, Aya.program_started, Aya.map_started.
Qed.
End tracer.

(** C28. In any run of the tracer, whatever the batches that the tasks of the
    CPUs read and however their printing interleaves, the lines printed by a task
    with those that it still has to print are one for each sample that it has
    read, in their order: the group id of the thread, the name of its process
    (or "unknown" when the kernel cut it inside a character), and as the id of
    the system call the first four bytes of the record, which belong to the common
    header; the number of the call and its arguments have no influence.  And
    the program runs only when its object has the map of the logger: the
    object of an eBPF program that logs nothing has none, and then there is no run at
    all. *)
Theorem syscall_lines (open_buffer : Z -> bool) (k : Aya.answers) (cpus : option (list Z)) (ls : list (label firing)) s i :
  Forall label_ok ls -> main open_buffer k cpus (map label_map ls) = Some s ->
  lines_of i (printed s) ++ pending i s = map firing_line (firings i ls) /\
  Aya.attached k (tracepoint (lit "raw_syscalls") (lit "sys_enter")) (lit "sys_enter_syscall") /\
  Aya.has_map k Aya.log_map = true.
Proof.
  intros Hok. unfold main. destruct (start k) eqn:E; [|done..]. destruct cpus as [cpus|]; [|done]. intros Hr.
  apply raw_start_spec in E as (_ & [Hlog _] & Ha & _). split; [|done].
  by rewrite (exec_lines open_buffer i ls _ _ Hok Hr).
Qed.

Definition ex_firing (id : Z) : firing := mkFiring
  (mkContext (5 * 2 ^ 32 + 6) (fun off size => Some (field (raw_record [1; 2; 0; 0; 9; 9; 9; 9] id []) off size))
    (fun _ => lit "cat" ++ replicate 13 0) (fun _ old => old))
  [1; 2; 0; 0; 9; 9; 9; 9] id [] (lit "cat") [0; 0; 0; 0].

Lemma ex_firing_ok : firing_ok (ex_firing 0) /\ firing_ok (ex_firing 231).
Proof.
  split; (split; [done|]; split; [by repeat constructor|]; split; [by intros off size _|]; split; [cbn; lia|]; split; [|done]);
    by_evaluation.
Qed.

Definition ex_run : list (label firing) :=
  [OpenNext; OpenNext; CpuRead 1 (Some [ex_firing 231]); CpuRead 0 (Some [ex_firing 0; ex_firing 231]); CpuLine 0; CpuLine 1;
   CpuRead 1 None; CpuLine 0; CtrlC].

Lemma syscall_lines_witness :
  exists s, main (fun _ => true) Aya.willing (Some [0; 1]) (map label_map ex_run) = Some s /\
    lines_of 0 (printed s) = [lit "PID: 5, Process: cat, Syscall ID: 513"; lit "PID: 5, Process: cat, Syscall ID: 513"].
Proof.
  destruct ex_firing_ok as [H0 H231].
  destruct (main (fun _ => true) Aya.willing (Some [0; 1]) (map label_map ex_run)) as [s|] eqn:E; [|by vm_compute in E].
  exists s. split; [done|].
  destruct (syscall_lines (fun _ => true) Aya.willing (Some [0; 1]) ex_run s 0) as [Hl _]; [|exact E|].
  - unfold ex_run. rewrite !Forall_cons, Forall_nil. cbn [label_ok]. rewrite !Forall_cons, Forall_nil. tauto.
  - assert (pending 0 s = []) as Hp by (vm_compute in E; by injection E as <-). rewrite Hp, app_nil_r in Hl. rewrite Hl.
    by vm_compute.
Defined.
End SyscallTracer.
