(* ===== verification/Antidetect.v ===== *)
(** The launcher of [src/antidetect_chrome/src/main.rs]: the profile that it
    generates, the script that it injects, the noise that the script adds, and
    the answers to the paused requests. *)
From S2P Require Import Prelude Bytes.

(** ** Profiles *)

Record BrowserProfile := mkProfile {
  user_agent : bytes; platform : bytes; screen_width : Z; screen_height : Z;
  gl_vendor : bytes; gl_renderer : bytes; canvas_noise_seed : Z; languages : list bytes }.

Definition os_options : list (bytes * bytes * list bytes) := [
  (lit "Windows", lit "Win32", [
    lit "Mozilla/5.0 (Windows NT 10.0; Win64; x64) AppleWebKit/537.36 (KHTML, like Gecko) Chrome/128.0.0.0 Safari/537.36";
    lit "Mozilla/5.0 (Windows NT 10.0; Win64; x64) AppleWebKit/537.36 (KHTML, like Gecko) Chrome/129.0.0.0 Safari/537.36"]);
  (lit "Macintosh", lit "MacIntel", [
    lit "Mozilla/5.0 (Macintosh; Intel Mac OS X 10_15_7) AppleWebKit/537.36 (KHTML, like Gecko) Chrome/128.0.0.0 Safari/537.36";
    lit "Mozilla/5.0 (Macintosh; Intel Mac OS X 10_15_7) AppleWebKit/537.36 (KHTML, like Gecko) Chrome/129.0.0.0 Safari/537.36"])].
Definition screen_resolutions : list (Z * Z) := [(1920, 1080); (1440, 900); (1536, 864); (2560, 1440)].
Definition gpu_options (os : bytes) : list (bytes * bytes) :=
  if bool_decide (os = lit "Windows") then [
    (lit "Google Inc. (NVIDIA)", lit "ANGLE (NVIDIA, NVIDIA GeForce RTX 4060 Direct3D11 vs_5_0 ps_5_0, D3D11)");
    (lit "Google Inc. (NVIDIA)", lit "ANGLE (NVIDIA, NVIDIA GeForce RTX 3060 Laptop GPU Direct3D11 vs_5_0 ps_5_0, D3D11)");
    (lit "Google Inc. (Intel)", lit "ANGLE (Intel, Intel(R) Iris(R) Xe Graphics Direct3D11 vs_5_0 ps_5_0, D3D11)")]
  else [(lit "Apple", lit "Apple M1"); (lit "Apple", lit "Apple M2"); (lit "Apple", lit "Apple M3")].
Definition lang_options : list (list bytes) :=
  [[lit "ru-RU"; lit "ru"; lit "en-US"; lit "en"]; [lit "en-US"; lit "en"]].

(** The draws of the random generator: [choose] draws an index below the
    length of its slice, or gives nothing for an empty one; [gen_range(1..=5)]
    draws a number of the range. *)
Class Rng (G : Type) := {
  draw : G -> nat -> nat * G;
  draw_bound : forall g n, (0 < n)%nat -> ((draw g n).1 < n)%nat;
}.

Section generate.
Context {G : Type} `{!Rng G}.

Definition choose {A} (l : list A) (g : G) : outcome (A * G) :=
  let '(i, g') := draw g (length l) in
  match l !! i with Some x => Val (x, g') | None => Panic end.

Definition generate_random (g : G) : outcome BrowserProfile :=
  '(selected_os, g) ← choose os_options g;
  let '(os, platform, agents) := selected_os in
  '(user_agent, g) ← choose agents g;
  '((screen_width, screen_height), g) ← choose screen_resolutions g;
  '((gl_vendor, gl_renderer), g) ← choose (gpu_options os) g;
  '(languages, g) ← choose lang_options g;
  let canvas_noise_seed := 1 + Z.of_nat (draw g 5).1 in
  Val (mkProfile user_agent platform screen_width screen_height gl_vendor gl_renderer canvas_noise_seed languages).
End generate.

(** ** The script *)

Definition js_0 : bytes := lit "
            (function() {
                // --- Spoofing of the WebRTC Network Identifier ---
                const FAKE_IP = '".
Definition js_1 : bytes := lit "';
                const OriginalRTCPeerConnection = window.RTCPeerConnection || window.webkitRTCPeerConnection;
                if (OriginalRTCPeerConnection) {
                    function SpoofedRTCPeerConnection(config, constraints) {
                        const pc = new OriginalRTCPeerConnection(config, constraints);
                        const originalAddEventListener = pc.addEventListener;
                        pc.addEventListener = function(type, listener, options) {
                            if (type === 'icecandidate') {
                                const wrappedListener = function(event) {
                                    if (event.candidate) {
                                        const spoofedStr = event.candidate.candidate.replace(
                                            /([0-9]{1,3}(\.[0-9]{1,3}){3})|([a-f0-9:]+:+[a-f0-9:]+)/gi, FAKE_IP
                                        );
                                        const newCandidate = new RTCIceCandidate({
                                            candidate: spoofedStr, sdpMid: event.candidate.sdpMid, sdpMLineIndex: event.candidate.sdpMLineIndex
                                        });
                                        listener.call(this, { candidate: newCandidate });
                                    } else { listener.call(this, event); }
                                };
                                return originalAddEventListener.call(this, type, wrappedListener, options);
                            }
                            return originalAddEventListener.call(this, type, listener, options);
                        };
                        return pc;
                    }
                    SpoofedRTCPeerConnection.prototype = OriginalRTCPeerConnection.prototype;
                    window.RTCPeerConnection = SpoofedRTCPeerConnection;
                }

                // --- Spoofing Navigator and Window properties ---
                Object.defineProperty(navigator, 'userAgent', { get: () => '".
Definition js_2 : bytes := lit "' });
                Object.defineProperty(navigator, 'platform', { get: () => '".
Definition js_3 : bytes := lit "' });
                Object.defineProperty(navigator, 'webdriver', { get: () => undefined });
                Object.defineProperty(navigator, 'languages', { get: () => ".
Definition js_4 : bytes := lit " });

                // Screen resolution
                Object.defineProperty(window.screen, 'width', { get: () => ".
Definition js_5 : bytes := lit " });
                Object.defineProperty(window.screen, 'height', { get: () => ".
Definition js_6 : bytes := lit " });
                Object.defineProperty(window.screen, 'availWidth', { get: () => ".
Definition js_7 : bytes := lit " });
                Object.defineProperty(window.screen, 'availHeight', { get: () => ".
Definition js_8 : bytes := lit " - 40 });

                // --- stable Canvas noise for the current profile --- 
                const SEED = ".
Definition js_9 : bytes := lit ";
                const originalGetImageData = CanvasRenderingContext2D.prototype.getImageData;
                CanvasRenderingContext2D.prototype.getImageData = function(x, y, w, h) {
                    const imageData = originalGetImageData.apply(this, arguments);
                    const data = imageData.data;

                    // We use a static profile SEED so that the Canvas hash remains
                    // unchanged upon re-reading within a single session
                    for (let i = 0; i < data.length; i += 4) {
                        data[i]     = data[i]     ^ (SEED & 1);
                        data[i + 1] = data[i + 1] ^ ((SEED >> 1) & 1);
                    }
                    return imageData;
                };

                const originalToDataURL = HTMLCanvasElement.prototype.toDataURL;
                HTMLCanvasElement.prototype.toDataURL = function() {
                    const ctx = this.getContext('2d');
                    if (ctx) { try { ctx.getImageData(0, 0, 1, 1); } catch(e) {} }
                    return originalToDataURL.apply(this, arguments);
                };

                // --- GPU Spoofing in WebGL ---
                const originalGetParameter = WebGLRenderingContext.prototype.getParameter;
                WebGLRenderingContext.prototype.getParameter = function(parameter) {
                    if (parameter === 37445) return '".
Definition js_10 : bytes := lit "'; 
                    if (parameter === 37446) return '".
Definition js_11 : bytes := lit "';
                    return originalGetParameter.apply(this, arguments);
                };

                console.log('--- [Antidetect] Profile successfully generated and applied ---');
            })();
        ".

(** [serde_json::to_string] on the languages is an argument. *)
Definition compile_js_injector (to_json : list bytes -> option bytes) (self : BrowserProfile) (proxy_ip : bytes) : bytes :=
  let langs_json := default (lit "['en-US']") (to_json (languages self)) in
  js_0 ++ proxy_ip ++ js_1 ++ user_agent self ++ js_2 ++ platform self ++ js_3 ++ langs_json ++ js_4
  ++ dec (screen_width self) ++ js_5 ++ dec (screen_height self) ++ js_6 ++ dec (screen_width self) ++ js_7 ++ dec (screen_height self) ++ js_8
  ++ dec (canvas_noise_seed self) ++ js_9 ++ gl_vendor self ++ js_10 ++ gl_renderer self ++ js_11.

(** ** The noise of the script *)

(** The loop of the spoofed [getImageData] over the array of color
    components: [i] advances by four, and [data[i + 1]] behind the end is not
    written. *)
Fixpoint noise (SEED : Z) (data : list Z) : list Z :=
  match data with
  | r :: g :: b :: a :: rest =>
      Z.lxor r (Z.land SEED 1) :: Z.lxor g (Z.land (Z.shiftr SEED 1) 1) :: b :: a :: noise SEED rest
  | r :: g :: rest => Z.lxor r (Z.land SEED 1) :: Z.lxor g (Z.land (Z.shiftr SEED 1) 1) :: rest
  | r :: [] => [Z.lxor r (Z.land SEED 1)]
  | [] => []
  end.

(** ** The answers to paused requests *)

Inductive command :=
| ContinueWithAuth (request_id response username password : bytes)
| ContinueRequest (request_id : bytes).

Section handler.
(** The values of serde_json, [Value::get] and [Value::as_str]. *)
Context {V : Type} (get : V -> bytes -> option V) (as_str : V -> option bytes) (proxy_user proxy_pass : bytes).

Record event := mkEvent { method : bytes; params : option V }.

Definition on_event (event_res : result event unit) : list command :=
  match event_res with
  | Err _ => []
  | Ok event =>
      if bool_decide (method event = lit "Fetch.requestPaused") then
        match params event with
        | None => []
        | Some params =>
            match get params (lit "authChallenge") with
            | Some _ =>
                match get params (lit "requestId") ≫= as_str with
                | Some req_id => [ContinueWithAuth req_id (lit "ProvideCredentials") proxy_user proxy_pass]
                | None => []
                end
            | None =>
                match get params (lit "requestId") ≫= as_str with
                | Some req_id => [ContinueRequest req_id]
                | None => []
                end
            end
        end
      else []
  end.

(** [handler.next()] until it gives [None]. *)
Fixpoint handle (stream : list (option (result event unit))) : list command :=
  match stream with
  | Some event_res :: stream => on_event event_res ++ handle stream
  | None :: _ | [] => []
  end.
End handler.

(** ** The launcher

    [main] as the calls it makes of the browser crate, each of which can
    fail.  A call that returns well was made; what the browser does with the text
    that [execute_raw_js] hands it is not modelled. *)
Record BrowserConfig := mkConfig { sandbox : bool; arguments : list bytes; viewport : Z * Z }.

Definition browser_config (my_profile : BrowserProfile) (proxy_ip proxy_port : bytes) : BrowserConfig :=
  mkConfig false
    [lit "--proxy-server=http://" ++ proxy_ip ++ lit ":" ++ proxy_port;
     lit "--force-webrtc-ip-handling-policy=disable_non_proxied_udp";
     lit "--disable-blink-features=AutomationControlled"]
    (screen_width my_profile, screen_height my_profile).

Inductive action :=
| Build (config : BrowserConfig)
| Launch (config : BrowserConfig)
| NewPage (url : bytes)
| ExecuteRawJs (js : bytes)
| Goto (url : bytes)
| Sleep (seconds : Z)
| Close.

Definition proxy_ip : bytes := lit "198.51.100.42".
Definition proxy_port : bytes := lit "8080".

Definition add_script (dynamic_js : bytes) : bytes :=
  lit "Page.addScriptToEvaluateOnNewDocument({source: " ++ dynamic_js ++ lit "})".

Definition main_actions (to_json : list bytes -> option bytes) (my_profile : BrowserProfile) : list action :=
  let config := browser_config my_profile proxy_ip proxy_port in
  [Build config; Launch config; NewPage (lit "about:blank");
   ExecuteRawJs (lit "Fetch.enable({ handleAuthRequests: true })");
   ExecuteRawJs (add_script (compile_js_injector to_json my_profile proxy_ip));
   Goto (lit "browserleaks.com"); Sleep 40; Close].

(** The [?] after each call (the sleep has none): what was called, and whether
    all went well. *)
Definition succeeds (ok : action -> bool) (a : action) : bool := match a with Sleep _ => true | _ => ok a end.
Fixpoint attempt (ok : action -> bool) (actions : list action) : list action * bool :=
  match actions with
  | [] => ([], true)
  | a :: actions => if succeeds ok a then let '(called, r) := attempt ok actions in (a :: called, r) else ([a], false)
  end.

Lemma launch_attempt_prefix ok actions : (attempt ok actions).1 `prefix_of` actions.
Proof.
  induction actions as [|a actions IH]; [done|]. cbn [attempt]. destruct (succeeds ok a); [|by exists actions].
  destruct (attempt ok actions) as [c r]. by apply prefix_cons.
Qed.

(** What was called before a call went well. *)
Lemma attempt_before ok actions a x b : (attempt ok actions).1 = a ++ x :: b -> Forall (fun y => succeeds ok y = true) a.
Proof.
  revert a. induction actions as [|y actions IH]; intros a; cbn [attempt]; [by destruct a|].
  destruct (succeeds ok y) eqn:E.
  - destruct (attempt ok actions) as [c r]. destruct a as [|z a]; [done|]. intros [= -> H]. constructor; [done|by apply IH].
  - destruct a as [|z [|]]; [done|..]; by intros [= _ ?].
Qed.

Lemma goto_position l a b to_json p : a ++ Goto l :: b `prefix_of` main_actions to_json p ->
  l = lit "browserleaks.com" /\ a = take 5 (main_actions to_json p).
Proof.
  intros [c Hc]. rewrite <- app_assoc in Hc. change ((Goto l :: b) ++ c) with (Goto l :: b ++ c) in Hc.
  assert (main_actions to_json p !! length a = Some (Goto l)) as Hl by by rewrite Hc, list_lookup_middle.
  assert (take (length a) (main_actions to_json p) = a) as Ha by by rewrite Hc, take_app_length.
  rewrite <- Ha. clear Hc Ha. revert Hl. generalize (length a). intros n. unfold main_actions.
  do 5 (destruct n as [|n]; [discriminate|]). destruct n as [|n]; [by intros [= <-]|].
  do 2 (destruct n as [|n]; [discriminate|]). by destruct n.
Qed.

(** ** Profiles are consistent *)

(** A text that stands for itself between single quotes of JavaScript. *)
Definition js_safe (v : bytes) : bool := forallb (fun b => negb ((b =? 39) || (b =? 92) || (b =? 10) || (b =? 13))) v.

(** What a site compares: the platform, the user agent and the graphics card
    belong together. *)
Definition same_machine (platform user_agent gl_vendor gl_renderer : bytes) : bool :=
  bool_decide (platform = lit "Win32") && starts_with user_agent (lit "Mozilla/5.0 (Windows NT") &&
    starts_with gl_vendor (lit "Google Inc.") && starts_with gl_renderer (lit "ANGLE (") ||
  bool_decide (platform = lit "MacIntel") && starts_with user_agent (lit "Mozilla/5.0 (Macintosh;") &&
    bool_decide (gl_vendor = lit "Apple") && starts_with gl_renderer (lit "Apple M").

Definition well_formed (p : BrowserProfile) : Prop :=
  same_machine (platform p) (user_agent p) (gl_vendor p) (gl_renderer p) = true /\
  (screen_width p, screen_height p) ∈ screen_resolutions /\ 1 <= canvas_noise_seed p <= 5 /\ languages p ∈ lang_options /\
  forallb js_safe [user_agent p; platform p; gl_vendor p; gl_renderer p] = true.

Lemma options_checked : Forall (fun '(os, platform, agents) => Forall (fun ua => Forall (fun '(vendor, renderer) =>
    same_machine platform ua vendor renderer && forallb js_safe [ua; platform; vendor; renderer] = true)
  (gpu_options os)) agents) os_options.
Proof. by_evaluation. Qed.

Section generated.
Context {G : Type} `{!Rng G}.

Lemma choose_elem {A} (l : list A) (g : G) : l <> [] -> exists x g', choose l g = Val (x, g') /\ x ∈ l.
Proof.
  intros Hl. unfold choose. pose proof (draw_bound g (length l)) as Hb. destruct (draw g (length l)) as [i g']. cbn in Hb.
  destruct (lookup_lt_is_Some_2 l i) as [x Hx]; [apply Hb; destruct l; [done|cbn; lia]|].
  exists x, g'. rewrite Hx. split; [done|]. by eapply list_elem_of_lookup_2.
Qed.

Lemma generate_well_formed (g : G) : exists p, generate_random g = Val p /\ well_formed p.
Proof.
  unfold generate_random.
  destruct (choose_elem os_options g) as ([[os pl] agents] & g1 & -> & Hos); [done|]. cbn [mbind outcome_bind].
  pose proof options_checked as Hopt. rewrite Forall_forall in Hopt. specialize (Hopt _ Hos). cbn in Hopt.
  destruct (choose_elem agents g1) as (ua & g2 & -> & Hua).
  { intros ->. repeat (apply elem_of_cons in Hos as [[=]|Hos]). by apply elem_of_nil in Hos. }
  rewrite Forall_forall in Hopt. specialize (Hopt _ Hua).
  destruct (choose_elem screen_resolutions g2) as ([w h] & g3 & E3 & Hwh); [done|].
  destruct (choose_elem (gpu_options os) g3) as ([vendor renderer] & g4 & E4 & Hgpu); [unfold gpu_options; by case_match|].
  rewrite Forall_forall in Hopt. specialize (Hopt _ Hgpu). apply andb_prop in Hopt as [Hm Hs].
  destruct (choose_elem lang_options g4) as (langs & g5 & E5 & Hl); [done|].
  cbn [mbind outcome_bind]. rewrite E3. cbn [mbind outcome_bind]. rewrite E4. cbn [mbind outcome_bind]. rewrite E5.
  eexists. split; [done|]. split_and!; cbn; try done.
  - lia.
  - pose proof (draw_bound g5 5). lia.
Qed.
End generated.

(** A generator for the concrete runs: the digits of a number. *)
#[export] Program Instance digits_rng : Rng nat := {| draw g n := ((g mod n)%nat, (g / n)%nat) |}.
Next Obligation. intros g n Hn. cbn. apply Nat.mod_upper_bound. lia. Qed.

(** C26. Whatever the random draws are, a profile comes out, and it is one
    machine's: the user agent, the platform and the graphics card all belong to
    Windows or all to a Macintosh, the screen and the languages are listed ones,
    the noise seed is between 1 and 5, and no text needs escaping in JavaScript. *)
Theorem profile_consistent {G : Type} `{!Rng G} (g : G) : exists p, generate_random g = Val p /\ well_formed p.
Proof. apply generate_well_formed. Qed.

(** ** The values in the script *)

(** A literal in single quotes at the start of a text, as JavaScript reads it
    when it holds no escapes. *)
Fixpoint literal_body (s : bytes) : option bytes :=
  match s with
  | [] => None
  | b :: s => if b =? 39 then Some [] else if (b =? 92) || (b =? 10) || (b =? 13) then None else cons b <$> literal_body s
  end.
Definition js_string (s : bytes) : option bytes := match s with 39 :: s => literal_body s | _ => None end.

(** The decimal number at the start of a text. *)
Fixpoint js_digits (s : bytes) : bytes :=
  match s with b :: s => if is_digit b then b :: js_digits s else [] | [] => [] end.
Definition decimal (digits : bytes) : Z := foldl (fun v b => 10 * v + (b - 48)) 0 digits.
Definition js_number (s : bytes) : option Z := match js_digits s with [] => None | digits => Some (decimal digits) end.

(** An array of texts in double quotes at the start of a text, without escapes
    and white space, by where the reader is. *)
Inductive array_place := Expect | Inside (read : bytes) | After.
Fixpoint js_strings (st : array_place) (s : bytes) : option (list bytes) :=
  match s with
  | [] => None
  | b :: s =>
      match st with
      | Expect => if b =? 34 then js_strings (Inside []) s else None
      | Inside read =>
          if b =? 34 then cons read <$> js_strings After s
          else if (b =? 92) || (b =? 10) || (b =? 13) then None else js_strings (Inside (read ++ [b])) s
      | After => if b =? 44 then js_strings Expect s else if b =? 93 then Some [] else None
      end
  end.
Definition js_array (s : bytes) : option (list bytes) := match s with 91 :: s => js_strings Expect s | _ => None end.

(** The compact JSON of serde_json for a list of texts that need no escapes. *)
Definition json_plain (s : bytes) : bool := forallb (fun b => (32 <=? b) && negb ((b =? 34) || (b =? 92))) s.
Fixpoint json_elements (l : list bytes) : bytes :=
  match l with
  | [] => []
  | [s] => 34 :: s ++ [34]
  | s :: l => 34 :: s ++ 34 :: 44 :: json_elements l
  end.
Definition json_text (l : list bytes) : bytes := 91 :: json_elements l ++ [93].

(** Where the script says [marker], a literal of the value [v] follows. *)
Definition says (script marker v : bytes) : Prop := exists a rest, script = a ++ marker ++ rest /\ js_string rest = Some v.
(** A number of the value [n] follows, and then [after]. *)
Definition says_number (script marker : bytes) (n : Z) (after : bytes) : Prop := exists a digits rest,
  script = a ++ marker ++ digits ++ after ++ rest /\ js_digits (digits ++ after ++ rest) = digits /\
  js_number (digits ++ after ++ rest) = Some n.
(** An array of the texts [l] follows. *)
Definition says_array (script marker : bytes) (l : list bytes) : Prop :=
  exists a rest, script = a ++ marker ++ rest /\ js_array rest = Some l.

Lemma js_string_safe v rest : js_safe v = true -> js_string (39 :: v ++ 39 :: rest) = Some v.
Proof.
  cbn [js_string]. induction v as [|b v IH]; [done|]. cbn [js_safe forallb]. intros [Hb Hv]%andb_prop.
  cbn [app literal_body]. destruct (b =? 39); [done|]. destruct ((b =? 92) || (b =? 10) || (b =? 13)) eqn:E; [|by rewrite IH].
  by rewrite <- !orb_assoc, orb_false_l, orb_assoc, E in Hb.
Qed.

Lemma says_app a script marker v : says script marker v -> says (a ++ script) marker v.
Proof. intros (b & rest & -> & Hr). exists (a ++ b), rest. by rewrite <- app_assoc. Qed.

(** A piece that ends in a marker and an opening quote, a value, and a piece
    that starts with the closing quote. *)
Definition opens (piece marker : bytes) : bool :=
  bool_decide (drop (length piece - length marker - 1) piece = marker ++ [39]).
Definition closes (piece : bytes) : bool := bool_decide (head piece = Some 39).

Lemma says_between marker p v q post : opens p marker = true -> closes q = true -> js_safe v = true ->
  says (p ++ v ++ q ++ post) marker v.
Proof.
  unfold opens, closes. intros Ho%bool_decide_eq_true Hc%bool_decide_eq_true Hv. destruct q as [|b q]; [done|]. injection Hc as ->.
  rewrite <- (take_drop (length p - length marker - 1) p), Ho, <- app_assoc. apply says_app.
  exists [], (39 :: v ++ 39 :: q ++ post). split; [by rewrite <- app_assoc|]. by apply js_string_safe.
Qed.

(** The same for numbers: a piece that ends in a marker, the digits of a number,
    and a piece that starts with a text whose first character is no digit. *)
Definition ends (piece marker : bytes) : bool := bool_decide (drop (length piece - length marker) piece = marker).
Definition begins (piece after : bytes) : bool :=
  starts_with piece after && match after with b :: _ => negb (is_digit b) | [] => false end.

Lemma js_digits_app d b rest : forallb is_digit d = true -> is_digit b = false -> js_digits (d ++ b :: rest) = d.
Proof.
  intros Hd Hb. induction d as [|c d IH]; cbn; [by rewrite Hb|]. cbn in Hd. apply andb_prop in Hd as [-> Hd]. by rewrite IH.
Qed.

(** The numbers that a profile can hold, read back from their digits. *)
Definition reads_back (n : Z) : bool := forallb is_digit (dec n) && bool_decide (js_number (dec n) = Some n).
Lemma sizes_read_back : Forall (fun '(w, h) => reads_back w && reads_back h = true) screen_resolutions.
Proof. by_evaluation. Qed.
Lemma seed_reads_back n : 1 <= n <= 5 -> reads_back n = true.
Proof. intros Hn. assert (n = 1 \/ n = 2 \/ n = 3 \/ n = 4 \/ n = 5) as Hc by lia. by destruct Hc as [->|[->|[->|[->| ->]]]]. Qed.

Lemma says_number_app a script marker n after : says_number script marker n after -> says_number (a ++ script) marker n after.
Proof. intros (b & d & rest & -> & Hr). exists (a ++ b), d, rest. by rewrite <- app_assoc. Qed.

Lemma says_number_between marker after p n q post : ends p marker = true -> begins q after = true -> reads_back n = true ->
  says_number (p ++ dec n ++ q ++ post) marker n after.
Proof.
  unfold ends, begins, reads_back. intros He%bool_decide_eq_true [Hq Hb]%andb_prop [Hd Hn%bool_decide_eq_true]%andb_prop.
  apply starts_with_spec in Hq as [t ->]. destruct after as [|b after]; [done|]. apply negb_true_iff in Hb.
  rewrite <- (take_drop (length p - length marker) p), He, <- app_assoc. apply says_number_app.
  pose proof (js_digits_app (dec n) b (after ++ t ++ post) Hd Hb) as Hall.
  pose proof (js_digits_app (dec n) b [] Hd Hb) as H0.
  exists [], (dec n), (t ++ post). cbn [app]. rewrite <- !app_assoc. split; [done|]. split; [exact Hall|].
  unfold js_number in *. rewrite Hall. assert (js_digits (dec n) = dec n) as Hself.
  { clear -Hd. induction (dec n) as [|c d IH]; [done|]. cbn in *. apply andb_prop in Hd as [-> Hd]. by rewrite IH. }
  by rewrite Hself in Hn.
Qed.

Lemma js_strings_inside s : forall acc rest, json_plain s = true ->
  js_strings (Inside acc) (s ++ 34 :: rest) = cons (acc ++ s) <$> js_strings After rest.
Proof.
  induction s as [|b s IH]; intros acc rest; cbn [app js_strings]; [by rewrite app_nil_r|].
  cbn [json_plain forallb]. intros [[Hb Hx]%andb_prop Hs]%andb_prop.
  assert ((b =? 34) = false /\ (b =? 92) || (b =? 10) || (b =? 13) = false) as [-> ->] by lia.
  rewrite IH by done. by rewrite <- app_assoc.
Qed.

Lemma js_strings_elements l rest : l <> [] -> forallb json_plain l = true ->
  js_strings Expect (json_elements l ++ 93 :: rest) = Some l.
Proof.
  intros Hne. induction l as [|s [|s' l] IH]; [done| |]; intros [Hs Hl]%andb_prop.
  - cbn [json_elements app js_strings]. rewrite Z.eqb_refl, <- app_assoc. cbn [app].
    by rewrite (js_strings_inside s [] (93 :: rest) Hs).
  - change (json_elements (s :: s' :: l)) with (34 :: s ++ 34 :: 44 :: json_elements (s' :: l)).
    specialize (IH ltac:(done) Hl). revert IH. generalize (json_elements (s' :: l)). intros t IH.
    cbn [app js_strings]. rewrite Z.eqb_refl, <- app_assoc. cbn [app]. rewrite (js_strings_inside s [] _ Hs). cbn [js_strings].
    change (44 =? 44) with true. cbv iota. by rewrite IH.
Qed.

Lemma js_array_json l rest : l <> [] -> forallb json_plain l = true -> js_array (json_text l ++ rest) = Some l.
Proof. intros Hne Hl. unfold json_text. cbn [app js_array]. rewrite <- app_assoc. by apply js_strings_elements. Qed.

Lemma languages_plain : Forall (fun l => l <> [] /\ forallb json_plain l = true) lang_options.
Proof. repeat constructor; done. Qed.

Lemma says_array_app a script marker l : says_array script marker l -> says_array (a ++ script) marker l.
Proof. intros (b & rest & -> & Hr). exists (a ++ b), rest. by rewrite <- app_assoc. Qed.

Lemma says_array_between marker p l post : ends p marker = true -> l <> [] -> forallb json_plain l = true ->
  says_array (p ++ json_text l ++ post) marker l.
Proof.
  unfold ends. intros He%bool_decide_eq_true Hne Hl.
  rewrite <- (take_drop (length p - length marker) p), He, <- app_assoc. apply says_array_app.
  exists [], (json_text l ++ post). split; [done|]. by apply js_array_json.
Qed.

(** C29. The injected script gives a page the generated profile: read as
    JavaScript literals, the values behind the markers of the network address,
    the user agent, the platform, the languages, the width and the height of
    the screen (and the available ones, less 40 for the height), the seed of the
    noise and the two WebGL parameters are the proxy's address and the fields of
    the profile, whenever the address needs no escaping; for the languages
    where serde_json writes texts without escapes as they are.  And the site is
    visited only behind the calls that should prepare it: whatever call fails, a
    launcher that goes to a site has before that called for a browser with the
    proxy and the window of the profile and for the execution of a text made of
    this script, and every call had returned without an error. *)
Theorem script_says_profile {G : Type} `{!Rng G} (g : G) (to_json : list bytes -> option bytes) (ip : bytes) :
  js_safe ip = true -> exists p, generate_random g = Val p /\
    let script := compile_js_injector to_json p ip in
    says script (lit "const FAKE_IP = ") ip /\
    says script (lit "'userAgent', { get: () => ") (user_agent p) /\
    says script (lit "'platform', { get: () => ") (platform p) /\
    ((forall l, forallb json_plain l = true -> to_json l = Some (json_text l)) ->
     says_array script (lit "'languages', { get: () => ") (languages p)) /\
    says_number script (lit "window.screen, 'width', { get: () => ") (screen_width p) (lit " });") /\
    says_number script (lit "window.screen, 'height', { get: () => ") (screen_height p) (lit " });") /\
    says_number script (lit "window.screen, 'availWidth', { get: () => ") (screen_width p) (lit " });") /\
    says_number script (lit "window.screen, 'availHeight', { get: () => ") (screen_height p) (lit " - 40 });") /\
    says_number script (lit "const SEED = ") (canvas_noise_seed p) (lit ";") /\
    says script (lit "if (parameter === 37445) return ") (gl_vendor p) /\
    says script (lit "if (parameter === 37446) return ") (gl_renderer p) /\
    forall ok l a b, (attempt ok (main_actions to_json p)).1 = a ++ Goto l :: b ->
      Launch (browser_config p proxy_ip proxy_port) ∈ a /\
      ExecuteRawJs (add_script (compile_js_injector to_json p proxy_ip)) ∈ a /\
      Forall (fun y => succeeds ok y = true) a.
Proof.
  intros Hip. destruct (generate_well_formed g) as (p & Hp & _ & Hsize & Hseed & Hlang & Hs). exists p. split; [done|].
  cbn [forallb] in Hs. apply andb_prop in Hs as [Hua Hs]. apply andb_prop in Hs as [Hpl Hs].
  apply andb_prop in Hs as [Hve Hs]. apply andb_prop in Hs as [Hre _].
  pose proof (proj1 (Forall_forall _ _) sizes_read_back _ Hsize) as [Hw Hh]%andb_prop.
  apply seed_reads_back in Hseed. pose proof (proj1 (Forall_forall _ _) languages_plain _ Hlang) as [Hne Hplain].
  unfold compile_js_injector. split_and!.
  - by apply says_between; [vm_compute| |].
  - do 2 apply says_app. by apply says_between; [vm_compute| |].
  - do 4 apply says_app. by apply says_between; [vm_compute| |].
  - intros Hjson. rewrite Hjson by done. cbn [default from_option]. do 6 apply says_array_app. by apply says_array_between; [vm_compute| |].
  - do 8 apply says_number_app. by apply says_number_between; [vm_compute..|].
  - do 10 apply says_number_app. by apply says_number_between; [vm_compute..|].
  - do 12 apply says_number_app. by apply says_number_between; [vm_compute..|].
  - do 14 apply says_number_app. by apply says_number_between; [vm_compute..|].
  - do 16 apply says_number_app. by apply says_number_between; [vm_compute..|].
  - do 18 apply says_app. by apply says_between; [vm_compute| |].
  - do 20 apply says_app. rewrite <- (app_nil_r js_11). by apply says_between; [vm_compute| |].
  - intros ok l a b Hgo. pose proof (attempt_before _ _ _ _ _ Hgo) as Hok. pose proof (launch_attempt_prefix ok (main_actions to_json p)) as Hp'.
    rewrite Hgo in Hp'. apply goto_position in Hp' as [_ ->]. split; [|split; [|done]].
    + right. left.
    + do 4 right. left.
Qed.

Lemma script_says_profile_witness : exists p, generate_random (G := nat) 4321%nat = Val p /\ platform p = lit "MacIntel" /\
  let script := compile_js_injector (fun l => Some (json_text l)) p (lit "198.51.100.42") in
  says script (lit "const FAKE_IP = ") (lit "198.51.100.42") /\
  says_array script (lit "'languages', { get: () => ") (languages p) /\
  says_number script (lit "window.screen, 'height', { get: () => ") (screen_height p) (lit " });").
Proof.
  destruct (script_says_profile (G := nat) 4321%nat (fun l => Some (json_text l)) (lit "198.51.100.42"))
    as (p & Hp & Hs & _ & _ & Hl & _ & Hh & _); [by vm_compute|].
  exists p. split; [exact Hp|]. split; [vm_compute in Hp; by injection Hp as <-|]. split; [exact Hs|].
  split; [exact (Hl (fun _ _ => eq_refl))|exact Hh].
Defined.

(** ** What the noise changes *)

(** The components of a color array at the positions that the loop writes. *)
Definition flip (SEED : Z) (i : nat) (x : Z) : Z :=
  if (i mod 4 =? 0)%nat then Z.lxor x (Z.land SEED 1)
  else if (i mod 4 =? 1)%nat then Z.lxor x (Z.land (Z.shiftr SEED 1) 1) else x.

Lemma flip_4 SEED i x : flip SEED (S (S (S (S i)))) x = flip SEED i x.
Proof.
  unfold flip. replace (S (S (S (S i)))) with (i + 1 * 4)%nat by lia. by rewrite Nat.Div0.mod_add.
Qed.

Lemma noise_imap SEED data : noise SEED data = imap (flip SEED) data.
Proof.
  remember (length data) as n eqn:Hn. revert data Hn. induction (lt_wf n) as [n _ IH]. intros data ->.
  destruct data as [|r [|g [|b [|a rest]]]]; [done..|]. cbn [noise]. rewrite !imap_cons.
  rewrite (IH (length rest) ltac:(cbn; lia) rest eq_refl). do 4 f_equal. apply imap_ext. intros i x _. cbn. by rewrite flip_4.
Qed.

Lemma flip_flip SEED i x : flip SEED i (flip SEED i x) = x.
Proof. unfold flip. repeat case_match; try done; by rewrite Z.lxor_assoc, Z.lxor_nilpotent, Z.lxor_0_r. Qed.

Lemma lxor_bit_byte x s : is_byte x -> is_byte (Z.lxor x (Z.land s 1)).
Proof.
  intros Hx. assert (Z.land s 1 = 0 \/ Z.land s 1 = 1) as [-> | ->].
  { pose proof (Z.land_ones s 1 ltac:(lia)) as H. change (Z.ones 1) with 1 in H. change (2 ^ 1) with 2 in H.
    pose proof (Z.mod_pos_bound s 2 ltac:(lia)). lia. }
  - by rewrite Z.lxor_0_r.
  - revert x Hx. assert (forall x, is_byte x -> (0 <=? Z.lxor x 1) && (Z.lxor x 1 <=? 255) = true) as H.
    { intros x. by apply (byte_check (fun x => (0 <=? Z.lxor x 1) && (Z.lxor x 1 <=? 255))). }
    intros x Hx%H. unfold is_byte, u8_max. lia.
Qed.

(** The noise keeps the length of the array; it changes exactly the lowest
    bit of the red components when the seed is odd and of the green ones when
    its second bit is set; it stays within a byte, and applying it twice gives
    the array back.  The five seeds of the generator give only four different
    noises, 1 and 5 the same one, and seed 4 none at all. *)
Theorem noise_spec (SEED : Z) (data : list Z) :
  (forall i, noise SEED data !! i = flip SEED i <$> data !! i) /\
  length (noise SEED data) = length data /\
  noise SEED (noise SEED data) = data /\
  (is_bytes data -> is_bytes (noise SEED data)) /\
  noise 4 data = data /\ noise 5 data = noise 1 data.
Proof.
  assert (Hlook : forall S i, noise S data !! i = flip S i <$> data !! i).
  { intros S i. rewrite noise_imap, list_lookup_imap. done. }
  split; [apply Hlook|]. split; [by rewrite noise_imap, length_imap|]. split_and!.
  - apply list_eq. intros i. rewrite (noise_imap SEED (noise SEED data)), list_lookup_imap, Hlook.
    destruct (data !! i); [|done]. cbn. by rewrite flip_flip.
  - unfold is_bytes. rewrite !Forall_lookup. intros H i x Hx. rewrite Hlook in Hx.
    destruct (data !! i) as [y|] eqn:E; [|done]. injection Hx as <-. specialize (H _ _ E). unfold flip.
    repeat case_match; try done; by apply lxor_bit_byte.
  - apply list_eq. intros i. rewrite Hlook. destruct (data !! i); [|done]. cbn. unfold flip. repeat case_match; try done;
      cbn; by rewrite Z.lxor_0_r.
  - apply list_eq. intros i. by rewrite !Hlook.
Qed.

(** ** Every paused request is answered *)

Section answers.
Context {V : Type} (get : V -> bytes -> option V) (as_str : V -> option bytes) (proxy_user proxy_pass : bytes).

(** The requests that Chromium paused, in a stream of events. *)
Definition paused (e : result (event (V := V)) unit) : option (bool * bytes) :=
  match e with
  | Ok e =>
      if bool_decide (method e = lit "Fetch.requestPaused") then
        p ← params e; v ← get p (lit "requestId"); id ← as_str v;
        Some (match get p (lit "authChallenge") with Some _ => true | None => false end, id)
      else None
  | Err _ => None
  end.

(** Until the stream ends, every paused request with a textual id gets
    exactly one answer, in the order of the events, and nothing else gets
    any: the proxy's user and password when it carries an authentication
    challenge, whoever the challenge is from, and the continuation when it does
    not. *)
Theorem paused_requests_answered (events : list (result event unit)) (rest : list (option (result event unit))) :
  head rest = None \/ head rest = Some None ->
  handle get as_str proxy_user proxy_pass (map Some events ++ rest) =
  map (fun '(challenged, id) => if challenged : bool then ContinueWithAuth id (lit "ProvideCredentials") proxy_user proxy_pass
    else ContinueRequest id) (omap paused events).
Proof.
  intros Hrest. induction events as [|e events IH]; cbn [map app handle omap list_omap].
  - destruct rest as [|[]]; [done| |done]. by destruct Hrest.
  - rewrite IH. destruct e as [e|]; [|done]. unfold on_event, paused. case_bool_decide; [|done].
    destruct (params e) as [p|]; [|done]. cbn [mbind option_bind].
    destruct (get p (lit "authChallenge")), (get p (lit "requestId")) as [w|]; cbn [mbind option_bind]; try done;
      by destruct (as_str _).
Qed.
End answers.

(** A challenge of a site, not of the proxy, gets the proxy's password. *)
Definition ex_get (v : list (bytes * bytes)) (k : bytes) : option (list (bytes * bytes)) :=
  match filter (fun p => p.1 = k) v with [] => None | (_, x) :: _ => Some [([], x)] end.
Definition ex_str (v : list (bytes * bytes)) : option bytes := match v with [([], x)] => Some x | _ => None end.
Definition ex_events : list (result (event (V := list (bytes * bytes))) unit) := [
  Ok (mkEvent (lit "Fetch.requestPaused") (Some [(lit "requestId", lit "r1")]));
  Err tt;
  Ok (mkEvent (lit "Page.loadEventFired") None);
  Ok (mkEvent (lit "Fetch.requestPaused") (Some [(lit "authChallenge", lit "browserleaks.com"); (lit "requestId", lit "r2")]))].

Lemma paused_requests_answered_witness :
  handle ex_get ex_str (lit "user") (lit "pass") (map Some ex_events ++ [None]) =
  [ContinueRequest (lit "r1"); ContinueWithAuth (lit "r2") (lit "ProvideCredentials") (lit "user") (lit "pass")].
Proof.
  rewrite (paused_requests_answered ex_get ex_str (lit "user") (lit "pass") ex_events [None]).
  - by vm_compute.
  - by right.
Defined.
