(* ===== verification/DlpSniffer.v ===== *)
(** The monitor of [src/dlp/dlp_sniffer/src/main.rs]: the inspection of a text,
    the HTTP handler, the packet loop, and the tasks that print side by side. *)
From S2P Require Import Prelude Bytes.

(** The compiled card pattern of the regex crate: whether it matches, and the
    matched fragments. *)
Class CardPattern := {
  is_match : bytes -> bool;
  find_iter : bytes -> list bytes;
  is_match_find : forall s, is_match s = true <-> find_iter s <> [];
}.

Section sniffer.
Context `{!CardPattern}.

(** [DlpEngine::inspect_data]: the lines that it prints. *)
Definition inspect_data (context data : bytes) : list bytes :=
  if is_match data then
    (lit "[DLP ALERT] A live card data leak has been detected: " ++ context ++ lit "!")
    :: map (fun mat => lit "   Compromised fragment: " ++ mat) (find_iter data)
  else [].

Record response := mkResponse { status : Z; body : bytes }.

(** The handler, with the target and what reading the body gives. *)
Definition proxy_handler (uri : bytes) (to_bytes : result bytes unit) : list bytes * response :=
  match to_bytes with
  | Err _ => ([], mkResponse 400 (lit "Error reading request body"))
  | Ok body_bytes =>
      let printed := if is_str body_bytes then inspect_data (lit "HTTP Proxy Request to " ++ uri) body_bytes else [] in
      (printed, mkResponse 200 (lit "data successfully processed by the DLP proxy"))
  end.

Definition on_packet (data : bytes) : list bytes :=
  if is_str data then inspect_data (lit "Passive Network Sniffer") data
  else
    let lossy_text := from_utf8_lossy data in
    if 40 <? len lossy_text then inspect_data (lit "Passive Network Sniffer (Lossy)") lossy_text else [].

(** [while let Ok(packet) = cap.next_packet()]. *)
Fixpoint packet_loop (packets : list (result bytes unit)) : list bytes :=
  match packets with
  | Ok data :: packets => on_packet data ++ packet_loop packets
  | Err _ :: _ | [] => []
  end.

(** What the capture library answers: for the device "any", for the lookup of
    the default device ([None]: there is none), and to the calls that are
    unwrapped. *)
Record capture_env := mkCapture {
  any_device : bool; lookup : result (option unit) unit; from_device : bool; open_ : bool; filter_ : bool }.

Definition select_device (e : capture_env) : outcome unit :=
  if any_device e then Val tt else match lookup e with Ok (Some device) => Val device | _ => Panic end.
Definition open_capture (e : capture_env) : outcome unit :=
  match select_device e with
  | Val _ => if from_device e && open_ e && filter_ e then Val tt else Panic
  | Panic => Panic
  end.

(** The blocking task: its panic prints nothing of ours. *)
Definition run_sniffer (e : capture_env) (packets : list (result bytes unit)) : list bytes :=
  match open_capture e with Val _ => packet_loop packets | Panic => [] end.

(** The server: what the handler of each request prints and answers; binding a
    taken address panics.  The handlers run side by side, so the lists are not
    in an order of printing (see [main]); a connection that goes before its body is
    read drops its handler, which has printed nothing. *)
Definition run_proxy (bind : bool) (requests : list (bytes * result bytes unit)) : outcome (list (list bytes * response)) :=
  if bind then Val (map (fun '(uri, body) => proxy_handler uri body) requests) else Panic.

(** The lines of tasks that run side by side, each task's own in their order. *)
Inductive shuffle {A} : list (list A) -> list A -> Prop :=
| shuffle_done ls : Forall (eq []) ls -> shuffle ls []
| shuffle_next ls1 x l ls2 out : shuffle (ls1 ++ l :: ls2) out -> shuffle (ls1 ++ (x :: l) :: ls2) (x :: out).

(** [main]: the sniffer and the handlers of the requests print to one
    terminal; the output when no handler is at its lines.  The sniffer runs on,
    or has ended, without the proxy taking notice. *)
Definition main (e : capture_env) (packets : list (result bytes unit)) (bind : bool)
    (requests : list (bytes * result bytes unit)) (out : list bytes) : Prop :=
  shuffle (run_sniffer e packets :: match run_proxy bind requests with Val answers => map fst answers | Panic => [] end) out.

(** ** The lossy text of a packet *)

Lemma decode1_err_width s w : decode1 s = Some (Err w) -> (1 <= w <= 3)%nat.
Proof.
  destruct s as [|b0 t]; [done|]. cbn [decode1]. intros E. injection E as E. revert E.
  repeat case_match; intros [= <-]; lia.
Qed.

Lemma lossy_fuel_length fuel s : (length s <= fuel)%nat -> (length s <= length (from_utf8_lossy_fuel fuel s))%nat.
Proof.
  revert s. induction fuel as [|fuel IH]; intros s Hs; [lia|]. cbn [from_utf8_lossy_fuel].
  destruct (decode1 s) as [[[c w]|w]|] eqn:E.
  - rewrite length_app. assert (Hw : (0 < length s)%nat -> (1 <= w)%nat).
    { intros _. destruct s as [|b0 t]; [done|]. cbn [decode1] in E. injection E as E. revert E. repeat case_match; intros [= <- <-]; lia. }
    destruct s as [|b s]; [cbn; lia|]. specialize (Hw ltac:(cbn; lia)).
    pose proof (length_drop (b :: s) w). pose proof (length_take (b :: s) w). cbn [length] in *.
    pose proof (IH (drop w (b :: s)) ltac:(lia)). lia.
  - pose proof (decode1_err_width _ _ E). rewrite length_app. pose proof (length_drop s w).
    destruct s as [|b s]; [done|]. cbn [length] in *. pose proof (IH (drop w (b :: s)) ltac:(lia)). change (length replacement) with 3%nat. lia.
  - by destruct s.
Qed.

Lemma lossy_length s : (length s <= length (from_utf8_lossy s))%nat.
Proof. by apply lossy_fuel_length. Qed.

(** What is inspected of a packet, if it is. *)
Definition inspected (data : bytes) : bool := is_str data || (40 <? len (from_utf8_lossy data)).
Definition packet_context (data : bytes) : bytes :=
  if is_str data then lit "Passive Network Sniffer" else lit "Passive Network Sniffer (Lossy)".

Lemma shuffle_elem {A} (ls : list (list A)) out x : shuffle ls out -> x ∈ out <-> x ∈ concat ls.
Proof.
  induction 1 as [ls Hls|ls1 y l ls2 out _ IH].
  - replace (concat ls) with (@nil A); [done|]. by induction Hls as [|? ? <- _ IH].
  - rewrite elem_of_cons, IH, !concat_app. cbn. set_solver.
Qed.

(** The texts that are looked at, each with the context it is reported under. *)
Definition sniffed (e : capture_env) (packets : list bytes) : list (bytes * bytes) :=
  match open_capture e with
  | Val _ => map (fun data => (packet_context data, from_utf8_lossy data)) (filter inspected packets)
  | Panic => []
  end.
Definition request_text (request : bytes * result bytes unit) : list (bytes * bytes) :=
  match request with
  | (uri, Ok b) => if is_str b then [(lit "HTTP Proxy Request to " ++ uri, b)] else []
  | (_, Err _) => []
  end.
Definition proxied (bind : bool) (requests : list (bytes * result bytes unit)) : list (list (bytes * bytes)) :=
  if bind then map request_text requests else [].
Definition alerts (texts : list (bytes * bytes)) : list bytes := concat (map (fun '(context, data) => inspect_data context data) texts).

Lemma packet_loop_spec packets rest : head rest = None \/ head rest = Some (Err tt) ->
  packet_loop (map Ok packets ++ rest) =
    alerts (map (fun data => (packet_context data, from_utf8_lossy data)) (filter inspected packets)).
Proof.
  intros Hrest. induction packets as [|data packets IH]; cbn [map app packet_loop].
  - destruct rest as [|[]]; [done| |done]. by destruct Hrest.
  - rewrite IH, filter_cons. unfold on_packet, inspected, packet_context at 1.
    destruct (is_str data) eqn:E; cbn [orb].
    + rewrite decide_True by done. unfold alerts. cbn [map concat]. unfold packet_context. by rewrite E, from_utf8_lossy_valid.
    + destruct (40 <? len (from_utf8_lossy data)); [|by rewrite decide_False by (intros [])].
      rewrite decide_True by done. unfold alerts. cbn [map concat]. unfold packet_context. by rewrite E.
Qed.

Lemma proxy_alerts bind requests :
  match run_proxy bind requests with Val answers => map fst answers | Panic => [] end = map alerts (proxied bind requests).
Proof.
  unfold run_proxy, proxied. destruct bind; [|done]. rewrite !map_map. apply map_ext. intros [uri [b|]]; [|done].
  unfold proxy_handler, alerts. cbn. destruct (is_str b); [|done]. cbn. by rewrite app_nil_r.
Qed.

Lemma alerts_concat textss : concat (map alerts textss) = alerts (concat textss).
Proof.
  induction textss as [|texts textss IH]; [done|]. cbn. rewrite IH. unfold alerts. by rewrite map_app, concat_app.
Qed.

Lemma inspect_data_elem context data line : line ∈ inspect_data context data <-> find_iter data <> [] /\
  (line = lit "[DLP ALERT] A live card data leak has been detected: " ++ context ++ lit "!" \/
   exists mat, mat ∈ find_iter data /\ line = lit "   Compromised fragment: " ++ mat).
Proof.
  rewrite <- is_match_find. unfold inspect_data. destruct (is_match data); [|split; [by intros ?%not_elem_of_nil|by intros []]].
  rewrite elem_of_cons, list_elem_of_fmap. naive_solver.
Qed.

Lemma alert_lines texts line :
  line ∈ concat (map (fun '(context, data) => inspect_data context data) texts) <-> exists context data,
    (context, data) ∈ texts /\ find_iter data <> [] /\
    (line = lit "[DLP ALERT] A live card data leak has been detected: " ++ context ++ lit "!" \/
     exists mat, mat ∈ find_iter data /\ line = lit "   Compromised fragment: " ++ mat).
Proof.
  rewrite list_elem_of_In, in_concat. split.
  - intros (l & Hl & Hin). apply in_map_iff in Hl as ([context data] & <- & Hl). exists context, data.
    split; [by apply list_elem_of_In|]. by apply inspect_data_elem, list_elem_of_In.
  - intros (context & data & Ht & Hl). exists (inspect_data context data). split.
    + apply in_map_iff. exists (context, data). split; [done|by apply list_elem_of_In].
    + by apply list_elem_of_In, inspect_data_elem.
Qed.

(** C25. What the monitor prints: the alerts of the sniffer and those of each
    request of the proxy, whose handlers run side by side, interleaved in some
    way that keeps each one's order.  The sniffer, if its capture can be opened,
    inspects the packets up to the first error of the capture, and none after
    it: each with its bytes read as text, ill-formed parts replaced.  A packet
    is left out only if it is not UTF-8 and short: any packet of more than 40
    bytes is inspected.  The proxy, if it gets its address, inspects exactly the
    bodies that it can read and that are UTF-8; it answers 200, whatever it
    found, exactly when it could read the body, and otherwise 400 without a
    line.  An alert is printed exactly for the inspected texts in which the
    pattern matches, with one line for each match. *)
Theorem sniffer_reports e (packets : list bytes) (rest : list (result bytes unit)) bind requests out :
  head rest = None \/ head rest = Some (Err tt) ->
  main e (map Ok packets ++ rest) bind requests out ->
  shuffle (alerts (sniffed e packets) :: map alerts (proxied bind requests)) out /\
  (forall data, 40 < len data -> inspected data = true) /\
  (forall line, line ∈ out <-> exists context data, (context, data) ∈ sniffed e packets ++ concat (proxied bind requests) /\
     find_iter data <> [] /\
     (line = lit "[DLP ALERT] A live card data leak has been detected: " ++ context ++ lit "!" \/
      exists mat, mat ∈ find_iter data /\ line = lit "   Compromised fragment: " ++ mat)) /\
  (forall uri body, status (proxy_handler uri body).2 = 200 <-> exists b, body = Ok b) /\
  (forall uri, proxy_handler uri (Err tt) = ([], mkResponse 400 (lit "Error reading request body"))).
Proof.
  intros Hrest Hmain. assert (shuffle (alerts (sniffed e packets) :: map alerts (proxied bind requests)) out) as Hi.
  { unfold main in Hmain. rewrite proxy_alerts in Hmain. unfold run_sniffer, sniffed in *.
    destruct (open_capture e); [|done]. by rewrite packet_loop_spec in Hmain. }
  split; [done|]. split; [|split; [|split; [|done]]].
  - intros data Hd. unfold inspected. pose proof (lossy_length data). unfold len in *. apply orb_true_intro. right. lia.
  - intros line. rewrite (shuffle_elem _ _ _ Hi). cbn [concat]. rewrite alerts_concat. unfold alerts.
    rewrite <- concat_app, <- map_app. apply alert_lines.
  - intros uri [b|]; [split; [by exists b|done]|]. split; [done|by intros [? ?]].
Qed.
End sniffer.

(** A pattern that matches the texts with four digits and a dash in them. *)
Definition ex_find (s : bytes) : list bytes :=
  match find s (lit "4111-") with Some i => [take 19 (drop i s)] | None => [] end.
Definition ex_match (s : bytes) : bool := match ex_find s with [] => false | _ => true end.
Lemma ex_match_find s : ex_match s = true <-> ex_find s <> [].
Proof. unfold ex_match. by destruct (ex_find s). Qed.
#[export] Instance ex_pattern : CardPattern := {| is_match := ex_match; find_iter := ex_find; is_match_find := ex_match_find |}.

Definition ex_env : capture_env := mkCapture false (Ok (Some tt)) true true true.
Definition ex_packets : list bytes := [lit "hello"; replicate 30 255 ++ lit "4111-1111-1111-1111"; replicate 13 255].
Definition ex_rest : list (result bytes unit) := [Err tt; Ok (lit "4111-1111-1111-1111")].
Definition ex_requests : list (bytes * result bytes unit) := [(lit "/a", Ok (lit "n=4111-1111-1111-1112")); (lit "/b", Err tt);
  (lit "/c", Ok (lit "4111-2222-2222-2222"))].
Definition ex_out : list bytes :=
  [lit "[DLP ALERT] A live card data leak has been detected: Passive Network Sniffer (Lossy)!";
   lit "[DLP ALERT] A live card data leak has been detected: HTTP Proxy Request to /a!";
   lit "[DLP ALERT] A live card data leak has been detected: HTTP Proxy Request to /c!";
   lit "   Compromised fragment: 4111-1111-1111-1111";
   lit "   Compromised fragment: 4111-1111-1111-1112";
   lit "   Compromised fragment: 4111-2222-2222-2222"].

(** The lines of the sniffer and of the requests /a, /b and /c. *)
Definition ex_lines : list (list bytes) :=
  [[nth 0 ex_out []; nth 3 ex_out []]; [nth 1 ex_out []; nth 4 ex_out []]; []; [nth 2 ex_out []; nth 5 ex_out []]].

Lemma ex_main : main ex_env (map Ok ex_packets ++ ex_rest) true ex_requests ex_out.
Proof.
  unfold main. replace (run_sniffer _ _ :: _) with ex_lines by (vm_compute; reflexivity).
  apply (shuffle_next []), (shuffle_next [_]), (shuffle_next [_; _; _]), (shuffle_next []), (shuffle_next [_]), (shuffle_next [_; _; _]).
  apply shuffle_done. by repeat constructor.
Qed.

Lemma sniffer_reports_witness : shuffle ex_lines ex_out.
Proof.
  destruct (sniffer_reports ex_env ex_packets ex_rest true ex_requests ex_out) as [Hi _]; [by right|exact ex_main|].
  replace ex_lines with (alerts (sniffed ex_env ex_packets) :: map alerts (proxied true ex_requests)) by (vm_compute; reflexivity).
  exact Hi.
Defined.
