(* ===== verification/FileSender.v ===== *)
(** The file transfer of [src/file_sender/src/main.rs]: the two modes and the
    transfer between them. *)
From S2P Require Import Prelude Bytes Concurrency.

Section transfer.
Context {W : Type} `{!Copy W}.

(** ** The two modes *)

(** What the operating system answers to the client: whether the path exists,
    the opened file, whether the connection, and its shutdown, succeed; [w]
    stands for the writing side of the socket. *)
Record client_env := mkClient { exists_ : bool; open_ : result reader unit; connect : bool; c_writer : W; shutdown : bool }.

(** The bytes that the client wrote to the socket, and the printed count. *)
Definition run_client (e : client_env) : bytes * result Z unit :=
  if negb (exists_ e) then ([], Err tt)
  else match open_ e with
  | Err _ => ([], Err tt)
  | Ok file =>
      if negb (connect e) then ([], Err tt)
      else match copy file (c_writer e) with
      | (sent, Err _) => (sent, Err tt)
      | (sent, Ok bytes_copied) => if shutdown e then (sent, Ok bytes_copied) else (sent, Err tt)
      end
  end.

Record server_env := mkServer { bind : bool; accept : bool; create : bool; s_writer : W; flush : bool }.

(** The content of the output file afterwards, [old] being the one before, and
    the printed count. *)
Definition run_server (e : server_env) (socket : reader) (old : option bytes) : option bytes * result Z unit :=
  if negb (bind e) then (old, Err tt)
  else if negb (accept e) then (old, Err tt)
  else if negb (create e) then (old, Err tt)
  else match copy socket (s_writer e) with
  | (received, Err _) => (Some received, Err tt)
  | (received, Ok bytes_copied) => if flush e then (Some received, Ok bytes_copied) else (Some received, Err tt)
  end.

(** Command lines. *)
Inductive mode_result := Usage | BadMode | Server | Client.
Definition dispatch (args : list bytes) : mode_result :=
  match args with
  | _ :: _ :: _ :: mode :: _ =>
      if bool_decide (mode = lit "server") then Server else if bool_decide (mode = lit "client") then Client else BadMode
  | _ => Usage
  end.

(** ** The transfer *)

Lemma client_sent e : exists file, (open_ e = Ok file \/ (run_client e).1 = []) /\ (run_client e).1 `prefix_of` readable file.
Proof.
  unfold run_client. destruct (exists_ e); [|by exists []; split; [right|apply prefix_nil]].
  destruct (open_ e) as [file|]; [|by exists []; split; [right|apply prefix_nil]]. exists file. split; [by left|]. cbn [negb].
  destruct (connect e); [|apply prefix_nil]. cbn [negb]. pose proof (copy_prefix file (c_writer e)) as Hp.
  destruct (copy file (c_writer e)) as [sent [k|]]; [|done]. by destruct (shutdown e).
Qed.

(** C15. A transfer, when the network delivers to the server what the client
    wrote and then the end of the stream: if both programs report success, the
    output file holds exactly the content of the client's file and both print
    its length.  Conversely, the server cannot tell an interrupted
    transfer: whatever the client's result, a server that reports success has
    kept in its file exactly what the client wrote, which is a beginning of the
    client's file, and lost what the output held before. *)
Theorem transfer (ce : client_env) (se : server_env) (file : reader) (socket : reader) (old : option bytes) out n :
  open_ ce = Ok file -> readable socket = (run_client ce).1 ->
  run_server se socket old = (out, Ok n) ->
  (out = Some (run_client ce).1 /\ n = len (run_client ce).1 /\ (run_client ce).1 `prefix_of` readable file) /\
  (forall k, (run_client ce).2 = Ok k -> out = Some (readable file) /\ fails file = false /\ k = len (readable file) /\ n = k).
Proof.
  intros Ho Hs Hrun. assert (out = Some (run_client ce).1 /\ n = len (run_client ce).1) as [-> ->].
  { rewrite <- Hs. unfold run_server in Hrun. repeat (case_match; try done). simplify_eq.
    match goal with H : copy socket _ = _ |- _ => apply copy_ok in H as (_ & -> & ->) end. done. }
  split; [split_and!; [done..|]|].
  - destruct (client_sent ce) as (f & [Hf|Hf] & Hp); [by rewrite Ho in Hf; injection Hf as <-|rewrite Hf; apply prefix_nil].
  - intros k Hk. unfold run_client in *. rewrite Ho in *. repeat (case_match; try done). cbn in *. simplify_eq.
    match goal with H : copy file _ = _ |- _ => apply copy_ok in H as (Hf & -> & ->) end. done.
Qed.
End transfer.

(** ** Witness *)

(** The client's connection breaks after four bytes; the server says that the
    file is saved. *)
Definition ex_client : client_env := mkClient (W := option nat) true (Ok [Ok (lit "abc"); Ok (lit "def")]) true (Some 4%nat) true.
Definition ex_server : server_env := mkServer (W := option nat) true true true None true.

Lemma transfer_witness :
  run_server ex_server [Ok (lit "ab"); Ok (lit "cd")] (Some (lit "old")) = (Some (lit "abcd"), Ok 4) /\
  Some (lit "abcd") = Some (run_client ex_client).1 /\ (run_client ex_client).2 = Err tt.
Proof.
  assert (run_server ex_server [Ok (lit "ab"); Ok (lit "cd")] (Some (lit "old")) = (Some (lit "abcd"), Ok 4)) as H by by vm_compute.
  split; [exact H|]. split; [|by vm_compute].
  refine (proj1 (proj1 (transfer ex_client ex_server [Ok (lit "abc"); Ok (lit "def")] _ _ _ _ _ _ H))); by vm_compute.
Defined.
