(* ===== verification/VppXdp.v ===== *)
(** The redirection to VPP: Module Kernel for the program of
    [src/vpp-xdp/eth-xdp-kernel/src/main.rs], Module Loader for
    [src/vpp-xdp/vpp-xdp-loader/src/main.rs]. *)
From S2P Require Import Prelude Bytes.

Module Kernel.
Definition XDP_ABORTED : Z := 0.
Definition XDP_PASS : Z := 2.
Definition XDP_REDIRECT : Z := 4.
Definition VPP_XSK_MAP_entries : Z := 64.

(** The AF_XDP socket map: whether a socket is bound to an index, and the
    redirecting helper, which gives the low two bits of its flags when the index
    has none; an index at or above the size of the map has none. *)
Class XskMap (M : Type) := {
  max_entries : M -> Z;
  bound : M -> Z -> bool;
  redirect : M -> Z -> Z -> Z;
  redirect_spec : forall m i flags, redirect m i flags = if bound m i then XDP_REDIRECT else Z.land flags 3;
  bound_range : forall m i, bound m i = true -> 0 <= i < max_entries m;
}.

Section kernel.
Context {M : Type} `{!XskMap M}.

Definition vpp_xdp_redirect (VPP_XSK_MAP : M) (queue_id : Z) : Z :=
  if redirect VPP_XSK_MAP queue_id 0 =? XDP_REDIRECT then XDP_REDIRECT else XDP_PASS.

Lemma vpp_xdp_redirect_spec m q : vpp_xdp_redirect m q = if bound m q then XDP_REDIRECT else XDP_PASS.
Proof. unfold vpp_xdp_redirect. rewrite redirect_spec. by destruct (bound m q). Qed.
End kernel.
End Kernel.

Module Loader.

Inductive effect :=
| CreateDirAll (path : bytes)
| RemoveFile (path : bytes)
| PinMap (path : bytes)
| LoadProgram
| Attach (iface : bytes).

(** How the loader ends up: waiting for Ctrl+C, returning an error, or in the
    panic of an [unwrap]. *)
Inductive ending := Waiting | Error | Panicked.

(** What the system and the object file answer. *)
Record env := mkEnv {
  pin_path_exists : bool; create_dir_all : bool; load_object : bool;
  has_map : bool; is_xsk_map : bool; pin : bool;
  has_program : bool; is_xdp : bool; load_program : bool; attach : bool }.

(** A step that may fail, after the effects before it. *)
Definition attempt (effects : list effect) (ok : bool) (on_failure : ending) (next : list effect * ending) : list effect * ending :=
  if ok then (effects ++ next.1, next.2) else (effects, on_failure).

Definition map_pin_path (pin_path : bytes) : bytes := pin_path ++ lit "/xsks_map".

Definition main (e : env) (iface pin_path : bytes) : list effect * ending :=
  attempt (if pin_path_exists e then [] else [CreateDirAll pin_path]) (pin_path_exists e || create_dir_all e) Error (
  attempt [] (load_object e) Error (
  attempt [] (has_map e) Panicked (
  attempt [] (is_xsk_map e) Error (
  attempt [RemoveFile (map_pin_path pin_path); PinMap (map_pin_path pin_path)] (pin e) Error (
  attempt [] (has_program e) Panicked (
  attempt [] (is_xdp e) Error (
  attempt [LoadProgram] (load_program e) Error (
  attempt [Attach iface] (attach e) Error ([], Waiting))))))))).

Lemma attempt_prefix effects ok f next plan : next.1 `prefix_of` plan ->
  (attempt effects ok f next).1 `prefix_of` effects ++ plan.
Proof.
  intros Hp. unfold attempt. destruct ok; cbn; [by apply prefix_app|]. by apply prefix_app_r.
Qed.

Lemma attempt_waiting effects ok f next : f <> Waiting -> (attempt effects ok f next).2 = Waiting ->
  ok = true /\ next.2 = Waiting /\ (attempt effects ok f next).1 = effects ++ next.1.
Proof. unfold attempt. by destruct ok. Qed.

Lemma attempt_elem effects ok f next x : x ∈ (attempt effects ok f next).1 -> x ∈ effects \/ ok = true /\ x ∈ next.1.
Proof. unfold attempt. destruct ok; cbn; [|by left]. rewrite elem_of_app. by intros [?|?]; [left|right]. Qed.

(** C27. On any environment the loader's effects are the first ones of a fixed
    sequence: make the directory if it is missing, remove the old pin, pin the
    map, load, attach; so a program is only attached behind a map that is
    pinned under the agreed name.  When the loader gets to wait, the sequence is
    complete.  A frame that the program then sees is redirected exactly when a
    socket is bound to its queue, and passed to the stack otherwise, as are all
    frames of the queues from the size of the map on; none is dropped. *)
Theorem redirect_after_pin {M : Type} `{!Kernel.XskMap M} (e : env) (iface pin_path : bytes) (m : M) (queue_id : Z) :
  let plan := (if pin_path_exists e then [] else [CreateDirAll pin_path]) ++
    [RemoveFile (map_pin_path pin_path); PinMap (map_pin_path pin_path); LoadProgram; Attach iface] in
  (main e iface pin_path).1 `prefix_of` plan /\
  ((main e iface pin_path).2 = Waiting -> (main e iface pin_path).1 = plan /\ pin e = true /\ attach e = true) /\
  (Attach iface ∈ (main e iface pin_path).1 -> pin e = true) /\
  (Kernel.vpp_xdp_redirect m queue_id = Kernel.XDP_REDIRECT <-> Kernel.bound m queue_id = true) /\
  (Kernel.vpp_xdp_redirect m queue_id <> Kernel.XDP_REDIRECT -> Kernel.vpp_xdp_redirect m queue_id = Kernel.XDP_PASS) /\
  (Kernel.max_entries m <= queue_id -> Kernel.vpp_xdp_redirect m queue_id = Kernel.XDP_PASS).
Proof.
  intros plan. rewrite Kernel.vpp_xdp_redirect_spec.
  split; [|split; [|split; [|split; [|split]]]].
  - unfold main, plan. apply attempt_prefix. do 3 apply (attempt_prefix []).
    apply (attempt_prefix [RemoveFile _; PinMap _] _ _ _ [LoadProgram; Attach iface]). do 2 apply (attempt_prefix []).
    apply (attempt_prefix [LoadProgram] _ _ _ [Attach iface]). apply (attempt_prefix [Attach iface] _ _ _ []). done.
  - unfold main. intros Hw. repeat (apply attempt_waiting in Hw as (? & Hw & ->); [|done]). done.
  - unfold main. intros Ha. apply attempt_elem in Ha as [Ha|[_ Ha]].
    { destruct (pin_path_exists e); [by apply elem_of_nil in Ha|]. by apply list_elem_of_singleton in Ha. }
    do 3 (apply attempt_elem in Ha as [Ha|[_ Ha]]; [by apply elem_of_nil in Ha|]).
    apply attempt_elem in Ha as [Ha|[Hp _]]; [|done]. repeat (apply elem_of_cons in Ha as [Ha|Ha]; [done|]).
    by apply elem_of_nil in Ha.
  - by destruct (Kernel.bound m queue_id).
  - by destruct (Kernel.bound m queue_id).
  - intros Hq. destruct (Kernel.bound m queue_id) eqn:E; [|done]. apply Kernel.bound_range in E. lia.
Qed.

(** A map with a socket on queue 3. *)
Definition ex_bound (m : unit) (i : Z) : bool := i =? 3.
Definition ex_redirect (m : unit) (i flags : Z) : Z := if ex_bound m i then Kernel.XDP_REDIRECT else Z.land flags 3.
Lemma ex_range m i : ex_bound m i = true -> 0 <= i < Kernel.VPP_XSK_MAP_entries.
Proof. unfold ex_bound, Kernel.VPP_XSK_MAP_entries. lia. Qed.
#[export] Instance ex_map : Kernel.XskMap unit := {|
  Kernel.max_entries _ := Kernel.VPP_XSK_MAP_entries; Kernel.bound := ex_bound; Kernel.redirect := ex_redirect;
  Kernel.redirect_spec _ _ _ := eq_refl; Kernel.bound_range := ex_range |}.
Definition ex_env : env := mkEnv false true true true true true true true true true.

Lemma redirect_after_pin_witness :
  (main ex_env (lit "eth1") (lit "/p")).1 =
    [CreateDirAll (lit "/p"); RemoveFile (lit "/p/xsks_map"); PinMap (lit "/p/xsks_map"); LoadProgram; Attach (lit "eth1")] /\
  Kernel.vpp_xdp_redirect tt 3 = Kernel.XDP_REDIRECT /\ Kernel.vpp_xdp_redirect tt 64 = Kernel.XDP_PASS.
Proof.
  destruct (redirect_after_pin ex_env (lit "eth1") (lit "/p") tt 3) as (_ & Hw & _ & [_ Hr] & _ & _).
  destruct (redirect_after_pin ex_env (lit "eth1") (lit "/p") tt 64) as (_ & _ & _ & _ & _ & Hp).
  split; [exact (proj1 (Hw eq_refl))|]. split; [apply Hr; by vm_compute|apply Hp; by vm_compute].
Defined.
End Loader.
