(* ===== verification/Foreign.v ===== *)
(** The programs that mostly call foreign code: Module Md5Hasher for
    [src/md5_hasher/src/main.rs], Module Tarantool for the stored procedure and
    the client of [src/tarantool]. *)
From S2P Require Import Prelude Bytes.

Module Md5Hasher.
(** OpenSSL's functions, each with its status, on the context that they
    change, and the [hex] crate's [encode]. *)
Class OpenSsl := {
  MD5_CTX : Type;
  uninit : MD5_CTX;
  MD5_Init : MD5_CTX -> Z * MD5_CTX;
  MD5_Update : MD5_CTX -> bytes -> Z * MD5_CTX;
  MD5_Final : MD5_CTX -> Z * bytes * MD5_CTX;
  hex_encode : bytes -> bytes;
}.

Section md5.
Context `{!OpenSsl}.

Definition compute_md5 (data : bytes) : outcome bytes :=
  let '(r, ctx) := MD5_Init uninit in
  if negb (r =? 1) then Panic
  else
    let '(r, ctx) := MD5_Update ctx data in
    if negb (r =? 1) then Panic
    else
      let '(r, digest, _) := MD5_Final ctx in
      if negb (r =? 1) then Panic else Val (hex_encode digest).

(** A hash comes out exactly when the three calls report success, and it is
    the text of the digest of a context that was initialised and then given
    the whole input. *)
Lemma compute_md5_spec data h : compute_md5 data = Val h <->
  exists c1 c2 digest c3, MD5_Init uninit = (1, c1) /\ MD5_Update c1 data = (1, c2) /\ MD5_Final c2 = (1, digest, c3) /\
    h = hex_encode digest.
Proof.
  unfold compute_md5. split.
  - destruct (MD5_Init uninit) as [r1 c1]. destruct (Z.eqb_spec r1 1) as [->|]; [|done]. cbn [negb].
    destruct (MD5_Update c1 data) as [r2 c2] eqn:E2. destruct (Z.eqb_spec r2 1) as [->|]; [|done]. cbn [negb].
    destruct (MD5_Final c2) as [[r3 d] c3] eqn:E3. destruct (Z.eqb_spec r3 1) as [->|]; [|done]. intros [= <-].
    by exists c1, c2, d, c3.
  - by intros (c1 & c2 & d & c3 & -> & -> & -> & ->).
Qed.
End md5.
End Md5Hasher.

Module Tarantool.

(** ** The stored procedure of [02.module/src/lib.rs] *)

Record CustomPayload := mkPayload { user_id : Z; points : Z }.

Section procedure.
(** A space and its rows, and the crate's access to them. *)
Context {Space Tuple : Type} (find : bytes -> option Space) (get : Space -> Z -> result (option Tuple) unit)
  (return_tuple : Tuple -> result Z unit).

(** [args] is the payload, if the arguments from Lua are one. *)
Definition add_some_action (args : result CustomPayload unit) : outcome Z :=
  match args with
  | Err _ => Val (-1)
  | Ok payload =>
      match find (lit "users") with
      | None => Panic
      | Some space =>
          match get space (user_id payload) with
          | Err _ | Ok None => Panic
          | Ok (Some tuple) =>
              let updated_tuple := tuple in
              match return_tuple updated_tuple with Err _ => Panic | Ok r => Val r end
          end
      end
  end.

(** The procedure changes nothing: it gives Lua the row of the user as it is,
    refuses malformed arguments with -1, and panics, through the C
    interface, when there is no such row; the points are not looked at. *)
Lemma add_some_action_spec payload space : find (lit "users") = Some space ->
  match get space (user_id payload) with
  | Ok (Some tuple) => forall r, return_tuple tuple = Ok r -> add_some_action (Ok payload) = Val r
  | _ => add_some_action (Ok payload) = Panic
  end /\
  add_some_action (Err tt) = Val (-1) /\
  forall points, add_some_action (Ok (mkPayload (user_id payload) points)) = add_some_action (Ok payload).
Proof.
  intros Hs. unfold add_some_action. rewrite Hs. split; [|done].
  destruct (get space (user_id payload)) as [[tuple|]|]; [|done..]. by intros r ->.
Qed.
End procedure.

(** ** The client of [01.client/src/main.rs] *)

Record UserRow := mkUserRow { id : Z; username : bytes; bucket_id : Z }.
Definition new_user : UserRow := mkUserRow 101 (lit "rust_developer") 1.

Inductive request := Insert (row : UserRow) | Get (id : Z).

Section client.
(** The answer of the server's function to a request, with its new state: an
    error, no rows, or rows. *)
Context {S : Type} (call : S -> request -> S * result (option (list UserRow)) unit).

(** The state of the server afterwards, and what [main] returns: the two
    answers that it prints. *)
Definition client_main (connected ready : bool) (s : S) : S * outcome (result (list UserRow * list UserRow) unit) :=
  if negb connected then (s, Val (Err tt))
  else if negb ready then (s, Val (Err tt))
  else
    let '(s, r) := call s (Insert new_user) in
    match r with
    | Err _ => (s, Val (Err tt))
    | Ok None => (s, Panic)
    | Ok (Some inserted) =>
        let '(s, r) := call s (Get 101) in
        match r with
        | Err _ => (s, Val (Err tt))
        | Ok None => (s, Panic)
        | Ok (Some selected) => (s, Val (Ok (inserted, selected)))
        end
    end.
End client.

(** A table with a primary key: an insertion fails on a key that is there. *)
Definition table_call (s : gmap Z UserRow) (r : request) : gmap Z UserRow * result (option (list UserRow)) unit :=
  match r with
  | Insert row => match s !! id row with Some _ => (s, Err tt) | None => (<[id row := row]> s, Ok (Some [row])) end
  | Get k => (s, Ok (match s !! k with Some row => Some [row] | None => None end))
  end.

(** On such a table the first run stores the user and reads it back; every
    later one fails at the insertion and changes nothing. *)
Lemma client_runs (s : gmap Z UserRow) : s !! 101 = None ->
  exists s', client_main table_call true true s = (s', Val (Ok ([new_user], [new_user]))) /\ s' = <[101 := new_user]> s /\
    client_main table_call true true s' = (s', Val (Err tt)).
Proof.
  intros Hs. exists (<[101 := new_user]> s).
  assert (client_main table_call true true s = (<[101 := new_user]> s, Val (Ok ([new_user], [new_user])))) as Hrun.
  { unfold client_main. cbn [negb table_call]. change (id new_user) with 101. rewrite Hs. by rewrite lookup_insert_eq. }
  split; [done|]. split; [done|]. unfold client_main. cbn [negb table_call]. change (id new_user) with 101. by rewrite lookup_insert_eq.
Qed.
End Tarantool.
